(** * Fusion engine: entity resolution, conflict classification and
      dependency graphs

    A shallow embedding of the TypeScript sources of the fusion engine:
    - [core/pipeline/steps/resolveStep.ts] and
      [core/pipeline/steps/resolveAndMergeStep.ts] (entity aggregation,
      conflict detection, unified paths, conflict report),
    - [core/validator/dependencyGraphBuilder.ts] (import resolution and the
      per-project dependency graph),
    - [logic/merger/deepSmartMerge.ts], [logic/merger/mergeUtils.ts] and
      [core/pipeline/steps/mergeStep.ts] (the merge decision),
    - [core/pipeline/steps/normalizeStep.ts] and
      [core/pipeline/steps/renderStep.ts] (the steps before and after the
      merge).

    Conventions of the embedding.
    - JavaScript strings are [string]s; identifiers and paths are taken to be
      ASCII, so [toLowerCase] only moves [A-Z].
    - A JavaScript object used as a dictionary whose enumeration order is
      observed ([Object.entries]) is an association list in enumeration
      order; a [Map] or [Set] that is only probed is a [gmap] or [gset]; a
      [Map] that is iterated keeps its insertion order as an association
      list.
    - [undefined] / [null] are [None]; a [throw] is [None] at the result
      type of the function that raises, or the message of the error where a
      handler reads it.  A property that an interface does not declare and
      that is read all the same is an [option]: the read gives [undefined]
      on the objects that lack it.
    - Console output and wall-clock readings are not part of the model. *)

From Stdlib Require Import ZArith QArith_base String Ascii List Bool Lia Permutation.
From Stdlib Require Import DecimalString.
From stdpp Require Import gmap strings list fin_maps.
Import ListNotations.
Local Open Scope string_scope.
Local Open Scope Z_scope.

(* ===================================================================== *)
(** * Part I: definitions                                                *)
(* ===================================================================== *)

(** ** JavaScript string primitives *)

Module JsString.

(** [s.startsWith(p)] *)
Definition startsWith (s p : string) : bool := String.prefix p s.

(** [s.includes(sub)] *)
Fixpoint includes (s sub : string) : bool :=
  String.prefix sub s ||
  match s with
  | EmptyString => false
  | String _ s' => includes s' sub
  end.

(** [s.endsWith(p)]: some suffix of [s] is [p]. *)
Fixpoint endsWith (s p : string) : bool :=
  String.eqb s p ||
  match s with
  | EmptyString => false
  | String _ s' => endsWith s' p
  end.

(** Every character of [s] satisfies [p]. *)
Fixpoint every (p : ascii -> bool) (s : string) : bool :=
  match s with
  | EmptyString => true
  | String c s' => p c && every p s'
  end.

(** [s.substring(n)] *)
Fixpoint substringFrom (n : nat) (s : string) : string :=
  match n, s with
  | O, _ => s
  | S n', String _ s' => substringFrom n' s'
  | S _, EmptyString => EmptyString
  end.

(** Truthiness of a string value: only the empty string is falsy. *)
Definition truthy (s : string) : bool := negb (String.eqb s EmptyString).

(** Truthiness of [string | undefined]. *)
Definition truthyOpt (o : option string) : bool :=
  match o with
  | Some s => truthy s
  | None => false
  end.

(** [a || b] on [string | undefined] operands with a string fallback. *)
Definition orElse (o : option string) (d : string) : string :=
  match o with
  | Some s => if truthy s then s else d
  | None => d
  end.

Definition isUpper (c : ascii) : bool :=
  let n := nat_of_ascii c in (65 <=? n)%nat && (n <=? 90)%nat.

Definition lowerChar (c : ascii) : ascii :=
  if isUpper c then ascii_of_nat (nat_of_ascii c + 32) else c.

(** [s.toLowerCase()] on ASCII text. *)
Fixpoint toLowerCase (s : string) : string :=
  match s with
  | EmptyString => EmptyString
  | String c s' => String (lowerChar c) (toLowerCase s')
  end.

(** [s.split(sep)] for a one-character separator: never empty. *)
Fixpoint splitAux (sep : ascii) (cur : string) (s : string) : list string :=
  match s with
  | EmptyString => [cur]
  | String c s' =>
      if Ascii.eqb c sep then cur :: splitAux sep EmptyString s'
      else splitAux sep (cur ++ String c EmptyString) s'
  end.

Definition split (sep : ascii) (s : string) : list string := splitAux sep EmptyString s.

(** [xs.join(sep)] *)
Fixpoint join (sep : string) (xs : list string) : string :=
  match xs with
  | [] => EmptyString
  | [x] => x
  | x :: rest => x ++ sep ++ join sep rest
  end.

(** Membership test [xs.includes(x)] on an array of strings. *)
Definition arrayIncludes (xs : list string) (x : string) : bool :=
  existsb (String.eqb x) xs.

End JsString.

(** ** Node's [path] module, POSIX flavour

    The engine imports Node's [path]; its functions are modelled after the
    POSIX implementation.  [normalizeString] works segment by segment: an
    empty segment and ["."] are dropped, [".."] removes the previous segment
    unless there is none or it is itself [".."]. *)

Module PosixPath.
Import JsString.

Definition slash : ascii := "/"%char.

(** One step of [normalizeString]; [res] is the stack of kept segments,
    most recent first. *)
Definition normStep (allowAboveRoot : bool) (res : list string) (seg : string)
  : list string :=
  if String.eqb seg EmptyString then res
  else if String.eqb seg "." then res
  else if String.eqb seg ".." then
    match res with
    | last :: rest =>
        if String.eqb last ".."
        then (if allowAboveRoot then ".." :: res else res)
        else rest
    | [] => if allowAboveRoot then [".."] else []
    end
  else seg :: res.

Definition normalizeSegments (allowAboveRoot : bool) (segs : list string)
  : list string :=
  rev (fold_left (normStep allowAboveRoot) segs []).

Definition normalizeString (p : string) (allowAboveRoot : bool) : string :=
  join "/" (normalizeSegments allowAboveRoot (split slash p)).

Definition isAbsolute (p : string) : bool := startsWith p "/".

(** A path segment that normalisation keeps as it is: not empty, not a
    dot segment, free of separators. *)
Definition isPlainSegment (s : string) : bool :=
  truthy s && negb (String.eqb s ".") && negb (String.eqb s "..")
  && every (fun c => negb (Ascii.eqb c slash)) s.

(** [path.normalize(p)] *)
Definition normalize (p : string) : string :=
  if String.eqb p EmptyString then "."
  else
    let abs := isAbsolute p in
    let trailing := endsWith p "/" in
    let q := normalizeString p (negb abs) in
    if String.eqb q EmptyString then
      (if abs then "/" else if trailing then "./" else ".")
    else
      let q' := if trailing then q ++ "/" else q in
      if abs then "/" ++ q' else q'.

(** [path.join(...parts)] *)
Definition joinPath (parts : list string) : string :=
  match List.filter truthy parts with
  | [] => "."
  | nonEmpty => normalize (JsString.join "/" nonEmpty)
  end.

(** The right-to-left accumulation of [path.resolve]: [args] is given
    last-argument first; stops at the first absolute argument. *)
Fixpoint resolveAcc (argsRev : list string) (acc : string) : string * bool :=
  match argsRev with
  | [] => (acc, false)
  | p :: rest =>
      if String.eqb p EmptyString then resolveAcc rest acc
      else
        let acc' := p ++ "/" ++ acc in
        if isAbsolute p then (acc', true) else resolveAcc rest acc'
  end.

(** [path.resolve(...args)], with the working directory [cwd] explicit. *)
Definition resolve (cwd : string) (args : list string) : string :=
  let '(p, abs) := resolveAcc (rev args ++ [cwd]) EmptyString in
  let q := normalizeString p (negb abs) in
  if abs then "/" ++ q
  else if String.eqb q EmptyString then "." else q.

Fixpoint commonPrefixLen (xs ys : list string) : nat :=
  match xs, ys with
  | x :: xs', y :: ys' =>
      if String.eqb x y then S (commonPrefixLen xs' ys') else O
  | _, _ => O
  end.

(** The segments of a resolved absolute path. *)
Definition segmentsOf (p : string) : list string :=
  List.filter truthy (split slash p).

(** [path.relative(from, to)]: climb out of what [from] does not share with
    [to], then descend into the rest of [to]. *)
Definition relative (cwd : string) (from to : string) : string :=
  if String.eqb from to then EmptyString
  else
    let f := segmentsOf (resolve cwd [from]) in
    let t := segmentsOf (resolve cwd [to]) in
    let k := commonPrefixLen f t in
    JsString.join "/" (repeat ".." (length f - k) ++ drop k t).

(** The backwards scan of [path.dirname] over the characters after the
    first one, given most recent first.  Returns what is left of the path
    (still reversed) once the separator that ends the directory part has
    been found. *)
Fixpoint dirnameScan (matchedSlash : bool) (revTail : list ascii)
  : option (list ascii) :=
  match revTail with
  | [] => None
  | c :: rest =>
      if Ascii.eqb c slash then
        (if matchedSlash then dirnameScan true rest else Some rest)
      else dirnameScan false rest
  end.

(** [path.dirname(p)] *)
Definition dirname (p : string) : string :=
  match p with
  | EmptyString => "."
  | String c0 tl =>
      let hasRoot := Ascii.eqb c0 slash in
      match dirnameScan true (rev (list_ascii_of_string tl)) with
      | None => if hasRoot then "/" else "."
      | Some restRev =>
          if hasRoot && (length restRev =? 0)%nat then "//"
          else String c0 (string_of_list_ascii (rev restRev))
      end
  end.

End PosixPath.

(** ** The analysis records consumed by the engine
    ([modules/analyzer/projectScanner.ts], [modules/analyzer/astAnalyzer.ts],
    [modules/analyzer/workspaceAnalyzer.ts]) *)

Module Analysis.

Record ScannedFile := {
  absolutePath : string;
  relativePath : string;
  extension : string;
  fileName : string;
  inferredRole : option string;
  inferredFrameworkSpecific : option string
}.

Inductive ExportType :=
| ExpFunction | ExpVariable | ExpClass | ExpComponent | ExpDefault | ExpReExport.

Inductive ContextApiType := CtxProvider | CtxConsumer | CtxContext.

Record ImportDecl := {
  imp_name : string;
  imp_path : string;
  imp_isRelative : bool;
  imp_importedAs : option string
}.

Record ExportDecl := { exp_name : string; exp_type : ExportType }.

Record FunctionDecl := { fn_name : string; fn_isExported : bool; fn_isAsync : bool }.

Record ComponentDecl := {
  comp_name : string;
  comp_isExported : bool;
  comp_isFunctional : bool;
  comp_inferredHOC : option string
}.

Record ContextApi := { ctx_name : string; ctx_type : ContextApiType }.

Record VariableDecl := { var_name : string; var_isExported : bool }.

Record NameCount := { nc_name : string; nc_count : Z }.

Record TypeDecl := { ty_name : string; ty_isExported : bool }.

Record ASTDependency := {
  file : ScannedFile;
  imports : list ImportDecl;
  exports : list ExportDecl;
  functions : list FunctionDecl;
  components : list ComponentDecl;
  contextAPIs : list ContextApi;
  declaredVariables : list VariableDecl;
  jsxElementsUsed : list NameCount;
  reactHooksUsed : list NameCount;
  loc : Z;
  declaredTypes : list TypeDecl;
  typesUsedInAnnotations : list NameCount
}.

(** [AnalyzedFileMap]: own enumerable properties in [Object.entries] order. *)
Definition AnalyzedFileMap := list (string * ASTDependency).

Record AnalyzedProject := {
  projectName : string;
  rootPath : string;
  analyzedFiles : AnalyzedFileMap
}.

Definition isExportedCallable (t : ExportType) : bool :=
  match t with
  | ExpFunction | ExpVariable => true
  | _ => false
  end.

Definition ctxTypeEqb (a b : ContextApiType) : bool :=
  match a, b with
  | CtxProvider, CtxProvider | CtxConsumer, CtxConsumer | CtxContext, CtxContext => true
  | _, _ => false
  end.

End Analysis.

(** ** A [Map] with string keys whose iteration order is observed *)

Module OrderedMap.

Definition t (V : Type) := list (string * V).

Fixpoint get {V : Type} (m : t V) (k : string) : option V :=
  match m with
  | [] => None
  | (k', v) :: m' => if String.eqb k' k then Some v else get m' k
  end.

(** [m.set(k, v)]: an existing key keeps its position. *)
Fixpoint set {V : Type} (m : t V) (k : string) (v : V) : t V :=
  match m with
  | [] => [(k, v)]
  | (k', v') :: m' =>
      if String.eqb k' k then (k, v) :: m' else (k', v') :: set m' k v
  end.

Definition has {V : Type} (m : t V) (k : string) : bool :=
  match get m k with Some _ => true | None => false end.

End OrderedMap.

(** ** Unified paths ([generateUnifiedPath], both resolver variants) *)

Module UnifiedPath.
Import JsString.

Definition isSlugChar (c : ascii) : bool :=
  let n := nat_of_ascii c in
  ((97 <=? n)%nat && (n <=? 122)%nat) || ((48 <=? n)%nat && (n <=? 57)%nat).

(** [s.replace(/[^a-z0-9]+/g, '-')]; [inRun] tells that the previous
    character already belonged to the run being replaced. *)
Fixpoint replaceRuns (inRun : bool) (s : string) : string :=
  match s with
  | EmptyString => EmptyString
  | String c s' =>
      if isSlugChar c then String c (replaceRuns false s')
      else if inRun then replaceRuns true s'
      else String "-"%char (replaceRuns true s')
  end.

Definition dropLeadingDash (s : string) : string :=
  match s with
  | String "-"%char s' => s'
  | _ => s
  end.

Fixpoint dropTrailingDash (s : string) : string :=
  match s with
  | EmptyString => EmptyString
  | String "-"%char EmptyString => EmptyString
  | String c s' => String c (dropTrailingDash s')
  end.

(** [s.replace(/^-|-$/g, '')] *)
Definition trimDashes (s : string) : string :=
  dropTrailingDash (dropLeadingDash s).

Definition slugOf (name : string) : string :=
  trimDashes (replaceRuns false (toLowerCase name)).

(** The characters a slug is made of. *)
Definition isSlugOrDash (c : ascii) : bool :=
  isSlugChar c || Ascii.eqb c "-"%char.

(** The directory of each entity kind, beneath the base directory. *)
Definition subdirectoryOf (entityType : string) : string :=
  if String.eqb entityType "component" then "components"
  else if String.eqb entityType "hook" then "hooks"
  else if String.eqb entityType "context" then "contexts"
  else if String.eqb entityType "utility" then "utils"
  else "common".

Definition folderFor (baseDir entityType : string) : string :=
  if String.eqb entityType "component" then PosixPath.joinPath [baseDir; "components"]
  else if String.eqb entityType "hook" then PosixPath.joinPath [baseDir; "hooks"]
  else if String.eqb entityType "context" then PosixPath.joinPath [baseDir; "contexts"]
  else if String.eqb entityType "utility" then PosixPath.joinPath [baseDir; "utils"]
  else PosixPath.joinPath [baseDir; "common"].

Definition isDash (c : ascii) : bool := Ascii.eqb c "-"%char.

(** Words of [a-z0-9] separated by single dashes; [afterDash] tells that
    the character before the text was a dash or its beginning, so that a
    dash may not follow. *)
Fixpoint dashSeparated (afterDash : bool) (s : string) : bool :=
  match s with
  | EmptyString => negb afterDash
  | String c s' =>
      if isSlugChar c then dashSeparated false s'
      else isDash c && negb afterDash && dashSeparated true s'
  end.

(** The shape of a slug: empty, or words of [a-z0-9] joined by single
    dashes, with no dash at either end. *)
Definition isSlug (s : string) : bool :=
  match s with
  | EmptyString => true
  | _ => dashSeparated true s
  end.

(** No dash follows a dash; [afterDash] as for [dashSeparated].  This is
    the shape of the text between the two [replace] calls. *)
Fixpoint singleDashes (afterDash : bool) (s : string) : bool :=
  match s with
  | EmptyString => true
  | String c s' =>
      if isSlugChar c then singleDashes false s'
      else isDash c && negb afterDash && singleDashes true s'
  end.

End UnifiedPath.

(** ** Conflicts and the conflict report ([resolveStep.ts]) *)

Module Conflict.
Import Analysis.

Inductive ConflictType :=
| NameCollision
| RoleMismatch
| ComponentStructuralDifference
| ComponentHookProfileMismatch
| ComponentJsxProfileMismatch
| ComponentHocMismatch
| UtilityLocDifference
| ContextTypeMismatch
| OtherConflict.

Inductive Severity := SevError | SevWarning.

(** The shapes the [details] object takes.  An object literal with two
    computed keys is an association list built by two property writes. *)
Inductive Details :=
| DetRoles (roles : OrderedMap.t string)
| DetLocs (locs : OrderedMap.t Z)
| DetTypes (types : OrderedMap.t string)
| DetJsx (path1 : string) (jsx1 : list NameCount) (path2 : string) (jsx2 : list NameCount)
| DetHooks (path1 : string) (hooks1 : list NameCount) (path2 : string) (hooks2 : list NameCount)
| DetHocs (path1 : string) (hocs1 : list string) (path2 : string) (hocs2 : list string)
| DetContexts (path1 : string) (ctx1 : list ContextApi) (path2 : string) (ctx2 : list ContextApi).

Record MergeConflict := {
  c_type : ConflictType;
  severity : Severity;
  message : string;
  details : Details;
  relatedFiles : list string
}.

Record MergeConflictReport := {
  hasConflicts : bool;
  criticalErrors : list MergeConflict;
  warnings : list MergeConflict;
  totalConflicts : nat
}.

Definition isError (c : MergeConflict) : bool :=
  match severity c with SevError => true | SevWarning => false end.

Definition isWarning (c : MergeConflict) : bool :=
  match severity c with SevWarning => true | SevError => false end.

(** The [conflictReport] literal that closes both resolver variants. *)
Definition conflictReport (allConflicts : list MergeConflict) : MergeConflictReport :=
  {| hasConflicts := (0 <? length allConflicts)%nat;
     criticalErrors := List.filter isError allConflicts;
     warnings := List.filter isWarning allConflicts;
     totalConflicts := length allConflicts |}.

End Conflict.

(** ** [resolveAndMergeStep.ts]: conflict detection per entity group *)

Module ResolveAndMergeStep.
Import JsString Analysis Conflict.

Inductive EntityType := Component | Hook | Context | Utility.

(** The string the TypeScript literal type carries. *)
Definition entityTypeName (t : EntityType) : string :=
  match t with
  | Component => "component"
  | Hook => "hook"
  | Context => "context"
  | Utility => "utility"
  end.

Definition generateUnifiedPath (name entityType : string) (baseDir : string) : string :=
  let slug := UnifiedPath.slugOf name in
  let folder := UnifiedPath.folderFor baseDir entityType in
  PosixPath.joinPath [folder; slug ++ ".ts"].

(** The default value of the [baseDir] parameter. *)
Definition defaultBaseDir : string := "merged".

Definition profileMap (p : list NameCount) : gmap string Z :=
  fold_left (fun m item => <[nc_name item := nc_count item]> m) p ∅.

Definition compareNameCountProfiles (profile1 profile2 : list NameCount) : bool :=
  if negb (length profile1 =? length profile2)%nat then false
  else
    let map1 := profileMap profile1 in
    let map2 := profileMap profile2 in
    if negb (size map1 =? size map2)%nat then false
    else
      forallb
        (fun '(name, count) =>
           match map2 !! name with
           | Some c => Z.eqb c count
           | None => false
           end)
        (map_to_list map1).

Definition aggregateNameCountProfiles (analyses : list ASTDependency)
    (property : ASTDependency -> list NameCount) : list NameCount :=
  let aggregated :=
    fold_left
      (fun m analysis =>
         fold_left
           (fun m' item =>
              OrderedMap.set m' (nc_name item)
                (match OrderedMap.get m' (nc_name item) with
                 | Some c => c
                 | None => 0
                 end + nc_count item))
           (property analysis) m)
      analyses [] in
  map (fun '(name, count) => {| nc_name := name; nc_count := count |}) aggregated.

(** [file.inferredRole || 'unknown'] *)
Definition roleOf (a : ASTDependency) : string :=
  orElse (inferredRole (file a)) "unknown".

Definition pathOf (a : ASTDependency) : string := relativePath (file a).

(** [a.components.find(c => c.name === name)] *)
Definition findComponent (a : ASTDependency) (name : string) : option ComponentDecl :=
  List.find (fun c => String.eqb (comp_name c) name) (components a).

(** [a.components.filter(c => c.name === name && c.inferredHOC).map(c => c.inferredHOC!)] *)
Definition hocsOf (a : ASTDependency) (name : string) : list string :=
  omap
    (fun c =>
       if String.eqb (comp_name c) name && truthyOpt (comp_inferredHOC c)
       then comp_inferredHOC c else None)
    (components a).

(** [xs.sort()]: the default comparison orders strings by code unit. *)
Fixpoint sortInsert (x : string) (xs : list string) : list string :=
  match xs with
  | [] => [x]
  | y :: ys => if String.leb x y then x :: xs else y :: sortInsert x ys
  end.

Definition sortStrings (xs : list string) : list string :=
  fold_right sortInsert [] xs.

Definition stringListEqb (xs ys : list string) : bool :=
  bool_decide (xs = ys).

(** [a.contextAPIs.find(c => c.name === name && c.type === 'Context')?.type] *)
Definition contextTypeOf (a : ASTDependency) (name : string) : option ContextApiType :=
  option_map ctx_type
    (List.find
       (fun c => String.eqb (ctx_name c) name && ctxTypeEqb (ctx_type c) CtxContext)
       (contextAPIs a)).

Definition optCtxTypeEqb (a b : option ContextApiType) : bool :=
  match a, b with
  | None, None => true
  | Some x, Some y => ctxTypeEqb x y
  | _, _ => false
  end.

Definition dq : string := String (ascii_of_nat 34) EmptyString.

Definition quoted (s : string) : string := dq ++ s ++ dq.

Definition functionalOrClass (b : bool) : string :=
  if b then "functional" else "class".

(** [{ [k1]: v1, [k2]: v2 }] *)
Definition obj2 {V : Type} (k1 : string) (v1 : V) (k2 : string) (v2 : V) : OrderedMap.t V :=
  OrderedMap.set (OrderedMap.set [] k1 v1) k2 v2.

(** The two locals of [detectConflictsForEntity] that its loop updates. *)
Record Detection := {
  conflicts : list MergeConflict;
  canBeMerged : bool
}.

(** [conflicts.push(c)] *)
Definition pushConflict (c : MergeConflict) (d : Detection) : Detection :=
  {| conflicts := conflicts d ++ [c]; canBeMerged := canBeMerged d |}.

(** [canBeMerged = false] *)
Definition forbidMerge (d : Detection) : Detection :=
  {| conflicts := conflicts d; canBeMerged := false |}.

(** The component-only checks, reached when both declarations are found. *)
Definition detectComponent (name : string) (first current : ASTDependency)
    (fc cc : ComponentDecl) (d : Detection) : Detection :=
  let files := [pathOf first; pathOf current] in
  let d1 :=
    if negb (Bool.eqb (comp_isFunctional fc) (comp_isFunctional cc)) then
      forbidMerge (pushConflict
        {| c_type := ComponentStructuralDifference; severity := SevError;
           message := "Shared component " ++ quoted name
                      ++ " has conflicting component types (Functional vs Class).";
           details := DetTypes (obj2 (pathOf first) (functionalOrClass (comp_isFunctional fc))
                                     (pathOf current) (functionalOrClass (comp_isFunctional cc)));
           relatedFiles := files |} d)
    else d in
  let d2 :=
    if negb (compareNameCountProfiles (jsxElementsUsed first) (jsxElementsUsed current)) then
      pushConflict
        {| c_type := ComponentJsxProfileMismatch; severity := SevWarning;
           message := "Shared component " ++ quoted name ++ " renders different JSX elements.";
           details := DetJsx (pathOf first) (jsxElementsUsed first)
                             (pathOf current) (jsxElementsUsed current);
           relatedFiles := files |} d1
    else d1 in
  let d3 :=
    if negb (compareNameCountProfiles (reactHooksUsed first) (reactHooksUsed current)) then
      pushConflict
        {| c_type := ComponentHookProfileMismatch; severity := SevWarning;
           message := "Shared component " ++ quoted name ++ " uses different React Hooks.";
           details := DetHooks (pathOf first) (reactHooksUsed first)
                               (pathOf current) (reactHooksUsed current);
           relatedFiles := files |} d2
    else d2 in
  let firstHOCs := sortStrings (hocsOf first name) in
  let currentHOCs := sortStrings (hocsOf current name) in
  if negb (stringListEqb firstHOCs currentHOCs) then
    pushConflict
      {| c_type := ComponentHocMismatch; severity := SevWarning;
         message := "Shared component " ++ quoted name
                    ++ " is wrapped by different Higher-Order Components.";
         details := DetHocs (pathOf first) firstHOCs (pathOf current) currentHOCs;
         relatedFiles := files |} d3
  else d3.

(** One iteration of the loop of [detectConflictsForEntity]: [current] is
    [analyses[i]], [first] is [analyses[0]]. *)
Definition detectStep (name : string) (entityType : EntityType)
    (first : ASTDependency) (d : Detection) (current : ASTDependency) : Detection :=
  let files := [pathOf first; pathOf current] in
  let kind := entityTypeName entityType in
  let d1 :=
    if negb (String.eqb (roleOf first) (roleOf current)) then
      forbidMerge (pushConflict
        {| c_type := RoleMismatch; severity := SevError;
           message := "Shared " ++ kind ++ " " ++ quoted name
                      ++ " has conflicting inferred roles.";
           details := DetRoles (obj2 (pathOf first) (roleOf first)
                                     (pathOf current) (roleOf current));
           relatedFiles := files |} d)
    else d in
  let d2 :=
    if negb (Z.eqb (loc first) (loc current)) then
      pushConflict
        {| c_type := UtilityLocDifference; severity := SevWarning;
           message := "Shared " ++ kind ++ " " ++ quoted name
                      ++ " has different Lines of Code.";
           details := DetLocs (obj2 (pathOf first) (loc first) (pathOf current) (loc current));
           relatedFiles := files |} d1
    else d1 in
  match entityType with
  | Component =>
      match findComponent first name, findComponent current name with
      | Some fc, Some cc => detectComponent name first current fc cc d2
      | _, _ => d2
      end
  | Hook =>
      if negb (compareNameCountProfiles (reactHooksUsed first) (reactHooksUsed current)) then
        pushConflict
          {| c_type := ComponentHookProfileMismatch; severity := SevWarning;
             message := "Shared hook " ++ quoted name
                        ++ " uses different React Hooks in its definition.";
             details := DetHooks (pathOf first) (reactHooksUsed first)
                                 (pathOf current) (reactHooksUsed current);
             relatedFiles := files |} d2
      else d2
  | Context =>
      if negb (optCtxTypeEqb (contextTypeOf first name) (contextTypeOf current name)) then
        pushConflict
          {| c_type := ContextTypeMismatch; severity := SevWarning;
             message := "Shared context " ++ quoted name
                        ++ " has different context types (e.g., inferred initial values).";
             details := DetContexts (pathOf first) (contextAPIs first)
                                    (pathOf current) (contextAPIs current);
             relatedFiles := files |} d2
      else d2
  | Utility => d2
  end.

(** [detectConflictsForEntity(name, analyses, entityType)].  On an empty
    [analyses] the read of [analyses[0].file] raises. *)
Definition detectConflictsForEntity (name : string) (analyses : list ASTDependency)
    (entityType : EntityType) : option Detection :=
  match analyses with
  | [] => None
  | first :: rest =>
      Some (fold_left (detectStep name entityType first) rest
                      {| conflicts := []; canBeMerged := true |})
  end.

(** The link between the merge flag and the conflicts collected so far. *)
Definition flagMatchesErrors (d : Detection) : Prop :=
  canBeMerged d = negb (existsb isError (conflicts d)).

(** Every conflict collected so far comes from comparing some later member
    with the first one. *)
Definition comparedWithFirst (first : ASTDependency) (rest : list ASTDependency)
    (d : Detection) : Prop :=
  forall c, In c (conflicts d) ->
    exists current, In current rest /\ relatedFiles c = [pathOf first; pathOf current].

(** *** Aggregation of the entities of all projects *)

Record Counters := {
  n_components : nat;
  n_hooks : nat;
  n_contexts : nat;
  n_utilities : nat
}.

Definition zeroCounters : Counters :=
  {| n_components := 0; n_hooks := 0; n_contexts := 0; n_utilities := 0 |}.

Definition bump (t : EntityType) (c : Counters) : Counters :=
  match t with
  | Component => {| n_components := S (n_components c); n_hooks := n_hooks c;
                    n_contexts := n_contexts c; n_utilities := n_utilities c |}
  | Hook => {| n_components := n_components c; n_hooks := S (n_hooks c);
               n_contexts := n_contexts c; n_utilities := n_utilities c |}
  | Context => {| n_components := n_components c; n_hooks := n_hooks c;
                  n_contexts := S (n_contexts c); n_utilities := n_utilities c |}
  | Utility => {| n_components := n_components c; n_hooks := n_hooks c;
                  n_contexts := n_contexts c; n_utilities := S (n_utilities c) |}
  end.

Definition sumCounters (c : Counters) : nat :=
  (n_components c + n_hooks c + n_contexts c + n_utilities c)%nat.

Definition Groups := OrderedMap.t (list ASTDependency).

(** The four [...ByName] maps and [totalInputEntities]. *)
Record Aggregation := {
  componentByName : Groups;
  hookByName : Groups;
  contextByName : Groups;
  utilityByName : Groups;
  totalInputEntities : Counters
}.

Definition groupsOf (t : EntityType) (ag : Aggregation) : Groups :=
  match t with
  | Component => componentByName ag
  | Hook => hookByName ag
  | Context => contextByName ag
  | Utility => utilityByName ag
  end.

(** [m.set(k, (m.get(k) || []).concat(fileAnalysis))] *)
Definition addToGroup (m : Groups) (k : string) (fa : ASTDependency) : Groups :=
  OrderedMap.set m k (default [] (OrderedMap.get m k) ++ [fa])%list.

(** Record one declaration site of kind [t] and count it. *)
Definition record (t : EntityType) (k : string) (fa : ASTDependency)
    (ag : Aggregation) : Aggregation :=
  {| componentByName :=
       match t with Component => addToGroup (componentByName ag) k fa | _ => componentByName ag end;
     hookByName :=
       match t with Hook => addToGroup (hookByName ag) k fa | _ => hookByName ag end;
     contextByName :=
       match t with Context => addToGroup (contextByName ag) k fa | _ => contextByName ag end;
     utilityByName :=
       match t with Utility => addToGroup (utilityByName ag) k fa | _ => utilityByName ag end;
     totalInputEntities := bump t (totalInputEntities ag) |}.

(** [Object.keys(xs)] of an array: its indices in decimal. *)
Definition arrayKeys {A : Type} (xs : list A) : list string :=
  map (fun i => NilEmpty.string_of_uint (Nat.to_uint i)) (seq 0 (length xs)).

Definition declaresComponent (fa : ASTDependency) (name : string) : bool :=
  existsb (fun c => String.eqb (comp_name c) name) (components fa).

(** The body of the inner loop of step 1, for one analysed file. *)
Definition aggregateFile (ag : Aggregation) (fa : ASTDependency) : Aggregation :=
  let ag1 := fold_left (fun a comp => record Component (comp_name comp) fa a) (components fa) ag in
  let ag2 :=
    fold_left
      (fun a hookName =>
         if existsb (fun e => String.eqb (exp_name e) hookName && isExportedCallable (exp_type e))
                    (exports fa)
         then record Hook hookName fa a else a)
      (arrayKeys (reactHooksUsed fa)) ag1 in
  let ag3 :=
    fold_left
      (fun a ctx =>
         if ctxTypeEqb (ctx_type ctx) CtxContext then record Context (ctx_name ctx) fa a else a)
      (contextAPIs fa) ag2 in
  let ag4 :=
    fold_left
      (fun a func =>
         if negb (declaresComponent fa (fn_name func)) && fn_isExported func
         then record Utility (fn_name func) fa a else a)
      (functions fa) ag3 in
  fold_left
    (fun a variable =>
       if negb (declaresComponent fa (var_name variable))
          && negb (existsb (fun c => String.eqb (ctx_name c) (var_name variable)) (contextAPIs fa))
          && var_isExported variable
       then record Utility (var_name variable) fa a else a)
    (declaredVariables fa) ag4.

Definition emptyAggregation : Aggregation :=
  {| componentByName := []; hookByName := []; contextByName := [];
     utilityByName := []; totalInputEntities := zeroCounters |}.

Definition aggregate (analyzedWorkspaces : list AnalyzedProject) : Aggregation :=
  fold_left
    (fun ag project => fold_left aggregateFile (map snd (analyzedFiles project)) ag)
    analyzedWorkspaces emptyAggregation.

(** No group is empty. *)
Definition groupsNonEmpty (g : Groups) : Prop :=
  forall k l, In (k, l) g -> l <> [].

Definition allGroupsNonEmpty (ag : Aggregation) : Prop :=
  forall t, groupsNonEmpty (groupsOf t ag).

(** *** Merged entities and [processEntityType] *)

Record MergedEntityBase := {
  m_id : string;
  m_name : string;
  m_originalPaths : list string;
  m_unifiedPath : string;
  m_isShared : bool;
  m_loc : Q
}.

Inductive MergedEntity :=
| MergedComponent (base : MergedEntityBase) (type : string)
    (jsx hooks : list NameCount) (inferredHOCs : list string) (role : string)
| MergedHook (base : MergedEntityBase) (role : string) (hooks : list NameCount)
| MergedContext (base : MergedEntityBase) (contextType : ContextApiType) (role : string)
| MergedUtility (base : MergedEntityBase) (role : string).

(** [Array.from(new Set(xs))]: first occurrences, in order. *)
Definition uniqueStrings (xs : list string) : list string :=
  fold_left (fun acc x => if arrayIncludes acc x then acc else (acc ++ [x])%list) xs [].

(** The variables of [runResolveAndMergeStep] that [processEntityType]
    reaches through its closure. *)
Record RunState := {
  mergedComponents : list MergedEntity;
  mergedHooks : list MergedEntity;
  mergedUtilities : list MergedEntity;
  mergedContexts : list MergedEntity;
  allConflicts : list MergeConflict;
  totalSharedEntities : Counters;
  originalPathToUnifiedId : OrderedMap.t string;
  unifiedEntityMap : OrderedMap.t MergedEntity
}.

Definition initialRunState : RunState :=
  {| mergedComponents := []; mergedHooks := []; mergedUtilities := [];
     mergedContexts := []; allConflicts := []; totalSharedEntities := zeroCounters;
     originalPathToUnifiedId := []; unifiedEntityMap := [] |}.

(** [a.loc || 0] summed, over the number of analyses. *)
Definition averageLoc (analyses : list ASTDependency) : Q :=
  Qmake (fold_left (fun sum a => sum + loc a) analyses 0)
        (Pos.of_nat (length analyses)).

Definition buildEntity (name : string) (analyses : list ASTDependency)
    (first : ASTDependency) (entityType : EntityType) (base : MergedEntityBase)
  : MergedEntity :=
  match entityType with
  | Component =>
      MergedComponent base
        (match findComponent first name with
         | Some c => functionalOrClass (comp_isFunctional c)
         | None => "class"
         end)
        (aggregateNameCountProfiles analyses jsxElementsUsed)
        (aggregateNameCountProfiles analyses reactHooksUsed)
        (uniqueStrings (flat_map (fun a => hocsOf a name) analyses))
        (roleOf first)
  | Hook =>
      MergedHook base (roleOf first) (aggregateNameCountProfiles analyses reactHooksUsed)
  | Context =>
      MergedContext base (default CtxContext (contextTypeOf first name)) (roleOf first)
  | Utility => MergedUtility base (roleOf first)
  end.

(** The array a merged entity of kind [entityType] is pushed to, the two
    identity maps and the conflicts of the run after one group. *)
Definition registerEntity (entityType : EntityType) (e : MergedEntity)
    (originalPaths : list string) (unifiedId : string) (st : RunState) : RunState :=
  {| mergedComponents :=
       match entityType with Component => mergedComponents st ++ [e] | _ => mergedComponents st end;
     mergedHooks :=
       match entityType with Hook => mergedHooks st ++ [e] | _ => mergedHooks st end;
     mergedUtilities :=
       match entityType with Utility => mergedUtilities st ++ [e] | _ => mergedUtilities st end;
     mergedContexts :=
       match entityType with Context => mergedContexts st ++ [e] | _ => mergedContexts st end;
     allConflicts := allConflicts st;
     totalSharedEntities := totalSharedEntities st;
     originalPathToUnifiedId :=
       fold_left (fun m op => OrderedMap.set m op unifiedId) originalPaths
                 (originalPathToUnifiedId st);
     unifiedEntityMap := OrderedMap.set (unifiedEntityMap st) unifiedId e |}.

Definition withConflicts (cs : list MergeConflict) (shared : Counters) (st : RunState)
  : RunState :=
  {| mergedComponents := mergedComponents st; mergedHooks := mergedHooks st;
     mergedUtilities := mergedUtilities st; mergedContexts := mergedContexts st;
     allConflicts := allConflicts st ++ cs;
     totalSharedEntities := shared;
     originalPathToUnifiedId := originalPathToUnifiedId st;
     unifiedEntityMap := unifiedEntityMap st |}.

(** [processEntityType(name, analyses, entityType, totalSharedCounter)];
    every call site passes the counter of [entityType]. *)
Definition processEntityType (name : string) (analyses : list ASTDependency)
    (entityType : EntityType) (st : RunState) : option RunState :=
  let originalPaths := map pathOf analyses in
  let isShared := (1 <? length originalPaths)%nat in
  let unifiedId := generateUnifiedPath name (entityTypeName entityType) defaultBaseDir in
  match detectConflictsForEntity name analyses entityType, analyses with
  | Some d, first :: _ =>
      let shared :=
        if isShared && canBeMerged d then bump entityType (totalSharedEntities st)
        else totalSharedEntities st in
      let st1 := withConflicts (conflicts d) shared st in
      if canBeMerged d then
        let base :=
          {| m_id := unifiedId; m_name := name; m_originalPaths := originalPaths;
             m_unifiedPath := unifiedId; m_isShared := isShared;
             m_loc := averageLoc analyses |} in
        Some (registerEntity entityType (buildEntity name analyses first entityType base)
                             originalPaths unifiedId st1)
      else Some st1
  | _, _ => None
  end.

(** The four loops over the [...ByName] maps. *)
Fixpoint processGroups (entityType : EntityType) (groups : Groups) (st : RunState)
  : option RunState :=
  match groups with
  | [] => Some st
  | (name, analyses) :: rest =>
      match processEntityType name analyses entityType st with
      | Some st' => processGroups entityType rest st'
      | None => None
      end
  end.

Record Summary := {
  s_totalInputEntities : nat;
  s_totalMergedEntities : nat;
  s_totalSharedEntities : nat;
  s_totalConflictsReported : nat;
  s_criticalErrors : nat;
  s_warnings : nat
}.

Record ResolveAndMergeStepOutput := {
  out_components : list MergedEntity;
  out_hooks : list MergedEntity;
  out_utilities : list MergedEntity;
  out_contexts : list MergedEntity;
  mergeConflicts : MergeConflictReport;
  internalMap : OrderedMap.t string;
  summary : Summary
}.

Definition runResolveAndMergeStep (analyzedWorkspaces : list AnalyzedProject)
  : option ResolveAndMergeStepOutput :=
  let ag := aggregate analyzedWorkspaces in
  st1 ← processGroups Component (componentByName ag) initialRunState;
  st2 ← processGroups Hook (hookByName ag) st1;
  st3 ← processGroups Context (contextByName ag) st2;
  st4 ← processGroups Utility (utilityByName ag) st3;
  let report := conflictReport (allConflicts st4) in
  Some
    {| out_components := mergedComponents st4;
       out_hooks := mergedHooks st4;
       out_utilities := mergedUtilities st4;
       out_contexts := mergedContexts st4;
       mergeConflicts := report;
       internalMap := originalPathToUnifiedId st4;
       summary :=
         {| s_totalInputEntities := sumCounters (totalInputEntities ag);
            s_totalMergedEntities :=
              (length (mergedComponents st4) + length (mergedHooks st4)
               + length (mergedContexts st4) + length (mergedUtilities st4))%nat;
            s_totalSharedEntities := sumCounters (totalSharedEntities st4);
            s_totalConflictsReported := totalConflicts report;
            s_criticalErrors := length (criticalErrors report);
            s_warnings := length (warnings report) |} |}.

(** *** Vocabulary for the properties of the step *)

(** The sum of the counts listed under [name]. *)
Definition totalFor (name : string) (items : list NameCount) : Z :=
  fold_right Z.add 0
    (map nc_count (List.filter (fun item => String.eqb (nc_name item) name) items)).

(** The counter of one entity kind. *)
Definition counterOf (t : EntityType) (c : Counters) : nat :=
  match t with
  | Component => n_components c
  | Hook => n_hooks c
  | Context => n_contexts c
  | Utility => n_utilities c
  end.

(** The number of declaration sites held by a family of groups. *)
Definition groupSizes (g : Groups) : nat :=
  list_sum (map (fun kv => length (snd kv)) g).

Definition baseOf (e : MergedEntity) : MergedEntityBase :=
  match e with
  | MergedComponent base _ _ _ _ _ => base
  | MergedHook base _ _ => base
  | MergedContext base _ _ => base
  | MergedUtility base _ => base
  end.

(** The merged entities of all four kinds. *)
Definition mergedOf (st : RunState) : list MergedEntity :=
  (mergedComponents st ++ mergedHooks st ++ mergedContexts st ++ mergedUtilities st)%list.

Definition allMerged (out : ResolveAndMergeStepOutput) : list MergedEntity :=
  (out_components out ++ out_hooks out ++ out_contexts out ++ out_utilities out)%list.

(** The number of groups of all four kinds. *)
Definition groupCount (ag : Aggregation) : nat :=
  (length (componentByName ag) + length (hookByName ag)
   + length (contextByName ag) + length (utilityByName ag))%nat.

Definition isDigit (c : ascii) : bool :=
  let n := nat_of_ascii c in (48 <=? n)%nat && (n <=? 57)%nat.

Definition startsWithDigit (s : string) : bool :=
  match s with
  | String c _ => isDigit c
  | EmptyString => false
  end.

(** No export of any analysed file has a name that begins with a digit. *)
Definition exportsAreIdentifiers (analyzedWorkspaces : list AnalyzedProject) : Prop :=
  forall project entry e,
    In project analyzedWorkspaces -> In entry (analyzedFiles project) ->
    In e (exports (snd entry)) -> startsWithDigit (exp_name e) = false.

(** What makes [current] block the merge of a group led by [first]: a
    different role, or, for components declared on both sides, a
    different form. *)
Definition blocksMerge (name : string) (entityType : EntityType)
    (first current : ASTDependency) : bool :=
  negb (String.eqb (roleOf first) (roleOf current))
  || match entityType with
     | Component =>
         match findComponent first name, findComponent current name with
         | Some fc, Some cc => negb (Bool.eqb (comp_isFunctional fc) (comp_isFunctional cc))
         | _, _ => false
         end
     | _ => false
     end.

(** The severity the step gives to each conflict type it reports. *)
Definition severityOfType (t : ConflictType) : option Severity :=
  match t with
  | RoleMismatch | ComponentStructuralDifference => Some SevError
  | ComponentHookProfileMismatch | ComponentJsxProfileMismatch | ComponentHocMismatch
  | UtilityLocDifference | ContextTypeMismatch => Some SevWarning
  | NameCollision | OtherConflict => None
  end.

(** [a] shows nothing that the checks compare differently from [first]. *)
Definition agreesWith (first a : ASTDependency) : Prop :=
  roleOf a = roleOf first /\ loc a = loc first /\ components a = components first
  /\ jsxElementsUsed a = jsxElementsUsed first /\ reactHooksUsed a = reactHooksUsed first
  /\ contextAPIs a = contextAPIs first.

(** The entry [[item.name, item.count]] a profile contributes to its map. *)
Definition pairOf (item : NameCount) : string * Z := (nc_name item, nc_count item).

(** The body of the inner loop of [aggregateNameCountProfiles]. *)
Definition addCount (m : OrderedMap.t Z) (item : NameCount) : OrderedMap.t Z :=
  OrderedMap.set m (nc_name item)
    (match OrderedMap.get m (nc_name item) with Some c => c | None => 0 end + nc_count item).

(** One insertion into a [Set] kept in insertion order. *)
Definition addUnique (acc : list string) (x : string) : list string :=
  if arrayIncludes acc x then acc else (acc ++ [x])%list.

(** What the aggregation map holds after the items [seen]: the names in
    order of first appearance, each with the sum of its counts. *)
Definition tallies (seen : list NameCount) (m : OrderedMap.t Z) : Prop :=
  NoDup (map fst m)
  /\ map fst m = uniqueStrings (map nc_name seen)
  /\ forall k, OrderedMap.get m k
               = if arrayIncludes (map nc_name seen) k then Some (totalFor k seen) else None.

(** The bookkeeping of [processEntityType] on its state. *)
Definition mergedCount (st : RunState) : nat :=
  (length (mergedComponents st) + length (mergedHooks st)
   + length (mergedContexts st) + length (mergedUtilities st))%nat.

Definition errorCount (st : RunState) : nat :=
  length (List.filter isError (allConflicts st)).

(** The state of the run after [n] groups: every group was merged unless
    an error conflict was reported. *)
Definition accounted (n : nat) (st : RunState) : Prop :=
  (mergedCount st <= n)%nat
  /\ (sumCounters (totalSharedEntities st) <= mergedCount st)%nat
  /\ (errorCount st = 0%nat <-> mergedCount st = n).

Definition kindOf (e : MergedEntity) : EntityType :=
  match e with
  | MergedComponent _ _ _ _ _ _ => Component
  | MergedHook _ _ _ => Hook
  | MergedContext _ _ _ => Context
  | MergedUtility _ _ => Utility
  end.

(** [e] is what [processEntityType] builds for the group [(name, analyses)]
    of kind [t]. *)
Definition mergedFrom (t : EntityType) (name : string) (analyses : list ASTDependency)
    (e : MergedEntity) : Prop :=
  kindOf e = t
  /\ m_name (baseOf e) = name
  /\ m_originalPaths (baseOf e) = map pathOf analyses
  /\ m_id (baseOf e) = generateUnifiedPath name (entityTypeName t) defaultBaseDir
  /\ m_unifiedPath (baseOf e) = m_id (baseOf e)
  /\ m_isShared (baseOf e) = (1 <? length analyses)%nat.

(** The identity map lists the original paths of the merged entities. *)
Definition indexed (st : RunState) : Prop :=
  NoDup (map fst (originalPathToUnifiedId st))
  /\ (forall e p, In e (mergedOf st) -> In p (m_originalPaths (baseOf e)) ->
                  OrderedMap.has (originalPathToUnifiedId st) p = true)
  /\ (forall p id, In (p, id) (originalPathToUnifiedId st) ->
                   exists e, In e (mergedOf st) /\ m_id (baseOf e) = id
                             /\ In p (m_originalPaths (baseOf e))).

(** Every merged entity was built from a group without error conflict. *)
Definition conflictFree (workspaces : list AnalyzedProject) (st : RunState) : Prop :=
  forall e, In e (mergedOf st) ->
    exists t name analyses d,
      In (name, analyses) (groupsOf t (aggregate workspaces))
      /\ mergedFrom t name analyses e
      /\ detectConflictsForEntity name analyses t = Some d
      /\ canBeMerged d = true
      /\ Forall (fun c => In c (allConflicts st) /\ severity c = SevWarning) (conflicts d).

(** Every conflict collected so far has the severity of its type. *)
Definition classified (d : Detection) : Prop :=
  Forall (fun c => severityOfType (c_type c) = Some (severity c)) (conflicts d).

End ResolveAndMergeStep.

(** ** [resolveStep.ts]: the older resolver's copy of the path helper *)

Module ResolveStep.

Definition generateUnifiedPath (name type : string) (baseDir : string) : string :=
  let slug := UnifiedPath.slugOf name in
  let folder := UnifiedPath.folderFor baseDir type in
  PosixPath.joinPath [folder; slug ++ ".ts"].

Definition defaultBaseDir : string := "merged".

End ResolveStep.

(** ** [dependencyGraphBuilder.ts] *)

Module DependencyGraphBuilder.
Import JsString Analysis.

Inductive NodeType :=
| NComponent | NPage | NHook | NUtility | NConfig | NAsset | NApi | NStyle | NUnknown.

Record FileNode := {
  n_id : string;
  n_name : string;
  n_type : NodeType;
  n_absolutePath : string;
  n_loc : Z;
  n_isEntryFile : bool;
  n_hasJSX : bool;
  n_exportsCount : nat;
  n_importsCount : nat;
  n_componentsDeclared : nat
}.

Inductive EdgeType :=
| Import | DynamicImport | Reference | ContextUsage | HocUsage | RenderUsage | TypeDependency.

Definition edgeTypeName (t : EdgeType) : string :=
  match t with
  | Import => "import"
  | DynamicImport => "dynamic-import"
  | Reference => "reference"
  | ContextUsage => "context-usage"
  | HocUsage => "hoc-usage"
  | RenderUsage => "render-usage"
  | TypeDependency => "type-dependency"
  end.

Definition edgeTypeEqb (a b : EdgeType) : bool :=
  String.eqb (edgeTypeName a) (edgeTypeName b).

Record DependencyEdge := {
  e_from : string;
  e_to : string;
  e_type : EdgeType;
  e_weight : option Z;
  e_importedNames : list string;
  e_reason : option string
}.

Record UnresolvedImport := {
  u_from : string;
  u_importPath : string;
  u_reason : string
}.

Record DependencyGraph := {
  nodes : list FileNode;
  edges : list DependencyEdge;
  totalNodes : nat;
  totalEdges : nat;
  unresolvedImports : list UnresolvedImport
}.

Definition COMMON_FILE_EXTENSIONS : list string :=
  [".ts"; ".tsx"; ".js"; ".jsx"; ".json"; ".css"; ".scss"; ".less"; ".png"; ".svg"].

Definition ENTRY_FILE_PATTERNS : list string :=
  ["src/index.tsx"; "src/index.jsx"; "src/main.tsx"; "src/main.jsx";
   "app/layout.tsx"; "app/page.tsx"; "pages/_app.tsx"; "pages/index.tsx"].

Definition roleIs (fa : ASTDependency) (r : string) : bool :=
  match inferredRole (file fa) with
  | Some s => String.eqb s r
  | None => false
  end.

Definition inferFileType (fa : ASTDependency) : NodeType :=
  let f := file fa in
  let ext := extension f in
  if roleIs fa "page"
     || match inferredFrameworkSpecific f with
        | Some s => includes s "page"
        | None => false
        end then NPage
  else if (0 <? length (components fa))%nat then NComponent
  else if (0 <? length (reactHooksUsed fa))%nat then NHook
  else if (0 <? length (contextAPIs fa))%nat then NUtility
  else if roleIs fa "util" then NUtility
  else if roleIs fa "api" then NApi
  else if roleIs fa "config" then NConfig
  else if roleIs fa "asset" then NAsset
  else if roleIs fa "style" then NStyle
  else if includes (toLowerCase (relativePath f)) "routes/" then NPage
  else if includes (toLowerCase (relativePath f)) "layouts/" then NComponent
  else if String.eqb ext ".json" then NConfig
  else if String.eqb ext ".css" || String.eqb ext ".scss" || String.eqb ext ".less" then NStyle
  else if String.eqb ext ".ts" || String.eqb ext ".js" || String.eqb ext ".tsx"
          || String.eqb ext ".jsx" then NUtility
  else NUnknown.

(** The property names every object literal inherits from
    [Object.prototype]; a property read finds them too. *)
Definition objectPrototypeKeys : list string :=
  ["constructor"; "__defineGetter__"; "__defineSetter__"; "hasOwnProperty";
   "__lookupGetter__"; "__lookupSetter__"; "isPrototypeOf"; "propertyIsEnumerable";
   "toString"; "valueOf"; "__proto__"; "toLocaleString"].

(** Truthiness of [analyzedFilesMap[key]]. *)
Definition hasEntry (files : AnalyzedFileMap) (key : string) : bool :=
  existsb (fun kv => String.eqb (fst kv) key) files
  || arrayIncludes objectPrototypeKeys key.

(** The inner loop of [resolveImportPath] over the known extensions. *)
Fixpoint tryExtensions (files : AnalyzedFileMap) (basePath : string)
    (exts : list string) : option string :=
  match exts with
  | [] => None
  | ext :: rest =>
      let tryPathWithExt := if endsWith basePath ext then basePath else basePath ++ ext in
      if hasEntry files tryPathWithExt then Some tryPathWithExt
      else
        let tryIndexPath := PosixPath.joinPath [basePath; "index" ++ ext] in
        if hasEntry files tryIndexPath then Some tryIndexPath
        else tryExtensions files basePath rest
  end.

(** The outer loop of [resolveImportPath] over [possiblePathsToTry]. *)
Fixpoint tryBasePaths (files : AnalyzedFileMap) (paths : list string) : option string :=
  match paths with
  | [] => None
  | basePath :: rest =>
      if hasEntry files basePath then Some basePath
      else
        match tryExtensions files basePath COMMON_FILE_EXTENSIONS with
        | Some r => Some r
        | None => tryBasePaths files rest
        end
  end.

(** A specifier that is neither relative, nor rooted, nor aliased. *)
Definition isBareSpecifier (importSource : string) : bool :=
  negb (startsWith importSource ".") && negb (startsWith importSource "/")
  && negb (startsWith importSource "@").

Section WithWorkingDirectory.

(** [process.cwd()], which [path.resolve] falls back on. *)
Variable cwd : string.

Definition possiblePathsToTry (fromFilePath importSource projectRootPath : string)
  : list string :=
  let fromDir := PosixPath.dirname fromFilePath in
  if startsWith importSource "." then
    let resolvedAbsolutePath :=
      PosixPath.resolve cwd [projectRootPath; fromDir; importSource] in
    [PosixPath.relative cwd projectRootPath resolvedAbsolutePath]
  else
    let baseResolvedPath :=
      if startsWith importSource "/" then substringFrom 1 importSource
      else if startsWith importSource "@/" then substringFrom 2 importSource
      else importSource in
    [baseResolvedPath; PosixPath.joinPath ["src"; baseResolvedPath]].

Definition resolveImportPath (fromFilePath importSource : string)
    (analyzedFilesMap : AnalyzedFileMap) (projectRootPath : string) : option string :=
  if isBareSpecifier importSource then None
  else tryBasePaths analyzedFilesMap
         (possiblePathsToTry fromFilePath importSource projectRootPath).

(** *** The mutable locals of [buildDependencyGraph] *)

Record Builder := {
  b_edges : list DependencyEdge;
  b_processedEdges : gset string;
  b_unresolvedImports : list UnresolvedImport
}.

Definition emptyBuilder : Builder :=
  {| b_edges := []; b_processedEdges := ∅; b_unresolvedImports := [] |}.

(** The template [`${from} -> ${to} (${type})`]. *)
Definition edgeId (from to : string) (t : EdgeType) : string :=
  from ++ " -> " ++ to ++ " (" ++ edgeTypeName t ++ ")".

Definition isProcessed (b : Builder) (id : string) : bool :=
  bool_decide (id ∈ b_processedEdges b).

(** [edges.push(e); processedEdges.add(id)] *)
Definition pushEdge (e : DependencyEdge) (id : string) (b : Builder) : Builder :=
  {| b_edges := b_edges b ++ [e];
     b_processedEdges := {[ id ]} ∪ b_processedEdges b;
     b_unresolvedImports := b_unresolvedImports b |}.

(** [e.from === from && e.to === to && e.type === t] *)
Definition sameEnds (from to : string) (t : EdgeType) (e : DependencyEdge) : bool :=
  String.eqb (e_from e) from && String.eqb (e_to e) to && edgeTypeEqb (e_type e) t.

(** [edges.find(p)] followed by a write to the edge found: the first
    edge that satisfies [p] is replaced by [f] of itself. *)
Fixpoint updateFirst (p : DependencyEdge -> bool) (f : DependencyEdge -> DependencyEdge)
    (es : list DependencyEdge) : list DependencyEdge :=
  match es with
  | [] => []
  | e :: es' => if p e then f e :: es' else e :: updateFirst p f es'
  end.

(** [e.importedNames.push(name)] *)
Definition pushName (name : string) (e : DependencyEdge) : DependencyEdge :=
  {| e_from := e_from e; e_to := e_to e; e_type := e_type e; e_weight := e_weight e;
     e_importedNames := e_importedNames e ++ [name]; e_reason := e_reason e |}.

Definition withEdges (es : list DependencyEdge) (b : Builder) : Builder :=
  {| b_edges := es; b_processedEdges := b_processedEdges b;
     b_unresolvedImports := b_unresolvedImports b |}.

Definition pushUnresolved (u : UnresolvedImport) (b : Builder) : Builder :=
  {| b_edges := b_edges b; b_processedEdges := b_processedEdges b;
     b_unresolvedImports := b_unresolvedImports b ++ [u] |}.

(** The write of the [else] branch of 2.1 on the edge found. *)
Definition recordImportedName (imp : ImportDecl) (e : DependencyEdge) : DependencyEdge :=
  match imp_importedAs imp with
  | Some alias =>
      if truthy alias && negb (arrayIncludes (e_importedNames e) alias)
      then pushName alias e
      else if truthy (imp_name imp) && negb (arrayIncludes (e_importedNames e) (imp_name imp))
      then pushName (imp_name imp) e
      else e
  | None =>
      if truthy (imp_name imp) && negb (arrayIncludes (e_importedNames e) (imp_name imp))
      then pushName (imp_name imp) e
      else e
  end.

(** The write of the [else] branches of 2.2 and 2.5 on the edge found. *)
Definition recordName (name : string) (e : DependencyEdge) : DependencyEdge :=
  if negb (arrayIncludes (e_importedNames e) name) then pushName name e else e.

Definition importEdgeType (imp : ImportDecl) : EdgeType :=
  if includes (imp_path imp) "import(" then DynamicImport else Import.

(** 2.1: the body of the loop over [fileAnalysis.imports]. *)
Definition importStep (analysis : AnalyzedProject) (sourcePath : string)
    (b : Builder) (imp : ImportDecl) : Builder :=
  let edgeType := importEdgeType imp in
  let resolvedTargetPath :=
    resolveImportPath sourcePath (imp_path imp) (analyzedFiles analysis) (rootPath analysis) in
  match resolvedTargetPath with
  | Some target =>
      if truthy target then
        if negb (String.eqb sourcePath target) then
          let id := edgeId sourcePath target edgeType in
          if negb (isProcessed b id) then
            pushEdge
              {| e_from := sourcePath; e_to := target; e_type := edgeType;
                 e_weight := None;
                 e_importedNames := [orElse (imp_importedAs imp) (imp_name imp)];
                 e_reason := None |} id b
          else
            withEdges (updateFirst (sameEnds sourcePath target edgeType)
                                   (recordImportedName imp) (b_edges b)) b
        else b
      else if isBareSpecifier (imp_path imp) then b
      else if negb (String.eqb sourcePath (imp_path imp)) then
        pushUnresolved
          {| u_from := sourcePath; u_importPath := imp_path imp;
             u_reason := "Could not resolve to an internal project file." |} b
      else b
  | None =>
      if isBareSpecifier (imp_path imp) then b
      else if negb (String.eqb sourcePath (imp_path imp)) then
        pushUnresolved
          {| u_from := sourcePath; u_importPath := imp_path imp;
             u_reason := "Could not resolve to an internal project file." |} b
      else b
  end.

(** 2.2 and 2.5 share their shape: a name with a count, looked up in a
    map from exported names to files. *)
Definition usageStep (t : EdgeType) (reasonOf : string -> string)
    (exportsMap : gmap string string) (sourcePath : string)
    (b : Builder) (used : NameCount) : Builder :=
  match exportsMap !! nc_name used with
  | Some target =>
      if truthy target && negb (String.eqb target sourcePath) then
        let id := edgeId sourcePath target t in
        if negb (isProcessed b id) then
          pushEdge
            {| e_from := sourcePath; e_to := target; e_type := t;
               e_weight := Some (nc_count used);
               e_importedNames := [nc_name used];
               e_reason := Some (reasonOf (nc_name used)) |} id b
        else
          withEdges (updateFirst (sameEnds sourcePath target t)
                                 (recordName (nc_name used)) (b_edges b)) b
      else b
  | None => b
  end.

Definition dq : string := String (ascii_of_nat 34) EmptyString.

(** 2.2: the body of the loop over [fileAnalysis.jsxElementsUsed]. *)
Definition renderUsageStep (componentExportsMap : gmap string string)
    (sourcePath : string) (b : Builder) (usedComponent : NameCount) : Builder :=
  usageStep RenderUsage
    (fun name => "Component " ++ dq ++ name ++ dq ++ " rendered in JSX.")
    componentExportsMap sourcePath b usedComponent.

(** 2.5: the body of the loop over [fileAnalysis.typesUsedInAnnotations]. *)
Definition typeDependencyStep (typeExportsMap : gmap string string)
    (sourcePath : string) (b : Builder) (typeUsed : NameCount) : Builder :=
  usageStep TypeDependency
    (fun name => "Type " ++ dq ++ name ++ dq ++ " used in type annotations.")
    typeExportsMap sourcePath b typeUsed.

(** 2.3 and 2.4 share their shape: a definition file found by a scan of
    [Object.values(analysis.analyzedFiles)], and no write on rediscovery. *)
Definition definitionStep (t : EdgeType) (name reason : string)
    (definitionFile : option ASTDependency) (sourcePath : string) (b : Builder) : Builder :=
  match definitionFile with
  | Some target =>
      let to := relativePath (file target) in
      if negb (String.eqb sourcePath to) then
        let id := edgeId sourcePath to t in
        if negb (isProcessed b id) then
          pushEdge
            {| e_from := sourcePath; e_to := to; e_type := t; e_weight := None;
               e_importedNames := [name]; e_reason := Some reason |} id b
        else b
      else b
  | None => b
  end.

Definition contextApiTypeName (t : ContextApiType) : string :=
  match t with
  | CtxProvider => "Provider"
  | CtxConsumer => "Consumer"
  | CtxContext => "Context"
  end.

(** 2.3: the body of the loop over [fileAnalysis.contextAPIs]. *)
Definition contextUsageStep (analysis : AnalyzedProject) (sourcePath : string)
    (b : Builder) (contextAPI : ContextApi) : Builder :=
  match ctx_type contextAPI with
  | CtxProvider | CtxConsumer =>
      let contextName := ctx_name contextAPI in
      let contextDefinitionFile :=
        List.find
          (fun target =>
             existsb (fun api => String.eqb (ctx_name api) contextName
                                 && ctxTypeEqb (ctx_type api) CtxContext)
                     (contextAPIs target))
          (map snd (analyzedFiles analysis)) in
      definitionStep ContextUsage contextName
        ("Uses React Context '" ++ contextName ++ "' as "
         ++ contextApiTypeName (ctx_type contextAPI))
        contextDefinitionFile sourcePath b
  | CtxContext => b
  end.

(** 2.4: the body of the loop over [fileAnalysis.components]. *)
Definition hocUsageStep (analysis : AnalyzedProject) (sourcePath : string)
    (b : Builder) (comp : ComponentDecl) : Builder :=
  match comp_inferredHOC comp with
  | Some hoc =>
      if truthy hoc then
        let hocDefinitionFile :=
          List.find
            (fun target =>
               existsb (fun e => String.eqb (exp_name e) hoc && isExportedCallable (exp_type e))
                       (exports target))
            (map snd (analyzedFiles analysis)) in
        definitionStep HocUsage hoc
          ("Component " ++ dq ++ comp_name comp ++ dq ++ " is wrapped by HOC "
           ++ dq ++ hoc ++ dq)
          hocDefinitionFile sourcePath b
      else b
  | None => b
  end.

(** The body of the loop of step 2 for one file. *)
Definition fileStep (analysis : AnalyzedProject)
    (componentExportsMap typeExportsMap : gmap string string)
    (b : Builder) (entry : string * ASTDependency) : Builder :=
  let '(sourcePath, fileAnalysis) := entry in
  let b1 := fold_left (importStep analysis sourcePath) (imports fileAnalysis) b in
  let b2 := fold_left (renderUsageStep componentExportsMap sourcePath)
                      (jsxElementsUsed fileAnalysis) b1 in
  let b3 := fold_left (contextUsageStep analysis sourcePath) (contextAPIs fileAnalysis) b2 in
  let b4 := fold_left (hocUsageStep analysis sourcePath) (components fileAnalysis) b3 in
  fold_left (typeDependencyStep typeExportsMap sourcePath)
            (typesUsedInAnnotations fileAnalysis) b4.

(** The two lookup maps built before step 2. *)
Definition buildComponentExports (files : AnalyzedFileMap) : gmap string string :=
  fold_left
    (fun m '(relPath, fa) =>
       fold_left
         (fun m' comp => if comp_isExported comp then <[comp_name comp := relPath]> m' else m')
         (components fa) m)
    files ∅.

Definition buildTypeExports (files : AnalyzedFileMap) : gmap string string :=
  fold_left
    (fun m '(relPath, fa) =>
       fold_left
         (fun m' typeDef => if ty_isExported typeDef then <[ty_name typeDef := relPath]> m' else m')
         (declaredTypes fa) m)
    files ∅.

(** Step 1: one node per analysed file. *)
Definition nodeOf (entry : string * ASTDependency) : FileNode :=
  let '(relPath, fa) := entry in
  {| n_id := relPath;
     n_name := fileName (file fa);
     n_type := inferFileType fa;
     n_absolutePath := absolutePath (file fa);
     n_loc := loc fa;
     n_isEntryFile := arrayIncludes ENTRY_FILE_PATTERNS (toLowerCase relPath);
     n_hasJSX := (0 <? length (components fa))%nat || (0 <? length (jsxElementsUsed fa))%nat;
     n_exportsCount := length (exports fa);
     n_importsCount := length (imports fa);
     n_componentsDeclared := length (components fa) |}.

(** The builder after step 2. *)
Definition buildEdges (analysis : AnalyzedProject) : Builder :=
  fold_left
    (fileStep analysis (buildComponentExports (analyzedFiles analysis))
                       (buildTypeExports (analyzedFiles analysis)))
    (analyzedFiles analysis) emptyBuilder.

Definition buildDependencyGraph (analysis : AnalyzedProject) : DependencyGraph :=
  let ns := map nodeOf (analyzedFiles analysis) in
  let b := buildEdges analysis in
  {| nodes := ns;
     edges := b_edges b;
     totalNodes := length ns;
     totalEdges := length (b_edges b);
     unresolvedImports := b_unresolvedImports b |}.

(** *** Vocabulary for the properties of the builder *)

(** The triple that identifies an edge. *)
Definition edgeKey (e : DependencyEdge) : string * string * EdgeType :=
  (e_from e, e_to e, e_type e).

(** The identifier under which an edge is remembered in [processedEdges]. *)
Definition edgeIdOf (e : DependencyEdge) : string :=
  edgeId (e_from e) (e_to e) (e_type e).

(** The remembered identifiers are exactly those of the edges, and no two
    edges have the same identifier. *)
Definition tracked (b : Builder) : Prop :=
  (forall id, id ∈ b_processedEdges b <-> In id (map edgeIdOf (b_edges b)))
  /\ NoDup (map edgeIdOf (b_edges b)).

(** An edge after a rediscovery: only [importedNames] may have grown, by
    one of the names the discovery refers to, and one that was not there. *)
Definition sameButNames (referenced : list string) (e e' : DependencyEdge) : Prop :=
  edgeKey e' = edgeKey e
  /\ e_weight e' = e_weight e
  /\ e_reason e' = e_reason e
  /\ (e_importedNames e' = e_importedNames e
      \/ exists name, In name referenced
                      /\ (~ In name (e_importedNames e))
                      /\ e_importedNames e' = app (e_importedNames e) [name]).

(** A first discovery: one edge is appended and its identifier remembered. *)
Definition created (b b' : Builder) : Prop :=
  exists e,
    b_edges b' = (b_edges b ++ [e])%list
    /\ b_processedEdges b' = {[ edgeIdOf e ]} ∪ b_processedEdges b
    /\ (edgeIdOf e ∉ b_processedEdges b)
    /\ e_from e <> e_to e.

(** Anything else: the edges keep their number, order, ends, kind and
    weight. *)
Definition refreshed (referenced : list string) (b b' : Builder) : Prop :=
  Forall2 (sameButNames referenced) (b_edges b) (b_edges b')
  /\ b_processedEdges b' = b_processedEdges b.

(** The names the rediscovery branch of 2.1 may push. *)
Definition referencedBy (imp : ImportDecl) : list string :=
  match imp_importedAs imp with
  | Some alias => [alias; imp_name imp]
  | None => [imp_name imp]
  end.

(** One iteration of one of the five inner loops of step 2, with the names
    its rediscovery branch may push: none for 2.3 and 2.4, which have no
    such branch. *)
Inductive discovery (analysis : AnalyzedProject)
  : list string -> Builder -> Builder -> Prop :=
| DiscoverImport sourcePath imp b :
    discovery analysis (referencedBy imp) b (importStep analysis sourcePath b imp)
| DiscoverRenderUsage sourcePath used b :
    discovery analysis [nc_name used] b
      (renderUsageStep (buildComponentExports (analyzedFiles analysis)) sourcePath b used)
| DiscoverContextUsage sourcePath contextAPI b :
    discovery analysis [] b (contextUsageStep analysis sourcePath b contextAPI)
| DiscoverHocUsage sourcePath comp b :
    discovery analysis [] b (hocUsageStep analysis sourcePath b comp)
| DiscoverTypeDependency sourcePath typeUsed b :
    discovery analysis [nc_name typeUsed] b
      (typeDependencyStep (buildTypeExports (analyzedFiles analysis)) sourcePath b typeUsed).

(** One iteration, whatever it refers to. *)
Definition buildStep (analysis : AnalyzedProject) (b b' : Builder) : Prop :=
  exists referenced, discovery analysis referenced b b'.

(** The builder states the loops of step 2 go through. *)
Definition reachable (analysis : AnalyzedProject) (b : Builder) : Prop :=
  rtc (buildStep analysis) emptyBuilder b.

(** The candidates of one base path in the order the loops of
    [resolveImportPath] probe them: the base path, then, extension by
    extension, the base path with the extension and the index file with
    that extension. *)
Definition candidatesInProbeOrder (basePath : string) : list string :=
  basePath ::
  flat_map
    (fun ext =>
       [ (if endsWith basePath ext then basePath else basePath ++ ext);
         PosixPath.joinPath [basePath; "index" ++ ext] ])
    COMMON_FILE_EXTENSIONS.

(** The candidates of one base path in the order the specification states
    them (the comparison side of the refinement): (a) the exact path, (b)
    the path with each known extension appended, (c) an index file with
    each known extension inside the path taken as a directory. *)
Definition candidatesInSpecOrder (basePath : string) : list string :=
  basePath ::
  app (map (fun ext => basePath ++ ext) COMMON_FILE_EXTENSIONS)
      (map (fun ext => PosixPath.joinPath [basePath; "index" ++ ext])
           COMMON_FILE_EXTENSIONS).

(** First match in a list of candidates. *)
Definition firstKnown (files : AnalyzedFileMap) (candidates : list string) : option string :=
  List.find (hasEntry files) candidates.

(** [imp.importedAs || imp.name] *)
Definition importedNameOf (imp : ImportDecl) : string :=
  orElse (imp_importedAs imp) (imp_name imp).

(** The base path of a relative specifier: the specifier resolved against
    the directory of the importing file, relative to the project root. *)
Definition relativeBasePath (fromFilePath importSource projectRootPath : string) : string :=
  PosixPath.relative cwd projectRootPath
    (PosixPath.resolve cwd [projectRootPath; PosixPath.dirname fromFilePath; importSource]).

(** Some edge with triple [k] lists [name]. *)
Definition carries (k : string * string * EdgeType) (name : string) (b : Builder) : Prop :=
  exists e, In e (b_edges b) /\ edgeKey e = k /\ In name (e_importedNames e).

(** A relationship is discovered again by 2.1, 2.2 or 2.5: when the
    iteration runs, an edge with its triple is already there.  The name the
    discovery refers to is [imp.importedAs || imp.name] for an import,
    provided it is not empty, and the name of the rendered component or of
    the used type. *)
Inductive rediscovery (analysis : AnalyzedProject)
  : string * string * EdgeType -> string -> Builder -> Builder -> Prop :=
| RediscoverImport sourcePath imp target b :
    resolveImportPath sourcePath (imp_path imp) (analyzedFiles analysis)
                      (rootPath analysis) = Some target ->
    truthy target = true ->
    target <> sourcePath ->
    (exists e, In e (b_edges b)
               /\ edgeKey e = (sourcePath, target, importEdgeType imp)) ->
    truthy (importedNameOf imp) = true ->
    rediscovery analysis (sourcePath, target, importEdgeType imp) (importedNameOf imp)
      b (importStep analysis sourcePath b imp)
| RediscoverRenderUsage sourcePath used target b :
    buildComponentExports (analyzedFiles analysis) !! nc_name used = Some target ->
    truthy target = true ->
    target <> sourcePath ->
    (exists e, In e (b_edges b) /\ edgeKey e = (sourcePath, target, RenderUsage)) ->
    rediscovery analysis (sourcePath, target, RenderUsage) (nc_name used)
      b (renderUsageStep (buildComponentExports (analyzedFiles analysis)) sourcePath b used)
| RediscoverTypeDependency sourcePath typeUsed target b :
    buildTypeExports (analyzedFiles analysis) !! nc_name typeUsed = Some target ->
    truthy target = true ->
    target <> sourcePath ->
    (exists e, In e (b_edges b) /\ edgeKey e = (sourcePath, target, TypeDependency)) ->
    rediscovery analysis (sourcePath, target, TypeDependency) (nc_name typeUsed)
      b (typeDependencyStep (buildTypeExports (analyzedFiles analysis)) sourcePath b
           typeUsed).

(** No edge of the builder joins a file to itself. *)
Definition loopFree (b : Builder) : Prop :=
  Forall (fun e => e_from e <> e_to e) (b_edges b).

(** [buildWorkspaceDependencyGraphs]: one graph per project, in order. *)
Definition buildWorkspaceDependencyGraphs (analyzedProjects : list AnalyzedProject)
  : list (AnalyzedProject * DependencyGraph) :=
  map (fun project => (project, buildDependencyGraph project)) analyzedProjects.

(** A property of edges that a rediscovery cannot break. *)
Definition keptByRediscovery (Q : DependencyEdge -> Prop) : Prop :=
  forall referenced e e', sameButNames referenced e e' -> Q e -> Q e'.

(** The edge pushed by the first discovery of an import. *)
Definition importEdge (sourcePath target : string) (imp : ImportDecl) : DependencyEdge :=
  {| e_from := sourcePath; e_to := target; e_type := importEdgeType imp;
     e_weight := None; e_importedNames := [importedNameOf imp]; e_reason := None |}.

(** The edge pushed by the first discovery of a usage (2.2 and 2.5). *)
Definition usageEdge (t : EdgeType) (reasonOf : string -> string)
    (sourcePath target : string) (used : NameCount) : DependencyEdge :=
  {| e_from := sourcePath; e_to := target; e_type := t;
     e_weight := Some (nc_count used); e_importedNames := [nc_name used];
     e_reason := Some (reasonOf (nc_name used)) |}.

(** The edge pushed by the first discovery of a definition (2.3 and 2.4). *)
Definition definitionEdge (t : EdgeType) (name reason : string)
    (sourcePath : string) (target : ASTDependency) : DependencyEdge :=
  {| e_from := sourcePath; e_to := relativePath (file target); e_type := t;
     e_weight := None; e_importedNames := [name]; e_reason := Some reason |}.

(** The entry pushed for an import that stays unresolved. *)
Definition unresolvedEntry (sourcePath : string) (imp : ImportDecl) : UnresolvedImport :=
  {| u_from := sourcePath; u_importPath := imp_path imp;
     u_reason := "Could not resolve to an internal project file." |}.

(** [!resolvedTargetPath]: the specifier resolves to nothing, or to the
    empty path. *)
Definition unresolvable (analysis : AnalyzedProject) (sourcePath : string)
    (imp : ImportDecl) : Prop :=
  match resolveImportPath sourcePath (imp_path imp) (analyzedFiles analysis)
          (rootPath analysis) with
  | Some target => truthy target = false
  | None => True
  end.

(** The guards on the way to [unresolvedImports.push] in 2.1:
    [!resolvedTargetPath], a specifier that is not bare, and
    [sourcePath !== imp.path]. *)
Definition reportedUnresolved (analysis : AnalyzedProject) (sourcePath : string)
    (imp : ImportDecl) : bool :=
  negb (truthyOpt (resolveImportPath sourcePath (imp_path imp) (analyzedFiles analysis)
                     (rootPath analysis)))
  && negb (isBareSpecifier (imp_path imp))
  && negb (String.eqb sourcePath (imp_path imp)).

(** The unresolved imports of one file, one entry per reported import. *)
Definition unresolvedOf (analysis : AnalyzedProject) (entry : string * ASTDependency)
  : list UnresolvedImport :=
  map (unresolvedEntry (fst entry))
      (List.filter (reportedUnresolved analysis (fst entry)) (imports (snd entry))).

(** What an edge can point to: a key of the analysed files, the recorded
    relative path of an analysed file, or a property name that the map
    inherits from [Object.prototype]. *)
Definition knownTarget (files : AnalyzedFileMap) (to : string) : Prop :=
  In to (map fst files)
  \/ In to (map (fun kv => relativePath (file (snd kv))) files)
  \/ In to objectPrototypeKeys.

(** Each kind of edge with the optional fields its block writes. *)
Definition wellKinded (e : DependencyEdge) : Prop :=
  match e_type e with
  | Import | DynamicImport => e_weight e = None /\ e_reason e = None
  | ContextUsage | HocUsage => e_weight e = None /\ e_reason e <> None
  | RenderUsage | TypeDependency => e_weight e <> None /\ e_reason e <> None
  | Reference => False
  end.

(** The names of an edge: at least one, none twice. *)
Definition namesListed (e : DependencyEdge) : Prop :=
  e_importedNames e <> [] /\ NoDup (e_importedNames e).

(** An unresolved entry with the import it reports. *)
Definition reportsImport (analysis : AnalyzedProject) (u : UnresolvedImport) : Prop :=
  exists fa imp,
    In (u_from u, fa) (analyzedFiles analysis)
    /\ In imp (imports fa)
    /\ u = unresolvedEntry (u_from u) imp
    /\ isBareSpecifier (imp_path imp) = false
    /\ u_from u <> imp_path imp
    /\ unresolvable analysis (u_from u) imp.

End WithWorkingDirectory.

End DependencyGraphBuilder.

(** ** [logic/merger]: interfaces, [mergeUtils.ts] and [deepSmartMerge.ts]

    Babel is outside the repository: the type of syntax trees, the parser,
    the two printers ([generate(ast)] and [generate(ast, {compact: true})])
    and the constructor of the one-statement placeholder file are section
    variables.  The parser and the printers can throw.  [mergeTimestamp] is
    a wall-clock reading and is left out. *)

Module Merger.
Import JsString Analysis Conflict.

Inductive MergeStatus := StMerged | StSkippedConflict | StError | StMergedWithWarnings.

Inductive MergeStrategy :=
| AutoSelectDominant
| AutoCombineDistinct
| ManualInterventionRequired
| SkippedDueToCriticalConflict
| StrategyError.

Record LogEntry := { log_type : string; log_details : string }.

(** What the merge step reads from a normalized entity.
    [NormalizedEntityBase] declares [id], [name], [unifiedPath] and
    [normalizedCode], and [runNormalizeStep] sets these and no other
    property that is read here.  [isShared], [originalPaths] and [loc] are
    read all the same: [None] is the [undefined] that the read of an absent
    property gives. *)
Record NormalizedEntity := {
  ne_id : string;
  ne_name : string;
  ne_unifiedPath : string;
  ne_normalizedCode : string;
  ne_isShared : option bool;
  ne_originalPaths : option (list string);
  ne_loc : option Z
}.

(** The value of an arithmetic expression: a number, or [NaN] once
    [undefined] has entered a sum. *)
Inductive JsNumber := Num (q : Q) | NaN.

(** [a + b] where [b] may be [undefined]. *)
Definition jsPlus (a : JsNumber) (b : option JsNumber) : JsNumber :=
  match a, b with
  | Num x, Some (Num y) => Num (Qplus x y)
  | _, _ => NaN
  end.

(** The message of the [TypeError] that the read of a property of
    [undefined] raises, in the wording of V8. *)
Definition undefinedRead (property : string) : string :=
  "Cannot read properties of undefined (reading '" ++ property ++ "')".

Section WithBabel.

Context {Ast : Type}.
(** [parser.parse(code, {plugins, ...})]; [None] when it throws. *)
Variable parse : string -> list string -> option Ast.
(** [generate(ast).code] and [generate(ast, {compact: true}).code]: the
    code, or the message of the error the generator throws. *)
Variable generate : Ast -> string + string.
Variable generateCompact : Ast -> string + string.
(** [t.file(t.program([t.expressionStatement(t.stringLiteral(text))]))] *)
Variable placeholder : string -> Ast.

(** The interface [FinalMergedEntity] as it is declared; the render step
    takes its input at this type. *)
Record FinalMergedEntity := {
  f_id : string;
  f_name : string;
  f_unifiedPath : string;
  f_mergedAST : Ast;
  f_status : MergeStatus;
  f_originalPaths : list (option string);
  f_loc : Q;
  f_resolvedConflicts : option (list MergeConflict);
  f_needsManualReview : bool;
  f_mergedFromCount : nat;
  f_mergeStrategyUsed : option MergeStrategy;
  f_mergeTransformationLog : option (list LogEntry);
  f_mergeQualityScore : option Z
}.

(** The objects that [deepSmartMerge] and [runMergeStep] build.  They are
    annotated as [FinalMergedEntity], but [originalPaths] and [loc] are
    copied or computed from properties of the normalized entities that can
    be absent: [me_originalPaths] is [None] and [me_loc] is [None] when the
    object holds [undefined] there. *)
Record MergedEntity := {
  me_id : string;
  me_name : string;
  me_unifiedPath : string;
  me_mergedAST : Ast;
  me_status : MergeStatus;
  me_originalPaths : option (list (option string));
  me_loc : option JsNumber;
  me_resolvedConflicts : option (list MergeConflict);
  me_needsManualReview : bool;
  me_mergedFromCount : nat;
  me_mergeStrategyUsed : option MergeStrategy;
  me_mergeTransformationLog : option (list LogEntry);
  me_mergeQualityScore : option Z
}.

(** What awaiting [deepSmartMerge] gives: the entity or [null] it resolves
    to, or the message of the error it rejects with. *)
Inductive Outcome :=
| Returned (r : option MergedEntity)
| Raised (message : string).

(** *** [mergeUtils.ts] *)

Definition getBabelPlugins (extension : string) : list string :=
  let plugins :=
    ["jsx"; "classProperties"; "objectRestSpread"; "exportDefaultFrom";
     "exportNamespaceFrom"; "dynamicImport"; "optionalChaining";
     "nullishCoalescingOperator"; "decorators-legacy"; "estree"; "importAssertions"] in
  if String.eqb extension ".ts" || String.eqb extension ".tsx"
  then plugins ++ ["typescript"]
  else if String.eqb extension ".flow" || String.eqb extension ".flow.js"
  then plugins ++ ["flow"]
  else plugins.

(** [parseCodeToAst]: the tree, or the message of the error it throws. *)
Definition parseCodeToAst (code filePath fileExtension : string) : Ast + string :=
  match parse code (getBabelPlugins fileExtension) with
  | Some ast => inl ast
  | None => inr ("Failed to parse AST for " ++ filePath)
  end.

(** [mergeAsts]: the placeholder of the source returns its first argument. *)
Definition mergeAsts (baseAst incomingAst : Ast) : Ast := baseAst.

(** *** [deepSmartMerge.ts] *)

(** The locals written while the warnings are folded in. *)
Record Scoring := {
  sc_resolvedConflicts : list MergeConflict;
  sc_log : list LogEntry;
  sc_score : Z
}.

Definition initialScoring : Scoring :=
  {| sc_resolvedConflicts := []; sc_log := []; sc_score := 100 |}.

Definition autoResolved (w : MergeConflict) : MergeConflict :=
  {| c_type := c_type w; severity := severity w;
     message := "Auto-resolved: " ++ message w;
     details := details w; relatedFiles := relatedFiles w |}.

(** The body of [autoResolvableWarnings.forEach]. *)
Definition foldWarning (s : Scoring) (warning : MergeConflict) : Scoring :=
  {| sc_resolvedConflicts := sc_resolvedConflicts s ++ [autoResolved warning];
     sc_log := sc_log s ++ [{| log_type := "auto-resolve-conflict";
                               log_details := message warning |}];
     sc_score := sc_score s - 5 |}.

(** The block guarded by [autoResolvableWarnings.length > 0]: the score
    the merge starts from. *)
Definition foldWarnings (autoResolvableWarnings : list MergeConflict) : Scoring :=
  if (0 <? length autoResolvableWarnings)%nat then
    let s := fold_left foldWarning autoResolvableWarnings initialScoring in
    if sc_score s <? 0
    then {| sc_resolvedConflicts := sc_resolvedConflicts s; sc_log := sc_log s; sc_score := 0 |}
    else s
  else initialScoring.

(** [originalPaths[0]] of an array. *)
Definition firstPath (originalPaths : list string) : option string := head originalPaths.

(** The locals of the [try] block. *)
Record Combining := {
  cb_finalAst : Ast;
  cb_log : list LogEntry;
  cb_score : Z
}.

(** A [throw] inside the [try] block: the error message, and the
    transformation log as it stands (the [catch] handler returns it). *)
Record Thrown := { th_message : string; th_log : list LogEntry }.

(** [originalAnalyzedFileMap.get(p)]; the map has no entry for
    [undefined]. *)
Definition lookupAnalysis (m : gmap string ASTDependency) (p : option string)
  : option ASTDependency :=
  match p with
  | Some k => m !! k
  | None => None
  end.

(** One iteration of the loop over [entitiesToMerge[1..]]. *)
Definition combineStep (originalAnalyzedFileMap : gmap string ASTDependency)
    (acc : Combining + Thrown) (incomingEntity : NormalizedEntity) : Combining + Thrown :=
  match acc with
  | inr t => inr t
  | inl c =>
      match ne_originalPaths incomingEntity with
      | None => inr {| th_message := undefinedRead "0"; th_log := cb_log c |}
      | Some originalPaths =>
          match lookupAnalysis originalAnalyzedFileMap (firstPath originalPaths) with
          | None =>
              inl {| cb_finalAst := cb_finalAst c;
                     cb_log := cb_log c ++
                       [{| log_type := "skipped-incoming-entity";
                           log_details := "Analysis not found for "
                                          ++ default "undefined" (firstPath originalPaths) |}];
                     cb_score := cb_score c - 10 |}
          | Some incomingOriginalAnalysis =>
              match parseCodeToAst (ne_normalizedCode incomingEntity)
                      (absolutePath (file incomingOriginalAnalysis))
                      (extension (file incomingOriginalAnalysis)) with
              | inr msg => inr {| th_message := msg; th_log := cb_log c |}
              | inl incomingAst =>
                  let tempMergedAst := mergeAsts (cb_finalAst c) incomingAst in
                  match generateCompact (cb_finalAst c) with
                  | inr msg => inr {| th_message := msg; th_log := cb_log c |}
                  | inl finalCode =>
                      match generateCompact tempMergedAst with
                      | inr msg => inr {| th_message := msg; th_log := cb_log c |}
                      | inl tempCode =>
                          if negb (String.eqb finalCode tempCode) then
                            inl {| cb_finalAst := tempMergedAst;
                                   cb_log := cb_log c ++
                                     [{| log_type := "ast-combined";
                                         log_details :=
                                           "Combined with " ++ ne_name incomingEntity
                                           ++ " from "
                                           ++ default "undefined" (firstPath originalPaths) |}];
                                   cb_score := cb_score c - 2 |}
                          else inl c
                      end
                  end
              end
          end
      end
  end.

(** [code.split('\n').length] *)
Definition lineCount (code : string) : nat :=
  length (split (ascii_of_nat 10) code).

(** [entitiesToMerge.map(e => e.originalPaths[0])]; [None] when the
    callback throws, which it does at the first entity without
    [originalPaths]. *)
Fixpoint firstPaths (entitiesToMerge : list NormalizedEntity) : option (list (option string)) :=
  match entitiesToMerge with
  | [] => Some []
  | e :: rest =>
      match ne_originalPaths e with
      | None => None
      | Some originalPaths =>
          match firstPaths rest with
          | None => None
          | Some paths => Some (firstPath originalPaths :: paths)
          end
      end
  end.

(** [entitiesToMerge.reduce((sum, e) => sum + e.loc, 0)]; [None] is [NaN]. *)
Definition totalEntityLoc (entitiesToMerge : list NormalizedEntity) : option Z :=
  fold_left (fun sum e =>
               match sum, ne_loc e with
               | Some s, Some l => Some (s + l)
               | _, _ => None
               end)
            entitiesToMerge (Some 0).

(** [... / entitiesToMerge.length], on a non-empty array. *)
Definition averageEntityLoc (entitiesToMerge : list NormalizedEntity) : JsNumber :=
  match totalEntityLoc entitiesToMerge with
  | Some total => Num (Qmake total (Pos.of_nat (length entitiesToMerge)))
  | None => NaN
  end.

(** The entity returned by the [catch] handler, once [originalPaths] has
    been computed. *)
Definition errorEntity (entityName : string) (entitiesToMerge : list NormalizedEntity)
    (first : NormalizedEntity) (paths : list (option string)) (t : Thrown) : MergedEntity :=
  {| me_id := ne_id first;
     me_name := entityName;
     me_unifiedPath := ne_unifiedPath first;
     me_mergedAST := placeholder ("// Error during merge for " ++ entityName ++ ": "
                                  ++ th_message t);
     me_status := StError;
     me_originalPaths := Some paths;
     me_loc := Some (averageEntityLoc entitiesToMerge);
     me_resolvedConflicts := None;
     me_needsManualReview := true;
     me_mergedFromCount := length entitiesToMerge;
     me_mergeStrategyUsed := Some StrategyError;
     me_mergeTransformationLog := Some (th_log t);
     me_mergeQualityScore := Some 0 |}.

(** The [try] block: the dominant entity is parsed, the others are
    combined into it in order. *)
Definition combineAll (originalAnalyzedFileMap : gmap string ASTDependency)
    (dominantEntity : NormalizedEntity) (incoming : list NormalizedEntity)
    (s : Scoring) : Combining + Thrown :=
  match ne_originalPaths dominantEntity with
  | None => inr {| th_message := undefinedRead "0"; th_log := sc_log s |}
  | Some originalPaths =>
      match lookupAnalysis originalAnalyzedFileMap (firstPath originalPaths) with
      | None =>
          inr {| th_message := "Original analysis for dominant entity "
                               ++ ne_name dominantEntity ++ " ("
                               ++ default "undefined" (firstPath originalPaths)
                               ++ ") not found.";
                 th_log := sc_log s |}
      | Some originalFileAnalysis =>
          match parseCodeToAst (ne_normalizedCode dominantEntity)
                  (absolutePath (file originalFileAnalysis))
                  (extension (file originalFileAnalysis)) with
          | inr msg => inr {| th_message := msg; th_log := sc_log s |}
          | inl ast =>
              fold_left (combineStep originalAnalyzedFileMap) incoming
                (inl {| cb_finalAst := ast; cb_log := sc_log s; cb_score := sc_score s |})
          end
      end
  end.

(** [deepSmartMerge].  The [catch] handler maps the entities to their
    first original paths again, so it throws in its turn when an entity has
    none; the final [generate] is called after the [try]. *)
Definition deepSmartMerge (entityName : string) (entitiesToMerge : list NormalizedEntity)
    (originalAnalyzedFileMap : gmap string ASTDependency)
    (autoResolvableWarnings : list MergeConflict) : Outcome :=
  match entitiesToMerge with
  | [] => Returned None
  | dominantEntity :: incoming =>
      let s := foldWarnings autoResolvableWarnings in
      let resolvedConflicts := sc_resolvedConflicts s in
      match combineAll originalAnalyzedFileMap dominantEntity incoming s with
      | inr t =>
          match firstPaths entitiesToMerge with
          | None => Raised (undefinedRead "0")
          | Some paths =>
              Returned (Some (errorEntity entityName entitiesToMerge dominantEntity paths t))
          end
      | inl c =>
          match generate (cb_finalAst c) with
          | inr msg => Raised msg
          | inl finalMergedCode =>
              match firstPaths entitiesToMerge with
              | None => Raised (undefinedRead "0")
              | Some paths =>
                  Returned (Some
                    {| me_id := ne_id dominantEntity;
                       me_name := entityName;
                       me_unifiedPath := ne_unifiedPath dominantEntity;
                       me_mergedAST := cb_finalAst c;
                       me_status := if (0 <? length resolvedConflicts)%nat
                                    then StMergedWithWarnings else StMerged;
                       me_originalPaths := Some paths;
                       me_loc := Some (Num (inject_Z (Z.of_nat (lineCount finalMergedCode))));
                       me_resolvedConflicts := if (0 <? length resolvedConflicts)%nat
                                               then Some resolvedConflicts else None;
                       me_needsManualReview := (cb_score c <? 70)
                                               || (0 <? length resolvedConflicts)%nat;
                       me_mergedFromCount := length entitiesToMerge;
                       me_mergeStrategyUsed :=
                         Some (if (1 <? length entitiesToMerge)%nat
                               then AutoCombineDistinct else AutoSelectDominant);
                       me_mergeTransformationLog := if (0 <? length (cb_log c))%nat
                                                    then Some (cb_log c) else None;
                       me_mergeQualityScore := Some (cb_score c) |})
              end
          end
      end
  end.

(** *** Vocabulary for the properties of the merge *)

(** The entity carries an [originalPaths] array. *)
Definition carriesPaths (e : NormalizedEntity) : bool :=
  match ne_originalPaths e with
  | Some _ => true
  | None => false
  end.

(** The original analysis of a member: the entry of the file map under its
    first original path. *)
Definition analysisOf (fileMap : gmap string ASTDependency) (e : NormalizedEntity)
  : option ASTDependency :=
  match ne_originalPaths e with
  | Some originalPaths => lookupAnalysis fileMap (firstPath originalPaths)
  | None => None
  end.

(** The analysis of a member is not on record. *)
Definition unanalysed (fileMap : gmap string ASTDependency) (e : NormalizedEntity) : bool :=
  match analysisOf fileMap e with
  | Some _ => false
  | None => true
  end.

(** The later members whose original analysis is not on record. *)
Definition missingAnalyses (fileMap : gmap string ASTDependency)
    (incoming : list NormalizedEntity) : nat :=
  length (List.filter (unanalysed fileMap) incoming).

(** The tree of a member: the parse of its code, when its analysis is on
    record and the parser accepts the code. *)
Definition treeOf (fileMap : gmap string ASTDependency) (e : NormalizedEntity) : option Ast :=
  match analysisOf fileMap e with
  | Some a =>
      match parseCodeToAst (ne_normalizedCode e) (absolutePath (file a))
              (extension (file a)) with
      | inl ast => Some ast
      | inr _ => None
      end
  | None => None
  end.

(** The analysis of a member is on record and its code does not parse:
    [parseCodeToAst] throws for it. *)
Definition parseFails (fileMap : gmap string ASTDependency) (e : NormalizedEntity) : bool :=
  negb (unanalysed fileMap e)
  && match treeOf fileMap e with
     | Some _ => false
     | None => true
     end.

(** The compact printer throws on the tree of the first member. *)
Definition compactFails (fileMap : gmap string ASTDependency)
    (dominantEntity : NormalizedEntity) : bool :=
  match treeOf fileMap dominantEntity with
  | Some ast =>
      match generateCompact ast with
      | inr _ => true
      | inl _ => false
      end
  | None => false
  end.

(** A later member with an analysis on record stops the loop over the
    members: its code does not parse, or the compact printer throws on the
    tree it is compared with. *)
Definition stops (fileMap : gmap string ASTDependency) (ast : Ast)
    (e : NormalizedEntity) : bool :=
  negb (unanalysed fileMap e)
  && (match treeOf fileMap e with Some _ => false | None => true end
      || match generateCompact ast with inr _ => true | inl _ => false end).

(** The merge of a group fails: the analysis of the first member is not on
    record, or the code of a member with an analysis on record does not
    parse, or the compact printer throws on the first member's tree when
    it is compared for a later member with an analysis on record. *)
Definition mergeFails (fileMap : gmap string ASTDependency)
    (dominantEntity : NormalizedEntity) (incoming : list NormalizedEntity) : bool :=
  unanalysed fileMap dominantEntity
  || existsb (parseFails fileMap) (dominantEntity :: incoming)
  || (existsb (fun e => negb (unanalysed fileMap e)) incoming
      && compactFails fileMap dominantEntity).

End WithBabel.

End Merger.

(** ** [mergeStep.ts]

    The step awaits [deepSmartMerge] inside a [try]; the collaborator is a
    section variable whose outcome is a value, [null], or an exception.
    The two filters that pick the conflicts of a group run before that
    [try]: an exception of their callback leaves the step.  [mc_calls] is a
    ghost log: the group keys for which the collaborator was invoked, in
    order.  Durations are wall-clock readings and are left out. *)

Module MergeStep.
Import JsString Analysis Conflict Merger.

Inductive ValidationStatus := VPassed | VFailed | VSkipped | VNotApplicable.

Record DeepMergeSummary := {
  totalEntitiesAttemptedToMerge : nat;
  totalMergedSuccessfully : nat;
  totalSkippedDueToConflicts : nat;
  totalFailedDuringMergeProcess : nat;
  totalLinesOfCodeMerged : JsNumber;
  totalAutoResolvedConflicts : nat;
  autoResolvedConflictsByType : OrderedMap.t nat;
  entitiesWithWarningsAfterMerge : list string;
  postMergeLintStatus : option ValidationStatus;
  postMergeTypeCheckStatus : option ValidationStatus
}.

Definition conflictTypeName (t : ConflictType) : string :=
  match t with
  | NameCollision => "name-collision"
  | RoleMismatch => "role-mismatch"
  | ComponentStructuralDifference => "component-structural-difference"
  | ComponentHookProfileMismatch => "component-hook-profile-mismatch"
  | ComponentJsxProfileMismatch => "component-jsx-profile-mismatch"
  | ComponentHocMismatch => "component-hoc-mismatch"
  | UtilityLocDifference => "utility-loc-difference"
  | ContextTypeMismatch => "context-type-mismatch"
  | OtherConflict => "other"
  end.

Record MergeStepInput := {
  in_components : list NormalizedEntity;
  in_hooks : list NormalizedEntity;
  in_utilities : list NormalizedEntity;
  in_contexts : list NormalizedEntity;
  in_analyzedWorkspaces : list AnalyzedProject;
  in_mergeConflicts : MergeConflictReport
}.

(** [groupNormalizedEntities]: groups keyed by [entity.id], in first-seen
    order. *)
Definition groupNormalizedEntities
    (normalizedComponents normalizedHooks normalizedUtilities normalizedContexts
       : list NormalizedEntity) : OrderedMap.t (list NormalizedEntity) :=
  fold_left
    (fun grouped entity =>
       let grouped' :=
         if negb (OrderedMap.has grouped (ne_id entity))
         then OrderedMap.set grouped (ne_id entity) []
         else grouped in
       OrderedMap.set grouped' (ne_id entity)
         (default [] (OrderedMap.get grouped' (ne_id entity)) ++ [entity])%list)
    (normalizedComponents ++ normalizedHooks ++ normalizedUtilities ++ normalizedContexts)
    [].

(** [originalAnalyzedFileMap]: later projects overwrite earlier ones. *)
Definition buildOriginalAnalyzedFileMap (workspaces : list AnalyzedProject)
  : gmap string ASTDependency :=
  fold_left
    (fun m ws => fold_left (fun m' '(relPath, astDep) => <[relPath := astDep]> m')
                           (analyzedFiles ws) m)
    workspaces ∅.

(** [originalPaths.some(op => c.relatedFiles.includes(op))] on an array. *)
Definition touches (originalPaths : list string) (c : MergeConflict) : bool :=
  existsb (fun op => arrayIncludes (relatedFiles c) op) originalPaths.

(** The callback [c => entities[0].originalPaths.some(...)] of the two
    filters; [None] when it throws: [entities[0]] has no [originalPaths]. *)
Definition concerns (first : NormalizedEntity) (c : MergeConflict) : option bool :=
  match ne_originalPaths first with
  | Some originalPaths => Some (touches originalPaths c)
  | None => None
  end.

(** [array.filter(callback)]: the callback runs on each element in turn,
    and not at all on an empty array; [None] when it throws. *)
Fixpoint filterBy {A : Type} (callback : A -> option bool) (array : list A)
  : option (list A) :=
  match array with
  | [] => Some []
  | x :: rest =>
      match callback x with
      | None => None
      | Some keep =>
          match filterBy callback rest with
          | None => None
          | Some kept => Some (if keep then x :: kept else kept)
          end
      end
  end.

(** *** Vocabulary for the properties of the step *)

(** The conflicts of a list that touch an original path of an entity; none
    when the entity carries no original paths. *)
Definition conflictsOf (first : NormalizedEntity) (conflicts : list MergeConflict)
  : list MergeConflict :=
  match ne_originalPaths first with
  | Some originalPaths => List.filter (touches originalPaths) conflicts
  | None => []
  end.

(** The test that sends a group down the skip branch. *)
Definition isCritical (report : MergeConflictReport) (first : NormalizedEntity) : bool :=
  (0 <? length (conflictsOf first (criticalErrors report)))%nat.

(** The entities handed to the step, in the order they are grouped. *)
Definition entitiesOf (input : MergeStepInput) : list NormalizedEntity :=
  (in_components input ++ in_hooks input ++ in_utilities input ++ in_contexts input)%list.

(** The entities with a given id, in input order. *)
Definition membersOf (k : string) (all : list NormalizedEntity) : list NormalizedEntity :=
  List.filter (fun e => String.eqb (ne_id e) k) all.

(** One group per id, in order of first appearance. *)
Definition groupsInOrder (all : list NormalizedEntity)
  : OrderedMap.t (list NormalizedEntity) :=
  map (fun k => (k, membersOf k all)) (ResolveAndMergeStep.uniqueStrings (map ne_id all)).

(** The skip test on a group: it reads the first member. *)
Definition isCriticalGroup (report : MergeConflictReport)
    (g : string * list NormalizedEntity) : bool :=
  match snd g with
  | first :: _ => isCritical report first
  | [] => false
  end.

(** The first member of a group carries no [originalPaths]. *)
Definition lacksPaths (g : string * list NormalizedEntity) : bool :=
  match snd g with
  | first :: _ => negb (carriesPaths first)
  | [] => false
  end.

(** The report lists a critical error or a warning. *)
Definition listsConflicts (report : MergeConflictReport) : bool :=
  (0 <? length (criticalErrors report))%nat || (0 <? length (warnings report))%nat.

(** The sum of the counts of a table. *)
Definition tableTotal (m : OrderedMap.t nat) : nat := list_sum (map snd m).

(** The last entry of a key in the files of all workspaces, read in order. *)
Definition lastAnalysis (workspaces : list AnalyzedProject) (k : string)
  : option ASTDependency :=
  option_map snd
    (List.find (fun kv => String.eqb (fst kv) k) (rev (flat_map analyzedFiles workspaces))).

Section WithCollaborator.

Context {Ast : Type}.
Variable placeholder : string -> Ast.

Abbreviation Final := (@MergedEntity Ast).

Variable merge :
  string -> list NormalizedEntity -> gmap string ASTDependency -> list MergeConflict
  -> @Outcome Ast.

(** The locals of [runMergeStep] that its loop writes. *)
Record MergeCursor := {
  mc_final : list Final;
  mc_summary : DeepMergeSummary;
  mc_calls : list string
}.

Definition withSummary (f : DeepMergeSummary -> DeepMergeSummary) (e : option Final)
    (call : option string) (c : MergeCursor) : MergeCursor :=
  {| mc_final := mc_final c ++ match e with Some x => [x] | None => [] end;
     mc_summary := f (mc_summary c);
     mc_calls := mc_calls c ++ match call with Some k => [k] | None => [] end |}.

Definition skipped (s : DeepMergeSummary) : DeepMergeSummary :=
  {| totalEntitiesAttemptedToMerge := totalEntitiesAttemptedToMerge s;
     totalMergedSuccessfully := totalMergedSuccessfully s;
     totalSkippedDueToConflicts := S (totalSkippedDueToConflicts s);
     totalFailedDuringMergeProcess := totalFailedDuringMergeProcess s;
     totalLinesOfCodeMerged := totalLinesOfCodeMerged s;
     totalAutoResolvedConflicts := totalAutoResolvedConflicts s;
     autoResolvedConflictsByType := autoResolvedConflictsByType s;
     entitiesWithWarningsAfterMerge := entitiesWithWarningsAfterMerge s;
     postMergeLintStatus := postMergeLintStatus s;
     postMergeTypeCheckStatus := postMergeTypeCheckStatus s |}.

Definition failed (s : DeepMergeSummary) : DeepMergeSummary :=
  {| totalEntitiesAttemptedToMerge := totalEntitiesAttemptedToMerge s;
     totalMergedSuccessfully := totalMergedSuccessfully s;
     totalSkippedDueToConflicts := totalSkippedDueToConflicts s;
     totalFailedDuringMergeProcess := S (totalFailedDuringMergeProcess s);
     totalLinesOfCodeMerged := totalLinesOfCodeMerged s;
     totalAutoResolvedConflicts := totalAutoResolvedConflicts s;
     autoResolvedConflictsByType := autoResolvedConflictsByType s;
     entitiesWithWarningsAfterMerge := entitiesWithWarningsAfterMerge s;
     postMergeLintStatus := postMergeLintStatus s;
     postMergeTypeCheckStatus := postMergeTypeCheckStatus s |}.

(** The bookkeeping of a [merged] / [merged-with-warnings] result. *)
Definition succeeded (r : Final) (s : DeepMergeSummary) : DeepMergeSummary :=
  let resolved := default [] (me_resolvedConflicts r) in
  {| totalEntitiesAttemptedToMerge := totalEntitiesAttemptedToMerge s;
     totalMergedSuccessfully := S (totalMergedSuccessfully s);
     totalSkippedDueToConflicts := totalSkippedDueToConflicts s;
     totalFailedDuringMergeProcess := totalFailedDuringMergeProcess s;
     totalLinesOfCodeMerged := jsPlus (totalLinesOfCodeMerged s) (me_loc r);
     totalAutoResolvedConflicts := (totalAutoResolvedConflicts s + length resolved)%nat;
     autoResolvedConflictsByType :=
       fold_left
         (fun m conf =>
            OrderedMap.set m (conflictTypeName (c_type conf))
              (S (default O (OrderedMap.get m (conflictTypeName (c_type conf))))))
         resolved (autoResolvedConflictsByType s);
     entitiesWithWarningsAfterMerge :=
       match me_status r with
       | StMergedWithWarnings => entitiesWithWarningsAfterMerge s ++ [me_id r]
       | _ => if me_needsManualReview r
              then entitiesWithWarningsAfterMerge s ++ [me_id r]
              else entitiesWithWarningsAfterMerge s
       end;
     postMergeLintStatus := postMergeLintStatus s;
     postMergeTypeCheckStatus := postMergeTypeCheckStatus s |}.

(** [entities[0].originalPaths] and [entities[0].loc], as the objects
    built by the step copy them. *)
Definition copiedPaths (first : NormalizedEntity) : option (list (option string)) :=
  option_map (map Some) (ne_originalPaths first).

Definition copiedLoc (first : NormalizedEntity) : option JsNumber :=
  option_map (fun l => Num (inject_Z l)) (ne_loc first).

(** The entity pushed when a group is skipped for its critical conflicts. *)
Definition skippedEntity (unifiedId : string) (entities : list NormalizedEntity)
    (first : NormalizedEntity) : Final :=
  {| me_id := unifiedId;
     me_name := ne_name first;
     me_unifiedPath := ne_unifiedPath first;
     me_mergedAST := placeholder ("// Merge skipped for " ++ ne_name first
                                  ++ " due to critical conflicts.");
     me_status := StSkippedConflict;
     me_originalPaths := copiedPaths first;
     me_loc := copiedLoc first;
     me_resolvedConflicts := None;
     me_needsManualReview := true;
     me_mergedFromCount := length entities;
     me_mergeStrategyUsed := Some SkippedDueToCriticalConflict;
     me_mergeTransformationLog := Some [];
     me_mergeQualityScore := None |}.

(** The entity pushed when the collaborator returns [null] or throws. *)
Definition failedEntity (text : string) (unifiedId : string)
    (entities : list NormalizedEntity) (first : NormalizedEntity) : Final :=
  {| me_id := unifiedId;
     me_name := ne_name first;
     me_unifiedPath := ne_unifiedPath first;
     me_mergedAST := placeholder (text ++ ne_name first);
     me_status := StError;
     me_originalPaths := copiedPaths first;
     me_loc := copiedLoc first;
     me_resolvedConflicts := None;
     me_needsManualReview := true;
     me_mergedFromCount := length entities;
     me_mergeStrategyUsed := Some StrategyError;
     me_mergeTransformationLog := Some [];
     me_mergeQualityScore := Some 0 |}.

(** The [try] around the awaited call, and its [catch]: what the loop
    records for an outcome of the collaborator. *)
Definition recordOutcome (unifiedId : string) (entities : list NormalizedEntity)
    (first : NormalizedEntity) (outcome : @Outcome Ast) (c : MergeCursor) : MergeCursor :=
  match outcome with
  | Returned (Some mergedEntity) =>
      withSummary
        (match me_status mergedEntity with
         | StMerged | StMergedWithWarnings => succeeded mergedEntity
         | StSkippedConflict => skipped
         | StError => failed
         end)
        (Some mergedEntity) (Some unifiedId) c
  | Returned None =>
      withSummary failed
        (Some (failedEntity "// Unknown error during merge for " unifiedId entities first))
        (Some unifiedId) c
  | Raised _ =>
      withSummary failed
        (Some (failedEntity "// Critical error during merge for " unifiedId entities first))
        (Some unifiedId) c
  end.

(** The body of the loop over [groupedEntities.entries()].  [None]: the
    iteration throws outside the [try], on the read of [entities[0].name]
    for an empty group or in the callback of one of the two filters. *)
Definition groupStep (mergeConflicts : MergeConflictReport)
    (originalAnalyzedFileMap : gmap string ASTDependency)
    (c : MergeCursor) (group : string * list NormalizedEntity) : option MergeCursor :=
  let '(unifiedId, entities) := group in
  match entities with
  | [] => None
  | first :: _ =>
      let entityName := ne_name first in
      match filterBy (concerns first) (criticalErrors mergeConflicts) with
      | None => None
      | Some criticalConflicts =>
          match filterBy (concerns first) (warnings mergeConflicts) with
          | None => None
          | Some warningsToAutoResolve =>
              if (0 <? length criticalConflicts)%nat then
                Some (withSummary skipped (Some (skippedEntity unifiedId entities first))
                        None c)
              else
                Some (recordOutcome unifiedId entities first
                        (merge entityName entities originalAnalyzedFileMap
                           warningsToAutoResolve)
                        c)
          end
      end
  end.

Fixpoint groupLoop (mergeConflicts : MergeConflictReport)
    (originalAnalyzedFileMap : gmap string ASTDependency)
    (groups : list (string * list NormalizedEntity)) (c : MergeCursor)
  : option MergeCursor :=
  match groups with
  | [] => Some c
  | g :: rest =>
      match groupStep mergeConflicts originalAnalyzedFileMap c g with
      | Some c' => groupLoop mergeConflicts originalAnalyzedFileMap rest c'
      | None => None
      end
  end.

Definition initialSummary (attempted : nat) : DeepMergeSummary :=
  {| totalEntitiesAttemptedToMerge := attempted;
     totalMergedSuccessfully := 0;
     totalSkippedDueToConflicts := 0;
     totalFailedDuringMergeProcess := 0;
     totalLinesOfCodeMerged := Num (inject_Z 0);
     totalAutoResolvedConflicts := 0;
     autoResolvedConflictsByType := [];
     entitiesWithWarningsAfterMerge := [];
     postMergeLintStatus := None;
     postMergeTypeCheckStatus := None |}.

(** The conceptual post-merge validations: both helpers return ['skipped']. *)
Definition validated (s : DeepMergeSummary) : DeepMergeSummary :=
  {| totalEntitiesAttemptedToMerge := totalEntitiesAttemptedToMerge s;
     totalMergedSuccessfully := totalMergedSuccessfully s;
     totalSkippedDueToConflicts := totalSkippedDueToConflicts s;
     totalFailedDuringMergeProcess := totalFailedDuringMergeProcess s;
     totalLinesOfCodeMerged := totalLinesOfCodeMerged s;
     totalAutoResolvedConflicts := totalAutoResolvedConflicts s;
     autoResolvedConflictsByType := autoResolvedConflictsByType s;
     entitiesWithWarningsAfterMerge := entitiesWithWarningsAfterMerge s;
     postMergeLintStatus := Some VSkipped;
     postMergeTypeCheckStatus := Some VSkipped |}.

Record MergeStepOutput := {
  finalMergedEntities : list Final;
  mergeSummary : DeepMergeSummary;
  unresolvedConflicts : MergeConflictReport;
  deepMergeCalls : list string
}.

(** What the loop keeps: the counters add up to the number of groups seen
    so far, and the two tallies of auto-resolved conflicts agree. *)
Definition balanced (seen : nat) (c : MergeCursor) : Prop :=
  length (mc_final c) = seen
  /\ (totalMergedSuccessfully (mc_summary c) + totalSkippedDueToConflicts (mc_summary c)
      + totalFailedDuringMergeProcess (mc_summary c))%nat = seen
  /\ totalAutoResolvedConflicts (mc_summary c)
     = tableTotal (autoResolvedConflictsByType (mc_summary c)).

(** A final entity that stands for a group: it carries the key of the
    group, the name and the unified path of its first member and the size
    of the group, and it is a skip exactly when the group is critical. *)
Definition describes (report : MergeConflictReport)
    (g : string * list NormalizedEntity) (r : Final) : Prop :=
  match snd g with
  | first :: _ =>
      me_id r = fst g
      /\ me_name r = ne_name first
      /\ me_unifiedPath r = ne_unifiedPath first
      /\ me_mergedFromCount r = length (snd g)
      /\ (me_status r = StSkippedConflict <-> isCritical report first = true)
  | [] => False
  end.

(** What the final entity of a group is when the group is not skipped and
    one of its members carries no original paths: the mark of a failed
    merge. *)
Definition failsFor (report : MergeConflictReport)
    (g : string * list NormalizedEntity) (r : Final) : Prop :=
  isCriticalGroup report g = false ->
  forallb carriesPaths (snd g) = false ->
  me_status r = StError /\ me_mergeQualityScore r = Some 0
  /\ me_needsManualReview r = true /\ me_resolvedConflicts r = None.

Definition groupsOfInput (input : MergeStepInput) : OrderedMap.t (list NormalizedEntity) :=
  groupNormalizedEntities (in_components input) (in_hooks input)
                          (in_utilities input) (in_contexts input).

(** [runMergeStep]; [None] when an iteration of its loop throws: the
    promise it returns is rejected. *)
Definition runMergeStep (input : MergeStepInput) : option MergeStepOutput :=
  let originalAnalyzedFileMap := buildOriginalAnalyzedFileMap (in_analyzedWorkspaces input) in
  let groupedEntities := groupsOfInput input in
  c ← groupLoop (in_mergeConflicts input) originalAnalyzedFileMap groupedEntities
        {| mc_final := []; mc_summary := initialSummary (length groupedEntities);
           mc_calls := [] |};
  Some {| finalMergedEntities := mc_final c;
          mergeSummary := validated (mc_summary c);
          unresolvedConflicts := in_mergeConflicts input;
          deepMergeCalls := mc_calls c |}.

(** The step throws: the report lists a conflict and the first member of
    some group carries no [originalPaths]. *)
Definition stepThrows (input : MergeStepInput) : bool :=
  listsConflicts (in_mergeConflicts input) && existsb lacksPaths (groupsOfInput input).

End WithCollaborator.

End MergeStep.

(** ** [renderStep.ts]

    The step calls Babel's generator inside a [try]; the generator is a
    section variable that returns the code or the error it throws.  It
    stands for the call with the options of the source, of which
    [sourceFileName] is a function of the entity's unified path, so the
    variable receives that path.  [rc_generated] is a ghost log: the ids of
    the entities for which the generator was invoked, in order.  Durations
    are wall-clock readings and are left out. *)

Module RenderStep.
Import JsString Analysis Conflict Merger MergeStep.

Record RenderSummary := {
  totalEntitiesToRender : nat;
  successfullyRendered : nat;
  skippedRender : nat;
  failedToRender : nat;
  totalLinesOfCodeRendered : nat;
  entitiesWithRenderWarnings : list string;
  postRenderLintStatus : option ValidationStatus;
  postRenderTypeCheckStatus : option ValidationStatus;
  totalCodeAddedLoc : nat
}.

(** What the [catch] handler reads from the value thrown. *)
Record JsError := { err_message : option string; err_stack : option string }.

Definition statusName (s : MergeStatus) : string :=
  match s with
  | StMerged => "merged"
  | StSkippedConflict => "skipped-conflict"
  | StError => "error"
  | StMergedWithWarnings => "merged-with-warnings"
  end.

Definition nl : string := String (ascii_of_nat 10) EmptyString.

(** The three characters that open both placeholder texts in the source
    file (U+201A, U+00F9, U+00E5), in UTF-8. *)
Definition marker : string :=
  string_of_list_ascii
    (map ascii_of_nat [226; 128; 154; 195; 185; 195; 165]%nat).

(** [entity.originalPaths.join(', ')]: a missing element joins as the
    empty string. *)
Definition joinedPaths (paths : list (option string)) : string :=
  join ", " (map (default EmptyString) paths).

Section WithGenerator.

Context {Ast : Type}.
Variable generate : Ast -> string -> string + JsError.

Abbreviation Final := (@FinalMergedEntity Ast).

(** The locals of [runRenderStep] that its loop writes. *)
Record RenderCursor := {
  rc_outputFiles : OrderedMap.t string;
  rc_summary : RenderSummary;
  rc_generated : list string
}.

(** The placeholder written for an entity that an earlier step skipped or
    failed. *)
Definition skippedText (entity : Final) : string :=
  "// " ++ marker
  ++ " Fusion Engine: This file was skipped from merge or had critical errors in previous steps."
  ++ nl
  ++ "// Status: " ++ statusName (f_status entity) ++ nl
  ++ "// Original paths: " ++ joinedPaths (f_originalPaths entity) ++ nl
  ++ "// Review the full report for details: " ++ f_id entity ++ nl.

(** The placeholder written when the generator throws. *)
Definition failedText (entity : Final) (error : JsError) : string :=
  "// " ++ marker ++ " Fusion Engine: CRITICAL RENDERING ERROR for "
  ++ DependencyGraphBuilder.dq ++ f_name entity ++ DependencyGraphBuilder.dq ++ nl
  ++ "// ID: " ++ f_id entity ++ nl
  ++ "// Error: " ++ default "undefined" (err_message error) ++ nl
  ++ "// Stack: " ++ orElse (err_stack error) "N/A" ++ nl
  ++ "// Original paths: " ++ joinedPaths (f_originalPaths entity) ++ nl
  ++ "// This file might be corrupted or unrenderable. Manual intervention required." ++ nl.

(** [entity.status === 'skipped-conflict' || entity.status === 'error'] *)
Definition isBlocked (entity : Final) : bool :=
  match f_status entity with
  | StSkippedConflict | StError => true
  | _ => false
  end.

(** [entity.status === 'merged-with-warnings' || entity.needsManualReview] *)
Definition hasWarnings (entity : Final) : bool :=
  match f_status entity with
  | StMergedWithWarnings => true
  | _ => f_needsManualReview entity
  end.

(** The body of the loop over [input.finalMergedEntities]. *)
Definition renderEntity (c : RenderCursor) (entity : Final) : RenderCursor :=
  let s := rc_summary c in
  if isBlocked entity then
    {| rc_outputFiles :=
         OrderedMap.set (rc_outputFiles c) (f_unifiedPath entity) (skippedText entity);
       rc_summary :=
         {| totalEntitiesToRender := totalEntitiesToRender s;
            successfullyRendered := successfullyRendered s;
            skippedRender := S (skippedRender s);
            failedToRender := failedToRender s;
            totalLinesOfCodeRendered := totalLinesOfCodeRendered s;
            entitiesWithRenderWarnings := entitiesWithRenderWarnings s;
            postRenderLintStatus := postRenderLintStatus s;
            postRenderTypeCheckStatus := postRenderTypeCheckStatus s;
            totalCodeAddedLoc := totalCodeAddedLoc s |};
       rc_generated := rc_generated c |}
  else
    match generate (f_mergedAST entity) (f_unifiedPath entity) with
    | inl generatedCode =>
        {| rc_outputFiles :=
             OrderedMap.set (rc_outputFiles c) (f_unifiedPath entity) generatedCode;
           rc_summary :=
             {| totalEntitiesToRender := totalEntitiesToRender s;
                successfullyRendered := S (successfullyRendered s);
                skippedRender := skippedRender s;
                failedToRender := failedToRender s;
                totalLinesOfCodeRendered :=
                  (totalLinesOfCodeRendered s + lineCount generatedCode)%nat;
                entitiesWithRenderWarnings :=
                  if hasWarnings entity
                  then (entitiesWithRenderWarnings s ++ [f_id entity])%list
                  else entitiesWithRenderWarnings s;
                postRenderLintStatus := postRenderLintStatus s;
                postRenderTypeCheckStatus := postRenderTypeCheckStatus s;
                totalCodeAddedLoc := totalCodeAddedLoc s |};
           rc_generated := (rc_generated c ++ [f_id entity])%list |}
    | inr error =>
        {| rc_outputFiles :=
             OrderedMap.set (rc_outputFiles c) (f_unifiedPath entity) (failedText entity error);
           rc_summary :=
             {| totalEntitiesToRender := totalEntitiesToRender s;
                successfullyRendered := successfullyRendered s;
                skippedRender := skippedRender s;
                failedToRender := S (failedToRender s);
                totalLinesOfCodeRendered := totalLinesOfCodeRendered s;
                entitiesWithRenderWarnings :=
                  (entitiesWithRenderWarnings s ++ [f_id entity])%list;
                postRenderLintStatus := postRenderLintStatus s;
                postRenderTypeCheckStatus := postRenderTypeCheckStatus s;
                totalCodeAddedLoc := totalCodeAddedLoc s |};
           rc_generated := (rc_generated c ++ [f_id entity])%list |}
    end.

Definition initialRenderSummary (total : nat) : RenderSummary :=
  {| totalEntitiesToRender := total;
     successfullyRendered := 0;
     skippedRender := 0;
     failedToRender := 0;
     totalLinesOfCodeRendered := 0;
     entitiesWithRenderWarnings := [];
     postRenderLintStatus := None;
     postRenderTypeCheckStatus := None;
     totalCodeAddedLoc := 0 |}.

(** The conceptual post-render validations: both helpers return ['skipped']. *)
Definition postValidated (s : RenderSummary) : RenderSummary :=
  {| totalEntitiesToRender := totalEntitiesToRender s;
     successfullyRendered := successfullyRendered s;
     skippedRender := skippedRender s;
     failedToRender := failedToRender s;
     totalLinesOfCodeRendered := totalLinesOfCodeRendered s;
     entitiesWithRenderWarnings := entitiesWithRenderWarnings s;
     postRenderLintStatus := Some VSkipped;
     postRenderTypeCheckStatus := Some VSkipped;
     totalCodeAddedLoc := totalCodeAddedLoc s |}.

Record RenderStepOutput := {
  outputFiles : OrderedMap.t string;
  renderSummary : RenderSummary;
  generatorCalls : list string
}.

Definition runRenderStep (finalMergedEntities : list Final) : RenderStepOutput :=
  let renderSummary := initialRenderSummary (length finalMergedEntities) in
  if (length finalMergedEntities =? 0)%nat then
    {| outputFiles := []; renderSummary := renderSummary; generatorCalls := [] |}
  else
    let c := fold_left renderEntity finalMergedEntities
               {| rc_outputFiles := []; rc_summary := renderSummary; rc_generated := [] |} in
    {| outputFiles := rc_outputFiles c;
       renderSummary := postValidated (rc_summary c);
       generatorCalls := rc_generated c |}.

(** *** Vocabulary for the properties of the step *)

(** The text written for one entity. *)
Definition renderedText (entity : Final) : string :=
  if isBlocked entity then skippedText entity
  else match generate (f_mergedAST entity) (f_unifiedPath entity) with
       | inl generatedCode => generatedCode
       | inr error => failedText entity error
       end.

(** The generator returns code for the entity. *)
Definition generates (entity : Final) : bool :=
  match generate (f_mergedAST entity) (f_unifiedPath entity) with
  | inl _ => true
  | inr _ => false
  end.

(** The last entity written to a path. *)
Definition lastWritten (entities : list Final) (unifiedPath : string) : option Final :=
  List.find (fun e => String.eqb (f_unifiedPath e) unifiedPath) (rev entities).

(** What the loop keeps after the entities [seen]. *)
Definition rendered (seen : list Final) (c : RenderCursor) : Prop :=
  successfullyRendered (rc_summary c)
  = length (List.filter (fun e => negb (isBlocked e) && generates e) seen)
  /\ skippedRender (rc_summary c) = length (List.filter isBlocked seen)
  /\ failedToRender (rc_summary c)
     = length (List.filter (fun e => negb (isBlocked e) && negb (generates e)) seen)
  /\ rc_generated c = map f_id (List.filter (fun e => negb (isBlocked e)) seen)
  /\ entitiesWithRenderWarnings (rc_summary c)
     = map f_id
         (List.filter (fun e => negb (isBlocked e) && (negb (generates e) || hasWarnings e))
            seen)
  /\ map fst (rc_outputFiles c) = ResolveAndMergeStep.uniqueStrings (map f_unifiedPath seen)
  /\ forall p, OrderedMap.get (rc_outputFiles c) p = option_map renderedText (lastWritten seen p).

End WithGenerator.

End RenderStep.

(** ** [normalizeStep.ts]

    Babel's parser, its generator and the three tree transformations that
    use [traverse] are section variables; each returns [None] when it
    throws.  A transformation edits the tree it is given and returns that
    tree with a flag, so the tree it returns is the one the next stage
    sees, whatever the flag.  [readFileSync] is a variable too. *)

Module NormalizeStep.
Import JsString Analysis ResolveAndMergeStep.

Record FileNormalizationReport := {
  changed : bool;
  changesMade : list string;
  error : bool
}.

(** What a normalized entity carries besides the shared fields. *)
Inductive Extra :=
| WithType (type : string)
| WithContextType (contextType : ContextApiType)
| Plain.

Record Normalized := {
  nz_id : string;
  nz_name : string;
  nz_unifiedPath : string;
  nz_normalizedCode : string;
  nz_extra : Extra
}.

Record NormalizationSummary := {
  totalEntitiesNormalized : nat;
  filesSkippedNormalization : list (option string);
  totalCodeChanged : nat;
  changesReport : OrderedMap.t nat
}.

Record NormalizationInput := {
  ni_analyzedWorkspaces : list AnalyzedProject;
  ni_components : list MergedEntity;
  ni_hooks : list MergedEntity;
  ni_utilities : list MergedEntity;
  ni_contexts : list MergedEntity
}.

Record NormalizationOutput := {
  no_components : list Normalized;
  no_hooks : list Normalized;
  no_utilities : list Normalized;
  no_contexts : list Normalized;
  normalizationSummary : NormalizationSummary
}.

(** The step's own copy of [getBabelPlugins]. *)
Definition getBabelPlugins (extension : string) : list string :=
  let plugins :=
    ["jsx"; "classProperties"; "objectRestSpread"; "exportDefaultFrom";
     "exportNamespaceFrom"; "dynamicImport"; "optionalChaining";
     "nullishCoalescingOperator"; "decorators-legacy"; "estree"; "importAssertions"] in
  if String.eqb extension ".ts" || String.eqb extension ".tsx"
  then plugins ++ ["typescript"]
  else if String.eqb extension ".flow" || String.eqb extension ".flow.js"
  then plugins ++ ["flow"]
  else plugins.

(** [originalAnalyzedFileMap]: later projects overwrite earlier ones. *)
Definition buildOriginalAnalyzedFileMap (workspaces : list AnalyzedProject)
  : gmap string ASTDependency :=
  fold_left
    (fun m ws => fold_left (fun m' '(relPath, astDep) => <[relPath := astDep]> m')
                           (analyzedFiles ws) m)
    workspaces ∅.

(** [entity.originalPaths[0]] *)
Definition canonicalPathOf (entity : MergedEntity) : option string :=
  head (m_originalPaths (baseOf entity)).

(** [originalAnalyzedFileMap.get(canonicalPath)] *)
Definition canonicalAnalysis (fileMap : gmap string ASTDependency) (entity : MergedEntity)
  : option ASTDependency :=
  match canonicalPathOf entity with
  | Some k => fileMap !! k
  | None => None
  end.

(** The chain of [hasOwnProperty] tests: a component whose [type] is
    empty is caught by the test for [reactHooksUsed]. *)
Definition extraOf (entity : MergedEntity) : Extra :=
  match entity with
  | MergedComponent _ type _ _ _ _ => if truthy type then WithType type else Plain
  | MergedHook _ _ _ => Plain
  | MergedContext _ contextType _ => WithContextType contextType
  | MergedUtility _ _ => Plain
  end.

(** [changesReport[changeType] = (changesReport[changeType] || 0) + 1] *)
Definition countChange (m : OrderedMap.t nat) (changeType : string) : OrderedMap.t nat :=
  OrderedMap.set m changeType (S (default O (OrderedMap.get m changeType))).

Section WithBabelAndFiles.

Context {Ast : Type}.
Variable parse : string -> list string -> option Ast.
Variable sortImports : Ast -> option (Ast * bool).
Variable cleanComments : Ast -> option (Ast * bool).
Variable normalizeJSXAttributes : Ast -> option (Ast * bool).
Variable generate : Ast -> option string.
(** [fs.readFileSync(path, 'utf8')]; [None] when it throws. *)
Variable readFileSync : string -> option string.

(** [normalizePropsOrder]: the placeholder of the source changes nothing. *)
Definition normalizePropsOrder (ast : Ast) : Ast * bool := (ast, false).

(** The value of the [catch] handler of [normalizeCode]. *)
Definition retained (code : string) : string * FileNormalizationReport :=
  (code, {| changed := false; changesMade := []; error := true |}).

Definition labelled (flag : bool) (changeType : string) : list string :=
  if flag then [changeType] else [].

Definition normalizeCode (code : string) (fileData : ScannedFile)
  : string * FileNormalizationReport :=
  match parse code (getBabelPlugins (extension fileData)) with
  | None => retained code
  | Some ast =>
      match sortImports ast with
      | None => retained code
      | Some (ast1, importsChanged) =>
          match cleanComments ast1 with
          | None => retained code
          | Some (ast2, commentsChanged) =>
              match normalizeJSXAttributes ast2 with
              | None => retained code
              | Some (ast3, jsxAttrsChanged) =>
                  let '(ast4, propsOrderChanged) := normalizePropsOrder ast3 in
                  match generate ast4 with
                  | None => retained code
                  | Some normalizedCode =>
                      if String.eqb normalizedCode code then
                        (normalizedCode,
                         {| changed := false; changesMade := []; error := false |})
                      else
                        (normalizedCode,
                         {| changed := importsChanged || commentsChanged || jsxAttrsChanged
                                       || propsOrderChanged;
                            changesMade :=
                              (labelled importsChanged "imports_sorted"
                               ++ labelled commentsChanged "comments_cleaned"
                               ++ labelled jsxAttrsChanged "jsx_attributes_normalized"
                               ++ labelled propsOrderChanged "props_order_normalized")%list;
                            error := false |})
                  end
              end
          end
      end
  end.

(** What the [try] block of [normalizeCode] hands to its last test: the
    code the generator prints for the tree the transformations leave, with
    the [changed] flags of the first three.  [None] when the parser, a
    transformation or the generator throws. *)
Definition generated (code : string) (fileData : ScannedFile)
  : option (string * (bool * bool * bool)) :=
  ast ← parse code (getBabelPlugins (extension fileData));
  '(ast1, importsChanged) ← sortImports ast;
  '(ast2, commentsChanged) ← cleanComments ast1;
  '(ast3, jsxAttrsChanged) ← normalizeJSXAttributes ast2;
  normalizedCode ← generate (fst (normalizePropsOrder ast3));
  Some (normalizedCode, (importsChanged, commentsChanged, jsxAttrsChanged)).

(** The list a call of [processAndNormalizeEntityType] pushes to, and the
    summary all four calls share. *)
Record NormalizeCursor := {
  cur_list : list Normalized;
  cur_summary : NormalizationSummary
}.

Definition skipFile (canonicalPath : option string) (c : NormalizeCursor) : NormalizeCursor :=
  {| cur_list := cur_list c;
     cur_summary :=
       {| totalEntitiesNormalized := totalEntitiesNormalized (cur_summary c);
          filesSkippedNormalization :=
            (filesSkippedNormalization (cur_summary c) ++ [canonicalPath])%list;
          totalCodeChanged := totalCodeChanged (cur_summary c);
          changesReport := changesReport (cur_summary c) |} |}.

(** The body of the loop of [processAndNormalizeEntityType]. *)
Definition normalizeEntity (originalAnalyzedFileMap : gmap string ASTDependency)
    (c : NormalizeCursor) (entity : MergedEntity) : NormalizeCursor :=
  let canonicalPath := canonicalPathOf entity in
  match canonicalAnalysis originalAnalyzedFileMap entity with
  | None => skipFile canonicalPath c
  | Some originalFileAnalysis =>
      match readFileSync (absolutePath (file originalFileAnalysis)) with
      | None => skipFile canonicalPath c
      | Some originalCode =>
          let '(normalizedCode, fileNormReport) :=
            normalizeCode originalCode (file originalFileAnalysis) in
          let s := cur_summary c in
          {| cur_list :=
               (cur_list c ++
                [{| nz_id := m_id (baseOf entity);
                    nz_name := m_name (baseOf entity);
                    nz_unifiedPath := m_unifiedPath (baseOf entity);
                    nz_normalizedCode := normalizedCode;
                    nz_extra := extraOf entity |}])%list;
             cur_summary :=
               {| totalEntitiesNormalized := S (totalEntitiesNormalized s);
                  filesSkippedNormalization :=
                    if error fileNormReport
                    then (filesSkippedNormalization s ++ [canonicalPath])%list
                    else filesSkippedNormalization s;
                  totalCodeChanged :=
                    if changed fileNormReport then S (totalCodeChanged s)
                    else totalCodeChanged s;
                  changesReport :=
                    if changed fileNormReport
                    then fold_left countChange (changesMade fileNormReport) (changesReport s)
                    else changesReport s |} |}
      end
  end.

Definition processAndNormalizeEntityType (originalAnalyzedFileMap : gmap string ASTDependency)
    (entities : list MergedEntity) (summary : NormalizationSummary) : NormalizeCursor :=
  fold_left (normalizeEntity originalAnalyzedFileMap) entities
    {| cur_list := []; cur_summary := summary |}.

Definition runNormalizeStep (input : NormalizationInput) : NormalizationOutput :=
  let originalAnalyzedFileMap := buildOriginalAnalyzedFileMap (ni_analyzedWorkspaces input) in
  let summary :=
    {| totalEntitiesNormalized := 0; filesSkippedNormalization := [];
       totalCodeChanged := 0; changesReport := [] |} in
  let c1 := processAndNormalizeEntityType originalAnalyzedFileMap (ni_components input)
              summary in
  let c2 := processAndNormalizeEntityType originalAnalyzedFileMap (ni_hooks input)
              (cur_summary c1) in
  let c3 := processAndNormalizeEntityType originalAnalyzedFileMap (ni_contexts input)
              (cur_summary c2) in
  let c4 := processAndNormalizeEntityType originalAnalyzedFileMap (ni_utilities input)
              (cur_summary c3) in
  {| no_components := cur_list c1;
     no_hooks := cur_list c2;
     no_utilities := cur_list c4;
     no_contexts := cur_list c3;
     normalizationSummary := cur_summary c4 |}.

(** *** Vocabulary for the properties of the step *)

(** The three change types a transformation of the source can report. *)
Definition reportableChanges : list string :=
  ["imports_sorted"; "comments_cleaned"; "jsx_attributes_normalized"].

(** What the step pushes for an entity, when it pushes. *)
Definition normalizedOf (fileMap : gmap string ASTDependency) (entity : MergedEntity)
  : option Normalized :=
  match canonicalAnalysis fileMap entity with
  | None => None
  | Some originalFileAnalysis =>
      match readFileSync (absolutePath (file originalFileAnalysis)) with
      | None => None
      | Some originalCode =>
          Some {| nz_id := m_id (baseOf entity);
                  nz_name := m_name (baseOf entity);
                  nz_unifiedPath := m_unifiedPath (baseOf entity);
                  nz_normalizedCode :=
                    fst (normalizeCode originalCode (file originalFileAnalysis));
                  nz_extra := extraOf entity |}
      end
  end.

(** The entities in the order the step processes them. *)
Definition processed (input : NormalizationInput) : list MergedEntity :=
  (ni_components input ++ ni_hooks input ++ ni_contexts input ++ ni_utilities input)%list.

End WithBabelAndFiles.

(** The input the orchestrator builds from the output of the resolve step. *)
Definition inputOf (workspaces : list AnalyzedProject) (out : ResolveAndMergeStepOutput)
  : NormalizationInput :=
  {| ni_analyzedWorkspaces := workspaces;
     ni_components := out_components out;
     ni_hooks := out_hooks out;
     ni_utilities := out_utilities out;
     ni_contexts := out_contexts out |}.

(** Every analysed file is keyed by the relative path its analysis
    records, as the workspace analyser does. *)
Definition keyedByPath (workspaces : list AnalyzedProject) : Prop :=
  forall project entry,
    In project workspaces -> In entry (analyzedFiles project) ->
    fst entry = relativePath (file (snd entry)).

End NormalizeStep.

(** ** The merge step with the repository's own [deepSmartMerge] *)

Module Pipeline.
Import Merger MergeStep.

Definition runMergeStep {Ast : Type} (parse : string -> list string -> option Ast)
    (generate generateCompact : Ast -> string + string) (placeholder : string -> Ast)
    (input : MergeStepInput) : option (@MergeStepOutput Ast) :=
  MergeStep.runMergeStep placeholder
    (deepSmartMerge parse generate generateCompact placeholder) input.

(** An entity of the normalize step as the merge step reads it: the object
    has the properties [runNormalizeStep] gave it, and no [isShared],
    [originalPaths] or [loc]. *)
Definition handedOver (e : NormalizeStep.Normalized) : NormalizedEntity :=
  {| ne_id := NormalizeStep.nz_id e;
     ne_name := NormalizeStep.nz_name e;
     ne_unifiedPath := NormalizeStep.nz_unifiedPath e;
     ne_normalizedCode := NormalizeStep.nz_normalizedCode e;
     ne_isShared := None;
     ne_originalPaths := None;
     ne_loc := None |}.

(** The [mergeInput] of [runFusionOrchestrator]: the entities of the
    normalize step, the analysed workspaces and the conflict report of the
    resolve step. *)
Definition mergeInputOf (normalization : NormalizeStep.NormalizationOutput)
    (analyzedWorkspaces : list Analysis.AnalyzedProject)
    (resolveMergeConflicts : Conflict.MergeConflictReport) : MergeStepInput :=
  {| in_components := map handedOver (NormalizeStep.no_components normalization);
     in_hooks := map handedOver (NormalizeStep.no_hooks normalization);
     in_utilities := map handedOver (NormalizeStep.no_utilities normalization);
     in_contexts := map handedOver (NormalizeStep.no_contexts normalization);
     in_analyzedWorkspaces := analyzedWorkspaces;
     in_mergeConflicts := resolveMergeConflicts |}.

End Pipeline.

(** ** Sample inputs *)

Module Fixtures.
Import Analysis Conflict Merger MergeStep DependencyGraphBuilder.

Definition scanned (root rel ext : string) (role : option string) : ScannedFile :=
  {| absolutePath := root ++ "/" ++ rel; relativePath := rel; extension := ext;
     fileName := rel; inferredRole := role; inferredFrameworkSpecific := None |}.

(** An analysis with only the facts the scenarios need. *)
Definition analysisOf (f : ScannedFile) (lines : Z) (imps : list ImportDecl)
    (exps : list ExportDecl) (fns : list FunctionDecl) (comps : list ComponentDecl)
    (jsx : list NameCount) : ASTDependency :=
  {| file := f; imports := imps; exports := exps; functions := fns;
     components := comps; contextAPIs := []; declaredVariables := [];
     jsxElementsUsed := jsx; reactHooksUsed := []; loc := lines;
     declaredTypes := []; typesUsedInAnnotations := [] |}.

Definition namedImport (name path : string) : ImportDecl :=
  {| imp_name := name; imp_path := path;
     imp_isRelative := JsString.startsWith path "."; imp_importedAs := Some name |}.

Definition exportedComponent (name : string) (functional : bool) : ComponentDecl :=
  {| comp_name := name; comp_isExported := true; comp_isFunctional := functional;
     comp_inferredHOC := None |}.

Definition used (name : string) (count : Z) : NameCount :=
  {| nc_name := name; nc_count := count |}.

(** [a.tsx] imports [Card] and [Tile] from [./widgets/Card] and a bare
    package, and renders [Card] twice and [Tile] once; both components are
    exported by [widgets/Card.tsx]. *)
Definition pageFile : ASTDependency :=
  analysisOf (scanned "/proj" "a.tsx" ".tsx" None) 12
    [namedImport "Card" "./widgets/Card"; namedImport "leftPad" "left-pad";
     namedImport "Tile" "./widgets/Card"]
    [] [] [] [used "Card" 2; used "Tile" 1].

Definition cardFile : ASTDependency :=
  analysisOf (scanned "/proj" "widgets/Card.tsx" ".tsx" None) 30 [] [] []
    [exportedComponent "Card" true; exportedComponent "Tile" true] [].

Definition widgetsProject : AnalyzedProject :=
  {| projectName := "proj"; rootPath := "/proj";
     analyzedFiles := [("a.tsx", pageFile); ("widgets/Card.tsx", cardFile)] |}.

(** The same project with an index file beside [widgets/Card.tsx]. *)
Definition cardIndexFile : ASTDependency :=
  analysisOf (scanned "/proj" "widgets/Card/index.ts" ".ts" None) 3 [] [] [] [] [].

Definition widgetsWithIndex : AnalyzedProject :=
  {| projectName := "proj"; rootPath := "/proj";
     analyzedFiles := [("a.tsx", pageFile); ("widgets/Card.tsx", cardFile);
                       ("widgets/Card/index.ts", cardIndexFile)] |}.

(** Scenario A: [Button] is a function component in one project and a
    class component in the other. *)
Definition buttonIn (root : string) (functional : bool) : ASTDependency :=
  analysisOf (scanned root "src/Button.tsx" ".tsx" (Some "component")) 20 [] [] []
    [exportedComponent "Button" functional] [].

Definition twoButtons : list AnalyzedProject :=
  [ {| projectName := "p1"; rootPath := "/p1";
       analyzedFiles := [("src/Button.tsx", buttonIn "/p1" true)] |};
    {| projectName := "p2"; rootPath := "/p2";
       analyzedFiles := [("src/Button.tsx", buttonIn "/p2" false)] |} ].

(** Scenario B: [formatDate] is the same exported function in both
    projects. *)
Definition formatDateIn (root : string) : ASTDependency :=
  analysisOf (scanned root "src/date.ts" ".ts" (Some "util")) 8 []
    [{| exp_name := "formatDate"; exp_type := ExpFunction |}]
    [{| fn_name := "formatDate"; fn_isExported := true; fn_isAsync := false |}] [] [].

Definition twoFormatDates : list AnalyzedProject :=
  [ {| projectName := "p1"; rootPath := "/p1";
       analyzedFiles := [("src/date.ts", formatDateIn "/p1")] |};
    {| projectName := "p2"; rootPath := "/p2";
       analyzedFiles := [("src/date.ts", formatDateIn "/p2")] |} ].

(** A stand-in for Babel: a tree is its source text. *)
Definition textParse (code : string) (plugins : list string) : option string := Some code.
Definition textPrint (ast : string) : string + string := inl ast.
Definition textPlaceholder (text : string) : string := text.

Definition normalized (id name path : string) : NormalizedEntity :=
  {| ne_id := id; ne_name := name; ne_unifiedPath := id;
     ne_normalizedCode := "export const x = 1;"; ne_isShared := Some true;
     ne_originalPaths := Some [path]; ne_loc := Some 20 |}.

Definition buttonEntity : NormalizedEntity :=
  normalized "merged/components/button.ts" "Button" "src/Button.tsx".

(** The conflicts of scenario A and a merge input that carries them. *)
Definition buttonConflicts : list MergeConflict :=
  match ResolveAndMergeStep.detectConflictsForEntity "Button"
          [buttonIn "/p1" true; buttonIn "/p2" false] ResolveAndMergeStep.Component with
  | Some d => ResolveAndMergeStep.conflicts d
  | None => []
  end.

(** [Button] as the normalize step builds it, and the merge input the
    orchestrator makes of it and of the conflicts of scenario A. *)
Definition normalizedButton : NormalizeStep.Normalized :=
  {| NormalizeStep.nz_id := "merged/components/button.ts";
     NormalizeStep.nz_name := "Button";
     NormalizeStep.nz_unifiedPath := "merged/components/button.ts";
     NormalizeStep.nz_normalizedCode := "export const x = 1;";
     NormalizeStep.nz_extra := NormalizeStep.WithType "functional" |}.

Definition normalizedButtons : NormalizeStep.NormalizationOutput :=
  {| NormalizeStep.no_components := [normalizedButton];
     NormalizeStep.no_hooks := []; NormalizeStep.no_utilities := [];
     NormalizeStep.no_contexts := [];
     NormalizeStep.normalizationSummary :=
       {| NormalizeStep.totalEntitiesNormalized := 1;
          NormalizeStep.filesSkippedNormalization := [];
          NormalizeStep.totalCodeChanged := 0;
          NormalizeStep.changesReport := [] |} |}.

Definition buttonMergeInput : MergeStepInput :=
  {| in_components := [buttonEntity]; in_hooks := []; in_utilities := [];
     in_contexts := []; in_analyzedWorkspaces := twoButtons;
     in_mergeConflicts := conflictReport buttonConflicts |}.

(** The merge input of the orchestrator for [Button] when the resolve step
    reported the conflicts of scenario A, and when it reported none. *)
Definition orchestratedButtons : MergeStepInput :=
  Pipeline.mergeInputOf normalizedButtons twoButtons (conflictReport buttonConflicts).

Definition quietButtons : MergeStepInput :=
  Pipeline.mergeInputOf normalizedButtons twoButtons (conflictReport []).

(** A group of five whose four later members have no analysis on record. *)
Definition strayEntity (path : string) : NormalizedEntity :=
  normalized "merged/utils/formatdate.ts" "formatDate" path.

Definition dateFileMap : gmap string ASTDependency :=
  buildOriginalAnalyzedFileMap twoFormatDates.

Definition strayGroup : list NormalizedEntity :=
  [strayEntity "src/date.ts"; strayEntity "gone/1.ts"; strayEntity "gone/2.ts";
   strayEntity "gone/3.ts"; strayEntity "gone/4.ts"].

(** The error conflict of scenario A. *)
Definition buttonError : MergeConflict :=
  {| c_type := ComponentStructuralDifference; severity := SevError;
     message := "Shared component " ++ ResolveAndMergeStep.quoted "Button"
                ++ " has conflicting component types (Functional vs Class).";
     details := DetTypes [("src/Button.tsx", "class")];
     relatedFiles := ["src/Button.tsx"; "src/Button.tsx"] |}.

(** The builder of [widgetsProject] after [a.tsx] has been seen to render
    [Card], and after it has then been seen to render [Tile]. *)
Definition cardSeen : Builder :=
  renderUsageStep (buildComponentExports (analyzedFiles widgetsProject)) "a.tsx"
    emptyBuilder (used "Card" 2).

Definition tileSeen : Builder :=
  renderUsageStep (buildComponentExports (analyzedFiles widgetsProject)) "a.tsx"
    cardSeen (used "Tile" 1).

(** The builder of [widgetsProject] after [a.tsx] has been seen to import
    [Card] from [./widgets/Card], and after the same import has been seen
    once more. *)
Definition cardImported : Builder :=
  importStep "/" widgetsProject "a.tsx" emptyBuilder (namedImport "Card" "./widgets/Card").

Definition cardImportedAgain : Builder :=
  importStep "/" widgetsProject "a.tsx" cardImported (namedImport "Card" "./widgets/Card").

(** [app.tsx] provides one context and consumes another; both are defined
    in [ctx.tsx]. *)
Definition withContexts (f : ScannedFile) (ctxs : list ContextApi) : ASTDependency :=
  {| file := f; imports := []; exports := []; functions := []; components := [];
     contextAPIs := ctxs; declaredVariables := []; jsxElementsUsed := [];
     reactHooksUsed := []; loc := 5; declaredTypes := []; typesUsedInAnnotations := [] |}.

Definition contextProject : AnalyzedProject :=
  {| projectName := "ctx"; rootPath := "/ctx";
     analyzedFiles :=
       [("app.tsx",
         withContexts (scanned "/ctx" "app.tsx" ".tsx" None)
           [{| ctx_name := "ThemeContext"; ctx_type := CtxProvider |};
            {| ctx_name := "UserContext"; ctx_type := CtxConsumer |}]);
        ("ctx.tsx",
         withContexts (scanned "/ctx" "ctx.tsx" ".tsx" None)
           [{| ctx_name := "ThemeContext"; ctx_type := CtxContext |};
            {| ctx_name := "UserContext"; ctx_type := CtxContext |}])] |}.

(** Two profiles with the same entries in different orders. *)
Definition stateThenEffect : list NameCount := [used "useState" 2; used "useEffect" 1].
Definition effectThenState : list NameCount := [used "useEffect" 1; used "useState" 2].

(** A file that exports the hook [useAuth] and calls [useState] once. *)
Definition authHookFile : ASTDependency :=
  {| file := scanned "/p1" "src/useAuth.ts" ".ts" None; imports := [];
     exports := [{| exp_name := "useAuth"; exp_type := ExpFunction |}];
     functions := [{| fn_name := "useAuth"; fn_isExported := true; fn_isAsync := false |}];
     components := []; contextAPIs := []; declaredVariables := [];
     jsxElementsUsed := []; reactHooksUsed := [used "useState" 1]; loc := 10;
     declaredTypes := []; typesUsedInAnnotations := [] |}.

Definition authProject : list AnalyzedProject :=
  [ {| projectName := "p1"; rootPath := "/p1";
       analyzedFiles := [("src/useAuth.ts", authHookFile)] |} ].

(** [formatDate] in files without an inferred role and of different
    lengths. *)
Definition plainDateIn (root : string) (lines : Z) : ASTDependency :=
  analysisOf (scanned root "src/date.ts" ".ts" None) lines []
    [{| exp_name := "formatDate"; exp_type := ExpFunction |}]
    [{| fn_name := "formatDate"; fn_isExported := true; fn_isAsync := false |}] [] [].

(** Stand-ins for the collaborators of the normalize step: a
    transformation that changes nothing, a generator that prints the text,
    and a file system in which every file holds the same line. *)
Definition textUnchanged (ast : string) : option (string * bool) := Some (ast, false).
Definition textGenerate (ast : string) : option string := Some ast.
Definition everyFile (path : string) : option string := Some "export const x = 1;".

End Fixtures.

(* ===================================================================== *)
(** * Part II: theorems                                                  *)
(* ===================================================================== *)

(** ** Generic facts about folds and ordered maps *)

Section FoldFacts.

Context {A B : Type}.

(** An invariant kept by every iteration is kept by the loop. *)
Lemma fold_left_invariant (P : A -> Prop) (f : A -> B -> A) (l : list B) (a : A) :
  P a -> (forall x b, P x -> In b l -> P (f x b)) -> P (fold_left f l a).
Proof.
  revert a. induction l as [|b l IH]; intros a Ha Hstep; simpl; [exact Ha|].
  apply IH.
  - apply Hstep; [exact Ha | now left].
  - intros x b' Hx Hin. apply Hstep; [exact Hx | now right].
Qed.

End FoldFacts.

Section OrderedMapFacts.

Context {V : Type}.

Lemma OrderedMap_set_In (m : OrderedMap.t V) k v k' v' :
  In (k', v') (OrderedMap.set m k v) -> (k' = k /\ v' = v) \/ In (k', v') m.
Proof.
  induction m as [|[k0 v0] m IH]; simpl.
  - intros [H|[]]. inversion H. now left.
  - destruct (String.eqb k0 k) eqn:E; simpl.
    + intros [H|H]; [inversion H; now left | right; now right].
    + intros [H|H]; [right; now left|].
      destruct (IH H) as [?|?]; [now left | right; now right].
Qed.

Lemma OrderedMap_get_set_same (m : OrderedMap.t V) k v :
  OrderedMap.get (OrderedMap.set m k v) k = Some v.
Proof.
  induction m as [|[k0 v0] m IH]; simpl.
  - now rewrite String.eqb_refl.
  - destruct (String.eqb k0 k) eqn:E; simpl.
    + now rewrite String.eqb_refl.
    + now rewrite E.
Qed.

Lemma OrderedMap_keys_set (m : OrderedMap.t V) k v :
  map fst (OrderedMap.set m k v)
  = if OrderedMap.has m k then map fst m else (map fst m ++ [k])%list.
Proof.
  unfold OrderedMap.has.
  induction m as [|[k0 v0] m IH]; simpl; [reflexivity|].
  destruct (String.eqb k0 k) eqn:E; simpl.
  - apply String.eqb_eq in E. now subst.
  - rewrite IH. now destruct (OrderedMap.get m k).
Qed.

Lemma OrderedMap_has_In (m : OrderedMap.t V) k :
  OrderedMap.has m k = true <-> In k (map fst m).
Proof.
  unfold OrderedMap.has.
  induction m as [|[k0 v0] m IH]; simpl; [split; [discriminate | tauto]|].
  destruct (String.eqb k0 k) eqn:E.
  - apply String.eqb_eq in E. split; [now left | reflexivity].
  - apply String.eqb_neq in E. rewrite IH. split; [now right|].
    intros [?|?]; [contradiction | assumption].
Qed.

Lemma OrderedMap_set_NoDup (m : OrderedMap.t V) k v :
  NoDup (map fst m) -> NoDup (map fst (OrderedMap.set m k v)).
Proof.
  intros Hnd. rewrite OrderedMap_keys_set.
  destruct (OrderedMap.has m k) eqn:E; [exact Hnd|].
  apply NoDup_app. repeat split; [exact Hnd | | apply NoDup_singleton].
  intros x Hx Hx'. apply list_elem_of_In in Hx, Hx'.
  destruct Hx' as [<-|[]].
  apply OrderedMap_has_In in Hx. congruence.
Qed.

End OrderedMapFacts.

(** ** The conflict report *)

Section ConflictReportFacts.
Import Conflict.

Lemma severity_cases (c : MergeConflict) :
  isError c = negb (isWarning c).
Proof. unfold isError, isWarning. now destruct (severity c). Qed.

Lemma filter_split_length {A : Type} (p q : A -> bool) (l : list A) :
  (forall x, p x = negb (q x)) ->
  (length (List.filter p l) + length (List.filter q l))%nat = length l.
Proof.
  intros Hpq. induction l as [|x l IH]; simpl; [reflexivity|].
  rewrite Hpq. destruct (q x); simpl; lia.
Qed.

Lemma filter_split_Permutation {A : Type} (p q : A -> bool) (l : list A) :
  (forall x, p x = negb (q x)) ->
  Permutation (List.filter p l ++ List.filter q l) l.
Proof.
  intros Hpq. induction l as [|x l IH]; simpl; [constructor|].
  rewrite Hpq. destruct (q x); simpl.
  - etransitivity; [symmetry; apply Permutation_middle|]. now constructor.
  - now constructor.
Qed.

(** C10.  In the report built from the collected conflicts, [criticalErrors]
    holds exactly the conflicts of severity error and [warnings] exactly
    those of severity warning, each in collection order; together they are
    a rearrangement of all collected conflicts; [totalConflicts] is the sum
    of their lengths; and [hasConflicts] holds iff [totalConflicts] is
    positive. *)
Theorem conflict_report_partition (allConflicts : list MergeConflict) :
  let r := conflictReport allConflicts in
  (forall c, In c (criticalErrors r) <-> In c allConflicts /\ severity c = SevError)
  /\ (forall c, In c (warnings r) <-> In c allConflicts /\ severity c = SevWarning)
  /\ Permutation (criticalErrors r ++ warnings r) allConflicts
  /\ totalConflicts r = (length (criticalErrors r) + length (warnings r))%nat
  /\ (hasConflicts r = true <-> (0 < totalConflicts r)%nat).
Proof.
  cbv zeta. unfold conflictReport; simpl.
  split; [|split; [|split; [|split]]].
  - intros c. rewrite filter_In. unfold isError.
    destruct (severity c); intuition congruence.
  - intros c. rewrite filter_In. unfold isWarning.
    destruct (severity c); intuition congruence.
  - apply filter_split_Permutation, severity_cases.
  - symmetry. apply filter_split_length, severity_cases.
  - apply Nat.ltb_lt.
Qed.

End ConflictReportFacts.

Example path_join_ex : PosixPath.joinPath ["merged"; "components"] = "merged/components".
Proof. reflexivity. Qed.
Example path_join_ex2 : PosixPath.joinPath ["a/b/"; "../c"; "./index.ts"] = "a/c/index.ts".
Proof. reflexivity. Qed.
Example path_dirname_ex : map PosixPath.dirname ["a.tsx"; "src/components/Button.tsx"; "/a"; "a//b"; "/a/b/"; EmptyString; "//a"]
  = ["."; "src/components"; "/"; "a/"; "/a"; "."; "//"].
Proof. reflexivity. Qed.
Example path_resolve_ex : PosixPath.resolve "/cwd" ["/proj"; "."; "./widgets/Card"] = "/proj/widgets/Card".
Proof. reflexivity. Qed.
Example path_relative_ex : map (PosixPath.relative "/cwd" "/proj") ["/proj/widgets/Card"; "/project/x"; "/"; "/proj"; "/proj/a/../b"]
  = ["widgets/Card"; "../project/x"; ".."; EmptyString; "b"].
Proof. reflexivity. Qed.

(** ** Conflict detection *)

Section DetectionFacts.
Import Analysis Conflict ResolveAndMergeStep.

Lemma flag_push_warning c d :
  severity c = SevWarning -> flagMatchesErrors d -> flagMatchesErrors (pushConflict c d).
Proof.
  unfold flagMatchesErrors, pushConflict; simpl. intros Hc ->.
  assert (Hw : isError c = false) by (unfold isError; now rewrite Hc).
  rewrite existsb_app; simpl. rewrite Hw. now rewrite !orb_false_r.
Qed.

Lemma flag_push_error c d :
  severity c = SevError -> flagMatchesErrors (forbidMerge (pushConflict c d)).
Proof.
  unfold flagMatchesErrors, forbidMerge, pushConflict; simpl. intros Hc.
  assert (He : isError c = true) by (unfold isError; now rewrite Hc).
  rewrite existsb_app; simpl. rewrite He. now rewrite orb_true_r.
Qed.

Lemma compared_push first rest c d :
  (exists current, In current rest /\ relatedFiles c = [pathOf first; pathOf current]) ->
  comparedWithFirst first rest d -> comparedWithFirst first rest (pushConflict c d).
Proof.
  intros Hc Hd c' Hin. unfold pushConflict in Hin; simpl in Hin.
  apply in_app_or in Hin. destruct Hin as [Hin|[<-|[]]]; [now apply Hd | exact Hc].
Qed.

Lemma compared_forbid first rest d :
  comparedWithFirst first rest d -> comparedWithFirst first rest (forbidMerge d).
Proof. intros Hd c Hin. now apply Hd. Qed.

Ltac detection_cases :=
  repeat match goal with
    | |- context [if ?b then _ else _] => destruct b
    end.

Lemma detectComponent_flag name first current fc cc d :
  flagMatchesErrors d -> flagMatchesErrors (detectComponent name first current fc cc d).
Proof.
  intros Hd. unfold detectComponent. cbv zeta.
  detection_cases;
    repeat first [ exact Hd
                 | apply flag_push_warning; [reflexivity|]
                 | apply flag_push_error; reflexivity ].
Qed.

Lemma detectStep_flag name entityType first d current :
  flagMatchesErrors d -> flagMatchesErrors (detectStep name entityType first d current).
Proof.
  intros Hd. unfold detectStep. cbv zeta.
  destruct entityType;
    [ destruct (findComponent first name), (findComponent current name) | | | ];
    detection_cases;
    repeat first [ exact Hd
                 | apply detectComponent_flag
                 | apply flag_push_warning; [reflexivity|]
                 | apply flag_push_error; reflexivity ].
Qed.

Lemma detectComponent_compared name first rest current fc cc d :
  In current rest ->
  comparedWithFirst first rest d ->
  comparedWithFirst first rest (detectComponent name first current fc cc d).
Proof.
  intros Hin Hd. unfold detectComponent. cbv zeta.
  detection_cases;
    repeat first [ exact Hd
                 | apply compared_push; [exists current; split; [exact Hin | reflexivity]|]
                 | apply compared_forbid ].
Qed.

Lemma detectStep_compared name entityType first rest d current :
  In current rest ->
  comparedWithFirst first rest d ->
  comparedWithFirst first rest (detectStep name entityType first d current).
Proof.
  intros Hin Hd. unfold detectStep. cbv zeta.
  destruct entityType;
    [ destruct (findComponent first name), (findComponent current name) | | | ];
    detection_cases;
    repeat first [ exact Hd
                 | apply detectComponent_compared; [exact Hin|]
                 | apply compared_push; [exists current; split; [exact Hin | reflexivity]|]
                 | apply compared_forbid ].
Qed.

Lemma detect_nonempty name first rest entityType :
  exists d,
    detectConflictsForEntity name (first :: rest) entityType = Some d
    /\ flagMatchesErrors d /\ comparedWithFirst first rest d.
Proof.
  eexists. split; [reflexivity|]. simpl.
  apply (fold_left_invariant
           (fun d => flagMatchesErrors d /\ comparedWithFirst first rest d)).
  - split; [reflexivity | intros c []].
  - intros d current [H1 H2] Hin. split.
    + now apply detectStep_flag.
    + now apply detectStep_compared.
Qed.

(** *** Groups produced by aggregation are never empty *)

Lemma addToGroup_nonEmpty g k fa :
  groupsNonEmpty g -> groupsNonEmpty (addToGroup g k fa).
Proof.
  intros Hg k' l Hin. unfold addToGroup in Hin.
  apply OrderedMap_set_In in Hin. destruct Hin as [[_ ->]|Hin]; [|now apply (Hg k')].
  intros Habs. now apply app_eq_nil in Habs as [_ ?].
Qed.

Lemma record_nonEmpty t k fa ag :
  allGroupsNonEmpty ag -> allGroupsNonEmpty (record t k fa ag).
Proof.
  intros Hag t'. pose proof (Hag t') as Ht'.
  destruct t, t'; simpl in *; try exact Ht'; now apply addToGroup_nonEmpty.
Qed.

Lemma aggregateFile_nonEmpty ag fa :
  allGroupsNonEmpty ag -> allGroupsNonEmpty (aggregateFile ag fa).
Proof.
  intros Hag. unfold aggregateFile. cbv zeta.
  repeat (apply fold_left_invariant;
          [| intros ? ? ? _;
             repeat match goal with
               | |- context [if ?b then _ else _] => destruct b
               end;
             first [assumption | now apply record_nonEmpty]]).
  exact Hag.
Qed.

Lemma aggregate_nonEmpty workspaces : allGroupsNonEmpty (aggregate workspaces).
Proof.
  unfold aggregate. apply fold_left_invariant.
  - intros t k l Hin. now destruct t.
  - intros ag project Hag _. apply fold_left_invariant; [exact Hag|].
    intros ag' fa Hag' _. now apply aggregateFile_nonEmpty.
Qed.

(** C1.  For every group that aggregation produces, conflict detection
    returns; every conflict it reports compares a non-first member with the
    first member; and the group is unmergeable iff one of these conflicts
    has severity error (so warnings alone never block the merge). *)
Theorem mergeable_iff_no_error (workspaces : list AnalyzedProject)
    (entityType : EntityType) (name : string) (analyses : list ASTDependency) :
  In (name, analyses) (groupsOf entityType (aggregate workspaces)) ->
  exists first rest d,
    analyses = first :: rest
    /\ detectConflictsForEntity name analyses entityType = Some d
    /\ (forall c, In c (conflicts d) ->
          exists current, In current rest
                          /\ relatedFiles c = [pathOf first; pathOf current])
    /\ (canBeMerged d = false <->
          exists c, In c (conflicts d) /\ severity c = SevError)
    /\ ((forall c, In c (conflicts d) -> severity c = SevWarning) ->
          canBeMerged d = true).
Proof.
  intros Hin.
  destruct analyses as [|first rest];
    [exfalso; exact (aggregate_nonEmpty workspaces entityType name [] Hin eq_refl)|].
  destruct (detect_nonempty name first rest entityType) as (d & Hd & Hflag & Hcmp).
  exists first, rest, d. repeat split; try assumption.
  - intros Hfalse. rewrite Hflag in Hfalse. apply negb_false_iff in Hfalse.
    apply existsb_exists in Hfalse. destruct Hfalse as (c & Hc & Herr).
    exists c. split; [exact Hc|]. unfold isError in Herr. now destruct (severity c).
  - intros (c & Hc & Herr). rewrite Hflag. apply negb_false_iff.
    apply existsb_exists. exists c. split; [exact Hc|]. unfold isError. now rewrite Herr.
  - intros Hall. rewrite Hflag. apply negb_true_iff.
    apply not_true_iff_false. intros Habs. apply existsb_exists in Habs.
    destruct Habs as (c & Hc & Herr). specialize (Hall c Hc).
    unfold isError in Herr. rewrite Hall in Herr. discriminate.
Qed.

(** C3.  A group with exactly one candidate yields no conflict and is
    mergeable. *)
Theorem singleton_group_no_conflict (name : string) (a : ASTDependency)
    (entityType : EntityType) :
  detectConflictsForEntity name [a] entityType
  = Some {| conflicts := []; canBeMerged := true |}.
Proof. reflexivity. Qed.

End DetectionFacts.

(** ** Strings and paths *)

Section StringFacts.
Import JsString.

Lemma append_cons c s t : String c s ++ t = String c (s ++ t).
Proof. reflexivity. Qed.

Lemma append_nil_r s : s ++ EmptyString = s.
Proof. induction s as [|c s IH]; [reflexivity|]. now rewrite append_cons, IH. Qed.

Lemma append_assoc s t u : (s ++ t) ++ u = s ++ (t ++ u).
Proof. induction s as [|c s IH]; [reflexivity|]. now rewrite !append_cons, IH. Qed.

Lemma every_app p s t : every p (s ++ t) = every p s && every p t.
Proof.
  induction s as [|c s IH]; [reflexivity|].
  rewrite append_cons. simpl. now rewrite IH, andb_assoc.
Qed.

Lemma every_impl (p q : ascii -> bool) s :
  (forall c, p c = true -> q c = true) -> every p s = true -> every q s = true.
Proof.
  intros Hpq. induction s as [|c s IH]; simpl; [reflexivity|].
  intros H. apply andb_true_iff in H as [H1 H2].
  now rewrite (Hpq _ H1), IH.
Qed.

Lemma splitAux_last sep cur s :
  every (fun c => negb (Ascii.eqb c sep)) s = true ->
  splitAux sep cur s = [cur ++ s].
Proof.
  revert cur. induction s as [|c s IH]; intros cur; simpl.
  - now rewrite append_nil_r.
  - intros H. apply andb_true_iff in H as [Hc Hs].
    apply negb_true_iff in Hc. rewrite Hc, (IH _ Hs).
    now rewrite append_assoc.
Qed.

Lemma splitAux_segment sep cur s rest :
  every (fun c => negb (Ascii.eqb c sep)) s = true ->
  splitAux sep cur (s ++ String sep rest) = (cur ++ s) :: splitAux sep EmptyString rest.
Proof.
  revert cur. induction s as [|c s IH]; intros cur H.
  - change (EmptyString ++ String sep rest) with (String sep rest). simpl.
    now rewrite Ascii.eqb_refl, append_nil_r.
  - rewrite append_cons. simpl in *. apply andb_true_iff in H as [Hc Hs].
    apply negb_true_iff in Hc. rewrite Hc, (IH _ Hs).
    now rewrite append_assoc.
Qed.

Lemma endsWith_every_not p c s :
  every p s = true -> p c = false -> endsWith s (String c EmptyString) = false.
Proof.
  intros Hs Hc. induction s as [|a s IH]; [reflexivity|].
  simpl in Hs. apply andb_true_iff in Hs as [Ha Hs].
  simpl. rewrite (IH Hs), orb_false_r.
  destruct s; simpl.
  - destruct (Ascii.eqb_spec a c); [subst; congruence | reflexivity].
  - now destruct (Ascii.eqb a c).
Qed.

Lemma endsWith_app_nonempty s t c :
  t <> EmptyString -> endsWith (s ++ t) (String c EmptyString) = endsWith t (String c EmptyString).
Proof.
  intros Ht. induction s as [|a s IH]; [reflexivity|].
  rewrite append_cons. simpl. rewrite IH.
  destruct (s ++ t) eqn:E.
  - destruct s; [simpl in E; contradiction | discriminate].
  - simpl. now destruct (Ascii.eqb a c).
Qed.

Lemma startsWith_char c tl a :
  startsWith (String c tl) (String a EmptyString) = Ascii.eqb c a.
Proof.
  unfold startsWith. simpl. destruct (ascii_dec a c) as [->|Hne].
  - rewrite Ascii.eqb_refl. now destruct tl.
  - symmetry. apply Ascii.eqb_neq. congruence.
Qed.

End StringFacts.

Section PathFacts.
Import JsString PosixPath.

Lemma plain_no_slash s :
  isPlainSegment s = true -> every (fun c => negb (Ascii.eqb c slash)) s = true.
Proof. unfold isPlainSegment. intros H. now apply andb_true_iff in H as [_ ?]. Qed.

Lemma plain_nonempty s : isPlainSegment s = true -> s <> EmptyString.
Proof.
  unfold isPlainSegment, truthy. intros H Hs. subst. discriminate.
Qed.

Lemma normStep_plain b res seg :
  isPlainSegment seg = true -> normStep b res seg = seg :: res.
Proof.
  unfold isPlainSegment, truthy, normStep. intros H.
  repeat (apply andb_true_iff in H as [H ?]).
  repeat match goal with
    | Hn : negb _ = true |- _ => apply negb_true_iff in Hn; rewrite Hn
    end.
  reflexivity.
Qed.

Lemma normalizeSegments_plain b segs :
  Forall (fun s => isPlainSegment s = true) segs -> normalizeSegments b segs = segs.
Proof.
  unfold normalizeSegments. intros H.
  assert (Hacc : forall acc, fold_left (normStep b) segs acc = (rev segs ++ acc)%list).
  { induction H as [|s segs Hs _ IH]; intros acc; simpl; [reflexivity|].
    rewrite (normStep_plain _ _ _ Hs), IH. now rewrite <- app_assoc. }
  rewrite Hacc, app_nil_r. apply rev_involutive.
Qed.

Lemma join_cons2 sep x y rest :
  join sep (x :: y :: rest) = x ++ sep ++ join sep (y :: rest).
Proof. reflexivity. Qed.

Lemma split_join segs cur :
  segs <> [] ->
  Forall (fun s => isPlainSegment s = true) segs ->
  splitAux slash cur (join "/" segs)
  = match segs with
    | [] => []
    | x :: rest => (cur ++ x) :: rest
    end.
Proof.
  intros Hne H. revert cur. induction H as [|x segs Hx Hsegs IH]; [contradiction|].
  intros cur. destruct segs as [|y rest].
  - simpl. now apply splitAux_last, plain_no_slash.
  - rewrite join_cons2.
    change ("/" ++ join "/" (y :: rest)) with (String slash (join "/" (y :: rest))).
    rewrite splitAux_segment by now apply plain_no_slash.
    now rewrite (IH ltac:(discriminate) EmptyString).
Qed.

Lemma join_plain_head x rest :
  isPlainSegment x = true ->
  exists c tl, join "/" (x :: rest) = String c tl /\ Ascii.eqb c slash = false.
Proof.
  intros Hx. pose proof (plain_nonempty _ Hx) as Hne.
  apply plain_no_slash in Hx.
  destruct x as [|c x']; [contradiction|].
  simpl in Hx. apply andb_true_iff in Hx as [Hc _]. apply negb_true_iff in Hc.
  destruct rest as [|y rest].
  - exists c, x'. now split.
  - exists c, (x' ++ "/" ++ join "/" (y :: rest)). now split.
Qed.

Lemma join_plain_no_trailing segs :
  segs <> [] ->
  Forall (fun s => isPlainSegment s = true) segs ->
  endsWith (join "/" segs) "/" = false.
Proof.
  intros Hne H. induction H as [|x segs Hx Hsegs IH]; [contradiction|].
  destruct segs as [|y rest].
  - simpl. apply (endsWith_every_not (fun c => negb (Ascii.eqb c slash))).
    + now apply plain_no_slash.
    + reflexivity.
  - rewrite join_cons2, <- append_assoc.
    rewrite endsWith_app_nonempty; [apply IH; discriminate|].
    inversion Hsegs as [|? ? Hy _]; subst.
    destruct (join_plain_head y rest Hy) as (c & tl & -> & _). discriminate.
Qed.

(** [path.normalize] leaves a relative path of plain segments alone. *)
Lemma normalize_plain segs :
  segs <> [] ->
  Forall (fun s => isPlainSegment s = true) segs ->
  normalize (join "/" segs) = join "/" segs.
Proof.
  intros Hne H. destruct segs as [|x rest]; [contradiction|].
  inversion H as [|? ? Hx _]; subst.
  destruct (join_plain_head x rest Hx) as (c & tl & Hj & Hc).
  unfold normalize, normalizeString, split.
  rewrite (split_join (x :: rest) EmptyString Hne H).
  change (EmptyString ++ x) with x.
  rewrite (normalizeSegments_plain _ _ H).
  rewrite (join_plain_no_trailing _ Hne H).
  unfold slash in Hc.
  rewrite Hj. unfold isAbsolute. rewrite startsWith_char, Hc. reflexivity.
Qed.

End PathFacts.

(** ** Unified paths *)

Section UnifiedPathFacts.
Import JsString PosixPath UnifiedPath.

Lemma length_append s t :
  String.length (s ++ t) = (String.length s + String.length t)%nat.
Proof. induction s as [|c s IH]; [reflexivity|]. rewrite append_cons. simpl. now rewrite IH. Qed.

Lemma replaceRuns_chars inRun s : every isSlugOrDash (replaceRuns inRun s) = true.
Proof.
  revert inRun. induction s as [|c s IH]; intros inRun; simpl; [reflexivity|].
  destruct (isSlugChar c) eqn:Hc; [|destruct inRun]; simpl; rewrite ?IH; try reflexivity.
  unfold isSlugOrDash. now rewrite Hc.
Qed.

Lemma dropLeadingDash_chars p s : every p s = true -> every p (dropLeadingDash s) = true.
Proof.
  destruct s as [|c s]; [trivial|]. simpl. intros H.
  apply andb_true_iff in H as [Hc Hs].
  destruct c as [[] [] [] [] [] [] [] []]; simpl; rewrite ?Hc; auto.
Qed.

Lemma dropTrailingDash_chars p s : every p s = true -> every p (dropTrailingDash s) = true.
Proof.
  induction s as [|c s IH]; [trivial|]. simpl. intros H.
  apply andb_true_iff in H as [Hc Hs].
  destruct s as [|c' s'].
  - destruct c as [[] [] [] [] [] [] [] []]; simpl; rewrite ?Hc; auto.
  - assert (Hrec : every p (String c (dropTrailingDash (String c' s'))) = true).
    { simpl. rewrite Hc. exact (IH Hs). }
    destruct c as [[] [] [] [] [] [] [] []]; exact Hrec.
Qed.

Lemma slugOf_chars name : every isSlugOrDash (slugOf name) = true.
Proof.
  unfold slugOf, trimDashes.
  apply dropTrailingDash_chars, dropLeadingDash_chars, replaceRuns_chars.
Qed.

Lemma slug_char_not_slash c : isSlugOrDash c = true -> negb (Ascii.eqb c slash) = true.
Proof.
  intros H. apply negb_true_iff, Ascii.eqb_neq. intros ->. discriminate.
Qed.

Lemma slug_file_plain slug :
  every isSlugOrDash slug = true -> isPlainSegment (slug ++ ".ts") = true.
Proof.
  intros H. unfold isPlainSegment, truthy.
  assert (Hlen : forall t, (String.length t < 3)%nat -> String.eqb (slug ++ ".ts") t = false).
  { intros t Ht. apply String.eqb_neq. intros Heq.
    apply (f_equal String.length) in Heq. rewrite length_append in Heq. simpl in Heq. lia. }
  rewrite !Hlen by (simpl; lia). simpl.
  rewrite every_app. rewrite (every_impl _ _ _ slug_char_not_slash H). reflexivity.
Qed.

Lemma folderFor_merged entityType :
  folderFor "merged" entityType = "merged" ++ "/" ++ subdirectoryOf entityType
  /\ isPlainSegment (subdirectoryOf entityType) = true.
Proof.
  unfold folderFor, subdirectoryOf.
  repeat match goal with
    | |- context [if ?b then _ else _] => destruct b
    end; split; reflexivity.
Qed.

Lemma joinPath_merged entityType slug :
  every isSlugOrDash slug = true ->
  joinPath [folderFor "merged" entityType; slug ++ ".ts"]
  = "merged/" ++ subdirectoryOf entityType ++ "/" ++ slug ++ ".ts".
Proof.
  intros Hslug. destruct (folderFor_merged entityType) as [Hfolder Hsub].
  pose proof (slug_file_plain slug Hslug) as Hfile.
  set (segs := ["merged"; subdirectoryOf entityType; slug ++ ".ts"]).
  assert (Hjoin : JsString.join "/" [folderFor "merged" entityType; slug ++ ".ts"]
                  = JsString.join "/" segs).
  { rewrite Hfolder. unfold segs. rewrite !join_cons2. simpl JsString.join.
    now rewrite !append_assoc. }
  assert (Htruthy : List.filter truthy [folderFor "merged" entityType; slug ++ ".ts"]
                    = [folderFor "merged" entityType; slug ++ ".ts"]).
  { simpl. rewrite Hfolder.
    unfold isPlainSegment in Hfile.
    apply andb_true_iff in Hfile as [Hfile _].
    apply andb_true_iff in Hfile as [Hfile _].
    apply andb_true_iff in Hfile as [Hfile _].
    now rewrite Hfile. }
  unfold joinPath. rewrite Htruthy, Hjoin.
  rewrite normalize_plain.
  - unfold segs. now rewrite !join_cons2.
  - discriminate.
  - unfold segs. repeat constructor; assumption.
Qed.

(** C4, as amended.  For every name and kind string, both copies of
    [generateUnifiedPath] return, under the default base directory, the
    path [merged/<dir>/<slug>.ts] where [<dir>] is [components], [hooks],
    [contexts] or [utils] for the kinds component, hook, context and
    utility and [common] for any other kind string, and [<slug>] is made
    of lower-case letters, digits and dashes only: the path is a function
    of the name and the kind alone. *)
Theorem unified_path_closed_form (name entityType : string) :
  ResolveAndMergeStep.generateUnifiedPath name entityType
    ResolveAndMergeStep.defaultBaseDir
  = "merged/" ++ subdirectoryOf entityType ++ "/" ++ slugOf name ++ ".ts"
  /\ ResolveStep.generateUnifiedPath name entityType ResolveStep.defaultBaseDir
     = ResolveAndMergeStep.generateUnifiedPath name entityType
         ResolveAndMergeStep.defaultBaseDir
  /\ every isSlugOrDash (slugOf name) = true.
Proof.
  split; [|split].
  - unfold ResolveAndMergeStep.generateUnifiedPath, ResolveAndMergeStep.defaultBaseDir.
    cbv zeta. apply joinPath_merged, slugOf_chars.
  - reflexivity.
  - apply slugOf_chars.
Qed.

(** C4, counterexample to the claim as stated: the path of a hook is not
    beneath a [state] directory and the path of a context is not beneath a
    [containers] directory. *)
Lemma unified_path_counterexample :
  ResolveAndMergeStep.generateUnifiedPath "useAuth" "hook"
    ResolveAndMergeStep.defaultBaseDir = "merged/hooks/useauth.ts"
  /\ ~ In "state" (split slash
         (ResolveAndMergeStep.generateUnifiedPath "useAuth" "hook"
            ResolveAndMergeStep.defaultBaseDir))
  /\ ResolveAndMergeStep.generateUnifiedPath "ThemeContext" "context"
       ResolveAndMergeStep.defaultBaseDir = "merged/contexts/themecontext.ts"
  /\ ~ In "containers" (split slash
         (ResolveAndMergeStep.generateUnifiedPath "ThemeContext" "context"
            ResolveAndMergeStep.defaultBaseDir)).
Proof.
  repeat split; try reflexivity; vm_compute; intuition discriminate.
Qed.

End UnifiedPathFacts.

(** ** The dependency graph builder *)

Section GraphFacts.
Import JsString Analysis DependencyGraphBuilder.

Variable cwd : string.

Lemma arrayIncludes_In xs x : arrayIncludes xs x = true <-> In x xs.
Proof.
  unfold arrayIncludes. rewrite existsb_exists. split.
  - intros (y & Hy & Heq). apply String.eqb_eq in Heq. now subst.
  - intros Hx. exists x. split; [exact Hx | apply String.eqb_refl].
Qed.

Lemma arrayIncludes_not_In xs x : arrayIncludes xs x = false <-> ~ In x xs.
Proof. rewrite <- arrayIncludes_In. now destruct (arrayIncludes xs x). Qed.

Lemma sameButNames_refl ns e : sameButNames ns e e.
Proof. repeat split. now left. Qed.

Lemma sameButNames_pushName ns name e :
  In name ns -> ~ In name (e_importedNames e) -> sameButNames ns e (pushName name e).
Proof. intros Hns H. repeat split. right. now exists name. Qed.

Lemma sameButNames_recordName name e : sameButNames [name] e (recordName name e).
Proof.
  unfold recordName. destruct (arrayIncludes (e_importedNames e) name) eqn:E; simpl.
  - apply sameButNames_refl.
  - apply sameButNames_pushName; [now left | now apply arrayIncludes_not_In].
Qed.

Lemma sameButNames_recordImportedName imp e :
  sameButNames (referencedBy imp) e (recordImportedName imp e).
Proof.
  unfold recordImportedName, referencedBy.
  destruct (imp_importedAs imp) as [alias|];
    repeat match goal with
      | |- context [if ?c && negb (arrayIncludes ?xs ?x) then _ else _] =>
          destruct c; simpl; [destruct (arrayIncludes xs x) eqn:?; simpl|]
      end;
    first [ apply sameButNames_refl
          | apply sameButNames_pushName;
            [simpl; tauto | now apply arrayIncludes_not_In] ].
Qed.

Lemma updateFirst_Forall2 (R : DependencyEdge -> DependencyEdge -> Prop) p f es :
  (forall e, R e e) -> (forall e, R e (f e)) -> Forall2 R es (updateFirst p f es).
Proof.
  intros Hrefl Hf. induction es as [|e es IH]; simpl; [constructor|].
  destruct (p e); constructor; auto.
  clear IH. induction es; constructor; auto.
Qed.

Lemma refreshed_same ns b : refreshed ns b b.
Proof.
  split; [|reflexivity].
  induction (b_edges b); constructor; [apply sameButNames_refl | assumption].
Qed.

Lemma refreshed_unresolved ns u b : refreshed ns b (pushUnresolved u b).
Proof. exact (refreshed_same ns b). Qed.

Lemma refreshed_update ns p f b :
  (forall e, sameButNames ns e (f e)) ->
  refreshed ns b (withEdges (updateFirst p f (b_edges b)) b).
Proof.
  intros Hf. split; [|reflexivity]. simpl.
  apply updateFirst_Forall2; [apply sameButNames_refl | exact Hf].
Qed.

Lemma created_push from to t w names reason b :
  isProcessed b (edgeId from to t) = false ->
  String.eqb from to = false ->
  created b (pushEdge {| e_from := from; e_to := to; e_type := t; e_weight := w;
                         e_importedNames := names; e_reason := reason |}
                      (edgeId from to t) b).
Proof.
  intros Hid Hne. eexists. repeat split.
  - unfold isProcessed in Hid. now apply bool_decide_eq_false in Hid.
  - now apply String.eqb_neq.
Qed.

Lemma importStep_shape analysis sourcePath b imp :
  created b (importStep cwd analysis sourcePath b imp)
  \/ refreshed (referencedBy imp) b (importStep cwd analysis sourcePath b imp).
Proof.
  unfold importStep. cbv zeta.
  destruct (resolveImportPath _ _ _ _ _) as [target|].
  - destruct (truthy target).
    + destruct (String.eqb sourcePath target) eqn:Hne; simpl.
      * right. apply refreshed_same.
      * destruct (isProcessed b _) eqn:Hid; simpl.
        -- right. apply refreshed_update, sameButNames_recordImportedName.
        -- left. now apply created_push.
    + destruct (isBareSpecifier _); [right; apply refreshed_same|].
      destruct (negb _); right; [apply refreshed_unresolved | apply refreshed_same].
  - destruct (isBareSpecifier _); [right; apply refreshed_same|].
    destruct (negb _); right; [apply refreshed_unresolved | apply refreshed_same].
Qed.

Lemma usageStep_shape t reasonOf exportsMap sourcePath b used :
  created b (usageStep t reasonOf exportsMap sourcePath b used)
  \/ refreshed [nc_name used] b (usageStep t reasonOf exportsMap sourcePath b used).
Proof.
  unfold usageStep.
  destruct (exportsMap !! nc_name used) as [target|]; [|right; apply refreshed_same].
  destruct (truthy target); simpl; [|right; apply refreshed_same].
  destruct (String.eqb target sourcePath) eqn:Hne; simpl; [right; apply refreshed_same|].
  destruct (isProcessed b _) eqn:Hid; simpl.
  - right. apply refreshed_update, sameButNames_recordName.
  - left. apply created_push; [exact Hid|]. now rewrite String.eqb_sym.
Qed.

Lemma definitionStep_shape t name reason definitionFile sourcePath b :
  created b (definitionStep t name reason definitionFile sourcePath b)
  \/ refreshed [] b (definitionStep t name reason definitionFile sourcePath b).
Proof.
  unfold definitionStep.
  destruct definitionFile as [target|]; [|right; apply refreshed_same].
  destruct (String.eqb sourcePath _) eqn:Hne; simpl; [right; apply refreshed_same|].
  destruct (isProcessed b _) eqn:Hid; simpl.
  - right. apply refreshed_same.
  - left. now apply created_push.
Qed.

Lemma discovery_shape analysis ns b b' :
  discovery cwd analysis ns b b' -> created b b' \/ refreshed ns b b'.
Proof.
  intros [sourcePath imp b0|sourcePath used b0|sourcePath api b0
         |sourcePath comp b0|sourcePath used b0].
  - apply importStep_shape.
  - apply usageStep_shape.
  - unfold contextUsageStep.
    destruct (ctx_type api);
      first [apply definitionStep_shape | right; apply refreshed_same].
  - unfold hocUsageStep.
    destruct (comp_inferredHOC comp) as [hoc|]; [|right; apply refreshed_same].
    destruct (truthy hoc); [apply definitionStep_shape | right; apply refreshed_same].
  - apply usageStep_shape.
Qed.

Lemma edgeIdOf_key e e' : edgeKey e' = edgeKey e -> edgeIdOf e' = edgeIdOf e.
Proof. unfold edgeKey, edgeIdOf. intros H. now inversion H. Qed.

Lemma refreshed_keys ns es es' :
  Forall2 (sameButNames ns) es es' -> map edgeKey es' = map edgeKey es.
Proof.
  induction 1 as [|e e' es es' (Hk & _) _ IH]; simpl; [reflexivity|].
  now rewrite Hk, IH.
Qed.

Lemma refreshed_ids ns es es' :
  Forall2 (sameButNames ns) es es' -> map edgeIdOf es' = map edgeIdOf es.
Proof.
  induction 1 as [|e e' es es' (Hk & _) _ IH]; simpl; [reflexivity|].
  now rewrite (edgeIdOf_key _ _ Hk), IH.
Qed.

Lemma tracked_empty : tracked emptyBuilder.
Proof.
  split; [|constructor]. intros id; simpl. split; [|tauto].
  intros H. now apply not_elem_of_empty in H.
Qed.

Lemma tracked_created b b' : created b b' -> tracked b -> tracked b'.
Proof.
  intros (e & Hedges & Hproc & Hfresh & _) [Hids Hnd]. split.
  - intros id. rewrite Hedges, Hproc, map_app, in_app_iff, elem_of_union,
      elem_of_singleton, Hids. simpl. intuition congruence.
  - rewrite Hedges, map_app. simpl.
    apply NoDup_app. repeat split; [exact Hnd | | apply NoDup_singleton].
    intros x Hx Hx'. apply list_elem_of_In in Hx, Hx'. destruct Hx' as [<-|[]].
    apply Hfresh, Hids, Hx.
Qed.

Lemma tracked_refreshed ns b b' : refreshed ns b b' -> tracked b -> tracked b'.
Proof.
  intros [Hedges Hproc] [Hids Hnd]. unfold tracked.
  now rewrite (refreshed_ids _ _ _ Hedges), Hproc.
Qed.

Lemma tracked_discovery analysis ns b b' :
  discovery cwd analysis ns b b' -> tracked b -> tracked b'.
Proof.
  intros Hstep Hb. destruct (discovery_shape _ _ _ _ Hstep) as [Hc|Hr].
  - exact (tracked_created _ _ Hc Hb).
  - exact (tracked_refreshed _ _ _ Hr Hb).
Qed.

Lemma tracked_reachable analysis b : reachable cwd analysis b -> tracked b.
Proof.
  unfold reachable. revert b.
  apply rtc_ind_r; [apply tracked_empty|].
  intros b1 b2 _ [ns Hstep] IH. eapply tracked_discovery; eassumption.
Qed.

Lemma loopFree_discovery analysis ns b b' :
  discovery cwd analysis ns b b' -> loopFree b -> loopFree b'.
Proof.
  intros Hstep Hb. unfold loopFree in *.
  destruct (discovery_shape _ _ _ _ Hstep) as [(e & -> & _ & _ & Hne)|[Hedges _]].
  - apply Forall_app. split; [exact Hb | now constructor].
  - induction Hedges as [|e e' es es' (Hk & _) _ IH]; [constructor|].
    inversion Hb; subst. constructor; [|now apply IH].
    unfold edgeKey in Hk. inversion Hk. congruence.
Qed.

Lemma loopFree_reachable analysis b : reachable cwd analysis b -> loopFree b.
Proof.
  unfold reachable. revert b.
  apply rtc_ind_r; [constructor|].
  intros b1 b2 _ [ns Hstep] IH. eapply loopFree_discovery; eassumption.
Qed.

Lemma fold_left_rtc {X : Type} (R : relation Builder) (f : Builder -> X -> Builder)
    (l : list X) (b : Builder) :
  (forall b0 x, R b0 (f b0 x)) -> rtc R b (fold_left f l b).
Proof.
  intros Hf. revert b. induction l as [|x l IH]; intros b; simpl; [reflexivity|].
  eapply rtc_l; [apply Hf | apply IH].
Qed.

Lemma fileStep_rtc analysis b entry :
  rtc (buildStep cwd analysis) b
    (fileStep cwd analysis (buildComponentExports (analyzedFiles analysis))
              (buildTypeExports (analyzedFiles analysis)) b entry).
Proof.
  destruct entry as [sourcePath fa]. unfold fileStep.
  repeat (etransitivity; [|apply fold_left_rtc; intros; eexists; constructor]).
  reflexivity.
Qed.

Lemma fold_left_rtc_star {X : Type} (R : relation Builder) (f : Builder -> X -> Builder)
    (l : list X) (b : Builder) :
  (forall b0 x, rtc R b0 (f b0 x)) -> rtc R b (fold_left f l b).
Proof.
  intros Hf. revert b. induction l as [|x l IH]; intros b; simpl; [reflexivity|].
  etransitivity; [apply Hf | apply IH].
Qed.

Lemma buildEdges_reachable analysis : reachable cwd analysis (buildEdges cwd analysis).
Proof.
  unfold reachable, buildEdges.
  apply fold_left_rtc_star. intros b0 entry. apply fileStep_rtc.
Qed.

Lemma NoDup_keys es : NoDup (map edgeIdOf es) -> NoDup (map edgeKey es).
Proof.
  induction es as [|e es IH]; simpl; [constructor|].
  rewrite !NoDup_cons. intros [Hnotin Hnd]. split; [|now apply IH].
  intros Hin. apply Hnotin.
  apply list_elem_of_In, in_map_iff in Hin. destruct Hin as (e0 & Hk & Hin0).
  apply list_elem_of_In, in_map_iff. exists e0.
  split; [now apply edgeIdOf_key | exact Hin0].
Qed.

(** C5.  In every dependency graph the builder produces, no edge, of any
    kind, has the same file as source and as target. *)
Theorem no_self_edges (analysis : AnalyzedProject) :
  Forall (fun e => e_from e <> e_to e) (edges (buildDependencyGraph cwd analysis)).
Proof. exact (loopFree_reachable analysis _ (buildEdges_reachable analysis)). Qed.

(** C8.  For an import whose specifier is bare (it starts with neither
    ['.'], nor ['/'], nor the alias sigil ['@']), resolution is skipped and
    the import leaves the builder as it was: no edge is added and nothing
    is recorded in [unresolvedImports]. *)
Theorem bare_specifier_skipped (analysis : AnalyzedProject) (sourcePath : string)
    (b : Builder) (imp : ImportDecl) :
  isBareSpecifier (imp_path imp) = true ->
  resolveImportPath cwd sourcePath (imp_path imp) (analyzedFiles analysis)
                    (rootPath analysis) = None
  /\ importStep cwd analysis sourcePath b imp = b.
Proof.
  intros Hbare. unfold importStep, resolveImportPath. cbv zeta.
  now rewrite Hbare.
Qed.

(** *** The order in which candidates are probed *)

Lemma find_app {X : Type} (p : X -> bool) (l1 l2 : list X) :
  List.find p (l1 ++ l2)
  = match List.find p l1 with
    | Some x => Some x
    | None => List.find p l2
    end.
Proof.
  induction l1 as [|x l1 IH]; simpl; [reflexivity|]. now destruct (p x).
Qed.

Lemma tryExtensions_find files basePath exts :
  tryExtensions files basePath exts
  = List.find (hasEntry files)
      (flat_map
         (fun ext =>
            [ (if endsWith basePath ext then basePath else basePath ++ ext);
              PosixPath.joinPath [basePath; "index" ++ ext] ])
         exts).
Proof.
  induction exts as [|ext exts IH]; simpl; [reflexivity|].
  destruct (hasEntry files (if endsWith basePath ext then _ else _)); [reflexivity|].
  destruct (hasEntry files (PosixPath.joinPath _)); [reflexivity | exact IH].
Qed.

Lemma tryBasePaths_find files paths :
  tryBasePaths files paths
  = firstKnown files (flat_map candidatesInProbeOrder paths).
Proof.
  unfold firstKnown. induction paths as [|basePath paths IH]; [reflexivity|].
  cbn [tryBasePaths flat_map]. unfold candidatesInProbeOrder at 1.
  rewrite <- app_comm_cons. cbn [List.find].
  destruct (hasEntry files basePath); [reflexivity|].
  rewrite find_app, <- tryExtensions_find.
  destruct (tryExtensions files basePath COMMON_FILE_EXTENSIONS); [reflexivity | exact IH].
Qed.

Lemma resolveImportPath_order fromFilePath importSource files root :
  resolveImportPath cwd fromFilePath importSource files root
  = if isBareSpecifier importSource then None
    else firstKnown files
           (flat_map candidatesInProbeOrder
              (possiblePathsToTry cwd fromFilePath importSource root)).
Proof.
  unfold resolveImportPath. destruct (isBareSpecifier importSource); [reflexivity|].
  apply tryBasePaths_find.
Qed.

(** *** An import that resolves leaves its edge in the graph *)

Lemma edgeTypeEqb_eq a b : edgeTypeEqb a b = true <-> a = b.
Proof.
  split; [|intros ->; apply String.eqb_refl].
  destruct a, b; first [reflexivity | discriminate].
Qed.

Lemma sameEnds_key from to t e :
  sameEnds from to t e = true <-> edgeKey e = (from, to, t).
Proof.
  unfold sameEnds, edgeKey. rewrite !andb_true_iff, !String.eqb_eq, edgeTypeEqb_eq.
  split; [intros [[-> ->] ->]; reflexivity | intros H; now inversion H].
Qed.

Lemma Forall2_In_l {X Y : Type} (R : X -> Y -> Prop) xs ys x :
  Forall2 R xs ys -> In x xs -> exists y, In y ys /\ R x y.
Proof.
  induction 1 as [|x0 y0 xs ys Hxy _ IH]; [intros []|].
  intros [<-|Hin].
  - exists y0. split; [now left | exact Hxy].
  - destruct (IH Hin) as (y & Hy & HR). exists y. split; [now right | exact HR].
Qed.

Lemma sameButNames_names ns e e' name :
  sameButNames ns e e' -> In name (e_importedNames e) -> In name (e_importedNames e').
Proof.
  intros (_ & _ & _ & [->|(n & _ & _ & ->)]) Hin; [exact Hin|].
  apply in_or_app. now left.
Qed.

Lemma carries_discovery analysis ns k name b b' :
  discovery cwd analysis ns b b' -> carries k name b -> carries k name b'.
Proof.
  intros Hstep (e & Hin & Hk & Hname).
  destruct (discovery_shape _ _ _ _ Hstep) as [(e' & Hedges & _)|[Hedges _]].
  - exists e. rewrite Hedges. repeat split; try assumption.
    apply in_or_app. now left.
  - destruct (Forall2_In_l _ _ _ _ Hedges Hin) as (e' & Hin' & Hsame).
    exists e'. repeat split; [exact Hin' | | eapply sameButNames_names; eassumption].
    destruct Hsame as [Hk' _]. congruence.
Qed.

Lemma carries_rtc analysis k name b b' :
  rtc (buildStep cwd analysis) b b' -> carries k name b -> carries k name b'.
Proof.
  induction 1 as [|b1 b2 b3 [ns Hstep] _ IH]; [trivial|].
  intros H. apply IH. eapply carries_discovery; eassumption.
Qed.

(** Triples only accumulate while the graph is built. *)
Lemma keys_discovery analysis ns b b' e :
  discovery cwd analysis ns b b' -> In e (b_edges b) ->
  exists e', In e' (b_edges b') /\ edgeKey e' = edgeKey e.
Proof.
  intros Hstep Hin.
  destruct (discovery_shape _ _ _ _ Hstep) as [(e' & Hedges & _)|[Hedges _]].
  - exists e. rewrite Hedges. split; [apply in_or_app; now left | reflexivity].
  - destruct (Forall2_In_l _ _ _ _ Hedges Hin) as (e' & Hin' & Hk & _).
    now exists e'.
Qed.

Lemma keys_rtc analysis b b' e :
  rtc (buildStep cwd analysis) b b' -> In e (b_edges b) ->
  exists e', In e' (b_edges b') /\ edgeKey e' = edgeKey e.
Proof.
  intros H. revert e. induction H as [|b1 b2 b3 [ns Hstep] _ IH]; intros e Hin.
  - now exists e.
  - destruct (keys_discovery _ _ _ _ _ Hstep Hin) as (e1 & Hin1 & Hk1).
    destruct (IH _ Hin1) as (e2 & Hin2 & Hk2). exists e2. split; [exact Hin2 | congruence].
Qed.

Lemma recordImportedName_contains imp e :
  truthy (importedNameOf imp) = true ->
  In (importedNameOf imp) (e_importedNames (recordImportedName imp e)).
Proof.
  unfold importedNameOf, orElse, recordImportedName.
  destruct (imp_importedAs imp) as [alias|].
  - destruct (truthy alias) eqn:Halias; simpl.
    + intros _. destruct (arrayIncludes (e_importedNames e) alias) eqn:Hinc; simpl.
      * apply arrayIncludes_In in Hinc.
        destruct (truthy (imp_name imp) && _); simpl; [apply in_or_app; now left | exact Hinc].
      * apply in_or_app. right. now left.
    + intros Hname. rewrite Hname. simpl.
      destruct (arrayIncludes (e_importedNames e) (imp_name imp)) eqn:Hinc; simpl.
      * now apply arrayIncludes_In.
      * apply in_or_app. right. now left.
  - intros Hname. rewrite Hname. simpl.
    destruct (arrayIncludes (e_importedNames e) (imp_name imp)) eqn:Hinc; simpl.
    + now apply arrayIncludes_In.
    + apply in_or_app. right. now left.
Qed.

Lemma updateFirst_hit p f es :
  (exists e, In e es /\ p e = true) ->
  exists e1, In e1 es /\ p e1 = true /\ In (f e1) (updateFirst p f es).
Proof.
  induction es as [|e es IH]; intros (e0 & Hin & Hp); [destruct Hin|].
  simpl. destruct (p e) eqn:Hpe.
  - exists e. repeat split; [now left | exact Hpe | now left].
  - destruct Hin as [<-|Hin]; [congruence|].
    destruct IH as (e1 & Hin1 & Hp1 & Hf); [now exists e0|].
    exists e1. repeat split; [now right | exact Hp1 | now right].
Qed.

Lemma recordImportedName_key imp e : edgeKey (recordImportedName imp e) = edgeKey e.
Proof. exact (proj1 (sameButNames_recordImportedName imp e)). Qed.

Lemma importStep_carries analysis sourcePath b imp target :
  tracked b ->
  resolveImportPath cwd sourcePath (imp_path imp) (analyzedFiles analysis)
                    (rootPath analysis) = Some target ->
  truthy target = true ->
  target <> sourcePath ->
  truthy (importedNameOf imp) = true ->
  (forall e, In e (b_edges b) ->
             edgeIdOf e = edgeId sourcePath target (importEdgeType imp) ->
             edgeKey e = (sourcePath, target, importEdgeType imp)) ->
  carries (sourcePath, target, importEdgeType imp) (importedNameOf imp)
          (importStep cwd analysis sourcePath b imp).
Proof.
  intros [Hids _] Hres Htarget Hne Hname Hfree.
  unfold importStep. cbv zeta. rewrite Hres, Htarget.
  assert (Hneb : String.eqb sourcePath target = false)
    by (apply String.eqb_neq; congruence).
  rewrite Hneb. simpl.
  destruct (isProcessed b _) eqn:Hid; simpl.
  - unfold isProcessed in Hid. apply bool_decide_eq_true in Hid.
    apply Hids, in_map_iff in Hid. destruct Hid as (e0 & Hid0 & Hin0).
    pose proof (Hfree e0 Hin0 Hid0) as Hk0.
    destruct (updateFirst_hit (sameEnds sourcePath target (importEdgeType imp))
                (recordImportedName imp) (b_edges b)) as (e1 & Hin1 & Hp1 & Hf1).
    { exists e0. split; [exact Hin0 | now apply sameEnds_key]. }
    exists (recordImportedName imp e1). repeat split.
    + exact Hf1.
    + rewrite recordImportedName_key. now apply sameEnds_key.
    + now apply recordImportedName_contains.
  - eexists. repeat split.
    + apply in_or_app. right. now left.
    + reflexivity.
    + now left.
Qed.

Lemma fold_left_split {X : Type} (R : relation Builder) (f : Builder -> X -> Builder)
    (l : list X) (b : Builder) (x : X) :
  In x l ->
  (forall b0 y, rtc R b0 (f b0 y)) ->
  exists b0, rtc R b b0 /\ rtc R (f b0 x) (fold_left f l b).
Proof.
  intros Hin Hf. revert b. induction l as [|y l IH]; [destruct Hin|]; intros b.
  destruct Hin as [->|Hin].
  - exists b. split; [reflexivity|]. simpl. now apply fold_left_rtc_star.
  - destruct (IH Hin (f b y)) as (b0 & Hpre & Hpost).
    exists b0. split; [|exact Hpost]. etransitivity; [apply Hf | exact Hpre].
Qed.

Lemma import_step_in_run analysis sourcePath fa imp :
  In (sourcePath, fa) (analyzedFiles analysis) ->
  In imp (imports fa) ->
  exists b0,
    reachable cwd analysis b0
    /\ rtc (buildStep cwd analysis) (importStep cwd analysis sourcePath b0 imp)
           (buildEdges cwd analysis).
Proof.
  intros Hfile Himp.
  destruct (fold_left_split (buildStep cwd analysis)
              (fileStep cwd analysis (buildComponentExports (analyzedFiles analysis))
                        (buildTypeExports (analyzedFiles analysis)))
              (analyzedFiles analysis) emptyBuilder (sourcePath, fa) Hfile)
    as (bF & HpreF & HpostF); [intros; apply fileStep_rtc|].
  destruct (fold_left_split (buildStep cwd analysis)
              (importStep cwd analysis sourcePath) (imports fa) bF imp Himp)
    as (b0 & Hpre & Hpost); [intros; apply rtc_once; eexists; constructor|].
  exists b0. split; [unfold reachable; etransitivity; eassumption|].
  etransitivity; [exact Hpost|].
  etransitivity; [|exact HpostF].
  unfold fileStep.
  do 4 (etransitivity; [|apply fold_left_rtc; intros; eexists; constructor]).
  reflexivity.
Qed.

Lemma filter_all_false {X : Type} (p : X -> bool) (l : list X) :
  (forall x, In x l -> p x = false) -> List.filter p l = [].
Proof.
  induction l as [|x l IH]; intros H; simpl; [reflexivity|].
  rewrite (H x) by now left. apply IH. intros y Hy. apply H. now right.
Qed.

Lemma filter_unique_key from to t es e :
  NoDup (map edgeKey es) -> In e es -> edgeKey e = (from, to, t) ->
  List.filter (sameEnds from to t) es = [e].
Proof.
  intros Hnd Hin Hk. induction es as [|e0 es IH]; [destruct Hin|].
  simpl in Hnd. apply NoDup_cons in Hnd as [Hnotin Hnd]. simpl.
  destruct Hin as [->|Hin].
  - rewrite (proj2 (sameEnds_key from to t e) Hk). f_equal.
    apply filter_all_false.
    intros x Hx. destruct (sameEnds from to t x) eqn:Hp; [|reflexivity].
    exfalso. apply Hnotin. apply sameEnds_key in Hp.
    apply list_elem_of_In, in_map_iff. exists x. split; [congruence | exact Hx].
  - destruct (sameEnds from to t e0) eqn:Hp; [|now apply IH].
    exfalso. apply Hnotin. apply sameEnds_key in Hp.
    apply list_elem_of_In, in_map_iff. exists e. split; [congruence | exact Hin].
Qed.

Lemma resolveImportPath_relative fromFilePath importSource files root :
  startsWith importSource "." = true ->
  resolveImportPath cwd fromFilePath importSource files root
  = firstKnown files
      (candidatesInProbeOrder (relativeBasePath cwd fromFilePath importSource root)).
Proof.
  intros Hrel. rewrite resolveImportPath_order.
  unfold isBareSpecifier, possiblePathsToTry, relativeBasePath. rewrite Hrel.
  cbn [negb andb flat_map]. now rewrite app_nil_r.
Qed.

Lemma updateFirst_other p f es e :
  In e es -> p e = false -> In e (updateFirst p f es).
Proof.
  induction es as [|e0 es IH]; [intros []|].
  intros [<-|Hin] Hp; simpl.
  - rewrite Hp. now left.
  - destruct (p e0); [now right | right; now apply IH].
Qed.

Lemma updateFirst_length p f es : length (updateFirst p f es) = length es.
Proof.
  induction es as [|e es IH]; [reflexivity|].
  simpl. destruct (p e); simpl; [reflexivity | now rewrite IH].
Qed.

Lemma recordName_contains name e : In name (e_importedNames (recordName name e)).
Proof.
  unfold recordName.
  destruct (arrayIncludes (e_importedNames e) name) eqn:Hinc; simpl.
  - now apply arrayIncludes_In.
  - apply in_or_app. right. now left.
Qed.

Lemma recordName_key name e : edgeKey (recordName name e) = edgeKey e.
Proof. exact (proj1 (sameButNames_recordName name e)). Qed.

Lemma recordName_fresh name e :
  ~ In name (e_importedNames e) ->
  e_importedNames (recordName name e) = (e_importedNames e ++ [name])%list.
Proof.
  intros Hfresh. unfold recordName.
  destruct (arrayIncludes (e_importedNames e) name) eqn:Hinc; [|reflexivity].
  apply arrayIncludes_In in Hinc. contradiction.
Qed.

Lemma recordImportedName_fresh imp e :
  truthy (importedNameOf imp) = true ->
  ~ In (importedNameOf imp) (e_importedNames e) ->
  e_importedNames (recordImportedName imp e)
  = (e_importedNames e ++ [importedNameOf imp])%list.
Proof.
  unfold importedNameOf, orElse, recordImportedName.
  destruct (imp_importedAs imp) as [alias|].
  - destruct (truthy alias) eqn:Halias; cbn [andb].
    + intros _ Hfresh. apply arrayIncludes_not_In in Hfresh. now rewrite Hfresh.
    + intros Hname Hfresh. apply arrayIncludes_not_In in Hfresh.
      now rewrite Hname, Hfresh.
  - intros Hname Hfresh. apply arrayIncludes_not_In in Hfresh. now rewrite Hname, Hfresh.
Qed.

(** With one edge per triple, the edge of a triple after the rewrite is
    the rewritten edge of that triple. *)
Lemma updateFirst_unique from to t f es e e' :
  NoDup (map edgeKey es) ->
  (forall x, edgeKey (f x) = edgeKey x) ->
  In e es -> edgeKey e = (from, to, t) ->
  In e' (updateFirst (sameEnds from to t) f es) -> edgeKey e' = (from, to, t) ->
  e' = f e.
Proof.
  intros Hnd Hkey. induction es as [|e0 es IH]; [intros []|].
  cbn [map] in Hnd. apply NoDup_cons in Hnd. destruct Hnd as [Hnotin Hnd].
  assert (Hclash : forall x, In x es -> edgeKey x = edgeKey e0 -> False).
  { intros x Hx Hk. apply Hnotin, list_elem_of_In, in_map_iff. now exists x. }
  intros Hin Hk Hin' Hk'. cbn [updateFirst] in Hin'.
  destruct (sameEnds from to t e0) eqn:Hp.
  - apply sameEnds_key in Hp.
    assert (e = e0) as ->.
    { destruct Hin as [<-|Hin]; [reflexivity|]. exfalso. apply (Hclash e Hin). congruence. }
    destruct Hin' as [<-|Hin']; [reflexivity|].
    exfalso. apply (Hclash e' Hin'). congruence.
  - assert (Hne : edgeKey e0 <> (from, to, t)).
    { intros Hk0. apply sameEnds_key in Hk0. congruence. }
    destruct Hin as [<-|Hin]; [contradiction|].
    destruct Hin' as [<-|Hin']; [contradiction|].
    now apply IH.
Qed.

(** The rediscovery branch: the first edge with the triple is rewritten,
    the others are left as they are. *)
Lemma updateFirst_records from to t f name b :
  tracked b ->
  (forall e, edgeKey (f e) = edgeKey e) ->
  (forall e, In name (e_importedNames (f e))) ->
  (forall e, ~ In name (e_importedNames e) ->
             e_importedNames (f e) = (e_importedNames e ++ [name])%list) ->
  (exists e, In e (b_edges b) /\ edgeKey e = (from, to, t)) ->
  let b' := withEdges (updateFirst (sameEnds from to t) f (b_edges b)) b in
  length (b_edges b') = length (b_edges b)
  /\ carries (from, to, t) name b'
  /\ (forall e e', In e (b_edges b) -> In e' (b_edges b') ->
                   edgeKey e = (from, to, t) -> edgeKey e' = (from, to, t) ->
                   ~ In name (e_importedNames e) ->
                   e_importedNames e' = (e_importedNames e ++ [name])%list)
  /\ forall e, In e (b_edges b) -> edgeKey e <> (from, to, t) -> In e (b_edges b').
Proof.
  intros Hb Hkey Hname Hfresh (e0 & Hin0 & Hk0). cbv zeta. cbn [withEdges b_edges].
  split; [apply updateFirst_length|]. split; [|split].
  - destruct (updateFirst_hit (sameEnds from to t) f (b_edges b)) as (e1 & Hin1 & Hp1 & Hf1).
    { exists e0. split; [exact Hin0 | now apply sameEnds_key]. }
    exists (f e1). repeat split; [exact Hf1 | | apply Hname].
    rewrite Hkey. now apply sameEnds_key.
  - intros e e' Hin Hin' Hk Hk' Hnew.
    rewrite (updateFirst_unique from to t f (b_edges b) e e'
               (NoDup_keys _ (proj2 Hb)) Hkey Hin Hk Hin' Hk').
    now apply Hfresh.
  - intros e Hin Hk. apply updateFirst_other; [exact Hin|].
    destruct (sameEnds from to t e) eqn:Hp; [|reflexivity].
    apply sameEnds_key in Hp. contradiction.
Qed.

Lemma isProcessed_known b e from to t :
  tracked b -> In e (b_edges b) -> edgeKey e = (from, to, t) ->
  isProcessed b (edgeId from to t) = true.
Proof.
  intros [Hids _] Hin Hk. unfold isProcessed. apply bool_decide_eq_true.
  apply Hids, in_map_iff. exists e. split; [|exact Hin].
  unfold edgeIdOf. unfold edgeKey in Hk. now inversion Hk.
Qed.

Lemma usageStep_rediscovered t reasonOf exportsMap sourcePath b used target :
  tracked b ->
  exportsMap !! nc_name used = Some target ->
  truthy target = true ->
  target <> sourcePath ->
  (exists e, In e (b_edges b) /\ edgeKey e = (sourcePath, target, t)) ->
  let b' := usageStep t reasonOf exportsMap sourcePath b used in
  length (b_edges b') = length (b_edges b)
  /\ carries (sourcePath, target, t) (nc_name used) b'
  /\ (forall e e', In e (b_edges b) -> In e' (b_edges b') ->
                   edgeKey e = (sourcePath, target, t) ->
                   edgeKey e' = (sourcePath, target, t) ->
                   ~ In (nc_name used) (e_importedNames e) ->
                   e_importedNames e' = (e_importedNames e ++ [nc_name used])%list)
  /\ forall e, In e (b_edges b) -> edgeKey e <> (sourcePath, target, t) -> In e (b_edges b').
Proof.
  intros Hb Hres Htarget Hne Hedge. cbv zeta. unfold usageStep. rewrite Hres, Htarget.
  assert (Hneb : String.eqb target sourcePath = false) by now apply String.eqb_neq.
  rewrite Hneb. cbn [negb andb]. cbv zeta.
  destruct Hedge as (e0 & Hin0 & Hk0).
  rewrite (isProcessed_known b e0 _ _ _ Hb Hin0 Hk0). cbn [negb].
  apply updateFirst_records.
  - exact Hb.
  - apply recordName_key.
  - apply recordName_contains.
  - apply recordName_fresh.
  - now exists e0.
Qed.

(** When a relationship is discovered again, no edge is added, the edge
    with its triple lists the name the discovery refers to, which is
    appended to its names when it was not among them, and every other edge
    is left as it is. *)
Lemma rediscovery_records analysis k name b b' :
  tracked b -> rediscovery cwd analysis k name b b' ->
  length (b_edges b') = length (b_edges b)
  /\ carries k name b'
  /\ (forall e e', In e (b_edges b) -> In e' (b_edges b') ->
                   edgeKey e = k -> edgeKey e' = k ->
                   ~ In name (e_importedNames e) ->
                   e_importedNames e' = (e_importedNames e ++ [name])%list)
  /\ forall e, In e (b_edges b) -> edgeKey e <> k -> In e (b_edges b').
Proof.
  intros Hb Hre.
  destruct Hre as [sourcePath imp target b Hres Htarget Hne Hedge Hname
                  |sourcePath used target b Hres Htarget Hne Hedge
                  |sourcePath typeUsed target b Hres Htarget Hne Hedge].
  - unfold importStep. cbv zeta. rewrite Hres, Htarget.
    assert (Hneb : String.eqb sourcePath target = false)
      by (apply String.eqb_neq; congruence).
    rewrite Hneb. cbn [negb].
    destruct Hedge as (e0 & Hin0 & Hk0).
    rewrite (isProcessed_known b e0 _ _ _ Hb Hin0 Hk0). cbn [negb].
    apply updateFirst_records.
    + exact Hb.
    + apply recordImportedName_key.
    + intros e. now apply recordImportedName_contains.
    + intros e. now apply recordImportedName_fresh.
    + now exists e0.
  - now apply usageStep_rediscovered.
  - now apply usageStep_rediscovered.
Qed.

(** C2, as amended.  No two edges of a produced graph share the triple
    (from, to, kind).  Each discovery made while the graph is built either
    appends one edge whose triple is new, or appends none: then every edge
    keeps its place, ends, kind and weight, and the list of names of an
    edge is either unchanged or longer by one name it did not contain,
    taken from the names the discovery refers to (the alias or the name of
    an import, the name of a rendered component or of a used type, and no
    name at all for a context usage or a wrapper usage).  When an import, a
    rendered component or a used type is discovered again, no edge is
    added; the edge that has its triple lists the name the discovery refers
    to (the alias of the import, or its name when it has no alias, provided
    it is not empty), which is appended to the names of that edge when it
    was not among them; and every other edge is left as it is. *)
Theorem edges_unique_per_triple (analysis : AnalyzedProject)
    (referenced : list string) (b b' : Builder) :
  reachable cwd analysis b ->
  discovery cwd analysis referenced b b' ->
  NoDup (map edgeKey (edges (buildDependencyGraph cwd analysis)))
  /\ NoDup (map edgeKey (b_edges b'))
  /\ ((exists e, b_edges b' = (b_edges b ++ [e])%list
                 /\ ~ In (edgeKey e) (map edgeKey (b_edges b)))
      \/ Forall2 (sameButNames referenced) (b_edges b) (b_edges b'))
  /\ (forall k name,
        rediscovery cwd analysis k name b b' ->
        length (b_edges b') = length (b_edges b)
        /\ carries k name b'
        /\ (forall e e', In e (b_edges b) -> In e' (b_edges b') ->
                         edgeKey e = k -> edgeKey e' = k ->
                         ~ In name (e_importedNames e) ->
                         e_importedNames e' = (e_importedNames e ++ [name])%list)
        /\ forall e, In e (b_edges b) -> edgeKey e <> k -> In e (b_edges b')).
Proof.
  intros Hreach Hstep.
  pose proof (tracked_reachable _ _ Hreach) as Hb.
  pose proof (tracked_discovery _ _ _ _ Hstep Hb) as Hb'.
  split; [|split; [|split]].
  - apply NoDup_keys. exact (proj2 (tracked_reachable _ _ (buildEdges_reachable analysis))).
  - apply NoDup_keys. exact (proj2 Hb').
  - destruct (discovery_shape _ _ _ _ Hstep) as [(e & Hedges & _ & Hfresh & _)|[Hedges _]];
      [left | right; exact Hedges].
    exists e. split; [exact Hedges|].
    intros Hin. apply Hfresh, (proj1 Hb).
    apply in_map_iff in Hin. destruct Hin as (e0 & Hk & Hin0).
    apply in_map_iff. exists e0. split; [now apply edgeIdOf_key | exact Hin0].
  - intros k name Hre. exact (rediscovery_records analysis k name b b' Hb Hre).
Qed.

(** C9, as amended.  A relative specifier is resolved against the
    directory of the importing file, and the candidates of the resulting
    base path are probed in this order, first match winning: the base path
    itself, then, for each known extension in turn, the base path with that
    extension (the base path itself when it already ends with it) followed
    by the index file with that extension inside the base path.  When the
    first match is a non-empty path other than the importing file, the
    imported name is not empty, and no other edge of the graph is written
    with the same identifier, the graph holds exactly one edge from the
    importing file to the resolved file of the import's kind ([import], or
    [dynamic-import] when the specifier contains an opening
    [import] call), and that edge lists the imported name. *)
Theorem relative_import_edge (analysis : AnalyzedProject) (sourcePath : string)
    (fa : ASTDependency) (imp : ImportDecl) (target : string) :
  In (sourcePath, fa) (analyzedFiles analysis) ->
  In imp (imports fa) ->
  startsWith (imp_path imp) "." = true ->
  firstKnown (analyzedFiles analysis)
    (candidatesInProbeOrder
       (relativeBasePath cwd sourcePath (imp_path imp) (rootPath analysis)))
  = Some target ->
  truthy target = true ->
  target <> sourcePath ->
  truthy (importedNameOf imp) = true ->
  (forall e, In e (edges (buildDependencyGraph cwd analysis)) ->
             edgeIdOf e = edgeId sourcePath target (importEdgeType imp) ->
             edgeKey e = (sourcePath, target, importEdgeType imp)) ->
  resolveImportPath cwd sourcePath (imp_path imp) (analyzedFiles analysis)
                    (rootPath analysis) = Some target
  /\ exists e,
       List.filter (sameEnds sourcePath target (importEdgeType imp))
                   (edges (buildDependencyGraph cwd analysis)) = [e]
       /\ In (importedNameOf imp) (e_importedNames e).
Proof.
  intros Hfile Himp Hrel Hfirst Htarget Hne Hname Hfree.
  assert (Hres : resolveImportPath cwd sourcePath (imp_path imp) (analyzedFiles analysis)
                   (rootPath analysis) = Some target)
    by (now rewrite resolveImportPath_relative).
  split; [exact Hres|].
  destruct (import_step_in_run analysis sourcePath fa imp Hfile Himp)
    as (b0 & Hreach & Hrest).
  assert (Hcarried : carries (sourcePath, target, importEdgeType imp) (importedNameOf imp)
                             (buildEdges cwd analysis)).
  { apply (carries_rtc _ _ _ _ _ Hrest).
    apply importStep_carries; try assumption.
    - now apply (tracked_reachable analysis).
    - intros e Hin Hid.
      destruct (keys_rtc analysis b0 (buildEdges cwd analysis) e) as (e' & Hin' & Hk');
        [etransitivity; [apply rtc_once; eexists; constructor | exact Hrest]
        | exact Hin |].
      rewrite <- Hk'. apply Hfree; [exact Hin'|].
      now rewrite (edgeIdOf_key _ _ Hk'). }
  destruct Hcarried as (e & Hin & Hk & Hnamed).
  exists e. split; [|exact Hnamed].
  apply filter_unique_key; [|exact Hin | exact Hk].
  apply NoDup_keys.
  exact (proj2 (tracked_reachable _ _ (buildEdges_reachable analysis))).
Qed.

End GraphFacts.

(** ** The merge decision of [deepSmartMerge] *)

Section DeepSmartMergeFacts.
Import Analysis Conflict Merger.

Context {Ast : Type}.
Variable parse : string -> list string -> option Ast.
Variable generate : Ast -> string + string.
Variable generateCompact : Ast -> string + string.
Variable placeholder : string -> Ast.

Lemma foldWarning_score ws s :
  sc_score (fold_left foldWarning ws s) = sc_score s - 5 * Z.of_nat (length ws).
Proof.
  revert s. induction ws as [|w ws IH]; intros s; simpl length; simpl fold_left.
  - lia.
  - rewrite IH. simpl. lia.
Qed.

Lemma foldWarning_resolved ws s :
  length (sc_resolvedConflicts (fold_left foldWarning ws s))
  = (length (sc_resolvedConflicts s) + length ws)%nat.
Proof.
  revert s. induction ws as [|w ws IH]; intros s; simpl; [lia|].
  rewrite IH. simpl. rewrite length_app. simpl. lia.
Qed.

Lemma foldWarnings_score ws :
  sc_score (foldWarnings ws) = Z.max 0 (100 - 5 * Z.of_nat (length ws)).
Proof.
  unfold foldWarnings. destruct ws as [|w ws]; [reflexivity|].
  change (0 <? length (w :: ws))%nat with true. cbv iota.
  pose proof (foldWarning_score (w :: ws) initialScoring) as Hs.
  change (sc_score initialScoring) with 100 in Hs.
  destruct (sc_score (fold_left foldWarning (w :: ws) initialScoring) <? 0) eqn:E.
  - apply Z.ltb_lt in E. simpl sc_score. lia.
  - apply Z.ltb_ge in E. lia.
Qed.

Lemma foldWarnings_resolved ws :
  length (sc_resolvedConflicts (foldWarnings ws)) = length ws.
Proof.
  unfold foldWarnings. destruct ws as [|w ws]; [reflexivity|].
  change (0 <? length (w :: ws))%nat with true. cbv iota.
  pose proof (foldWarning_resolved (w :: ws) initialScoring) as Hr.
  destruct (sc_score _ <? 0); simpl in *; lia.
Qed.

Lemma foldWarning_resolved_list ws s :
  sc_resolvedConflicts (fold_left foldWarning ws s)
  = (sc_resolvedConflicts s ++ map autoResolved ws)%list.
Proof.
  revert s. induction ws as [|w ws IH]; intros s; simpl; [now rewrite app_nil_r|].
  rewrite IH. simpl. now rewrite <- List.app_assoc.
Qed.

Lemma foldWarnings_resolved_list ws :
  sc_resolvedConflicts (foldWarnings ws) = map autoResolved ws.
Proof.
  unfold foldWarnings. destruct ws as [|w ws]; [reflexivity|].
  change (0 <? length (w :: ws))%nat with true. cbv iota.
  pose proof (foldWarning_resolved_list (w :: ws) initialScoring) as Hr.
  destruct (sc_score _ <? 0); exact Hr.
Qed.

Lemma combine_thrown fileMap incoming t :
  fold_left (combineStep parse generateCompact fileMap) incoming (inr t) = inr t.
Proof. induction incoming as [|e incoming IH]; [reflexivity | exact IH]. Qed.

(** [entitiesToMerge.map(e => e.originalPaths[0])] throws exactly when an
    entity carries no [originalPaths]. *)
Lemma firstPaths_carrying entities :
  match firstPaths entities with
  | Some paths => forallb carriesPaths entities = true /\ length paths = length entities
  | None => forallb carriesPaths entities = false
  end.
Proof.
  induction entities as [|e entities IH]; [now split|].
  cbn [firstPaths forallb].
  assert (Hc : carriesPaths e = match ne_originalPaths e with Some _ => true | None => false end)
    by reflexivity.
  rewrite Hc. clear Hc.
  destruct (ne_originalPaths e) as [ps|]; [|reflexivity].
  destruct (firstPaths entities) as [paths|]; cbn [andb].
  - destruct IH as [IH Hlen]. split; [exact IH | cbn; now rewrite Hlen].
  - exact IH.
Qed.

(** One iteration of the loop, for a member that carries its original
    paths. *)
Lemma combineStep_carrying fileMap c0 e :
  carriesPaths e = true ->
  match combineStep parse generateCompact fileMap (inl c0) e with
  | inl c =>
      stops parse generateCompact fileMap (cb_finalAst c0) e = false
      /\ cb_finalAst c = cb_finalAst c0
      /\ cb_score c = cb_score c0 - (if unanalysed fileMap e then 10 else 0)
  | inr _ => stops parse generateCompact fileMap (cb_finalAst c0) e = true
  end.
Proof.
  unfold carriesPaths, combineStep, stops, treeOf, unanalysed, analysisOf.
  destruct (ne_originalPaths e) as [ps|]; [intros _|discriminate].
  destruct (lookupAnalysis fileMap (firstPath ps)) as [a|]; cbn [negb andb].
  - destruct (parseCodeToAst parse _ _ _) as [ast|msg]; [|reflexivity].
    unfold mergeAsts.
    destruct (generateCompact (cb_finalAst c0)) as [code|msg]; [|reflexivity].
    rewrite String.eqb_refl. cbn. repeat split. lia.
  - cbn. repeat split.
Qed.

(** The loop over the later members, when each carries its original
    paths: it throws exactly when a member stops it; when it does not, the
    tree is kept and the score loses 10 per member without analysis. *)
Lemma combine_carrying fileMap incoming c0 :
  forallb carriesPaths incoming = true ->
  match fold_left (combineStep parse generateCompact fileMap) incoming (inl c0) with
  | inl c =>
      existsb (stops parse generateCompact fileMap (cb_finalAst c0)) incoming = false
      /\ cb_finalAst c = cb_finalAst c0
      /\ cb_score c = cb_score c0 - 10 * Z.of_nat (missingAnalyses fileMap incoming)
  | inr _ => existsb (stops parse generateCompact fileMap (cb_finalAst c0)) incoming = true
  end.
Proof.
  revert c0. induction incoming as [|e incoming IH]; intros c0 Hall.
  - cbn. unfold missingAnalyses. cbn. repeat split. lia.
  - cbn [forallb] in Hall. apply andb_true_iff in Hall. destruct Hall as [He Hall].
    cbn [fold_left existsb].
    pose proof (combineStep_carrying fileMap c0 e He) as Hstep.
    destruct (combineStep parse generateCompact fileMap (inl c0) e) as [c1|t].
    + destruct Hstep as (Hstop & Hast & Hscore). rewrite Hstop. cbn [orb].
      specialize (IH c1 Hall). rewrite Hast in IH.
      destruct (fold_left _ incoming (inl c1)) as [c|t]; [|exact IH].
      destruct IH as (Hstops & Hast' & Hscore'). repeat split; [exact Hstops | exact Hast'|].
      unfold missingAnalyses in *. cbn [List.filter].
      destruct (unanalysed fileMap e); cbn [length]; lia.
    + rewrite combine_thrown, Hstep. reflexivity.
Qed.

(** With a member that carries no original paths the loop throws. *)
Lemma combine_lacking fileMap incoming acc :
  forallb carriesPaths incoming = false ->
  exists t, fold_left (combineStep parse generateCompact fileMap) incoming acc = inr t.
Proof.
  revert acc. induction incoming as [|e incoming IH]; intros acc Hall; [discriminate|].
  cbn [forallb] in Hall. cbn [fold_left].
  destruct acc as [c|t]; [|exists t; apply combine_thrown].
  unfold combineStep at 2. unfold carriesPaths at 1 in Hall.
  destruct (ne_originalPaths e) as [ps|].
  - cbn [andb] in Hall. apply IH. exact Hall.
  - rewrite combine_thrown. eexists. reflexivity.
Qed.

Lemma existsb_stops fileMap ast incoming :
  existsb (stops parse generateCompact fileMap ast) incoming
  = existsb (parseFails parse fileMap) incoming
    || (existsb (fun e => negb (unanalysed fileMap e)) incoming
        && match generateCompact ast with inr _ => true | inl _ => false end).
Proof.
  induction incoming as [|e incoming IH]; [reflexivity|].
  cbn [existsb]. rewrite IH.
  generalize (existsb (parseFails parse fileMap) incoming)
             (existsb (fun e0 => negb (unanalysed fileMap e0)) incoming).
  intros b1 b2. unfold stops, parseFails.
  destruct (unanalysed fileMap e), (treeOf parse fileMap e), b1, b2,
    (generateCompact ast); reflexivity.
Qed.

(** The [try] block of [deepSmartMerge] on a group whose members carry
    their original paths. *)
Lemma combineAll_carrying fileMap dominantEntity incoming s :
  forallb carriesPaths (dominantEntity :: incoming) = true ->
  match combineAll parse generateCompact fileMap dominantEntity incoming s with
  | inl c =>
      mergeFails parse generateCompact fileMap dominantEntity incoming = false
      /\ treeOf parse fileMap dominantEntity = Some (cb_finalAst c)
      /\ cb_score c = sc_score s - 10 * Z.of_nat (missingAnalyses fileMap incoming)
  | inr _ => mergeFails parse generateCompact fileMap dominantEntity incoming = true
  end.
Proof.
  cbn [forallb]. intros Hall. apply andb_true_iff in Hall. destruct Hall as [Hd Hall].
  unfold mergeFails. cbn [existsb].
  pose proof (fun ast => existsb_stops fileMap ast incoming) as Hstops.
  set (E1 := existsb (parseFails parse fileMap) incoming) in *.
  set (E2 := existsb (fun e => negb (unanalysed fileMap e)) incoming) in *.
  unfold combineAll, compactFails, parseFails, treeOf, unanalysed, analysisOf.
  unfold carriesPaths in Hd.
  destruct (ne_originalPaths dominantEntity) as [ps|]; [|discriminate].
  destruct (lookupAnalysis fileMap (firstPath ps)) as [a|]; [|reflexivity].
  destruct (parseCodeToAst parse _ _ _) as [ast|msg]; [|reflexivity].
  cbn [negb andb orb].
  pose proof (combine_carrying fileMap incoming
                {| cb_finalAst := ast; cb_log := sc_log s; cb_score := sc_score s |} Hall)
    as Hloop.
  cbn [cb_finalAst cb_score] in Hloop. rewrite Hstops in Hloop.
  destruct (fold_left _ incoming _) as [c|t]; [|exact Hloop].
  destruct Hloop as (Hstop & Hast & Hscore).
  split; [exact Hstop|]. split; [now rewrite Hast | exact Hscore].
Qed.

(** What [deepSmartMerge] does on a non-empty group. *)
Lemma deepSmartMerge_outcome entityName dominantEntity incoming fileMap warnings :
  let outcome :=
    deepSmartMerge parse generate generateCompact placeholder entityName
      (dominantEntity :: incoming) fileMap warnings in
  let start := sc_score (foldWarnings warnings) in
  let emitted := start - 10 * Z.of_nat (missingAnalyses fileMap incoming) in
  if negb (forallb carriesPaths (dominantEntity :: incoming)) then
    outcome = Raised (undefinedRead "0")
  else if mergeFails parse generateCompact fileMap dominantEntity incoming then
    exists paths t,
      firstPaths (dominantEntity :: incoming) = Some paths
      /\ outcome = Returned (Some (errorEntity placeholder entityName
                                     (dominantEntity :: incoming) dominantEntity paths t))
  else
    exists ast,
      treeOf parse fileMap dominantEntity = Some ast
      /\ match generate ast with
         | inr msg => outcome = Raised msg
         | inl finalMergedCode =>
             exists r,
               outcome = Returned (Some r)
               /\ me_id r = ne_id dominantEntity
               /\ me_name r = entityName
               /\ me_unifiedPath r = ne_unifiedPath dominantEntity
               /\ me_mergedAST r = ast
               /\ me_status r = (if (0 <? length warnings)%nat
                                 then StMergedWithWarnings else StMerged)
               /\ me_resolvedConflicts r = (if (0 <? length warnings)%nat
                                            then Some (map autoResolved warnings) else None)
               /\ me_mergedFromCount r = S (length incoming)
               /\ me_mergeQualityScore r = Some emitted
               /\ me_needsManualReview r = (emitted <? 70) || (0 <? length warnings)%nat
         end.
Proof.
  cbv zeta. unfold deepSmartMerge. cbv zeta.
  pose proof (firstPaths_carrying (dominantEntity :: incoming)) as Hpaths.
  destruct (forallb carriesPaths (dominantEntity :: incoming)) eqn:Hall; cbn [negb].
  - pose proof (combineAll_carrying fileMap dominantEntity incoming
                  (foldWarnings warnings) Hall) as Htry.
    destruct (firstPaths (dominantEntity :: incoming)) as [paths|];
      [|congruence].
    destruct (combineAll _ _ _ _ _ _) as [c|t].
    + destruct Htry as (-> & Htree & Hscore). exists (cb_finalAst c). split; [exact Htree|].
      destruct (generate (cb_finalAst c)) as [code|msg]; [|reflexivity].
      eexists. split; [reflexivity|].
      cbn [me_id me_name me_unifiedPath me_mergedAST me_status me_resolvedConflicts
           me_mergedFromCount me_mergeQualityScore me_needsManualReview].
      rewrite foldWarnings_resolved, foldWarnings_resolved_list, Hscore.
      repeat split.
    + rewrite Htry. exists paths, t. split; reflexivity.
  - destruct (firstPaths (dominantEntity :: incoming)) as [paths|];
      [destruct Hpaths; congruence|].
    assert (Hthrown : exists t,
               combineAll parse generateCompact fileMap dominantEntity incoming
                 (foldWarnings warnings) = inr t).
    { unfold combineAll. cbn [forallb] in Hall. unfold carriesPaths at 1 in Hall.
      destruct (ne_originalPaths dominantEntity) as [ps|]; [|eexists; reflexivity].
      cbn [andb] in Hall.
      destruct (lookupAnalysis fileMap (firstPath ps)) as [a|]; [|eexists; reflexivity].
      destruct (parseCodeToAst parse _ _ _) as [ast|msg]; [|eexists; reflexivity].
      now apply combine_lacking. }
    destruct Hthrown as [t ->]. reflexivity.
Qed.


End DeepSmartMergeFacts.

(** ** The merge step *)

Section MergeStepFacts.
Import Analysis Conflict Merger MergeStep.

Context {Ast : Type}.
Variable placeholder : string -> Ast.
Variable merge :
  string -> list NormalizedEntity -> gmap string ASTDependency -> list MergeConflict
  -> @Outcome Ast.

Lemma OrderedMap_set_In_strong {V : Type} (m : OrderedMap.t V) k v k' v' :
  NoDup (map fst m) ->
  In (k', v') (OrderedMap.set m k v) ->
  (k' = k /\ v' = v) \/ (k' <> k /\ In (k', v') m).
Proof.
  induction m as [|[k0 v0] m IH]; simpl.
  - intros _ [H|[]]. inversion H. now left.
  - rewrite NoDup_cons. intros [Hnotin Hnd].
    destruct (String.eqb k0 k) eqn:E; simpl.
    + apply String.eqb_eq in E. subst k0.
      intros [H|H]; [inversion H; now left|].
      right. split; [|now right].
      intros ->. apply Hnotin, list_elem_of_In, in_map_iff. now exists (k, v').
    + apply String.eqb_neq in E.
      intros [H|H]; [inversion H; subst; right; split; [exact E | now left]|].
      destruct (IH Hnd H) as [?|[? ?]]; [now left | right; split; [assumption | now right]].
Qed.

Lemma OrderedMap_get_Some_In {V : Type} (m : OrderedMap.t V) k v :
  OrderedMap.get m k = Some v -> In (k, v) m.
Proof.
  induction m as [|[k0 v0] m IH]; simpl; [discriminate|].
  destruct (String.eqb k0 k) eqn:E.
  - apply String.eqb_eq in E. subst k0. intros [= ->]. now left.
  - intros H. right. now apply IH.
Qed.

(** Groups built by [groupNormalizedEntities] have distinct keys and at
    least one member each. *)
Lemma groups_well_formed cs hs us xs :
  NoDup (map fst (groupNormalizedEntities cs hs us xs))
  /\ forall k l, In (k, l) (groupNormalizedEntities cs hs us xs) -> l <> [].
Proof.
  unfold groupNormalizedEntities.
  apply (fold_left_invariant
           (fun g : OrderedMap.t (list NormalizedEntity) =>
              NoDup (map fst g) /\ forall k l, In (k, l) g -> l <> [])).
  - split; [constructor | intros k l []].
  - intros g entity [Hnd Hne] _.
    set (g' := if negb (OrderedMap.has g (ne_id entity))
               then OrderedMap.set g (ne_id entity) [] else g).
    assert (Hnd' : NoDup (map fst g'))
      by (unfold g'; destruct (negb _); [now apply OrderedMap_set_NoDup | exact Hnd]).
    split; [now apply OrderedMap_set_NoDup|].
    intros k l Hin.
    apply OrderedMap_set_In_strong in Hin; [|exact Hnd'].
    destruct Hin as [[_ ->]|[Hk Hin]].
    + intros Habs. now apply app_eq_nil in Habs as [_ ?].
    + unfold g' in Hin. destruct (negb _); [|now apply (Hne k)].
      apply OrderedMap_set_In in Hin. destruct Hin as [[? _]|Hin];
        [contradiction | now apply (Hne k)].
Qed.

(** Every member of a group is one of the entities handed in. *)
Lemma groups_members cs hs us xs k l e :
  In (k, l) (groupNormalizedEntities cs hs us xs) -> In e l ->
  In e (cs ++ hs ++ us ++ xs)%list.
Proof.
  unfold groupNormalizedEntities. revert k l e.
  apply (fold_left_invariant
           (fun g : OrderedMap.t (list NormalizedEntity) =>
              forall k l e, In (k, l) g -> In e l -> In e (cs ++ hs ++ us ++ xs)%list)).
  - intros k l e [].
  - intros g entity Hg Hentity k l e Hin He.
    set (g' := if negb (OrderedMap.has g (ne_id entity))
               then OrderedMap.set g (ne_id entity) [] else g) in *.
    assert (Hg' : forall k l e, In (k, l) g' -> In e l -> In e (cs ++ hs ++ us ++ xs)%list).
    { intros k0 l0 e0 Hin0 He0. unfold g' in Hin0. destruct (negb _); [|now apply (Hg k0 l0)].
      apply OrderedMap_set_In in Hin0. destruct Hin0 as [[_ ->]|Hin0];
        [destruct He0 | now apply (Hg k0 l0)]. }
    apply OrderedMap_set_In in Hin. destruct Hin as [[_ ->]|Hin]; [|now apply (Hg' k l)].
    apply in_app_or in He. destruct He as [He|[<-|[]]]; [|exact Hentity].
    destruct (OrderedMap.get g' (ne_id entity)) as [l0|] eqn:Hget; [|destruct He].
    apply OrderedMap_get_Some_In in Hget. now apply (Hg' _ _ _ Hget).
Qed.

Lemma OrderedMap_set_nonempty {V : Type} (m : OrderedMap.t V) k v :
  OrderedMap.set m k v <> [].
Proof.
  destruct m as [|[k1 v1] m]; cbn; [discriminate|].
  destruct (String.eqb k1 k); discriminate.
Qed.

(** There is a group as soon as there is an entity. *)
Lemma groups_nonempty cs hs us xs :
  (cs ++ hs ++ us ++ xs)%list <> [] -> groupNormalizedEntities cs hs us xs <> [].
Proof.
  unfold groupNormalizedEntities.
  destruct (cs ++ hs ++ us ++ xs)%list as [|e l]; [contradiction|]. intros _.
  cbn [fold_left].
  apply (fold_left_invariant (fun g : OrderedMap.t (list NormalizedEntity) => g <> [])).
  - apply OrderedMap_set_nonempty.
  - intros g entity _ _. apply OrderedMap_set_nonempty.
Qed.

(** The two filters of the loop: on an entity with original paths they
    keep the conflicts that touch one of them; on an entity without, they
    throw as soon as there is a conflict to test. *)
Lemma filterBy_concerns first conflicts :
  filterBy (concerns first) conflicts
  = match ne_originalPaths first with
    | Some originalPaths => Some (List.filter (touches originalPaths) conflicts)
    | None => match conflicts with [] => Some [] | _ :: _ => None end
    end.
Proof.
  unfold concerns. destruct (ne_originalPaths first) as [ps|]; [|now destruct conflicts].
  induction conflicts as [|c conflicts IH]; [reflexivity|].
  cbn [filterBy List.filter]. rewrite IH. reflexivity.
Qed.

(** One iteration of the loop: it throws when the report lists a conflict
    and the first member has no original paths; otherwise the group is
    skipped when a critical error touches the first member, and handed to
    the collaborator when none does. *)
Lemma groupStep_closed report fileMap c k first rest :
  groupStep placeholder merge report fileMap c (k, first :: rest)
  = if listsConflicts report && negb (carriesPaths first) then None
    else Some (if isCritical report first
               then withSummary skipped
                      (Some (skippedEntity placeholder k (first :: rest) first)) None c
               else recordOutcome placeholder k (first :: rest) first
                      (merge (ne_name first) (first :: rest) fileMap
                         (conflictsOf first (warnings report)))
                      c).
Proof.
  unfold groupStep, listsConflicts, isCritical, conflictsOf, carriesPaths. cbv zeta.
  rewrite !filterBy_concerns.
  destruct (ne_originalPaths first) as [ps|].
  - cbn [negb]. rewrite andb_false_r.
    now destruct (0 <? length (List.filter (touches ps) (criticalErrors report)))%nat.
  - cbn [negb]. rewrite andb_true_r.
    destruct (criticalErrors report) as [|e es]; [|reflexivity].
    destruct (warnings report) as [|w ws]; reflexivity.
Qed.

(** The loop throws when the report lists a conflict and some group has a
    first member without original paths. *)
Lemma groupLoop_throws report fileMap groups c :
  (forall k l, In (k, l) groups -> l <> []) ->
  listsConflicts report && existsb lacksPaths groups = true ->
  groupLoop placeholder merge report fileMap groups c = None.
Proof.
  revert c. induction groups as [|[k l] groups IH]; intros c Hne Hthrows.
  - cbn in Hthrows. now rewrite andb_false_r in Hthrows.
  - destruct l as [|first rest]; [now destruct (Hne k []); [left|]|].
    cbn [groupLoop]. rewrite groupStep_closed.
    cbn [existsb] in Hthrows. unfold lacksPaths at 1 in Hthrows. cbn [snd] in Hthrows.
    destruct (listsConflicts report); [|discriminate]. cbn [andb] in *.
    destruct (negb (carriesPaths first)); [reflexivity|]. cbn [orb] in Hthrows.
    apply IH; [|exact Hthrows]. intros k' l' Hin. apply (Hne k'). now right.
Qed.

Lemma runMergeStep_throws input :
  stepThrows input = true -> runMergeStep placeholder merge input = None.
Proof.
  intros Hthrows. unfold runMergeStep. cbv zeta.
  rewrite groupLoop_throws; [reflexivity| |exact Hthrows].
  apply groups_well_formed.
Qed.

(** On a group whose first member carries its original paths, the skip
    branch is taken exactly when a critical error touches one of them. *)
Lemma groupStep_skips report fileMap c k first rest :
  carriesPaths first = true ->
  isCritical report first = true ->
  groupStep placeholder merge report fileMap c (k, first :: rest)
  = Some (withSummary skipped (Some (skippedEntity placeholder k (first :: rest) first))
            None c).
Proof.
  intros Hpaths Hcritical. rewrite groupStep_closed, Hpaths, Hcritical.
  cbn [negb]. now rewrite andb_false_r.
Qed.


End MergeStepFacts.

(** ** The claims at sample inputs *)

Section Witnesses.
Import JsString Analysis Conflict ResolveAndMergeStep DependencyGraphBuilder.
Import Merger MergeStep Fixtures.

(** Scenario A as an instance of C1: the group of the two [Button]
    components is unmergeable because of its structural-form error. *)
Lemma mergeable_iff_no_error_witness :
  In ("Button", [buttonIn "/p1" true; buttonIn "/p2" false])
     (groupsOf Component (aggregate twoButtons))
  /\ exists first rest d,
       [buttonIn "/p1" true; buttonIn "/p2" false] = first :: rest
       /\ detectConflictsForEntity "Button" [buttonIn "/p1" true; buttonIn "/p2" false]
            Component = Some d
       /\ (forall c, In c (conflicts d) ->
             exists current, In current rest
                             /\ relatedFiles c = [pathOf first; pathOf current])
       /\ (canBeMerged d = false <->
             exists c, In c (conflicts d) /\ severity c = SevError)
       /\ ((forall c, In c (conflicts d) -> severity c = SevWarning) ->
             canBeMerged d = true).
Proof.
  split.
  - vm_compute. left. reflexivity.
  - apply (mergeable_iff_no_error twoButtons Component "Button").
    vm_compute. left. reflexivity.
Defined.

(** A rediscovery as an instance of C2: [a.tsx] is seen to render [Tile]
    after [Card], both exported by [widgets/Card.tsx]. *)
Lemma edges_unique_per_triple_witness :
  reachable "/" widgetsProject cardSeen
  /\ discovery "/" widgetsProject ["Tile"] cardSeen tileSeen
  /\ rediscovery "/" widgetsProject ("a.tsx", "widgets/Card.tsx", RenderUsage) "Tile"
       cardSeen tileSeen
  /\ (NoDup (map edgeKey (edges (buildDependencyGraph "/" widgetsProject)))
      /\ NoDup (map edgeKey (b_edges tileSeen))
      /\ ((exists e, b_edges tileSeen = (b_edges cardSeen ++ [e])%list
                     /\ ~ In (edgeKey e) (map edgeKey (b_edges cardSeen)))
          \/ Forall2 (sameButNames ["Tile"]) (b_edges cardSeen) (b_edges tileSeen))
      /\ length (b_edges tileSeen) = length (b_edges cardSeen)
      /\ carries ("a.tsx", "widgets/Card.tsx", RenderUsage) "Tile" tileSeen
      /\ (forall e e', In e (b_edges cardSeen) -> In e' (b_edges tileSeen) ->
                       edgeKey e = ("a.tsx", "widgets/Card.tsx", RenderUsage) ->
                       edgeKey e' = ("a.tsx", "widgets/Card.tsx", RenderUsage) ->
                       ~ In "Tile" (e_importedNames e) ->
                       e_importedNames e' = (e_importedNames e ++ ["Tile"])%list)).
Proof.
  assert (Hreach : reachable "/" widgetsProject cardSeen)
    by (apply rtc_once; eexists; constructor).
  assert (Hstep : discovery "/" widgetsProject ["Tile"] cardSeen tileSeen)
    by exact (DiscoverRenderUsage "/" widgetsProject "a.tsx" (used "Tile" 1) cardSeen).
  assert (Hre : rediscovery "/" widgetsProject ("a.tsx", "widgets/Card.tsx", RenderUsage)
                  "Tile" cardSeen tileSeen).
  { apply (RediscoverRenderUsage "/" widgetsProject "a.tsx" (used "Tile" 1)
             "widgets/Card.tsx" cardSeen).
    - vm_compute. reflexivity.
    - reflexivity.
    - discriminate.
    - eexists. split; [vm_compute; left; reflexivity | reflexivity]. }
  split; [exact Hreach|]. split; [exact Hstep|]. split; [exact Hre|].
  destruct (edges_unique_per_triple "/" widgetsProject ["Tile"] cardSeen tileSeen
              Hreach Hstep) as (H1 & H2 & H3 & H4).
  destruct (H4 _ _ Hre) as (Hlen & Hcarries & Happended & _).
  split; [exact H1|]. split; [exact H2|]. split; [exact H3|].
  split; [exact Hlen|]. split; [exact Hcarries | exact Happended].
Defined.

(** C2, counterexample to the claim as stated.  Rendering [Tile] after
    [Card] rediscovers the render-usage edge from [a.tsx] to
    [widgets/Card.tsx]: its weight is 2 before and after.  The second
    context that [app.tsx] uses from [ctx.tsx] rediscovers the
    context-usage edge without its name being added.  And importing [Card]
    from [./widgets/Card] a second time rediscovers the import edge, whose
    names already hold [Card]: the list is not extended. *)
Lemma rediscovery_counterexample :
  (exists e1 e2,
     b_edges cardSeen = [e1] /\ b_edges tileSeen = [e2]
     /\ edgeKey e1 = edgeKey e2
     /\ e_weight e1 = Some 2 /\ e_weight e2 = Some 2
     /\ ~ (2 < 2))
  /\ (exists e,
        edges (buildDependencyGraph "/" contextProject) = [e]
        /\ edgeKey e = ("app.tsx", "ctx.tsx", ContextUsage)
        /\ e_importedNames e = ["ThemeContext"]
        /\ ~ In "UserContext" (e_importedNames e))
  /\ (exists e,
        b_edges cardImported = [e]
        /\ b_edges cardImportedAgain = [e]
        /\ edgeKey e = ("a.tsx", "widgets/Card.tsx", Import)
        /\ e_importedNames e = ["Card"]).
Proof.
  split; [|split].
  - eexists _, _. repeat split; try (vm_compute; reflexivity). lia.
  - eexists. split; [vm_compute; reflexivity|].
    repeat split. simpl. intros [H|[]]. discriminate.
  - eexists. split; [vm_compute; reflexivity|].
    split; [vm_compute; reflexivity|]. split; reflexivity.
Qed.

(** Scenario D as an instance of C8. *)
Lemma bare_specifier_skipped_witness :
  isBareSpecifier (imp_path (namedImport "leftPad" "left-pad")) = true
  /\ (resolveImportPath "/" "a.tsx" (imp_path (namedImport "leftPad" "left-pad"))
        (analyzedFiles widgetsProject) (rootPath widgetsProject) = None
      /\ importStep "/" widgetsProject "a.tsx" emptyBuilder
           (namedImport "leftPad" "left-pad") = emptyBuilder).
Proof.
  split; [reflexivity|].
  apply (bare_specifier_skipped "/" widgetsProject "a.tsx" emptyBuilder
           (namedImport "leftPad" "left-pad")).
  reflexivity.
Defined.

(** Scenario C as an instance of C9. *)
Lemma relative_import_edge_witness :
  In ("a.tsx", pageFile) (analyzedFiles widgetsProject)
  /\ In (namedImport "Card" "./widgets/Card") (imports pageFile)
  /\ startsWith (imp_path (namedImport "Card" "./widgets/Card")) "." = true
  /\ firstKnown (analyzedFiles widgetsProject)
       (candidatesInProbeOrder
          (relativeBasePath "/" "a.tsx" (imp_path (namedImport "Card" "./widgets/Card"))
             (rootPath widgetsProject)))
     = Some "widgets/Card.tsx"
  /\ truthy "widgets/Card.tsx" = true
  /\ "widgets/Card.tsx" <> "a.tsx"
  /\ truthy (importedNameOf (namedImport "Card" "./widgets/Card")) = true
  /\ (forall e, In e (edges (buildDependencyGraph "/" widgetsProject)) ->
                edgeIdOf e = edgeId "a.tsx" "widgets/Card.tsx"
                               (importEdgeType (namedImport "Card" "./widgets/Card")) ->
                edgeKey e = ("a.tsx", "widgets/Card.tsx",
                             importEdgeType (namedImport "Card" "./widgets/Card")))
  /\ (resolveImportPath "/" "a.tsx" (imp_path (namedImport "Card" "./widgets/Card"))
        (analyzedFiles widgetsProject) (rootPath widgetsProject)
      = Some "widgets/Card.tsx"
      /\ exists e,
           List.filter (sameEnds "a.tsx" "widgets/Card.tsx"
                          (importEdgeType (namedImport "Card" "./widgets/Card")))
                       (edges (buildDependencyGraph "/" widgetsProject)) = [e]
           /\ In (importedNameOf (namedImport "Card" "./widgets/Card"))
                 (e_importedNames e)).
Proof.
  assert (Hfree : forall e, In e (edges (buildDependencyGraph "/" widgetsProject)) ->
                    edgeIdOf e = edgeId "a.tsx" "widgets/Card.tsx"
                                   (importEdgeType (namedImport "Card" "./widgets/Card")) ->
                    edgeKey e = ("a.tsx", "widgets/Card.tsx",
                                 importEdgeType (namedImport "Card" "./widgets/Card"))).
  { intros e Hin Hid. vm_compute in Hin.
    destruct Hin as [<-|[<-|[]]]; [reflexivity|]. vm_compute in Hid. discriminate. }
  assert (Hne : "widgets/Card.tsx" <> "a.tsx") by discriminate.
  repeat (split; [first [reflexivity | now left | exact Hne | exact Hfree]|]).
  apply (relative_import_edge "/" widgetsProject "a.tsx" pageFile
           (namedImport "Card" "./widgets/Card") "widgets/Card.tsx");
    first [reflexivity | now left | exact Hne | exact Hfree].
Defined.

(** C9, counterexample to the claim as stated.  With both
    [widgets/Card.tsx] and [widgets/Card/index.ts] known, the order of the
    claim (every extension before any index file) selects
    [widgets/Card.tsx], while the import of [./widgets/Card] resolves to
    [widgets/Card/index.ts]; the graph holds no import edge to
    [widgets/Card.tsx]. *)
Lemma probe_order_counterexample :
  firstKnown (analyzedFiles widgetsWithIndex)
    (candidatesInSpecOrder
       (relativeBasePath "/" "a.tsx" "./widgets/Card" (rootPath widgetsWithIndex)))
  = Some "widgets/Card.tsx"
  /\ resolveImportPath "/" "a.tsx" "./widgets/Card"
       (analyzedFiles widgetsWithIndex) (rootPath widgetsWithIndex)
     = Some "widgets/Card/index.ts"
  /\ List.filter (sameEnds "a.tsx" "widgets/Card.tsx" Import)
                 (edges (buildDependencyGraph "/" widgetsWithIndex)) = [].
Proof. repeat split; vm_compute; reflexivity. Qed.



End Witnesses.

(** ** The scenarios of the specification, evaluated *)

Section Scenarios.
Import JsString Analysis Conflict ResolveAndMergeStep DependencyGraphBuilder.
Import Merger MergeStep Fixtures.

(** Scenario A: one error-severity structural-form conflict, the group is
    not mergeable and no merged entity is produced for it. *)
Example scenario_A_detection :
  detectConflictsForEntity "Button" [buttonIn "/p1" true; buttonIn "/p2" false] Component
  = Some {| conflicts := [buttonError]; canBeMerged := false |}.
Proof. vm_compute. reflexivity. Qed.

Example scenario_A_run :
  option_map (fun out => (out_components out, summary out))
             (runResolveAndMergeStep twoButtons)
  = Some ([], {| s_totalInputEntities := 2; s_totalMergedEntities := 0;
                 s_totalSharedEntities := 0; s_totalConflictsReported := 1;
                 s_criticalErrors := 1; s_warnings := 0 |}).
Proof. vm_compute. reflexivity. Qed.

(** The skip branch of the merge step, on an entity made by hand to carry
    its original paths: with the conflicts of scenario A the group of
    [Button] is skipped and flagged, and the collaborator is not called. *)
Example scenario_A_skip_with_paths :
  option_map (fun out => (map (fun r => (me_id r, me_status r, me_needsManualReview r))
                              (finalMergedEntities out),
                          deepMergeCalls out,
                          totalSkippedDueToConflicts (mergeSummary out)))
             (Pipeline.runMergeStep textParse textPrint textPrint textPlaceholder
                buttonMergeInput)
  = Some ([("merged/components/button.ts", StSkippedConflict, true)], [], 1%nat).
Proof. vm_compute. reflexivity. Qed.

(** The same group as the normalize step builds it, without original
    paths: the step throws. *)
Example scenario_A_merge_step :
  Pipeline.runMergeStep textParse textPrint textPrint textPlaceholder orchestratedButtons
  = None.
Proof. vm_compute. reflexivity. Qed.

(** Scenario B: no conflict, one merged utility shared by both projects. *)
Example scenario_B_run :
  option_map (fun out => (map (fun e => match e with
                                        | MergedUtility base _ =>
                                            (m_id base, m_originalPaths base, m_isShared base)
                                        | _ => (EmptyString, [], false)
                                        end) (out_utilities out),
                          totalConflicts (mergeConflicts out)))
             (runResolveAndMergeStep twoFormatDates)
  = Some ([("merged/utils/formatdate.ts", ["src/date.ts"; "src/date.ts"], true)], 0%nat).
Proof. vm_compute. reflexivity. Qed.

(** Scenarios C, D and E on one project: the two imports of
    [./widgets/Card] make one import edge that lists both names, the bare
    import leaves no trace, and the render-usage edge has the weight of the
    first component discovered. *)
Example scenario_CDE_graph :
  let g := buildDependencyGraph "/" widgetsProject in
  map (fun e => (edgeKey e, e_weight e, e_importedNames e)) (edges g)
  = [ (("a.tsx", "widgets/Card.tsx", Import), None, ["Card"; "Tile"]);
      (("a.tsx", "widgets/Card.tsx", RenderUsage), Some 2, ["Card"; "Tile"]) ]
  /\ unresolvedImports g = [].
Proof. vm_compute. split; reflexivity. Qed.

(** Two relationships whose identifiers coincide: the import of [./c] by
    the file named [a -> b] comes after the edge from [a] to [b -> c] and
    leaves no edge of its own. *)
Example identifier_collision :
  let files :=
    [ ("a", analysisOf (scanned "/p" "a" EmptyString None) 1 [namedImport "x" "./b -> c"] [] [] [] []);
      ("b -> c", analysisOf (scanned "/p" "b -> c" EmptyString None) 1 [] [] [] [] []);
      ("a -> b", analysisOf (scanned "/p" "a -> b" EmptyString None) 1 [namedImport "y" "./c"] [] [] [] []);
      ("c", analysisOf (scanned "/p" "c" EmptyString None) 1 [] [] [] [] []) ] in
  let project := {| projectName := "p"; rootPath := "/p"; analyzedFiles := files |} in
  resolveImportPath "/" "a -> b" "./c" files "/p" = Some "c"
  /\ edgeId "a" "b -> c" Import = edgeId "a -> b" "c" Import
  /\ map edgeKey (edges (buildDependencyGraph "/" project)) = [("a", "b -> c", Import)].
Proof. vm_compute. repeat split; reflexivity. Qed.

(** Unified paths of a few names. *)
Example unified_path_samples :
  map (fun '(name, kind) => generateUnifiedPath name kind defaultBaseDir)
      [("Button", "component"); ("useAuth Hook!!", "hook"); ("--My  Button__", "component");
       ("formatDate", "utility"); ("!!!", "layout")]
  = ["merged/components/button.ts"; "merged/hooks/useauth-hook.ts";
     "merged/components/my-button.ts"; "merged/utils/formatdate.ts"; "merged/common/.ts"].
Proof. vm_compute. reflexivity. Qed.

End Scenarios.

(* ===================================================================== *)
(** * Part III: further properties of the code                           *)
(* ===================================================================== *)

(** ** Name-count profiles *)

Section ProfileFacts.
Import Analysis ResolveAndMergeStep.

Lemma compare_spec p q :
  compareNameCountProfiles p q = true
  <-> length p = length q /\ profileMap p = profileMap q.
Proof.
  unfold compareNameCountProfiles. split.
  - destruct (length p =? length q)%nat eqn:Hlen; [|discriminate]. cbn [negb].
    destruct (size (profileMap p) =? size (profileMap q))%nat eqn:Hsize; [|discriminate].
    cbn [negb]. intros Hall.
    apply Nat.eqb_eq in Hlen, Hsize. split; [exact Hlen|].
    apply map_subseteq_size_eq; [|lia].
    apply map_subseteq_spec. intros k v Hk.
    rewrite forallb_forall in Hall.
    specialize (Hall (k, v)). cbv beta iota in Hall.
    assert (Hin : In (k, v) (map_to_list (profileMap p)))
      by (apply list_elem_of_In, elem_of_map_to_list; exact Hk).
    specialize (Hall Hin).
    destruct (profileMap q !! k) as [c|]; [|discriminate].
    apply Z.eqb_eq in Hall. now subst.
  - intros [Hlen Hmap]. rewrite Hlen, Nat.eqb_refl. cbn [negb].
    rewrite Hmap, Nat.eqb_refl. cbn [negb].
    apply forallb_forall. intros [k v] Hin.
    apply list_elem_of_In, elem_of_map_to_list in Hin. rewrite Hin. apply Z.eqb_refl.
Qed.

Lemma compare_refl p : compareNameCountProfiles p p = true.
Proof. now apply compare_spec. Qed.

(** X1.  [compareNameCountProfiles] answers true exactly when the two
    profiles have the same number of entries and their maps from name to
    count are the same map, where a name listed more than once counts with
    its last entry. *)
Theorem compare_profiles_same_table (p q : list NameCount) :
  compareNameCountProfiles p q = true
  <-> length p = length q /\ profileMap p = profileMap q.
Proof. apply compare_spec. Qed.

Lemma profileMap_fold p (m : gmap string Z) :
  NoDup (map nc_name p) ->
  (forall item, In item p -> m !! nc_name item = None) ->
  fold_left (fun m item => <[nc_name item := nc_count item]> m) p m
  = list_to_map (map pairOf p) ∪ m.
Proof.
  revert m. induction p as [|x p IH]; intros m Hnd Hfresh; simpl.
  - now rewrite (left_id_L ∅ (∪)).
  - apply NoDup_cons in Hnd as [Hx Hnd].
    rewrite IH; [|exact Hnd|].
    + rewrite <- insert_union_r.
      2:{ apply not_elem_of_list_to_map_1. rewrite <- list_fmap_compose.
          intros Hin. apply Hx. apply list_elem_of_fmap in Hin as (y & Hy & Hin).
          apply list_elem_of_fmap. exists y. split; [exact Hy | exact Hin]. }
      now rewrite insert_union_l.
    + intros item Hin. rewrite lookup_insert_ne; [apply Hfresh; now right|].
      intros Heq. apply Hx. rewrite Heq. apply list_elem_of_fmap. exists item.
      split; [reflexivity | now apply list_elem_of_In].
Qed.

Lemma profileMap_list p :
  NoDup (map nc_name p) -> profileMap p = list_to_map (map pairOf p).
Proof.
  intros Hnd. unfold profileMap. rewrite profileMap_fold; [|exact Hnd|].
  - now rewrite (right_id_L ∅ (∪)).
  - intros. apply lookup_empty.
Qed.

Lemma pairOf_inj : Inj eq eq pairOf.
Proof. intros [n c] [n' c']. unfold pairOf. simpl. now intros [= -> ->]. Qed.

Lemma profile_entries p :
  NoDup (map nc_name p) -> Permutation (map_to_list (profileMap p)) (map pairOf p).
Proof.
  intros Hnd. rewrite profileMap_list by exact Hnd.
  apply map_to_list_to_map. rewrite <- list_fmap_compose. exact Hnd.
Qed.

Lemma map_pairOf_inj p q : map pairOf p = map pairOf q -> p = q.
Proof.
  revert q. induction p as [|x p IH]; intros [|y q]; simpl; try discriminate; [reflexivity|].
  intros H. pose proof (f_equal (hd (pairOf x)) H) as Hxy.
  pose proof (f_equal (@tl _) H) as Hpq. simpl in Hxy, Hpq.
  f_equal; [now apply pairOf_inj | now apply IH].
Qed.

(** X2.  On profiles that list no name twice the comparison does not
    depend on the order of the entries: it answers true exactly when one
    profile is a rearrangement of the other. *)
Theorem compare_profiles_order_independent (p q : list NameCount) :
  NoDup (map nc_name p) -> NoDup (map nc_name q) ->
  compareNameCountProfiles p q = true <-> Permutation p q.
Proof.
  intros Hp Hq. rewrite compare_spec. split.
  - intros [_ Hmap].
    assert (Hperm : Permutation (map pairOf p) (map pairOf q)).
    { rewrite <- (profile_entries p Hp), <- (profile_entries q Hq). now rewrite Hmap. }
    apply Permutation_map_inv in Hperm as (l3 & Heq & Hperm).
    apply map_pairOf_inj in Heq. subst l3. now symmetry.
  - intros Hperm. split; [now apply Permutation_length|].
    apply map_eq. intros k.
    rewrite !profileMap_list by assumption.
    apply option_eq. intros v.
    rewrite <- !elem_of_list_to_map by (rewrite <- list_fmap_compose; assumption).
    now rewrite Hperm.
Qed.
End ProfileFacts.

(** ** More on ordered maps *)

Section OrderedMapMore.
Context {V : Type}.

Lemma OrderedMap_get_set_other (m : OrderedMap.t V) k v k' :
  k' <> k -> OrderedMap.get (OrderedMap.set m k v) k' = OrderedMap.get m k'.
Proof.
  intros Hne. induction m as [|[k0 v0] m IH]; simpl.
  - destruct (String.eqb k k') eqn:E; [apply String.eqb_eq in E; congruence | reflexivity].
  - destruct (String.eqb k0 k) eqn:E; simpl.
    + apply String.eqb_eq in E. subst k0.
      destruct (String.eqb k k') eqn:E'; [apply String.eqb_eq in E'; congruence | reflexivity].
    + now rewrite IH.
Qed.

Lemma OrderedMap_get_In (m : OrderedMap.t V) k v :
  NoDup (map fst m) -> (OrderedMap.get m k = Some v <-> In (k, v) m).
Proof.
  induction m as [|[k0 v0] m IH]; simpl; [intros _; split; [discriminate | tauto]|].
  rewrite NoDup_cons. intros [Hnotin Hnd].
  destruct (String.eqb k0 k) eqn:E.
  - apply String.eqb_eq in E. subst k0. split.
    + intros [= ->]. now left.
    + intros [[= ->]|Hin]; [reflexivity|].
      exfalso. apply Hnotin, list_elem_of_In, in_map_iff. now exists (k, v).
  - apply String.eqb_neq in E. rewrite (IH Hnd). split; [now right|].
    intros [[= ? ?]|Hin]; [congruence | exact Hin].
Qed.

Lemma OrderedMap_get_None (m : OrderedMap.t V) k :
  OrderedMap.get m k = None <-> ~ In k (map fst m).
Proof.
  induction m as [|[k0 v0] m IH]; simpl; [tauto|].
  destruct (String.eqb k0 k) eqn:E.
  - apply String.eqb_eq in E. subst. split; [discriminate | intros H; exfalso; apply H; now left].
  - apply String.eqb_neq in E. rewrite IH. tauto.
Qed.

End OrderedMapMore.

(** ** Aggregated profiles *)

Section AggregateProfileFacts.
Import JsString Analysis ResolveAndMergeStep.

Lemma fold_left_flat_map {A B C : Type} (f : A -> B -> A) (g : C -> list B) l a :
  fold_left (fun acc c => fold_left f (g c) acc) l a = fold_left f (flat_map g l) a.
Proof.
  revert a. induction l as [|c l IH]; intros a; simpl; [reflexivity|].
  now rewrite fold_left_app, IH.
Qed.

Lemma totalFor_snoc name items x :
  totalFor name (items ++ [x])
  = totalFor name items + (if String.eqb (nc_name x) name then nc_count x else 0).
Proof.
  unfold totalFor. induction items as [|y items IH]; simpl.
  - destruct (String.eqb (nc_name x) name); simpl; lia.
  - destruct (String.eqb (nc_name y) name); simpl; rewrite IH; lia.
Qed.

Lemma totalFor_absent name items :
  ~ In name (map nc_name items) -> totalFor name items = 0.
Proof.
  unfold totalFor. induction items as [|y items IH]; simpl; [reflexivity|].
  intros Hnot. destruct (String.eqb (nc_name y) name) eqn:E.
  - apply String.eqb_eq in E. exfalso. apply Hnot. now left.
  - apply IH. intros H. apply Hnot. now right.
Qed.

Lemma arrayIncludes_ext xs ys x :
  (In x xs <-> In x ys) -> arrayIncludes xs x = arrayIncludes ys x.
Proof.
  intros H. destruct (arrayIncludes xs x) eqn:E1, (arrayIncludes ys x) eqn:E2; try reflexivity.
  - apply arrayIncludes_In, H, arrayIncludes_In in E1. congruence.
  - apply arrayIncludes_In, H, arrayIncludes_In in E2. congruence.
Qed.

Lemma addUnique_fold_In xs acc x :
  In x (fold_left addUnique xs acc) <-> In x acc \/ In x xs.
Proof.
  revert acc. induction xs as [|y xs IH]; intros acc; simpl; [tauto|].
  rewrite IH. unfold addUnique.
  destruct (arrayIncludes acc y) eqn:E.
  - apply arrayIncludes_In in E. split; [tauto|]. intros [?|[<-|?]]; tauto.
  - rewrite in_app_iff. simpl. tauto.
Qed.

Lemma addUnique_fold_NoDup xs acc :
  NoDup acc -> NoDup (fold_left addUnique xs acc).
Proof.
  revert acc. induction xs as [|y xs IH]; intros acc Hnd; simpl; [exact Hnd|].
  apply IH. unfold addUnique. destruct (arrayIncludes acc y) eqn:E; [exact Hnd|].
  apply NoDup_app. repeat split; [exact Hnd | | apply NoDup_singleton].
  intros x Hx Hx'. apply list_elem_of_In in Hx, Hx'. destruct Hx' as [<-|[]].
  apply arrayIncludes_In in Hx. congruence.
Qed.

Lemma uniqueStrings_In xs x : In x (uniqueStrings xs) <-> In x xs.
Proof. unfold uniqueStrings. rewrite (addUnique_fold_In xs [] x). simpl. tauto. Qed.

Lemma uniqueStrings_NoDup xs : NoDup (uniqueStrings xs).
Proof. apply (addUnique_fold_NoDup xs []). constructor. Qed.

Lemma uniqueStrings_snoc xs x :
  uniqueStrings (xs ++ [x]) = addUnique (uniqueStrings xs) x.
Proof. unfold uniqueStrings. now rewrite fold_left_app. Qed.

Lemma tallies_step seen m x :
  tallies seen m -> tallies (seen ++ [x]) (addCount m x).
Proof.
  intros (Hnd & Hkeys & Hget). unfold addCount. repeat split.
  - now apply OrderedMap_set_NoDup.
  - rewrite OrderedMap_keys_set, map_app. cbn [map].
    rewrite uniqueStrings_snoc, <- Hkeys.
    unfold addUnique, OrderedMap.has. rewrite Hget.
    rewrite (arrayIncludes_ext (map fst m) (map nc_name seen)).
    + now destruct (arrayIncludes (map nc_name seen) (nc_name x)).
    + rewrite Hkeys. apply uniqueStrings_In.
  - intros k. rewrite map_app. cbn [map]. rewrite totalFor_snoc.
    destruct (String.eqb (nc_name x) k) eqn:E.
    + apply String.eqb_eq in E. subst k. rewrite OrderedMap_get_set_same.
      assert (Hin : arrayIncludes (map nc_name seen ++ [nc_name x]) (nc_name x) = true)
        by (apply arrayIncludes_In, in_app_iff; right; now left).
      rewrite Hin, Hget.
      destruct (arrayIncludes (map nc_name seen) (nc_name x)) eqn:E'; [reflexivity|].
      rewrite totalFor_absent; [reflexivity|].
      intros H. apply arrayIncludes_In in H. congruence.
    + apply String.eqb_neq in E. rewrite OrderedMap_get_set_other by congruence.
      rewrite Hget, Z.add_0_r.
      rewrite (arrayIncludes_ext (map nc_name seen ++ [nc_name x]) (map nc_name seen)).
      * reflexivity.
      * rewrite in_app_iff. simpl. split; [intros [?|[?|[]]]; [assumption|congruence] | tauto].
Qed.

Lemma tallies_fold items seen m :
  tallies seen m -> tallies (seen ++ items) (fold_left addCount items m).
Proof.
  revert seen m. induction items as [|x items IH]; intros seen m H; simpl.
  - now rewrite app_nil_r.
  - replace (seen ++ x :: items)%list with ((seen ++ [x]) ++ items)%list
      by (now rewrite <- app_assoc).
    apply IH, tallies_step, H.
Qed.

(** X3.  [aggregateNameCountProfiles] lists every name that occurs in the
    given property of some analysis exactly once, in order of first
    occurrence, and gives it the sum of all the counts listed under that
    name. *)
Theorem aggregated_profile_sums (analyses : list ASTDependency)
    (property : ASTDependency -> list NameCount) :
  let items := flat_map property analyses in
  let r := aggregateNameCountProfiles analyses property in
  map nc_name r = uniqueStrings (map nc_name items)
  /\ NoDup (map nc_name r)
  /\ (forall name, In name (map nc_name r) <-> In name (map nc_name items))
  /\ (forall item, In item r -> nc_count item = totalFor (nc_name item) items).
Proof.
  cbv zeta. unfold aggregateNameCountProfiles.
  change (fun (m' : OrderedMap.t Z) (item : NameCount) => _) with addCount.
  rewrite (fold_left_flat_map addCount property).
  set (items := flat_map property analyses).
  destruct (tallies_fold items [] []) as (Hnd & Hkeys & Hget).
  { split; [constructor | split; [reflexivity | intros k; reflexivity]]. }
  simpl app in *. set (m := fold_left addCount items []) in *.
  assert (Hnames : map nc_name (map (fun '(name, count) => {| nc_name := name; nc_count := count |}) m)
                   = map fst m).
  { rewrite map_map. apply map_ext. now intros [k v]. }
  rewrite Hnames. repeat split.
  - exact Hkeys.
  - exact Hnd.
  - rewrite Hkeys. apply uniqueStrings_In.
  - rewrite Hkeys. apply uniqueStrings_In.
  - intros item Hin. apply in_map_iff in Hin as ([k v] & <- & Hin). simpl.
    apply OrderedMap_get_In in Hin; [|exact Hnd]. rewrite Hget in Hin.
    destruct (arrayIncludes (map nc_name items) k); congruence.
Qed.
End AggregateProfileFacts.

(** ** Aggregation and the summary of the run *)

Section AggregationFacts.
Import JsString Analysis Conflict ResolveAndMergeStep.

(** An invariant of [record] is an invariant of the whole aggregation. *)
Lemma aggregate_invariant (P : Aggregation -> Prop) workspaces :
  P emptyAggregation ->
  (forall t k fa ag, P ag -> P (record t k fa ag)) ->
  P (aggregate workspaces).
Proof.
  intros Hempty Hrecord. unfold aggregate. apply fold_left_invariant; [exact Hempty|].
  intros ag project Hag _. apply fold_left_invariant; [exact Hag|].
  intros ag' fa Hag' _. unfold aggregateFile. cbv zeta.
  repeat (apply fold_left_invariant;
          [| intros ? ? ? _;
             repeat match goal with
               | |- context [if ?b then _ else _] => destruct b
               end;
             first [assumption | now apply Hrecord]]).
  exact Hag'.
Qed.

Lemma groupSizes_addToGroup g k fa :
  groupSizes (addToGroup g k fa) = S (groupSizes g).
Proof.
  unfold addToGroup, groupSizes.
  induction g as [|[k0 l0] g IH]; simpl.
  - reflexivity.
  - destruct (String.eqb k0 k) eqn:E; simpl.
    + rewrite length_app. simpl. lia.
    + rewrite IH. lia.
Qed.

Lemma addToGroup_NoDup g k fa :
  NoDup (map fst g) -> NoDup (map fst (addToGroup g k fa)).
Proof. apply OrderedMap_set_NoDup. Qed.

Lemma aggregate_counted workspaces t :
  counterOf t (totalInputEntities (aggregate workspaces))
  = groupSizes (groupsOf t (aggregate workspaces)).
Proof.
  revert t. apply aggregate_invariant.
  - now intros [].
  - intros t k fa ag Hag t'. pose proof (Hag t') as H.
    destruct t, t'; simpl in *; rewrite ?groupSizes_addToGroup; congruence.
Qed.

(** X4.  After aggregation the counter of each entity kind equals the
    number of declaration sites held by the groups of that kind; no two
    groups of a kind have the same name and no group is empty. *)
Theorem input_entities_counted (workspaces : list AnalyzedProject) (t : EntityType) :
  let ag := aggregate workspaces in
  counterOf t (totalInputEntities ag) = groupSizes (groupsOf t ag)
  /\ NoDup (map fst (groupsOf t ag))
  /\ (forall name analyses, In (name, analyses) (groupsOf t ag) -> analyses <> []).
Proof.
  cbv zeta. split; [apply aggregate_counted|]. split.
  - revert t. apply aggregate_invariant.
    + intros []; constructor.
    + intros t k fa ag Hag t'. pose proof (Hag t') as H.
      destruct t, t'; simpl in *; try exact H; now apply addToGroup_NoDup.
  - exact (aggregate_nonEmpty workspaces t).
Qed.

Lemma sumCounters_bump t c : sumCounters (bump t c) = S (sumCounters c).
Proof. destruct t; unfold sumCounters; simpl; lia. Qed.

Lemma process_step name first rest t st :
  exists d st',
    detectConflictsForEntity name (first :: rest) t = Some d
    /\ processEntityType name (first :: rest) t st = Some st'
    /\ allConflicts st' = (allConflicts st ++ conflicts d)%list
    /\ (sumCounters (totalSharedEntities st) <= sumCounters (totalSharedEntities st'))%nat
    /\ if canBeMerged d
       then mergedCount st' = S (mergedCount st)
            /\ errorCount st' = errorCount st
            /\ (sumCounters (totalSharedEntities st') <= S (sumCounters (totalSharedEntities st)))%nat
       else mergedCount st' = mergedCount st
            /\ (errorCount st < errorCount st')%nat
            /\ sumCounters (totalSharedEntities st') = sumCounters (totalSharedEntities st).
Proof.
  destruct (detect_nonempty name first rest t) as (d & Hd & Hflag & _).
  exists d. unfold processEntityType. rewrite Hd. cbv zeta.
  generalize (1 <? length (map pathOf (first :: rest)))%nat as sh. intros sh.
  generalize (map pathOf (first :: rest)) as paths. intros paths.
  unfold flagMatchesErrors in Hflag.
  destruct (canBeMerged d) eqn:Hc.
  - eexists. split; [reflexivity|]. split; [reflexivity|].
    split; [reflexivity|].
    assert (Herr : List.filter isError (conflicts d) = []).
    { symmetry in Hflag. apply negb_true_iff in Hflag.
      induction (conflicts d) as [|c cs IH]; [reflexivity|]. simpl in *.
      apply orb_false_iff in Hflag as [-> Hcs]. now apply IH. }
    unfold errorCount, mergedCount. simpl.
    rewrite List.filter_app, Herr, app_nil_r. rewrite andb_true_r.
    destruct sh; rewrite ?sumCounters_bump;
      (split; [lia|]); destruct t; simpl; rewrite ?length_app; simpl; repeat split; lia.
  - eexists. split; [reflexivity|]. split; [reflexivity|].
    split; [reflexivity|]. rewrite andb_false_r.
    unfold errorCount, mergedCount. simpl. split; [lia|]. repeat split.
    rewrite List.filter_app, length_app.
    symmetry in Hflag. apply negb_false_iff, existsb_exists in Hflag.
    destruct Hflag as (c & Hin & Hc').
    assert (Hin' : In c (List.filter isError (conflicts d))) by (apply filter_In; now split).
    destruct (List.filter isError (conflicts d)); [destruct Hin' | simpl; lia].
Qed.

Lemma processGroups_accounted t groups n st :
  groupsNonEmpty groups -> accounted n st ->
  exists st', processGroups t groups st = Some st'
              /\ accounted (n + length groups) st'.
Proof.
  revert n st. induction groups as [|[name analyses] groups IH]; intros n st Hne Hacc.
  - exists st. split; [reflexivity|]. simpl. now rewrite Nat.add_0_r.
  - destruct analyses as [|first rest]; [now destruct (Hne name []); [left|]|].
    destruct (process_step name first rest t st) as (d & st1 & _ & Hstep & _ & Hshared & Hcase).
    cbn [processGroups]. rewrite Hstep.
    destruct (IH (S n) st1) as (st' & Hloop & Hacc').
    + intros k l Hin. apply (Hne k). now right.
    + destruct Hacc as (Hle & Hsh & Hiff). unfold accounted.
      destruct (canBeMerged d); destruct Hcase as (Hm & He & Hs); repeat split; try lia.
    + exists st'. split; [exact Hloop|]. simpl length.
      now replace (n + S (length groups))%nat with (S n + length groups)%nat by lia.
Qed.

Lemma length_le_groupSizes g : groupsNonEmpty g -> (length g <= groupSizes g)%nat.
Proof.
  unfold groupSizes. induction g as [|[k l] g IH]; intros Hne; simpl; [lia|].
  assert (Hl : l <> []) by (apply (Hne k); now left).
  assert (Hg : groupsNonEmpty g) by (intros k' l' Hin; apply (Hne k'); now right).
  specialize (IH Hg). destruct l; [contradiction | simpl; lia].
Qed.

(** X5.  [runResolveAndMergeStep] returns for every input.  In its summary
    the merged entities are those of the four output lists; shared
    entities are at most the merged ones, merged ones at most the groups,
    and groups at most the input entities; and every group was merged
    exactly when no critical error is reported. *)
Theorem resolve_and_merge_completes (workspaces : list AnalyzedProject) :
  exists out,
    runResolveAndMergeStep workspaces = Some out
    /\ s_totalMergedEntities (summary out) = length (allMerged out)
    /\ (s_totalSharedEntities (summary out) <= s_totalMergedEntities (summary out))%nat
    /\ (s_totalMergedEntities (summary out) <= groupCount (aggregate workspaces))%nat
    /\ (groupCount (aggregate workspaces) <= s_totalInputEntities (summary out))%nat
    /\ (s_criticalErrors (summary out) = 0%nat
        <-> s_totalMergedEntities (summary out) = groupCount (aggregate workspaces)).
Proof.
  pose proof (aggregate_nonEmpty workspaces) as Hne.
  set (ag := aggregate workspaces) in *.
  destruct (processGroups_accounted Component (componentByName ag) 0 initialRunState)
    as (st1 & H1 & A1); [exact (Hne Component) | cbv; repeat split; lia |].
  destruct (processGroups_accounted Hook (hookByName ag) _ st1 (Hne Hook) A1)
    as (st2 & H2 & A2).
  destruct (processGroups_accounted Context (contextByName ag) _ st2 (Hne Context) A2)
    as (st3 & H3 & A3).
  destruct (processGroups_accounted Utility (utilityByName ag) _ st3 (Hne Utility) A3)
    as (st4 & H4 & A4).
  eexists. unfold runResolveAndMergeStep. fold ag.
  rewrite H1. simpl. rewrite H2. simpl. rewrite H3. simpl. rewrite H4. simpl.
  split; [reflexivity|].
  destruct A4 as (Hle & Hsh & Hiff). unfold mergedCount, errorCount in *.
  unfold allMerged, groupCount. simpl in *. rewrite !length_app.
  repeat split; try lia.
  unfold sumCounters.
  pose proof (aggregate_counted workspaces Component) as Hc.
  pose proof (aggregate_counted workspaces Hook) as Hh.
  pose proof (aggregate_counted workspaces Context) as Hx.
  pose proof (aggregate_counted workspaces Utility) as Hu.
  fold ag in Hc, Hh, Hx, Hu. simpl in Hc, Hh, Hx, Hu.
  pose proof (length_le_groupSizes _ (Hne Component)).
  pose proof (length_le_groupSizes _ (Hne Hook)).
  pose proof (length_le_groupSizes _ (Hne Context)).
  pose proof (length_le_groupSizes _ (Hne Utility)).
  simpl in *. lia.
Qed.
End AggregationFacts.

(** ** Merged entities and the identity map *)

Section RunFacts.
Import JsString Analysis Conflict ResolveAndMergeStep.

Lemma processGroups_invariant (P : RunState -> Prop) t groups st :
  groupsNonEmpty groups -> P st ->
  (forall name analyses st0 st1,
     In (name, analyses) groups -> P st0 ->
     processEntityType name analyses t st0 = Some st1 -> P st1) ->
  exists st', processGroups t groups st = Some st' /\ P st'.
Proof.
  revert st. induction groups as [|[name analyses] groups IH]; intros st Hne HP Hstep.
  - now exists st.
  - destruct analyses as [|first rest]; [now destruct (Hne name []); [left|]|].
    destruct (process_step name first rest t st) as (d & st1 & _ & Hst1 & _).
    cbn [processGroups]. rewrite Hst1. apply IH.
    + intros k l Hin. apply (Hne k). now right.
    + apply (Hstep name (first :: rest) st st1); [now left | exact HP | exact Hst1].
    + intros n a s0 s1 Hin. apply Hstep. now right.
Qed.

Lemma run_invariant (P : RunState -> Prop) workspaces :
  P initialRunState ->
  (forall t name analyses st0 st1,
     In (name, analyses) (groupsOf t (aggregate workspaces)) -> P st0 ->
     processEntityType name analyses t st0 = Some st1 -> P st1) ->
  exists out st,
    runResolveAndMergeStep workspaces = Some out
    /\ P st
    /\ allMerged out = mergedOf st
    /\ internalMap out = originalPathToUnifiedId st
    /\ mergeConflicts out = conflictReport (allConflicts st).
Proof.
  intros Hinit Hstep.
  pose proof (aggregate_nonEmpty workspaces) as Hne.
  set (ag := aggregate workspaces) in *.
  destruct (processGroups_invariant P Component (componentByName ag) initialRunState
              (Hne Component) Hinit (Hstep Component)) as (st1 & H1 & P1).
  destruct (processGroups_invariant P Hook (hookByName ag) st1
              (Hne Hook) P1 (Hstep Hook)) as (st2 & H2 & P2).
  destruct (processGroups_invariant P Context (contextByName ag) st2
              (Hne Context) P2 (Hstep Context)) as (st3 & H3 & P3).
  destruct (processGroups_invariant P Utility (utilityByName ag) st3
              (Hne Utility) P3 (Hstep Utility)) as (st4 & H4 & P4).
  eexists _, st4. unfold runResolveAndMergeStep. fold ag.
  rewrite H1. simpl. rewrite H2. simpl. rewrite H3. simpl. rewrite H4. simpl.
  split; [reflexivity|]. split; [exact P4|]. repeat split.
Qed.

Lemma kindOf_buildEntity name analyses first t base :
  kindOf (buildEntity name analyses first t base) = t
  /\ baseOf (buildEntity name analyses first t base) = base.
Proof. now destruct t. Qed.

Lemma mergedOf_register t e paths id st :
  kindOf e = t ->
  forall x, In x (mergedOf (registerEntity t e paths id st)) <-> In x (mergedOf st) \/ x = e.
Proof.
  intros Hk x. unfold mergedOf. destruct t; simpl; rewrite !in_app_iff; simpl;
    intuition (subst; auto).
Qed.

(** What [processEntityType] does to the state, spelled out. *)
Lemma process_cases name analyses t st st' :
  processEntityType name analyses t st = Some st' ->
  exists first rest d,
    analyses = first :: rest
    /\ detectConflictsForEntity name analyses t = Some d
    /\ allConflicts st' = (allConflicts st ++ conflicts d)%list
    /\ if canBeMerged d
       then exists e,
              mergedFrom t name analyses e
              /\ (forall x, In x (mergedOf st') <-> In x (mergedOf st) \/ x = e)
              /\ originalPathToUnifiedId st'
                 = fold_left (fun m op => OrderedMap.set m op (m_id (baseOf e)))
                             (map pathOf analyses) (originalPathToUnifiedId st)
       else mergedOf st' = mergedOf st
            /\ originalPathToUnifiedId st' = originalPathToUnifiedId st.
Proof.
  unfold processEntityType.
  destruct (detectConflictsForEntity name analyses t) as [d|] eqn:Hd; [|discriminate].
  destruct analyses as [|first rest]; [discriminate|]. cbv zeta.
  intros H. exists first, rest, d. split; [reflexivity|]. split; [reflexivity|].
  destruct (canBeMerged d); inversion H; subst st'; clear H.
  - split; [reflexivity|].
    match goal with
    | |- context [registerEntity t (buildEntity ?n ?a ?f t ?base) ?ps ?id ?s] =>
        exists (buildEntity n a f t base);
        destruct (kindOf_buildEntity n a f t base) as [Hk Hb]
    end.
    split; [|split].
    + unfold mergedFrom. rewrite Hk, Hb. cbn [m_id m_name m_originalPaths m_unifiedPath m_isShared].
      rewrite length_map. repeat split.
    + intros x. rewrite (mergedOf_register t _ _ _ _ Hk x). unfold mergedOf. simpl. tauto.
    + rewrite Hb. reflexivity.
  - split; [reflexivity|]. split; reflexivity.
Qed.

Lemma setAll_has (paths : list string) (id : string) (m : OrderedMap.t string) p :
  OrderedMap.has (fold_left (fun m op => OrderedMap.set m op id) paths m) p = true
  <-> OrderedMap.has m p = true \/ In p paths.
Proof.
  revert m. induction paths as [|q paths IH]; intros m; simpl; [tauto|].
  rewrite IH, !OrderedMap_has_In, OrderedMap_keys_set.
  destruct (OrderedMap.has m q) eqn:E.
  - apply OrderedMap_has_In in E. split; [tauto|]. intros [?|[<-|?]]; tauto.
  - rewrite in_app_iff. simpl. tauto.
Qed.

Lemma setAll_In (paths : list string) (id : string) (m : OrderedMap.t string) p id' :
  In (p, id') (fold_left (fun m op => OrderedMap.set m op id) paths m) ->
  In (p, id') m \/ (In p paths /\ id' = id).
Proof.
  revert m. induction paths as [|q paths IH]; intros m; simpl; [tauto|].
  intros H. apply IH in H as [H|[H ->]]; [|tauto].
  apply OrderedMap_set_In in H as [[-> ->]|H]; tauto.
Qed.

Lemma setAll_NoDup (paths : list string) (id : string) (m : OrderedMap.t string) :
  NoDup (map fst m) ->
  NoDup (map fst (fold_left (fun m op => OrderedMap.set m op id) paths m)).
Proof.
  revert m. induction paths as [|q paths IH]; intros m Hnd; simpl; [exact Hnd|].
  now apply IH, OrderedMap_set_NoDup.
Qed.

(** X6.  In the output of [runResolveAndMergeStep] the identity map has an
    entry for every original path of every merged entity, and every entry
    maps an original path of some merged entity to the id of that entity. *)
Theorem internal_map_sound (workspaces : list AnalyzedProject) :
  exists out,
    runResolveAndMergeStep workspaces = Some out
    /\ NoDup (map fst (internalMap out))
    /\ (forall e p, In e (allMerged out) -> In p (m_originalPaths (baseOf e)) ->
                    OrderedMap.has (internalMap out) p = true)
    /\ (forall p id, In (p, id) (internalMap out) ->
                     exists e, In e (allMerged out) /\ m_id (baseOf e) = id
                               /\ In p (m_originalPaths (baseOf e))).
Proof.
  destruct (run_invariant indexed workspaces) as (out & st & Hrun & Hidx & Hm & Hi & _).
  - split; [constructor | split; [intros e p [] | intros p id []]].
  - intros t name analyses st0 st1 _ (Hnd & Hhas & Hsrc) Hstep.
    apply process_cases in Hstep as (first & rest & d & -> & _ & _ & Hcase).
    destruct (canBeMerged d).
    + destruct Hcase as (e & Hfrom & Hmerged & Hmap).
      destruct Hfrom as (_ & _ & Hpaths & _).
      unfold indexed. rewrite Hmap, <- Hpaths. split; [|split].
      * now apply setAll_NoDup.
      * intros x p Hx Hp. apply setAll_has. apply Hmerged in Hx as [Hx| ->].
        -- left. now apply (Hhas x).
        -- now right.
      * intros p id Hin. apply setAll_In in Hin as [Hin|[Hp ->]].
        -- destruct (Hsrc p id Hin) as (x & Hx & Hid & Hp).
           exists x. split; [apply Hmerged; now left | now split].
        -- exists e. split; [apply Hmerged; now right | now split].
    + destruct Hcase as [Hmerged Hmap]. unfold indexed. rewrite Hmerged, Hmap.
      now repeat split.
  - exists out. split; [exact Hrun|]. rewrite Hm, Hi. exact Hidx.
Qed.

(** X7.  Every merged entity in the output was built from a group that
    aggregation produced: it has the kind, name, original paths, unified
    path and shared flag of that group; detection found the group
    mergeable; and every conflict of the group is among the warnings of
    the report. *)
Theorem merged_entities_are_conflict_free (workspaces : list AnalyzedProject) :
  exists out,
    runResolveAndMergeStep workspaces = Some out
    /\ forall e, In e (allMerged out) ->
         exists t name analyses d,
           In (name, analyses) (groupsOf t (aggregate workspaces))
           /\ mergedFrom t name analyses e
           /\ detectConflictsForEntity name analyses t = Some d
           /\ canBeMerged d = true
           /\ Forall (fun c => In c (warnings (mergeConflicts out))) (conflicts d).
Proof.
  destruct (run_invariant (conflictFree workspaces) workspaces)
    as (out & st & Hrun & Hfree & Hm & _ & Hreport).
  - intros e [].
  - intros t name analyses st0 st1 Hin Hfree Hstep.
    apply process_cases in Hstep as (first & rest & d & -> & Hd & Hall & Hcase).
    assert (Hold : forall x, In x (mergedOf st0) ->
              exists t0 n a d0,
                In (n, a) (groupsOf t0 (aggregate workspaces))
                /\ mergedFrom t0 n a x
                /\ detectConflictsForEntity n a t0 = Some d0
                /\ canBeMerged d0 = true
                /\ Forall (fun c => In c (allConflicts st1) /\ severity c = SevWarning)
                          (conflicts d0)).
    { intros x Hx. destruct (Hfree x Hx) as (t0 & n & a & d0 & H1 & H2 & H3 & H4 & H5).
      exists t0, n, a, d0. refine (conj H1 (conj H2 (conj H3 (conj H4 _)))).
      eapply Forall_impl; [exact H5|]. intros c [Hc Hs]. split; [|exact Hs].
      rewrite Hall. apply in_app_iff. now left. }
    destruct (canBeMerged d) eqn:Hcan.
    + destruct Hcase as (e & Hfrom & Hmerged & _).
      intros x Hx. apply Hmerged in Hx as [Hx| ->]; [now apply Hold|].
      exists t, name, (first :: rest), d.
      refine (conj Hin (conj Hfrom (conj Hd (conj Hcan _)))).
      destruct (detect_nonempty name first rest t) as (d' & Hd' & Hflag & _).
      rewrite Hd in Hd'. inversion Hd'; subst d'. unfold flagMatchesErrors in Hflag.
      rewrite Hcan in Hflag. symmetry in Hflag. apply negb_true_iff in Hflag.
      apply Forall_forall. intros c Hc. apply list_elem_of_In in Hc. split.
      * rewrite Hall. apply in_app_iff. now right.
      * destruct (severity c) eqn:Hs; [|reflexivity].
        assert (Hex : existsb isError (conflicts d) = true).
        { apply existsb_exists. exists c. split; [exact Hc|]. unfold isError. now rewrite Hs. }
        congruence.
    + destruct Hcase as [Hmerged _]. intros x Hx. rewrite Hmerged in Hx. now apply Hold.
  - exists out. split; [exact Hrun|]. intros e He. rewrite Hm in He.
    destruct (Hfree e He) as (t & n & a & d & H1 & H2 & H3 & H4 & H5).
    exists t, n, a, d. refine (conj H1 (conj H2 (conj H3 (conj H4 _)))).
    eapply Forall_impl; [exact H5|]. intros c [Hc Hs]. rewrite Hreport. simpl.
    apply filter_In. split; [exact Hc|]. unfold isWarning. now rewrite Hs.
Qed.
End RunFacts.

(** ** Hook groups *)

Section HookFacts.
Import JsString Analysis Conflict ResolveAndMergeStep.

Lemma revapp_not_nil d d' : d' <> Decimal.Nil -> Decimal.revapp d d' <> Decimal.Nil.
Proof.
  revert d'. induction d; intros d' Hd'; simpl; try exact Hd'; apply IHd; discriminate.
Qed.

Lemma rev_not_nil d : d <> Decimal.Nil -> Decimal.rev d <> Decimal.Nil.
Proof.
  unfold Decimal.rev. destruct d; intros Hd; try contradiction; simpl;
    apply revapp_not_nil; discriminate.
Qed.

Lemma little_succ_not_nil d : Decimal.Little.succ d <> Decimal.Nil.
Proof. destruct d; discriminate. Qed.

Lemma to_little_uint_not_nil n acc :
  acc <> Decimal.Nil -> Nat.to_little_uint n acc <> Decimal.Nil.
Proof.
  revert acc. induction n as [|n IH]; intros acc Hacc; simpl; [exact Hacc|].
  apply IH, little_succ_not_nil.
Qed.

Lemma string_of_uint_digit d :
  d <> Decimal.Nil -> startsWithDigit (NilEmpty.string_of_uint d) = true.
Proof. destruct d; intros Hd; try contradiction; reflexivity. Qed.

Lemma arrayKeys_digit {A : Type} (xs : list A) k :
  In k (arrayKeys xs) -> startsWithDigit k = true.
Proof.
  unfold arrayKeys. intros Hin. apply in_map_iff in Hin as (i & <- & _).
  apply string_of_uint_digit. unfold Nat.to_uint.
  apply rev_not_nil, to_little_uint_not_nil. discriminate.
Qed.

Lemma no_hook_export fa hookName :
  (forall e, In e (exports fa) -> startsWithDigit (exp_name e) = false) ->
  startsWithDigit hookName = true ->
  existsb (fun e => String.eqb (exp_name e) hookName && isExportedCallable (exp_type e))
          (exports fa) = false.
Proof.
  intros Hexp Hk. apply not_true_iff_false. intros H.
  apply existsb_exists in H as (e & He & Hmatch).
  apply andb_true_iff in Hmatch as [Hname _]. apply String.eqb_eq in Hname.
  specialize (Hexp e He). congruence.
Qed.

Lemma aggregateFile_no_hooks ag fa :
  (forall e, In e (exports fa) -> startsWithDigit (exp_name e) = false) ->
  hookByName ag = [] -> hookByName (aggregateFile ag fa) = [].
Proof.
  intros Hexp Hag. unfold aggregateFile. cbv zeta.
  assert (Hkeep : forall {X : Type} (f : Aggregation -> X -> Aggregation) (l : list X) a,
            (forall a x, hookByName (f a x) = hookByName a) ->
            hookByName (fold_left f l a) = hookByName a).
  { intros X f l. induction l as [|x l IH]; intros a Hf; simpl; [reflexivity|].
    now rewrite IH, Hf. }
  rewrite Hkeep by (intros a x; now destruct (_ && _)).
  rewrite Hkeep by (intros a x; now destruct (_ && _)).
  rewrite Hkeep by (intros a x; now destruct (ctxTypeEqb _ _)).
  transitivity (hookByName (fold_left (fun a comp => record Component (comp_name comp) fa a)
                                      (components fa) ag));
    [|now rewrite Hkeep].
  apply (fold_left_invariant
           (fun a => hookByName a
                     = hookByName (fold_left (fun a comp => record Component (comp_name comp) fa a)
                                             (components fa) ag))); [reflexivity|].
  intros a hookName Ha Hin. rewrite no_hook_export; [exact Ha | exact Hexp |].
  now apply (arrayKeys_digit (reactHooksUsed fa)).
Qed.

Lemma aggregate_no_hooks workspaces :
  exportsAreIdentifiers workspaces -> hookByName (aggregate workspaces) = [].
Proof.
  intros Hexp. unfold aggregate.
  apply (fold_left_invariant (fun ag => hookByName ag = [])); [reflexivity|].
  intros ag project Hag Hproject.
  apply (fold_left_invariant (fun ag => hookByName ag = [])); [exact Hag|].
  intros ag' fa Hag' Hfa. apply aggregateFile_no_hooks; [|exact Hag'].
  apply in_map_iff in Hfa as (entry & <- & Hentry).
  intros e He. exact (Hexp project entry e Hproject Hentry He).
Qed.

Lemma processEntityType_hooks name analyses t st st' :
  processEntityType name analyses t st = Some st' -> t <> Hook ->
  mergedHooks st' = mergedHooks st.
Proof.
  unfold processEntityType.
  destruct (detectConflictsForEntity name analyses t) as [d|]; [|discriminate].
  destruct analyses as [|first rest]; [discriminate|]. cbv zeta.
  destruct (canBeMerged d); intros [= <-] Ht; [|reflexivity].
  destruct t; try reflexivity. contradiction.
Qed.

Lemma processGroups_hooks t groups st st' :
  processGroups t groups st = Some st' -> t <> Hook ->
  mergedHooks st' = mergedHooks st.
Proof.
  revert st. induction groups as [|[name analyses] groups IH]; intros st; simpl.
  - now intros [= <-].
  - destruct (processEntityType name analyses t st) as [st1|] eqn:E; [|discriminate].
    intros H Ht. rewrite (IH _ H Ht). exact (processEntityType_hooks _ _ _ _ _ E Ht).
Qed.

(** X8.  The candidates for hook names are [Object.keys] of the array
    [reactHooksUsed], that is its indices.  When no export has a name that
    begins with a digit, no file is recorded as defining a hook: the hook
    groups are empty and the step returns no merged hook. *)
Theorem hooks_never_grouped (workspaces : list AnalyzedProject) :
  exportsAreIdentifiers workspaces ->
  hookByName (aggregate workspaces) = []
  /\ exists out, runResolveAndMergeStep workspaces = Some out /\ out_hooks out = [].
Proof.
  intros Hexp. pose proof (aggregate_no_hooks workspaces Hexp) as Hnone.
  split; [exact Hnone|].
  destruct (run_invariant (fun _ => True) workspaces) as (out & _ & Hrun & _); [exact I | trivial |].
  exists out. split; [exact Hrun|].
  unfold runResolveAndMergeStep in Hrun. rewrite Hnone in Hrun.
  destruct (processGroups Component _ _) as [st1|] eqn:H1; [|discriminate].
  cbn [mbind option_bind processGroups] in Hrun.
  destruct (processGroups Context _ _) as [st3|] eqn:H3; [|discriminate].
  cbn [mbind option_bind] in Hrun.
  destruct (processGroups Utility _ _) as [st4|] eqn:H4; [|discriminate].
  cbn [mbind option_bind] in Hrun. inversion Hrun; subst out; clear Hrun. simpl.
  rewrite (processGroups_hooks _ _ _ _ H4) by discriminate.
  rewrite (processGroups_hooks _ _ _ _ H3) by discriminate.
  now rewrite (processGroups_hooks _ _ _ _ H1) by discriminate.
Qed.
End HookFacts.

(** ** What blocks a merge *)

Section DetectionMore.
Import JsString Analysis Conflict ResolveAndMergeStep.

Ltac split_ifs :=
  repeat match goal with
    | |- context [if ?b then _ else _] => destruct b eqn:?
    end.

Lemma pushConflict_flag c d : canBeMerged (pushConflict c d) = canBeMerged d.
Proof. reflexivity. Qed.

Lemma detectComponent_blocks name first current fc cc d :
  canBeMerged (detectComponent name first current fc cc d)
  = canBeMerged d
    && Bool.eqb (comp_isFunctional fc) (comp_isFunctional cc).
Proof.
  unfold detectComponent. cbv zeta.
  destruct (Bool.eqb (comp_isFunctional fc) (comp_isFunctional cc)); cbn [negb];
    split_ifs; cbn [canBeMerged pushConflict forbidMerge];
    rewrite ?andb_true_r, ?andb_false_r; reflexivity.
Qed.

Lemma detectStep_blocks name t first d current :
  canBeMerged (detectStep name t first d current)
  = canBeMerged d && negb (blocksMerge name t first current).
Proof.
  unfold detectStep, blocksMerge. cbv zeta.
  destruct (String.eqb (roleOf first) (roleOf current)); cbn [negb orb];
    destruct t;
    [ destruct (findComponent first name), (findComponent current name) | | |
    | destruct (findComponent first name), (findComponent current name) | | | ];
    rewrite ?detectComponent_blocks;
    split_ifs; cbn [canBeMerged pushConflict forbidMerge negb];
    rewrite ?negb_involutive, ?andb_true_r, ?andb_false_r; reflexivity.
Qed.

Lemma detect_blocks name first rest t :
  exists d,
    detectConflictsForEntity name (first :: rest) t = Some d
    /\ canBeMerged d = negb (existsb (blocksMerge name t first) rest).
Proof.
  eexists. split; [reflexivity|].
  assert (H : forall d0, canBeMerged (fold_left (detectStep name t first) rest d0)
                         = canBeMerged d0 && negb (existsb (blocksMerge name t first) rest)).
  { induction rest as [|a rest IH]; intros d0; simpl.
    - now rewrite andb_true_r.
    - rewrite IH, detectStep_blocks, negb_orb. now rewrite andb_assoc. }
  now rewrite H.
Qed.

(** X9.  A group is found unmergeable exactly when some later member has a
    role other than the first member's or, for a component declared by
    both, is a class where the first is a function or the reverse. *)
Theorem merge_blocked_iff (name : string) (first : ASTDependency)
    (rest : list ASTDependency) (entityType : EntityType) :
  exists d,
    detectConflictsForEntity name (first :: rest) entityType = Some d
    /\ (canBeMerged d = false
        <-> exists current, In current rest
                            /\ blocksMerge name entityType first current = true).
Proof.
  destruct (detect_blocks name first rest entityType) as (d & Hd & Hflag).
  exists d. split; [exact Hd|]. rewrite Hflag, negb_false_iff, existsb_exists. reflexivity.
Qed.

Lemma roleOf_none a : inferredRole (file a) = None -> roleOf a = "unknown".
Proof. unfold roleOf. now intros ->. Qed.

(** X10.  When no file of a group carries an inferred role, a group of
    hooks, contexts or utilities is always mergeable and all its conflicts
    are warnings. *)
Theorem role_free_groups_merge (name : string) (first : ASTDependency)
    (rest : list ASTDependency) (entityType : EntityType) :
  (forall a, In a (first :: rest) -> inferredRole (file a) = None) ->
  entityType <> Component ->
  exists d,
    detectConflictsForEntity name (first :: rest) entityType = Some d
    /\ canBeMerged d = true
    /\ forall c, In c (conflicts d) -> severity c = SevWarning.
Proof.
  intros Hroles Hkind.
  destruct (detect_blocks name first rest entityType) as (d & Hd & Hblocks).
  destruct (detect_nonempty name first rest entityType) as (d' & Hd' & Hflag & _).
  rewrite Hd in Hd'. inversion Hd'; subst d'.
  exists d. split; [exact Hd|].
  assert (Hcan : canBeMerged d = true).
  { rewrite Hblocks. apply negb_true_iff, not_true_iff_false. intros H.
    apply existsb_exists in H as (a & Ha & Hb). unfold blocksMerge in Hb.
    assert (Hf : roleOf first = "unknown") by (apply roleOf_none, Hroles; now left).
    assert (Ha' : roleOf a = "unknown") by (apply roleOf_none, Hroles; now right).
    rewrite Hf, Ha' in Hb. simpl in Hb. now destruct entityType. }
  split; [exact Hcan|].
  intros c Hc. unfold flagMatchesErrors in Hflag. rewrite Hcan in Hflag.
  symmetry in Hflag. apply negb_true_iff in Hflag.
  destruct (severity c) eqn:Hs; [|reflexivity].
  assert (Hex : existsb isError (conflicts d) = true).
  { apply existsb_exists. exists c. split; [exact Hc|]. unfold isError. now rewrite Hs. }
  congruence.
Qed.

Lemma classified_push c d :
  severityOfType (c_type c) = Some (severity c) ->
  classified d -> classified (pushConflict c d).
Proof.
  intros Hc Hd. unfold classified, pushConflict. cbn [conflicts].
  apply Forall_app. split; [exact Hd | now constructor].
Qed.

Lemma classified_forbid d : classified d -> classified (forbidMerge d).
Proof. trivial. Qed.

Lemma detectComponent_classified name first current fc cc d :
  classified d -> classified (detectComponent name first current fc cc d).
Proof.
  intros Hd. unfold detectComponent. cbv zeta.
  split_ifs;
    repeat first [ exact Hd
                 | apply classified_push; [reflexivity|]
                 | apply classified_forbid ].
Qed.

Lemma detectStep_classified name t first d current :
  classified d -> classified (detectStep name t first d current).
Proof.
  intros Hd. unfold detectStep. cbv zeta.
  destruct t;
    [ destruct (findComponent first name), (findComponent current name) | | | ];
    split_ifs;
    repeat first [ exact Hd
                 | apply detectComponent_classified
                 | apply classified_push; [reflexivity|]
                 | apply classified_forbid ].
Qed.

(** X11.  The severity of every conflict that detection reports is fixed by
    its type: role mismatches and structural differences of components are
    errors, every other reported type is a warning; name collisions and
    conflicts of type other are never reported. *)
Theorem severity_follows_type (name : string) (first : ASTDependency)
    (rest : list ASTDependency) (entityType : EntityType) :
  exists d,
    detectConflictsForEntity name (first :: rest) entityType = Some d
    /\ forall c, In c (conflicts d) ->
         severityOfType (c_type c) = Some (severity c)
         /\ (severity c = SevError
             <-> c_type c = RoleMismatch \/ c_type c = ComponentStructuralDifference).
Proof.
  eexists. split; [reflexivity|]. intros c Hc.
  assert (Hcl : classified (fold_left (detectStep name entityType first) rest
                                      {| conflicts := []; canBeMerged := true |})).
  { apply fold_left_invariant; [constructor|].
    intros d current Hd _. now apply detectStep_classified. }
  unfold classified in Hcl. rewrite Forall_forall in Hcl.
  specialize (Hcl c (proj2 (list_elem_of_In _ _) Hc)).
  split; [exact Hcl|].
  destruct (c_type c), (severity c); simpl in Hcl; try discriminate;
    split; intros H; try reflexivity; try discriminate; try tauto;
    destruct H; discriminate.
Qed.

Lemma hocsOf_components a b name : components a = components b -> hocsOf a name = hocsOf b name.
Proof. unfold hocsOf. now intros ->. Qed.

Lemma detectStep_agrees name t first d current :
  agreesWith first current -> detectStep name t first d current = d.
Proof.
  intros (Hrole & Hloc & Hcomp & Hjsx & Hhooks & Hctx).
  unfold detectStep. cbv zeta.
  rewrite Hrole, String.eqb_refl, Hloc, Z.eqb_refl. cbn [negb].
  destruct t.
  - unfold findComponent. rewrite Hcomp.
    destruct (List.find _ (components first)) as [fc|]; [|reflexivity].
    unfold detectComponent. cbv zeta.
    rewrite Bool.eqb_reflx, Hjsx, Hhooks, !compare_refl.
    rewrite (hocsOf_components current first name Hcomp).
    unfold stringListEqb. rewrite bool_decide_eq_true_2 by reflexivity. reflexivity.
  - now rewrite Hhooks, compare_refl.
  - unfold contextTypeOf. rewrite Hctx.
    destruct (option_map _ _) as [[]|]; reflexivity.
  - reflexivity.
Qed.

(** X12.  When every later member of a group has the role, line count,
    component declarations, profiles and context uses of the first, no
    conflict is reported and the group is mergeable. *)
Theorem identical_copies_merge (name : string) (first : ASTDependency)
    (rest : list ASTDependency) (entityType : EntityType) :
  (forall a, In a rest -> agreesWith first a) ->
  detectConflictsForEntity name (first :: rest) entityType
  = Some {| conflicts := []; canBeMerged := true |}.
Proof.
  intros Hall. simpl. f_equal.
  induction rest as [|a rest IH]; [reflexivity|]. simpl.
  rewrite detectStep_agrees by (apply Hall; now left).
  apply IH. intros b Hb. apply Hall. now right.
Qed.
End DetectionMore.

(** ** The shape of slugs *)

Section SlugFacts.
Import JsString UnifiedPath.

Lemma replaceRuns_single inRun s : singleDashes inRun (replaceRuns inRun s) = true.
Proof.
  revert inRun. induction s as [|c s IH]; intros inRun; simpl; [reflexivity|].
  destruct (isSlugChar c) eqn:Hc; simpl.
  - now rewrite Hc.
  - destruct inRun; [apply IH|]. simpl. apply IH.
Qed.

Lemma isDash_spec c : isDash c = true <-> c = "-"%char.
Proof. unfold isDash. apply Ascii.eqb_eq. Qed.

Lemma dropLeadingDash_eq c s :
  dropLeadingDash (String c s) = if isDash c then s else String c s.
Proof.
  destruct (isDash c) eqn:E.
  - apply isDash_spec in E. now subst.
  - destruct c as [[] [] [] [] [] [] [] []]; try reflexivity. discriminate.
Qed.

Lemma dropTrailingDash_eq c s :
  dropTrailingDash (String c s)
  = if isDash c && String.eqb s EmptyString then EmptyString
    else String c (dropTrailingDash s).
Proof.
  destruct (isDash c) eqn:E.
  - apply isDash_spec in E. subst. now destruct s.
  - destruct c as [[] [] [] [] [] [] [] []]; try reflexivity. discriminate.
Qed.

Lemma dropLeadingDash_single s :
  singleDashes false s = true -> singleDashes true (dropLeadingDash s) = true.
Proof.
  destruct s as [|c s]; [reflexivity|]. rewrite dropLeadingDash_eq. simpl.
  destruct (isSlugChar c) eqn:Hc.
  - intros H. destruct (isDash c) eqn:Hd; [apply isDash_spec in Hd; subst; discriminate|].
    simpl. now rewrite Hc.
  - intros H. apply andb_true_iff in H as [H Hs]. apply andb_true_iff in H as [Hd _].
    now rewrite Hd.
Qed.

Lemma single_nonempty_true s :
  singleDashes true s = true -> s <> EmptyString ->
  exists c s', s = String c s' /\ isSlugChar c = true.
Proof.
  destruct s as [|c s']; [contradiction|]. simpl. intros H _.
  destruct (isSlugChar c) eqn:Hc; [now exists c, s'|].
  rewrite andb_false_r in H. discriminate.
Qed.

Lemma dropTrailingDash_separated b s :
  singleDashes b s = true ->
  dropTrailingDash s = EmptyString \/ dashSeparated b (dropTrailingDash s) = true.
Proof.
  revert b. induction s as [|c s IH]; intros b; [now left|].
  rewrite dropTrailingDash_eq. simpl singleDashes.
  destruct (isSlugChar c) eqn:Hc.
  - intros H. assert (Hd : isDash c = false).
    { apply not_true_iff_false. intros Hd. apply isDash_spec in Hd. subst. discriminate. }
    rewrite Hd. simpl. right. rewrite Hc.
    destruct (IH false H) as [-> | Hs]; [reflexivity | exact Hs].
  - intros H. apply andb_true_iff in H as [H Hs]. apply andb_true_iff in H as [Hd Hb].
    rewrite Hd. simpl. destruct (String.eqb s EmptyString) eqn:Es; [now left|].
    right. simpl. rewrite Hc, Hd, Hb. simpl.
    apply String.eqb_neq in Es.
    destruct (single_nonempty_true s Hs Es) as (c' & s' & -> & Hc').
    destruct (IH true Hs) as [Hempty | Hsep]; [|exact Hsep].
    rewrite dropTrailingDash_eq in Hempty.
    assert (Hd' : isDash c' = false).
    { apply not_true_iff_false. intros Hd'. apply isDash_spec in Hd'. subst. discriminate. }
    rewrite Hd' in Hempty. discriminate.
Qed.

Lemma slugOf_isSlug name : isSlug (slugOf name) = true.
Proof.
  unfold slugOf, trimDashes.
  pose proof (dropLeadingDash_single _ (replaceRuns_single false (toLowerCase name))) as H.
  destruct (dropTrailingDash_separated true _ H) as [-> | Hsep]; [reflexivity|].
  unfold isSlug. destruct (dropTrailingDash _); [reflexivity | exact Hsep].
Qed.

Lemma separated_chars b s : dashSeparated b s = true -> every isSlugOrDash s = true.
Proof.
  revert b. induction s as [|c s IH]; intros b; simpl; [reflexivity|].
  unfold isSlugOrDash at 1. fold (isDash c).
  destruct (isSlugChar c) eqn:Hc; simpl.
  - apply IH.
  - intros H. apply andb_true_iff in H as [H Hs]. apply andb_true_iff in H as [-> _].
    simpl. exact (IH true Hs).
Qed.

Lemma lowerChar_slug c : isSlugOrDash c = true -> lowerChar c = c.
Proof.
  destruct c as [[] [] [] [] [] [] [] []]; try reflexivity; discriminate.
Qed.

Lemma toLowerCase_slug s : every isSlugOrDash s = true -> toLowerCase s = s.
Proof.
  induction s as [|c s IH]; simpl; [reflexivity|].
  intros H. apply andb_true_iff in H as [Hc Hs]. now rewrite lowerChar_slug, IH.
Qed.

Lemma replaceRuns_separated b s : dashSeparated b s = true -> replaceRuns b s = s.
Proof.
  revert b. induction s as [|c s IH]; intros b; simpl; [reflexivity|].
  destruct (isSlugChar c) eqn:Hc.
  - intros H. now rewrite (IH false H).
  - intros H. apply andb_true_iff in H as [H Hs]. apply andb_true_iff in H as [Hd Hb].
    apply negb_true_iff in Hb. subst b. apply isDash_spec in Hd. subst c.
    now rewrite (IH true Hs).
Qed.

Lemma dropTrailingDash_separated_id b s :
  dashSeparated b s = true -> dropTrailingDash s = s.
Proof.
  revert b. induction s as [|c s IH]; intros b; [reflexivity|].
  rewrite dropTrailingDash_eq. simpl.
  destruct (isSlugChar c) eqn:Hc.
  - intros H. assert (Hd : isDash c = false).
    { apply not_true_iff_false. intros Hd. apply isDash_spec in Hd. subst. discriminate. }
    rewrite Hd. simpl. now rewrite (IH false H).
  - intros H. apply andb_true_iff in H as [H Hs]. apply andb_true_iff in H as [Hd Hb].
    rewrite Hd. simpl. destruct s as [|c' s']; [discriminate|]. simpl String.eqb.
    cbv iota. now rewrite (IH true Hs).
Qed.

Lemma slugOf_slug s : isSlug s = true -> slugOf s = s.
Proof.
  destruct s as [|c s]; [reflexivity|]. unfold isSlug. intros H.
  unfold slugOf, trimDashes.
  rewrite (toLowerCase_slug _ (separated_chars _ _ H)).
  assert (Hc : isSlugChar c = true).
  { simpl in H. destruct (isSlugChar c); [reflexivity|]. rewrite andb_false_r in H. discriminate. }
  assert (Hrun : replaceRuns false (String c s) = String c s).
  { simpl. rewrite Hc. simpl in H. rewrite Hc in H. now rewrite (replaceRuns_separated false s H). }
  rewrite Hrun, dropLeadingDash_eq.
  assert (Hd : isDash c = false).
  { apply not_true_iff_false. intros Hd. apply isDash_spec in Hd. subst. discriminate. }
  rewrite Hd. exact (dropTrailingDash_separated_id true _ H).
Qed.

Lemma lowerChar_idem c : lowerChar (lowerChar c) = lowerChar c.
Proof. destruct c as [[] [] [] [] [] [] [] []]; reflexivity. Qed.

Lemma toLowerCase_idem s : toLowerCase (toLowerCase s) = toLowerCase s.
Proof. induction s as [|c s IH]; simpl; [reflexivity|]. now rewrite lowerChar_idem, IH. Qed.

(** X13.  The slug of a name is empty or made of words of lower-case letters
    and digits joined by single dashes, with no dash at either end; the
    slug of a slug is the slug itself; and names that differ only in the
    case of their letters get the same slug and the same unified path. *)
Theorem slug_shape (name : string) :
  isSlug (slugOf name) = true
  /\ slugOf (slugOf name) = slugOf name
  /\ slugOf (toLowerCase name) = slugOf name
  /\ forall entityType baseDir,
       ResolveAndMergeStep.generateUnifiedPath (toLowerCase name) entityType baseDir
       = ResolveAndMergeStep.generateUnifiedPath name entityType baseDir.
Proof.
  assert (Hlower : slugOf (toLowerCase name) = slugOf name)
    by (unfold slugOf; now rewrite toLowerCase_idem).
  split; [apply slugOf_isSlug|]. split; [apply slugOf_slug, slugOf_isSlug|].
  split; [exact Hlower|].
  intros entityType baseDir. unfold ResolveAndMergeStep.generateUnifiedPath.
  cbv zeta. now rewrite Hlower.
Qed.
End SlugFacts.

(** ** More on the dependency graph *)

Section GraphMore.
Import JsString Analysis DependencyGraphBuilder.

Variable cwd : string.

(** The loops of step 2 keep what each of their five bodies keeps. *)
Lemma buildEdges_invariant (P : Builder -> Prop) analysis :
  P emptyBuilder ->
  (forall sourcePath fa imp b,
     In (sourcePath, fa) (analyzedFiles analysis) -> In imp (imports fa) -> P b ->
     P (importStep cwd analysis sourcePath b imp)) ->
  (forall sourcePath fa used b,
     In (sourcePath, fa) (analyzedFiles analysis) -> In used (jsxElementsUsed fa) -> P b ->
     P (renderUsageStep (buildComponentExports (analyzedFiles analysis)) sourcePath b used)) ->
  (forall sourcePath fa api b,
     In (sourcePath, fa) (analyzedFiles analysis) -> In api (contextAPIs fa) -> P b ->
     P (contextUsageStep analysis sourcePath b api)) ->
  (forall sourcePath fa comp b,
     In (sourcePath, fa) (analyzedFiles analysis) -> In comp (components fa) -> P b ->
     P (hocUsageStep analysis sourcePath b comp)) ->
  (forall sourcePath fa used b,
     In (sourcePath, fa) (analyzedFiles analysis) -> In used (typesUsedInAnnotations fa) ->
     P b ->
     P (typeDependencyStep (buildTypeExports (analyzedFiles analysis)) sourcePath b used)) ->
  P (buildEdges cwd analysis).
Proof.
  intros Hempty H1 H2 H3 H4 H5. unfold buildEdges.
  apply fold_left_invariant; [exact Hempty|].
  intros b [sourcePath fa] Hb Hin. unfold fileStep.
  apply fold_left_invariant; [|intros; now apply (H5 sourcePath fa)].
  apply fold_left_invariant; [|intros; now apply (H4 sourcePath fa)].
  apply fold_left_invariant; [|intros; now apply (H3 sourcePath fa)].
  apply fold_left_invariant; [|intros; now apply (H2 sourcePath fa)].
  apply fold_left_invariant; [exact Hb | intros; now apply (H1 sourcePath fa)].
Qed.

Lemma Forall2_refl_same ns es : Forall2 (sameButNames ns) es es.
Proof. induction es; constructor; [apply sameButNames_refl | assumption]. Qed.

(** What one import does to the edges and to the unresolved imports. *)
Lemma importStep_cases analysis sourcePath b imp :
  let b' := importStep cwd analysis sourcePath b imp in
  ((exists target,
      resolveImportPath cwd sourcePath (imp_path imp) (analyzedFiles analysis)
        (rootPath analysis) = Some target
      /\ truthy target = true /\ sourcePath <> target
      /\ b_edges b' = (b_edges b ++ [importEdge sourcePath target imp])%list)
   \/ Forall2 (sameButNames (referencedBy imp)) (b_edges b) (b_edges b'))
  /\ (b_unresolvedImports b' = b_unresolvedImports b
      \/ (b_unresolvedImports b'
          = (b_unresolvedImports b ++ [unresolvedEntry sourcePath imp])%list
          /\ isBareSpecifier (imp_path imp) = false
          /\ sourcePath <> imp_path imp
          /\ unresolvable cwd analysis sourcePath imp)).
Proof.
  cbv zeta. unfold importStep, unresolvable. cbv zeta.
  destruct (resolveImportPath _ _ _ _ _) as [target|].
  - destruct (truthy target) eqn:Ht.
    + destruct (String.eqb sourcePath target) eqn:Hne; simpl.
      * split; [right; apply Forall2_refl_same | now left].
      * apply String.eqb_neq in Hne.
        destruct (isProcessed b _) eqn:Hid; simpl.
        -- split; [right | now left].
           apply updateFirst_Forall2;
             [apply sameButNames_refl | apply sameButNames_recordImportedName].
        -- split; [left | now left]. exists target. now repeat split.
    + destruct (isBareSpecifier _) eqn:Hbare;
        [split; [right; apply Forall2_refl_same | now left]|].
      destruct (String.eqb sourcePath (imp_path imp)) eqn:Hne; simpl.
      * split; [right; apply Forall2_refl_same | now left].
      * apply String.eqb_neq in Hne.
        split; [right; apply Forall2_refl_same | right; now repeat split].
  - destruct (isBareSpecifier _) eqn:Hbare;
      [split; [right; apply Forall2_refl_same | now left]|].
    destruct (String.eqb sourcePath (imp_path imp)) eqn:Hne; simpl.
    + split; [right; apply Forall2_refl_same | now left].
    + apply String.eqb_neq in Hne.
      split; [right; apply Forall2_refl_same | right; now repeat split].
Qed.

Lemma usageStep_cases t reasonOf exportsMap sourcePath b used :
  let b' := usageStep t reasonOf exportsMap sourcePath b used in
  ((exists target,
      exportsMap !! nc_name used = Some target
      /\ truthy target = true /\ sourcePath <> target
      /\ b_edges b' = (b_edges b ++ [usageEdge t reasonOf sourcePath target used])%list)
   \/ Forall2 (sameButNames [nc_name used]) (b_edges b) (b_edges b'))
  /\ b_unresolvedImports b' = b_unresolvedImports b.
Proof.
  cbv zeta. unfold usageStep.
  destruct (exportsMap !! nc_name used) as [target|];
    [|split; [right; apply Forall2_refl_same | reflexivity]].
  destruct (truthy target) eqn:Ht; simpl;
    [|split; [right; apply Forall2_refl_same | reflexivity]].
  destruct (String.eqb target sourcePath) eqn:Hne; simpl;
    [split; [right; apply Forall2_refl_same | reflexivity]|].
  apply String.eqb_neq in Hne.
  destruct (isProcessed b _) eqn:Hid; simpl.
  - split; [right | reflexivity].
    apply updateFirst_Forall2; [apply sameButNames_refl | apply sameButNames_recordName].
  - split; [left | reflexivity]. exists target. repeat split; congruence.
Qed.

Lemma definitionStep_cases t name reason definitionFile sourcePath b :
  let b' := definitionStep t name reason definitionFile sourcePath b in
  ((exists target,
      definitionFile = Some target
      /\ sourcePath <> relativePath (file target)
      /\ b_edges b' = (b_edges b ++ [definitionEdge t name reason sourcePath target])%list)
   \/ b_edges b' = b_edges b)
  /\ b_unresolvedImports b' = b_unresolvedImports b.
Proof.
  cbv zeta. unfold definitionStep.
  destruct definitionFile as [target|]; [|split; [now right | reflexivity]].
  destruct (String.eqb sourcePath _) eqn:Hne; simpl; [split; [now right | reflexivity]|].
  apply String.eqb_neq in Hne.
  destruct (isProcessed b _) eqn:Hid; simpl; [split; [now right | reflexivity]|].
  split; [left | reflexivity]. exists target. now repeat split.
Qed.

Lemma Forall2_kept (Q : DependencyEdge -> Prop) ns es es' :
  keptByRediscovery Q -> Forall2 (sameButNames ns) es es' -> Forall Q es -> Forall Q es'.
Proof.
  intros Hkept H. induction H as [|e e' es es' He _ IH]; intros HQ; [constructor|].
  inversion HQ; subst. constructor; [now apply (Hkept ns e) | now apply IH].
Qed.

(** A property of edges that holds of every edge when it is first pushed
    and that no rediscovery breaks holds of every edge of the graph. *)
Lemma edges_invariant (Q : DependencyEdge -> Prop) analysis :
  keptByRediscovery Q ->
  (forall sourcePath fa imp target,
     In (sourcePath, fa) (analyzedFiles analysis) -> In imp (imports fa) ->
     resolveImportPath cwd sourcePath (imp_path imp) (analyzedFiles analysis)
       (rootPath analysis) = Some target ->
     truthy target = true -> sourcePath <> target ->
     Q (importEdge sourcePath target imp)) ->
  (forall sourcePath fa t reasonOf used target,
     In (sourcePath, fa) (analyzedFiles analysis) ->
     (t = RenderUsage
      /\ buildComponentExports (analyzedFiles analysis) !! nc_name used = Some target)
     \/ (t = TypeDependency
         /\ buildTypeExports (analyzedFiles analysis) !! nc_name used = Some target) ->
     truthy target = true -> sourcePath <> target ->
     Q (usageEdge t reasonOf sourcePath target used)) ->
  (forall sourcePath fa t name reason target,
     In (sourcePath, fa) (analyzedFiles analysis) ->
     t = ContextUsage \/ t = HocUsage ->
     In target (map snd (analyzedFiles analysis)) ->
     sourcePath <> relativePath (file target) ->
     Q (definitionEdge t name reason sourcePath target)) ->
  Forall Q (edges (buildDependencyGraph cwd analysis)).
Proof.
  intros Hkept Himport Husage Hdef. unfold buildDependencyGraph. cbn [edges].
  apply (buildEdges_invariant (fun b => Forall Q (b_edges b))).
  - constructor.
  - intros sourcePath fa imp b Hfile Himp Hb.
    destruct (importStep_cases analysis sourcePath b imp) as [[(target & Hres & Ht & Hne & ->)|H] _].
    + apply Forall_app. split; [exact Hb|]. constructor; [|constructor].
      now apply (Himport sourcePath fa).
    + exact (Forall2_kept Q _ _ _ Hkept H Hb).
  - intros sourcePath fa used b Hfile Hused Hb. unfold renderUsageStep.
    destruct (usageStep_cases RenderUsage
                (fun name => "Component " ++ dq ++ name ++ dq ++ " rendered in JSX.")
                (buildComponentExports (analyzedFiles analysis)) sourcePath b used)
      as [[(target & Hres & Ht & Hne & ->)|H] _].
    + apply Forall_app. split; [exact Hb|]. constructor; [|constructor].
      apply (Husage sourcePath fa); [exact Hfile | left; now split | exact Ht | exact Hne].
    + exact (Forall2_kept Q _ _ _ Hkept H Hb).
  - intros sourcePath fa api b Hfile Hapi Hb. unfold contextUsageStep.
    destruct (ctx_type api); try exact Hb;
      match goal with
      | |- context [definitionStep ?t ?n ?r ?f ?s ?b0] =>
          destruct (definitionStep_cases t n r f s b0) as [[(target & Hfind & Hne & ->)| ->] _];
            [|exact Hb]
      end;
      (apply Forall_app; split; [exact Hb|]; constructor; [|constructor];
       apply (Hdef sourcePath fa); [exact Hfile | now left | | exact Hne];
       apply find_some in Hfind; exact (proj1 Hfind)).
  - intros sourcePath fa comp b Hfile Hcomp Hb. unfold hocUsageStep.
    destruct (comp_inferredHOC comp) as [hoc|]; [|exact Hb].
    destruct (truthy hoc); [|exact Hb].
    match goal with
    | |- context [definitionStep ?t ?n ?r ?f ?s ?b0] =>
        destruct (definitionStep_cases t n r f s b0) as [[(target & Hfind & Hne & ->)| ->] _];
          [|exact Hb]
    end.
    apply Forall_app. split; [exact Hb|]. constructor; [|constructor].
    apply (Hdef sourcePath fa); [exact Hfile | now right | | exact Hne].
    apply find_some in Hfind. exact (proj1 Hfind).
  - intros sourcePath fa used b Hfile Hused Hb. unfold typeDependencyStep.
    destruct (usageStep_cases TypeDependency
                (fun name => "Type " ++ dq ++ name ++ dq ++ " used in type annotations.")
                (buildTypeExports (analyzedFiles analysis)) sourcePath b used)
      as [[(target & Hres & Ht & Hne & ->)|H] _].
    + apply Forall_app. split; [exact Hb|]. constructor; [|constructor].
      apply (Husage sourcePath fa); [exact Hfile | right; now split | exact Ht | exact Hne].
    + exact (Forall2_kept Q _ _ _ Hkept H Hb).
Qed.


(** *** The two lookup maps point into the analysed files *)

Lemma componentExports_values files name target :
  buildComponentExports files !! name = Some target -> In target (map fst files).
Proof.
  revert name target. unfold buildComponentExports.
  apply (fold_left_invariant
           (fun m : gmap string string =>
              forall name target, m !! name = Some target -> In target (map fst files))).
  - intros name target H. rewrite lookup_empty in H. discriminate.
  - intros m [relPath fa] Hm Hin.
    apply fold_left_invariant; [exact Hm|].
    intros m' comp Hm' _ name target. destruct (comp_isExported comp); [|apply Hm'].
    destruct (decide (comp_name comp = name)) as [->|Hne].
    + rewrite lookup_insert_eq. intros [= <-]. apply (in_map fst _ _ Hin).
    + rewrite lookup_insert_ne by exact Hne. apply Hm'.
Qed.

Lemma typeExports_values files name target :
  buildTypeExports files !! name = Some target -> In target (map fst files).
Proof.
  revert name target. unfold buildTypeExports.
  apply (fold_left_invariant
           (fun m : gmap string string =>
              forall name target, m !! name = Some target -> In target (map fst files))).
  - intros name target H. rewrite lookup_empty in H. discriminate.
  - intros m [relPath fa] Hm Hin.
    apply fold_left_invariant; [exact Hm|].
    intros m' typeDef Hm' _ name target. destruct (ty_isExported typeDef); [|apply Hm'].
    destruct (decide (ty_name typeDef = name)) as [->|Hne].
    + rewrite lookup_insert_eq. intros [= <-]. apply (in_map fst _ _ Hin).
    + rewrite lookup_insert_ne by exact Hne. apply Hm'.
Qed.

Lemma hasEntry_known files key :
  hasEntry files key = true -> In key (map fst files) \/ In key objectPrototypeKeys.
Proof.
  unfold hasEntry. rewrite orb_true_iff, existsb_exists, arrayIncludes_In.
  intros [([k v] & Hin & Heq)|H]; [left | now right].
  apply String.eqb_eq in Heq. simpl in Heq. subst k. apply (in_map fst _ _ Hin).
Qed.

Lemma resolveImportPath_known fromFilePath importSource files root target :
  resolveImportPath cwd fromFilePath importSource files root = Some target ->
  hasEntry files target = true.
Proof.
  rewrite resolveImportPath_order. destruct (isBareSpecifier importSource); [discriminate|].
  unfold firstKnown. intros H. apply find_some in H. exact (proj2 H).
Qed.

Lemma nodes_ids analysis :
  map n_id (nodes (buildDependencyGraph cwd analysis)) = map fst (analyzedFiles analysis).
Proof.
  unfold buildDependencyGraph. cbn [nodes]. rewrite map_map.
  apply map_ext. now intros [relPath fa].
Qed.

(** X14.  In the graph of every project of a workspace,
    every edge starts at a node of the graph, and ends at a key of the
    analysed files (the id of a node), at the recorded relative path of an
    analysed file (context and HOC edges), or at a property name inherited
    from [Object.prototype] (which the resolver's lookup finds too). *)
Theorem edges_join_known_files (analyzedProjects : list AnalyzedProject) :
  Forall
    (fun pg : AnalyzedProject * DependencyGraph =>
       Forall
         (fun e => In (e_from e) (map n_id (nodes (snd pg)))
                   /\ knownTarget (analyzedFiles (fst pg)) (e_to e))
         (edges (snd pg)))
    (buildWorkspaceDependencyGraphs cwd analyzedProjects).
Proof.
  unfold buildWorkspaceDependencyGraphs. apply List.Forall_forall.
  intros [project g] Hin. apply in_map_iff in Hin. destruct Hin as (analysis & [= <- <-] & _).
  cbn [fst snd]. rewrite nodes_ids.
  apply (edges_invariant
           (fun e => In (e_from e) (map fst (analyzedFiles analysis))
                     /\ knownTarget (analyzedFiles analysis) (e_to e))).
  - intros ns e e' (Hkey & _) H. unfold edgeKey in Hkey.
    injection Hkey as Hfrom Hto _. now rewrite Hfrom, Hto.
  - intros sourcePath fa imp target Hfile _ Hres _ _. cbn [importEdge e_from e_to]. split.
    + apply (in_map fst _ _ Hfile).
    + apply resolveImportPath_known, hasEntry_known in Hres. unfold knownTarget. tauto.
  - intros sourcePath fa t reasonOf used target Hfile Hmap _ _. cbn [usageEdge e_from e_to].
    split; [apply (in_map fst _ _ Hfile)|]. left.
    destruct Hmap as [[_ H]|[_ H]];
      [exact (componentExports_values _ _ _ H) | exact (typeExports_values _ _ _ H)].
  - intros sourcePath fa t name reason target Hfile _ Htarget _.
    cbn [definitionEdge e_from e_to]. split; [apply (in_map fst _ _ Hfile)|].
    right; left. apply in_map_iff in Htarget. destruct Htarget as (kv & <- & Hkv).
    apply (in_map (fun kv => relativePath (file (snd kv))) _ _ Hkv).
Qed.

(** X15.  Every edge of a produced graph lists at least one
    name in [importedNames] and lists no name twice. *)
Theorem edge_names_listed (analysis : AnalyzedProject) :
  Forall namesListed (edges (buildDependencyGraph cwd analysis)).
Proof.
  apply edges_invariant.
  - intros ns e e' (_ & _ & _ & Hnames) [Hne Hnd]. unfold namesListed.
    destruct Hnames as [-> | (name & _ & Hnotin & ->)]; [now split|]. split.
    + intros H. apply app_eq_nil in H. destruct H as [_ H]. discriminate.
    + apply NoDup_app. repeat split; [exact Hnd | | apply NoDup_singleton].
      intros x Hx Hx'. apply list_elem_of_In in Hx, Hx'.
      destruct Hx' as [<-|[]]. contradiction.
  - intros. split; [discriminate | apply NoDup_singleton].
  - intros. split; [discriminate | apply NoDup_singleton].
  - intros. split; [discriminate | apply NoDup_singleton].
Qed.

(** X16.  In a produced graph an import or
    dynamic-import edge has neither weight nor reason, a context-usage or
    hoc-usage edge has a reason and no weight, a render-usage or
    type-dependency edge has both, and no edge has the kind [reference]. *)
Theorem edge_fields_follow_kind (analysis : AnalyzedProject) :
  Forall wellKinded (edges (buildDependencyGraph cwd analysis)).
Proof.
  apply edges_invariant.
  - intros ns e e' (Hkey & Hw & Hr & _). unfold wellKinded, edgeKey in *.
    injection Hkey as _ _ Ht. rewrite Ht, Hw, Hr. exact (fun H => H).
  - intros sourcePath fa imp target _ _ _ _ _. unfold wellKinded, importEdge, importEdgeType.
    cbn. now destruct (includes _ _).
  - intros sourcePath fa t reasonOf used target _ [[-> _]|[-> _]] _ _; cbn; now split.
  - intros sourcePath fa t name reason target _ [-> | ->] _ _; cbn; now split.
Qed.

(** *** The unresolved imports *)

Lemma importStep_unresolved analysis sourcePath b imp :
  b_unresolvedImports (importStep cwd analysis sourcePath b imp)
  = (b_unresolvedImports b
     ++ if reportedUnresolved cwd analysis sourcePath imp
        then [unresolvedEntry sourcePath imp] else [])%list.
Proof.
  unfold importStep, reportedUnresolved. cbv zeta.
  destruct (resolveImportPath _ _ _ _ _) as [target|]; cbn [truthyOpt].
  - destruct (truthy target); cbn [negb andb].
    + destruct (negb (String.eqb sourcePath target)); [|now rewrite app_nil_r].
      destruct (negb (isProcessed _ _)); cbn; now rewrite app_nil_r.
    + destruct (isBareSpecifier _); cbn [negb andb]; [now rewrite app_nil_r|].
      destruct (String.eqb sourcePath _); cbn; [now rewrite app_nil_r | reflexivity].
  - destruct (isBareSpecifier _); cbn [negb andb]; [now rewrite app_nil_r|].
    destruct (String.eqb sourcePath _); cbn; [now rewrite app_nil_r | reflexivity].
Qed.

Lemma importLoop_unresolved analysis sourcePath imps b :
  b_unresolvedImports (fold_left (importStep cwd analysis sourcePath) imps b)
  = (b_unresolvedImports b
     ++ map (unresolvedEntry sourcePath)
          (List.filter (reportedUnresolved cwd analysis sourcePath) imps))%list.
Proof.
  revert b. induction imps as [|imp imps IH]; intros b; simpl; [now rewrite app_nil_r|].
  rewrite IH, importStep_unresolved.
  destruct (reportedUnresolved cwd analysis sourcePath imp); simpl.
  - now rewrite <- List.app_assoc.
  - now rewrite app_nil_r.
Qed.

Lemma loop_keeps_unresolved {X : Type} (f : Builder -> X -> Builder) (l : list X) b :
  (forall b0 x, b_unresolvedImports (f b0 x) = b_unresolvedImports b0) ->
  b_unresolvedImports (fold_left f l b) = b_unresolvedImports b.
Proof.
  intros Hf. revert b. induction l as [|x l IH]; intros b; simpl; [reflexivity|].
  now rewrite IH, Hf.
Qed.

Lemma fileStep_unresolved analysis cm tm b entry :
  b_unresolvedImports (fileStep cwd analysis cm tm b entry)
  = (b_unresolvedImports b ++ unresolvedOf cwd analysis entry)%list.
Proof.
  destruct entry as [sourcePath fa]. unfold fileStep, unresolvedOf. cbn [fst snd].
  rewrite loop_keeps_unresolved
    by (intros b0 x; unfold typeDependencyStep;
        exact (proj2 (usageStep_cases _ _ _ _ b0 x))).
  rewrite loop_keeps_unresolved.
  2:{ intros b0 comp. unfold hocUsageStep.
      destruct (comp_inferredHOC comp) as [hoc|]; [|reflexivity].
      destruct (truthy hoc); [|reflexivity].
      exact (proj2 (definitionStep_cases _ _ _ _ _ b0)). }
  rewrite loop_keeps_unresolved.
  2:{ intros b0 api. unfold contextUsageStep.
      destruct (ctx_type api); try reflexivity;
        exact (proj2 (definitionStep_cases _ _ _ _ _ b0)). }
  rewrite loop_keeps_unresolved
    by (intros b0 x; unfold renderUsageStep;
        exact (proj2 (usageStep_cases _ _ _ _ b0 x))).
  apply importLoop_unresolved.
Qed.

(** X17.  The unresolved imports of a graph are, file
    by file and import by import in source order, one entry for each import
    whose specifier is not bare, differs from the importing file's path and
    resolves to no file: an import declared twice is reported twice, and a
    bare (package) specifier is never reported. *)
Theorem unresolved_imports_listing (analysis : AnalyzedProject) :
  unresolvedImports (buildDependencyGraph cwd analysis)
  = flat_map (unresolvedOf cwd analysis) (analyzedFiles analysis)
  /\ Forall (fun u => isBareSpecifier (u_importPath u) = false
                      /\ u_from u <> u_importPath u
                      /\ In (u_from u) (map n_id (nodes (buildDependencyGraph cwd analysis))))
       (unresolvedImports (buildDependencyGraph cwd analysis)).
Proof.
  assert (Hlist : unresolvedImports (buildDependencyGraph cwd analysis)
                  = flat_map (unresolvedOf cwd analysis) (analyzedFiles analysis)).
  { unfold buildDependencyGraph, buildEdges. cbn [unresolvedImports].
    generalize (buildComponentExports (analyzedFiles analysis)) as cm.
    generalize (buildTypeExports (analyzedFiles analysis)) as tm. intros tm cm.
    change (flat_map (unresolvedOf cwd analysis) (analyzedFiles analysis))
      with (b_unresolvedImports emptyBuilder
            ++ flat_map (unresolvedOf cwd analysis) (analyzedFiles analysis))%list.
    generalize emptyBuilder as b.
    induction (analyzedFiles analysis) as [|entry files IH]; intros b; simpl;
      [now rewrite app_nil_r|].
    now rewrite IH, fileStep_unresolved, <- List.app_assoc. }
  split; [exact Hlist|]. rewrite Hlist, nodes_ids. apply List.Forall_forall.
  intros u Hu. apply in_flat_map in Hu. destruct Hu as ([sourcePath fa] & Hfile & Hu).
  unfold unresolvedOf in Hu. cbn [fst snd] in Hu.
  apply in_map_iff in Hu. destruct Hu as (imp & <- & Himp).
  apply filter_In in Himp. destruct Himp as [_ Hrep].
  unfold reportedUnresolved in Hrep.
  apply andb_true_iff in Hrep. destruct Hrep as [Hrep Hne].
  apply andb_true_iff in Hrep. destruct Hrep as [_ Hbare].
  cbn [unresolvedEntry u_from u_importPath]. repeat split.
  - now apply negb_true_iff.
  - apply negb_true_iff, String.eqb_neq in Hne. exact Hne.
  - apply (in_map fst _ _ Hfile).
Qed.

End GraphMore.

(** ** The groups of the merge step *)

Section GroupingFacts.
Import JsString Analysis Conflict Merger MergeStep ResolveAndMergeStep.

Lemma set_map_present {V : Type} (f : string -> V) keys k v :
  In k keys -> NoDup keys ->
  OrderedMap.set (map (fun x => (x, f x)) keys) k v
  = map (fun x => (x, if String.eqb x k then v else f x)) keys.
Proof.
  induction keys as [|x keys IH]; [intros []|].
  intros Hin Hnd. apply NoDup_cons in Hnd. destruct Hnd as [Hnotin Hnd]. cbn [map OrderedMap.set].
  destruct (String.eqb x k) eqn:E.
  - apply String.eqb_eq in E. subst x. f_equal.
    apply map_ext_in. intros y Hy. destruct (String.eqb y k) eqn:E'; [|reflexivity].
    apply String.eqb_eq in E'. subst y. exfalso. apply Hnotin, list_elem_of_In, Hy.
  - apply String.eqb_neq in E. destruct Hin as [->|Hin]; [contradiction|].
    f_equal. now apply IH.
Qed.

Lemma set_map_absent {V : Type} (f : string -> V) keys k v :
  ~ In k keys ->
  OrderedMap.set (map (fun x => (x, f x)) keys) k v
  = (map (fun x => (x, f x)) keys ++ [(k, v)])%list.
Proof.
  induction keys as [|x keys IH]; [reflexivity|].
  intros Hnotin. cbn [map OrderedMap.set].
  destruct (String.eqb x k) eqn:E.
  - apply String.eqb_eq in E. subst x. exfalso. apply Hnotin. now left.
  - simpl. f_equal. apply IH. intros H. apply Hnotin. now right.
Qed.

Lemma set_last {V : Type} (m : OrderedMap.t V) k (v w : V) :
  ~ In k (map fst m) -> OrderedMap.set (m ++ [(k, v)])%list k w = (m ++ [(k, w)])%list.
Proof.
  induction m as [|[k0 v0] m IH]; simpl.
  - now rewrite String.eqb_refl.
  - intros Hn. destruct (String.eqb k0 k) eqn:E.
    + apply String.eqb_eq in E. subst k0. exfalso. apply Hn. now left.
    + f_equal. apply IH. intros H. apply Hn. now right.
Qed.

Lemma get_map_present {V : Type} (f : string -> V) keys k :
  In k keys -> OrderedMap.get (map (fun x => (x, f x)) keys) k = Some (f k).
Proof.
  induction keys as [|x keys IH]; [intros []|]. intros Hin. cbn [map OrderedMap.get].
  destruct (String.eqb x k) eqn:E.
  - apply String.eqb_eq in E. now subst x.
  - apply String.eqb_neq in E. destruct Hin as [->|Hin]; [contradiction | now apply IH].
Qed.

Lemma membersOf_absent k all : ~ In k (map ne_id all) -> membersOf k all = [].
Proof.
  intros Hnotin. unfold membersOf. apply filter_all_false.
  intros e He. apply String.eqb_neq. intros <-. apply Hnotin. now apply in_map.
Qed.

Lemma membersOf_snoc k all e :
  membersOf k (all ++ [e])
  = (membersOf k all ++ if String.eqb (ne_id e) k then [e] else [])%list.
Proof. unfold membersOf. rewrite List.filter_app. reflexivity. Qed.

(** One iteration of the [forEach] of [groupNormalizedEntities]. *)
Lemma grouping_step all entity :
  let grouped := groupsInOrder all in
  let grouped' :=
    if negb (OrderedMap.has grouped (ne_id entity))
    then OrderedMap.set grouped (ne_id entity) [] else grouped in
  OrderedMap.set grouped' (ne_id entity)
    (default [] (OrderedMap.get grouped' (ne_id entity)) ++ [entity])%list
  = groupsInOrder (all ++ [entity]).
Proof.
  cbv zeta. unfold groupsInOrder. rewrite map_app. cbn [map].
  rewrite uniqueStrings_snoc. unfold addUnique.
  pose proof (uniqueStrings_NoDup (map ne_id all)) as Hnd.
  destruct (arrayIncludes (uniqueStrings (map ne_id all)) (ne_id entity)) eqn:Hinc.
  - apply arrayIncludes_In in Hinc.
    assert (Hhas : OrderedMap.has
                     (map (fun k => (k, membersOf k all)) (uniqueStrings (map ne_id all)))
                     (ne_id entity) = true).
    { apply OrderedMap_has_In. rewrite map_map. cbn [fst]. now rewrite map_id. }
    rewrite Hhas. cbn [negb].
    rewrite (get_map_present (fun k => membersOf k all)) by exact Hinc. cbn [default].
    rewrite (set_map_present (fun k => membersOf k all)) by assumption.
    apply map_ext. intros k. rewrite membersOf_snoc, String.eqb_sym.
    destruct (String.eqb (ne_id entity) k) eqn:E; [|now rewrite app_nil_r].
    apply String.eqb_eq in E. now subst k.
  - apply arrayIncludes_not_In in Hinc.
    assert (Hhas : OrderedMap.has
                     (map (fun k => (k, membersOf k all)) (uniqueStrings (map ne_id all)))
                     (ne_id entity) = false).
    { apply not_true_is_false. intros H. apply OrderedMap_has_In in H.
      rewrite map_map in H. cbn [fst] in H. rewrite map_id in H. contradiction. }
    rewrite Hhas. cbn [negb].
    rewrite OrderedMap_get_set_same. cbn [default app].
    rewrite (set_map_absent (fun k => membersOf k all)) by exact Hinc.
    rewrite set_last by (rewrite map_map; cbn [fst]; now rewrite map_id).
    rewrite map_app. cbn [map]. f_equal.
    + apply map_ext_in. intros k Hk. rewrite membersOf_snoc.
      destruct (String.eqb (ne_id entity) k) eqn:E; [|now rewrite app_nil_r].
      apply String.eqb_eq in E. subst k. contradiction.
    + rewrite membersOf_snoc, String.eqb_refl.
      rewrite membersOf_absent; [reflexivity|].
      intros H. apply Hinc. now apply uniqueStrings_In.
Qed.

Lemma grouping_fold all entities :
  fold_left
    (fun grouped entity =>
       let grouped' :=
         if negb (OrderedMap.has grouped (ne_id entity))
         then OrderedMap.set grouped (ne_id entity) [] else grouped in
       OrderedMap.set grouped' (ne_id entity)
         (default [] (OrderedMap.get grouped' (ne_id entity)) ++ [entity])%list)
    entities (groupsInOrder all)
  = groupsInOrder (all ++ entities).
Proof.
  revert all. induction entities as [|e entities IH]; intros all.
  - now rewrite app_nil_r.
  - cbn [fold_left]. rewrite (grouping_step all e), IH, <- List.app_assoc. reflexivity.
Qed.

Lemma filter_all_true {X : Type} (p : X -> bool) (l : list X) :
  (forall x, In x l -> p x = true) -> List.filter p l = l.
Proof.
  induction l as [|x l IH]; intros H; simpl; [reflexivity|].
  rewrite (H x) by now left. f_equal. apply IH. intros y Hy. apply H. now right.
Qed.

Lemma filter_disjoint_Permutation {X : Type} (p q : X -> bool) (l : list X) :
  (forall x, p x = true -> q x = false) ->
  Permutation (List.filter p l ++ List.filter q l) (List.filter (fun x => p x || q x) l).
Proof.
  intros Hpq. induction l as [|x l IH]; simpl; [constructor|].
  destruct (p x) eqn:Hp; simpl.
  - rewrite (Hpq x Hp). now constructor.
  - destruct (q x); [|exact IH].
    etransitivity; [symmetry; apply Permutation_middle|]. now constructor.
Qed.

(** The groups of distinct keys hold the entities whose id is a key. *)
Lemma groups_cover keys all :
  NoDup keys ->
  Permutation (concat (map (fun k => membersOf k all) keys))
    (List.filter (fun e => arrayIncludes keys (ne_id e)) all).
Proof.
  induction keys as [|k keys IH]; intros Hnd.
  - simpl. rewrite filter_all_false; [constructor | reflexivity].
  - apply NoDup_cons in Hnd. destruct Hnd as [Hnotin Hnd]. cbn [map concat].
    etransitivity; [apply Permutation_app_head, IH, Hnd|].
    etransitivity; [apply filter_disjoint_Permutation|].
    + intros e He. apply String.eqb_eq in He. apply arrayIncludes_not_In.
      rewrite He. intros H. apply Hnotin, list_elem_of_In, H.
    + erewrite filter_ext; [reflexivity|].
      intros e. unfold arrayIncludes. cbn [existsb]. now rewrite String.eqb_sym.
Qed.

Lemma grouping_closed_form cs hs us xs :
  groupNormalizedEntities cs hs us xs = groupsInOrder (cs ++ hs ++ us ++ xs).
Proof. unfold groupNormalizedEntities. exact (grouping_fold [] _). Qed.

(** X18.  [groupNormalizedEntities] returns one group
    per distinct entity id, in the order in which the ids first appear in
    components, hooks, utilities, contexts; the group of an id holds exactly
    the entities with that id, in input order. *)
Theorem groups_partition_by_id (cs hs us xs : list NormalizedEntity) :
  groupNormalizedEntities cs hs us xs = groupsInOrder (cs ++ hs ++ us ++ xs)
  /\ map fst (groupNormalizedEntities cs hs us xs)
     = uniqueStrings (map ne_id (cs ++ hs ++ us ++ xs))
  /\ Permutation (concat (map snd (groupNormalizedEntities cs hs us xs)))
       (cs ++ hs ++ us ++ xs).
Proof.
  pose proof (grouping_closed_form cs hs us xs) as H.
  split; [exact H|]. rewrite H. unfold groupsInOrder. split.
  - rewrite map_map. cbn [fst]. apply map_id.
  - rewrite map_map. cbn [snd].
    etransitivity; [apply groups_cover, uniqueStrings_NoDup|].
    rewrite filter_all_true; [reflexivity|].
    intros e He. apply arrayIncludes_In, uniqueStrings_In. now apply in_map.
Qed.

End GroupingFacts.
(** ** The bookkeeping of the merge step *)

Section MergeStepMore.
Import JsString Analysis Conflict Merger MergeStep.

Context {Ast : Type}.
Variable placeholder : string -> Ast.
Variable merge :
  string -> list NormalizedEntity -> gmap string ASTDependency -> list MergeConflict
  -> @Outcome Ast.

Lemma tableTotal_bump (m : OrderedMap.t nat) k :
  tableTotal (OrderedMap.set m k (S (default O (OrderedMap.get m k)))) = S (tableTotal m).
Proof.
  unfold tableTotal. induction m as [|[k0 n0] m IH]; [reflexivity|].
  cbn [OrderedMap.set OrderedMap.get].
  destruct (String.eqb k0 k); simpl; [lia|].
  simpl in IH. rewrite IH. lia.
Qed.

Lemma tableTotal_fold (resolved : list MergeConflict) (m : OrderedMap.t nat) :
  tableTotal
    (fold_left
       (fun m conf =>
          OrderedMap.set m (conflictTypeName (c_type conf))
            (S (default O (OrderedMap.get m (conflictTypeName (c_type conf))))))
       resolved m)
  = (tableTotal m + length resolved)%nat.
Proof.
  revert m. induction resolved as [|conf resolved IH]; intros m; simpl; [lia|].
  rewrite IH, tableTotal_bump. lia.
Qed.

(** Whatever the collaborator gives, recording it adds one entity, bumps
    one of the three counters and logs the call. *)
Lemma recordOutcome_balanced seen k entities first outcome c :
  balanced seen c ->
  balanced (S seen) (recordOutcome placeholder k entities first outcome c)
  /\ totalEntitiesAttemptedToMerge
       (mc_summary (recordOutcome placeholder k entities first outcome c))
     = totalEntitiesAttemptedToMerge (mc_summary c)
  /\ mc_calls (recordOutcome placeholder k entities first outcome c)
     = (mc_calls c ++ [k])%list.
Proof.
  intros (Hlen & Hsum & Hauto). unfold recordOutcome, balanced.
  destruct outcome as [[r|]|msg].
  - cbn [withSummary mc_final mc_summary mc_calls]. rewrite length_app. cbn [length].
    destruct (me_status r); cbn -[tableTotal]; rewrite ?tableTotal_fold;
      repeat split; solve [lia | exact Hauto].
  - cbn -[tableTotal]. rewrite length_app. cbn -[tableTotal].
    repeat split; solve [lia | exact Hauto].
  - cbn -[tableTotal]. rewrite length_app. cbn -[tableTotal].
    repeat split; solve [lia | exact Hauto].
Qed.

Lemma groupStep_balanced report fileMap seen c g :
  snd g <> [] -> listsConflicts report && lacksPaths g = false -> balanced seen c ->
  exists c',
    groupStep placeholder merge report fileMap c g = Some c'
    /\ balanced (S seen) c'
    /\ totalEntitiesAttemptedToMerge (mc_summary c')
       = totalEntitiesAttemptedToMerge (mc_summary c)
    /\ mc_calls c'
       = (mc_calls c ++ if isCriticalGroup report g then [] else [fst g])%list.
Proof.
  destruct g as [unifiedId [|first rest]]; [intros H; now destruct H|].
  intros _ Hquiet Hbal. rewrite groupStep_closed.
  unfold lacksPaths in Hquiet. cbn [snd] in Hquiet. rewrite Hquiet.
  unfold isCriticalGroup. cbn [fst snd].
  eexists. split; [reflexivity|].
  destruct (isCritical report first).
  - destruct Hbal as (Hlen & Hsum & Hauto). unfold balanced. cbn -[tableTotal].
    rewrite length_app. cbn -[tableTotal]. repeat split; solve [lia | exact Hauto].
  - now apply recordOutcome_balanced.
Qed.

Lemma groupLoop_balanced report fileMap groups seen c :
  (forall k l, In (k, l) groups -> l <> []) ->
  listsConflicts report && existsb lacksPaths groups = false ->
  balanced seen c ->
  exists c',
    groupLoop placeholder merge report fileMap groups c = Some c'
    /\ balanced (seen + length groups) c'
    /\ totalEntitiesAttemptedToMerge (mc_summary c')
       = totalEntitiesAttemptedToMerge (mc_summary c)
    /\ mc_calls c'
       = (mc_calls c
          ++ map fst (List.filter (fun g => negb (isCriticalGroup report g)) groups))%list.
Proof.
  revert seen c. induction groups as [|g groups IH]; intros seen c Hne Hquiet Hbal.
  - exists c. cbn. rewrite Nat.add_0_r, app_nil_r. split; [reflexivity|]. split; [exact Hbal|]. split; reflexivity.
  - cbn [existsb] in Hquiet.
    assert (Hg : listsConflicts report && lacksPaths g = false)
      by (destruct (listsConflicts report); [|reflexivity]; cbn [andb] in *;
          now apply orb_false_iff in Hquiet).
    assert (Hrest : listsConflicts report && existsb lacksPaths groups = false)
      by (destruct (listsConflicts report); [|reflexivity]; cbn [andb] in *;
          now apply orb_false_iff in Hquiet).
    destruct (groupStep_balanced report fileMap seen c g) as (c1 & Hstep & Hbal1 & Hatt & Hcalls).
    { destruct g as [k l]. apply (Hne k). now left. }
    { exact Hg. }
    { exact Hbal. }
    destruct (IH (S seen) c1) as (c' & Hloop & Hbal' & Hatt' & Hcalls').
    { intros k l Hin. apply (Hne k). now right. }
    { exact Hrest. }
    { exact Hbal1. }
    exists c'. cbn [groupLoop]. rewrite Hstep. split; [exact Hloop|].
    split; [cbn [length]; now rewrite Nat.add_succ_r|].
    split; [congruence|].
    rewrite Hcalls', Hcalls, <- List.app_assoc. f_equal. cbn [List.filter].
    now destruct (isCriticalGroup report g).
Qed.

(** X19.  The merge step throws when the report lists a
    critical error or a warning and the first member of some group carries
    no original paths: the filters that read them run before the [try].
    Otherwise, whatever [deepSmartMerge] returns or throws, [runMergeStep]
    completes; it emits one final entity per group of ids, the summary
    counts the groups as attempted, every group is counted exactly once as
    merged, skipped or failed, the total of auto-resolved conflicts is the
    sum of the per-type table, and both post-merge validations are reported
    as skipped. *)
Theorem merge_step_accounts_for_groups (input : MergeStepInput) :
  if stepThrows input then runMergeStep placeholder merge input = None
  else
    exists out,
      runMergeStep placeholder merge input = Some out
      /\ length (finalMergedEntities out) = length (groupsOfInput input)
      /\ totalEntitiesAttemptedToMerge (mergeSummary out) = length (groupsOfInput input)
      /\ (totalMergedSuccessfully (mergeSummary out)
          + totalSkippedDueToConflicts (mergeSummary out)
          + totalFailedDuringMergeProcess (mergeSummary out))%nat
         = totalEntitiesAttemptedToMerge (mergeSummary out)
      /\ totalAutoResolvedConflicts (mergeSummary out)
         = tableTotal (autoResolvedConflictsByType (mergeSummary out))
      /\ postMergeLintStatus (mergeSummary out) = Some VSkipped
      /\ postMergeTypeCheckStatus (mergeSummary out) = Some VSkipped
      /\ unresolvedConflicts out = in_mergeConflicts input.
Proof.
  destruct (stepThrows input) eqn:Hthrows; [now apply runMergeStep_throws|].
  destruct (groups_well_formed (in_components input) (in_hooks input)
              (in_utilities input) (in_contexts input)) as [_ Hne].
  fold (groupsOfInput input) in Hne.
  destruct (groupLoop_balanced (in_mergeConflicts input)
              (buildOriginalAnalyzedFileMap (in_analyzedWorkspaces input))
              (groupsOfInput input) 0
              {| mc_final := []; mc_summary := initialSummary (length (groupsOfInput input));
                 mc_calls := [] |} Hne Hthrows)
    as (c' & Hloop & (Hlen & Hsum & Hauto) & Hatt & _).
  { repeat split. }
  eexists. unfold runMergeStep. cbv zeta. rewrite Hloop. cbn.
  split; [reflexivity|]. cbn in Hatt |- *. repeat split; try assumption; lia.
Qed.

(** X20.  When the merge step does not throw,
    [deepSmartMerge] is invoked exactly once for each group whose first
    member is touched by no critical conflict, in the order of the groups,
    and for no other group; with a report free of critical errors it is
    invoked for every group. *)
Theorem deep_merge_called_per_open_group (input : MergeStepInput) :
  stepThrows input = false ->
  exists out,
    runMergeStep placeholder merge input = Some out
    /\ deepMergeCalls out
       = map fst (List.filter (fun g => negb (isCriticalGroup (in_mergeConflicts input) g))
                    (groupsOfInput input))
    /\ NoDup (deepMergeCalls out)
    /\ (criticalErrors (in_mergeConflicts input) = [] ->
        deepMergeCalls out = map fst (groupsOfInput input)).
Proof.
  intros Hthrows.
  destruct (groups_well_formed (in_components input) (in_hooks input)
              (in_utilities input) (in_contexts input)) as [Hnd Hne].
  fold (groupsOfInput input) in Hnd, Hne.
  destruct (groupLoop_balanced (in_mergeConflicts input)
              (buildOriginalAnalyzedFileMap (in_analyzedWorkspaces input))
              (groupsOfInput input) 0
              {| mc_final := []; mc_summary := initialSummary (length (groupsOfInput input));
                 mc_calls := [] |} Hne Hthrows)
    as (c' & Hloop & _ & _ & Hcalls).
  { repeat split. }
  eexists. unfold runMergeStep. cbv zeta. rewrite Hloop. cbn.
  split; [reflexivity|]. cbn [deepMergeCalls]. cbn in Hcalls. rewrite Hcalls.
  split; [reflexivity|]. split.
  - revert Hnd. generalize (groupsOfInput input) as groups.
    induction groups as [|g groups IH]; [constructor|]. cbn [map List.filter].
    intros Hnd. apply NoDup_cons in Hnd. destruct Hnd as [Hnotin Hnd].
    destruct (negb _); [|now apply IH]. cbn [map]. apply NoDup_cons. split; [|now apply IH].
    intros H. apply Hnotin. apply list_elem_of_In in H. apply list_elem_of_In.
    apply in_map_iff in H. destruct H as (g' & <- & Hg').
    apply filter_In in Hg'. now apply in_map.
  - intros Hnone. f_equal. apply filter_all_true.
    intros [k [|first rest]] _; [reflexivity|].
    unfold isCriticalGroup, isCritical, conflictsOf. cbn [snd]. rewrite Hnone.
    now destruct (ne_originalPaths first).
Qed.

End MergeStepMore.

(** ** The outcome of [deepSmartMerge] *)

Section DeepMergeMore.
Import JsString Analysis Conflict Merger MergeStep.

Context {Ast : Type}.
Variable parse : string -> list string -> option Ast.
Variable generate : Ast -> string + string.
Variable generateCompact : Ast -> string + string.
Variable placeholder : string -> Ast.

(** X21.  On a non-empty group whose members carry their
    original paths, [deepSmartMerge] never returns the status
    [skipped-conflict].  When the merge fails (the analysis of the first
    member is not on record, or the code of a member with an analysis on
    record does not parse, or the compact printer throws in the comparison
    for such a later member) it returns an entity with status [error], the
    strategy [error] and no resolved conflicts; a later member without
    analysis never fails the merge.  Otherwise the call is rejected when the
    final printing throws, and else it returns an entity whose status is
    [merged-with-warnings] when warnings were handed in and [merged] when
    none were, whose resolved conflicts are the warnings, in order, with
    their messages prefixed, and whose strategy tells whether the group has
    more than one member. *)
Theorem deep_merge_status (entityName : string) (dominantEntity : NormalizedEntity)
    (incoming : list NormalizedEntity) (fileMap : gmap string ASTDependency)
    (warnings : list MergeConflict) :
  forallb carriesPaths (dominantEntity :: incoming) = true ->
  if mergeFails parse generateCompact fileMap dominantEntity incoming then
    exists r,
      deepSmartMerge parse generate generateCompact placeholder entityName
        (dominantEntity :: incoming) fileMap warnings = Returned (Some r)
      /\ me_status r = StError
      /\ me_mergeStrategyUsed r = Some StrategyError
      /\ me_resolvedConflicts r = None
      /\ me_mergedFromCount r = S (length incoming)
  else
    exists ast,
      treeOf parse fileMap dominantEntity = Some ast
      /\ match generate ast with
         | inr msg =>
             deepSmartMerge parse generate generateCompact placeholder entityName
               (dominantEntity :: incoming) fileMap warnings = Raised msg
         | inl finalMergedCode =>
             exists r,
               deepSmartMerge parse generate generateCompact placeholder entityName
                 (dominantEntity :: incoming) fileMap warnings = Returned (Some r)
               /\ me_status r = match warnings with
                                | [] => StMerged
                                | _ :: _ => StMergedWithWarnings
                                end
               /\ me_resolvedConflicts r = match warnings with
                                           | [] => None
                                           | _ :: _ => Some (map autoResolved warnings)
                                           end
               /\ me_mergeStrategyUsed r = Some match incoming with
                                                | [] => AutoSelectDominant
                                                | _ :: _ => AutoCombineDistinct
                                                end
               /\ me_mergedFromCount r = S (length incoming)
               /\ me_loc r = Some (Num (inject_Z (Z.of_nat (lineCount finalMergedCode))))
         end.
Proof.
  intros Hall.
  pose proof (firstPaths_carrying (dominantEntity :: incoming)) as Hpaths.
  pose proof (combineAll_carrying parse generateCompact fileMap dominantEntity incoming
                (foldWarnings warnings) Hall) as Htry.
  unfold deepSmartMerge. cbv zeta.
  destruct (firstPaths (dominantEntity :: incoming)) as [paths|]; [|congruence].
  destruct (combineAll _ _ _ _ _ _) as [c|t].
  - destruct Htry as (-> & Htree & _). exists (cb_finalAst c). split; [exact Htree|].
    destruct (generate (cb_finalAst c)) as [code|msg]; [|reflexivity].
    eexists. split; [reflexivity|].
    cbn [me_status me_resolvedConflicts me_mergeStrategyUsed me_mergedFromCount me_loc].
    rewrite foldWarnings_resolved, foldWarnings_resolved_list.
    destruct warnings, incoming; repeat split.
  - rewrite Htry. eexists. split; [reflexivity|]. now repeat split.
Qed.

(** What [deepSmartMerge] gives for a group is recorded as an entity that
    stands for the group. *)
Lemma recordOutcome_describes report c k first rest fileMap ws :
  ne_id first = k ->
  isCritical report first = false ->
  let c' := recordOutcome placeholder k (first :: rest) first
              (deepSmartMerge parse generate generateCompact placeholder
                 (ne_name first) (first :: rest) fileMap ws) c in
  exists r,
    mc_final c' = (mc_final c ++ [r])%list
    /\ describes report (k, first :: rest) r
    /\ (forallb carriesPaths (first :: rest) = false ->
        r = failedEntity placeholder "// Critical error during merge for "
              k (first :: rest) first)
    /\ totalSkippedDueToConflicts (mc_summary c') = totalSkippedDueToConflicts (mc_summary c).
Proof.
  intros Hid Hcritical. cbv zeta.
  pose proof (deepSmartMerge_outcome parse generate generateCompact placeholder
                (ne_name first) first rest fileMap ws) as Hout.
  cbv zeta in Hout. unfold describes. cbn [fst snd]. rewrite Hcritical.
  destruct (forallb carriesPaths (first :: rest)); cbn [negb] in Hout.
  - destruct (mergeFails parse generateCompact fileMap first rest).
    + destruct Hout as (paths & t & _ & ->). eexists. split; [reflexivity|].
      cbn. repeat split; try congruence; try discriminate.
    + destruct Hout as (ast & _ & Hout).
      destruct (generate ast) as [code|msg].
      * destruct Hout as (r & -> & Hrid & Hname & Hpath & _ & Hstatus & _ & Hcount & _).
        exists r. split; [reflexivity|]. split.
        { cbn [length]. repeat split; try congruence.
          rewrite Hstatus. now destruct (0 <? length ws)%nat. }
        split; [discriminate|].
        cbn [recordOutcome withSummary mc_summary]. rewrite Hstatus.
        now destruct (0 <? length ws)%nat.
      * rewrite Hout. eexists. split; [reflexivity|].
        cbn. repeat split; try congruence; try discriminate.
  - rewrite Hout. eexists. split; [reflexivity|].
    cbn. repeat split; try congruence; try discriminate.
Qed.

Lemma groupStep_pipeline report fileMap c k first rest :
  ne_id first = k ->
  listsConflicts report && negb (carriesPaths first) = false ->
  exists c' r,
    groupStep placeholder (deepSmartMerge parse generate generateCompact placeholder)
      report fileMap c (k, first :: rest) = Some c'
    /\ mc_final c' = (mc_final c ++ [r])%list
    /\ describes report (k, first :: rest) r
    /\ (isCritical report first = false ->
        forallb carriesPaths (first :: rest) = false ->
        r = failedEntity placeholder "// Critical error during merge for "
              k (first :: rest) first)
    /\ totalSkippedDueToConflicts (mc_summary c')
       = (totalSkippedDueToConflicts (mc_summary c)
          + if isCriticalGroup report (k, first :: rest) then 1 else 0)%nat.
Proof.
  intros Hid Hquiet. rewrite groupStep_closed, Hquiet.
  unfold isCriticalGroup. cbn [snd].
  destruct (isCritical report first) eqn:Hcritical.
  - eexists _, _. split; [reflexivity|]. split; [reflexivity|].
    split; [unfold describes; cbn [fst snd]; rewrite Hcritical; cbn; repeat split; auto|].
    split; [discriminate|]. cbn. lia.
  - destruct (recordOutcome_describes report c k first rest fileMap
                (conflictsOf first (warnings report)) Hid Hcritical)
      as (r & Hfinal & Hdesc & Hfailed & Hskip).
    eexists _, r. split; [reflexivity|]. split; [exact Hfinal|].
    split; [exact Hdesc|]. split; [intros _; exact Hfailed|]. rewrite Hskip. lia.
Qed.

Lemma groupLoop_pipeline report fileMap groups c :
  (forall k l, In (k, l) groups -> exists first rest, l = first :: rest /\ ne_id first = k) ->
  listsConflicts report && existsb lacksPaths groups = false ->
  exists c' entries,
    groupLoop placeholder (deepSmartMerge parse generate generateCompact placeholder)
      report fileMap groups c = Some c'
    /\ mc_final c' = (mc_final c ++ entries)%list
    /\ Forall2 (describes report) groups entries
    /\ Forall2 (failsFor report) groups entries
    /\ totalSkippedDueToConflicts (mc_summary c')
       = (totalSkippedDueToConflicts (mc_summary c)
          + length (List.filter (isCriticalGroup report) groups))%nat.
Proof.
  revert c. induction groups as [|[k l] groups IH]; intros c Hgroups Hquiet.
  - exists c, []. cbn. rewrite app_nil_r. repeat split; [constructor | constructor | lia].
  - destruct (Hgroups k l) as (first & rest & -> & Hid); [now left|].
    cbn [existsb] in Hquiet. unfold lacksPaths at 1 in Hquiet. cbn [snd] in Hquiet.
    assert (Hg : listsConflicts report && negb (carriesPaths first) = false)
      by (destruct (listsConflicts report); [|reflexivity]; cbn [andb] in *;
          now apply orb_false_iff in Hquiet).
    assert (Hrest : listsConflicts report && existsb lacksPaths groups = false)
      by (destruct (listsConflicts report); [|reflexivity]; cbn [andb] in *;
          now apply orb_false_iff in Hquiet).
    destruct (groupStep_pipeline report fileMap c k first rest Hid Hg)
      as (c1 & r & Hstep & Hfinal & Hdesc & Hfailed & Hskip).
    destruct (IH c1) as (c' & entries & Hloop & Hfinal' & Hall & Hall' & Hskip').
    { intros k' l' Hin. apply Hgroups. now right. }
    { exact Hrest. }
    exists c', (r :: entries). cbn [groupLoop]. rewrite Hstep.
    split; [exact Hloop|].
    split; [now rewrite Hfinal', Hfinal, <- List.app_assoc|].
    split; [now constructor|].
    split.
    { constructor; [|exact Hall']. unfold failsFor, isCriticalGroup. cbn [snd].
      intros Hc Hp. rewrite (Hfailed Hc Hp). now repeat split. }
    rewrite Hskip', Hskip. cbn [List.filter].
    destruct (isCriticalGroup report (k, first :: rest)); cbn [length]; lia.
Qed.

(** X22.  With the repository's own
    [deepSmartMerge], when the merge step does not throw, its final entities
    stand, one by one and in order, for the groups of ids: each carries the
    id of its group, the name and unified path of the group's first member
    and the size of the group, and has status [skipped-conflict] exactly
    when a critical conflict touches that first member.  A group that is not
    skipped and has a member without original paths gets the mark of a
    failed merge: status [error], quality score 0, flagged for manual
    review.  The summary's count of skipped groups is the number of groups
    touched by a critical conflict. *)
Theorem pipeline_results_follow_groups (input : MergeStepInput) :
  stepThrows input = false ->
  exists out,
    Pipeline.runMergeStep parse generate generateCompact placeholder input = Some out
    /\ Forall2 (describes (in_mergeConflicts input))
         (groupsInOrder (entitiesOf input)) (finalMergedEntities out)
    /\ Forall2 (failsFor (in_mergeConflicts input))
         (groupsInOrder (entitiesOf input)) (finalMergedEntities out)
    /\ map me_id (finalMergedEntities out)
       = ResolveAndMergeStep.uniqueStrings (map ne_id (entitiesOf input))
    /\ totalSkippedDueToConflicts (mergeSummary out)
       = length (List.filter (isCriticalGroup (in_mergeConflicts input))
                   (groupsInOrder (entitiesOf input))).
Proof.
  intros Hthrows. unfold stepThrows in Hthrows.
  unfold Pipeline.runMergeStep, runMergeStep. cbv zeta.
  assert (Hgroups : groupsOfInput input = groupsInOrder (entitiesOf input))
    by apply grouping_closed_form.
  rewrite Hgroups in *.
  destruct (groupLoop_pipeline (in_mergeConflicts input)
              (buildOriginalAnalyzedFileMap (in_analyzedWorkspaces input))
              (groupsInOrder (entitiesOf input))
              {| mc_final := [];
                 mc_summary := initialSummary (length (groupsInOrder (entitiesOf input)));
                 mc_calls := [] |})
    as (c' & entries & Hloop & Hfinal & Hall & Hfails & Hskip).
  { intros k l Hin. unfold groupsInOrder in Hin. apply in_map_iff in Hin.
    destruct Hin as (k' & [= -> <-] & Hk).
    apply (proj1 (uniqueStrings_In _ _)) in Hk. apply in_map_iff in Hk.
    destruct Hk as (e & He & Hin).
    assert (Hmem : In e (membersOf k (entitiesOf input))).
    { apply filter_In. split; [exact Hin | now apply String.eqb_eq]. }
    destruct (membersOf k (entitiesOf input)) as [|first rest] eqn:E; [destruct Hmem|].
    exists first, rest. split; [reflexivity|].
    assert (Hfirst : In first (membersOf k (entitiesOf input))) by (rewrite E; now left).
    apply filter_In in Hfirst. now apply String.eqb_eq. }
  { exact Hthrows. }
  rewrite Hloop. cbn in Hfinal, Hskip |- *. subst entries.
  eexists. split; [reflexivity|]. cbn. split; [exact Hall|]. split; [exact Hfails|].
  split; [|exact Hskip].
  unfold groupsInOrder in Hall.
  revert Hall. generalize (ResolveAndMergeStep.uniqueStrings (map ne_id (entitiesOf input))).
  generalize (mc_final c'). intros finals keys. revert finals.
  induction keys as [|k keys IH]; intros finals Hall; inversion Hall; subst; [reflexivity|].
  cbn [map]. f_equal; [|now apply IH].
  match goal with H : describes _ _ _ |- _ => unfold describes in H; cbn [snd fst] in H end.
  destruct (membersOf k (entitiesOf input)); [contradiction | tauto].
Qed.

End DeepMergeMore.

(** ** The table of original analyses *)

Section FileMapFacts.
Import JsString Analysis Conflict Merger MergeStep.

Lemma insert_fold_lookup (l : list (string * ASTDependency)) (m : gmap string ASTDependency) k :
  fold_left (fun m' '(relPath, astDep) => <[relPath := astDep]> m') l m !! k
  = match List.find (fun kv => String.eqb (fst kv) k) (rev l) with
    | Some kv => Some (snd kv)
    | None => m !! k
    end.
Proof.
  revert m. induction l as [|[p a] l IH]; intros m; [reflexivity|].
  cbn [fold_left rev]. rewrite IH, find_app.
  destruct (List.find _ (rev l)); [reflexivity|]. cbn [List.find fst snd].
  destruct (String.eqb p k) eqn:E.
  - apply String.eqb_eq in E. subst p. apply lookup_insert_eq.
  - apply String.eqb_neq in E. now apply lookup_insert_ne.
Qed.

Lemma fileMap_lookup (workspaces : list AnalyzedProject) (k : string) :
  buildOriginalAnalyzedFileMap workspaces !! k = lastAnalysis workspaces k.
Proof.
  unfold buildOriginalAnalyzedFileMap, lastAnalysis.
  rewrite (fold_left_flat_map
             (fun (m' : gmap string ASTDependency) '(relPath, astDep) =>
                <[relPath := astDep]> m') analyzedFiles).
  rewrite insert_fold_lookup, lookup_empty.
  now destruct (List.find _ _).
Qed.

Lemma lastAnalysis_None (workspaces : list AnalyzedProject) (k : string) :
  lastAnalysis workspaces k = None
  <-> ~ In k (map fst (flat_map analyzedFiles workspaces)).
Proof.
  unfold lastAnalysis.
  generalize (flat_map analyzedFiles workspaces) as l. intros l. split.
  - intros Hnone Hin. apply in_map_iff in Hin. destruct Hin as ([p a] & Hp & Hin).
    cbn in Hp. subst p. apply in_rev in Hin.
    destruct (List.find (fun kv => String.eqb (fst kv) k) (rev l)) as [kv|] eqn:E;
      [discriminate|].
    pose proof (find_none _ _ E _ Hin) as Hf. cbn in Hf. now rewrite String.eqb_refl in Hf.
  - intros Hnotin.
    destruct (List.find (fun kv => String.eqb (fst kv) k) (rev l)) as [kv|] eqn:E;
      [|reflexivity].
    apply find_some in E. destruct E as [Hin Hk]. apply String.eqb_eq in Hk.
    exfalso. apply Hnotin. rewrite <- Hk. apply in_map. now apply in_rev.
Qed.

(** X23.  The lookup table the merge step hands to
    [deepSmartMerge] is keyed by relative path alone: a path analysed in
    several workspaces (or several times) maps to the analysis read last,
    and a path analysed nowhere is absent. *)
Theorem original_file_map_last_wins (workspaces : list AnalyzedProject) (k : string) :
  buildOriginalAnalyzedFileMap workspaces !! k = lastAnalysis workspaces k
  /\ (buildOriginalAnalyzedFileMap workspaces !! k = None
      <-> ~ In k (map fst (flat_map analyzedFiles workspaces))).
Proof.
  split; [apply fileMap_lookup|]. rewrite fileMap_lookup. apply lastAnalysis_None.
Qed.

End FileMapFacts.

(** ** The render step *)

Section RenderFacts.
Import JsString Analysis Conflict Merger MergeStep RenderStep ResolveAndMergeStep.

Context {Ast : Type}.
Variable generate : Ast -> string -> string + JsError.

Lemma lastWritten_snoc (seen : list (@FinalMergedEntity Ast)) e p :
  lastWritten (seen ++ [e]) p
  = if String.eqb (f_unifiedPath e) p then Some e else lastWritten seen p.
Proof. unfold lastWritten. rewrite rev_app_distr. reflexivity. Qed.

Lemma filter_snoc_length {X : Type} (p : X -> bool) l x :
  length (List.filter p (l ++ [x])) = (length (List.filter p l) + if p x then 1 else 0)%nat.
Proof. rewrite List.filter_app, length_app. cbn. now destruct (p x). Qed.

Lemma filter_snoc_map {X Y : Type} (f : X -> Y) (p : X -> bool) l x :
  map f (List.filter p (l ++ [x]))
  = (map f (List.filter p l) ++ if p x then [f x] else [])%list.
Proof. rewrite List.filter_app, map_app. cbn. now destruct (p x). Qed.

(** What a write to the output map does to the two views of it. *)
Lemma written (seen : list (@FinalMergedEntity Ast)) files e text :
  map fst files = uniqueStrings (map f_unifiedPath seen) ->
  (forall p, OrderedMap.get files p
             = option_map (renderedText generate) (lastWritten seen p)) ->
  text = renderedText generate e ->
  map fst (OrderedMap.set files (f_unifiedPath e) text)
  = uniqueStrings (map f_unifiedPath (seen ++ [e]))
  /\ forall p, OrderedMap.get (OrderedMap.set files (f_unifiedPath e) text) p
               = option_map (renderedText generate) (lastWritten (seen ++ [e]) p).
Proof.
  intros Hkeys Hget ->. split.
  - rewrite OrderedMap_keys_set, map_app. cbn [map].
    rewrite uniqueStrings_snoc. unfold addUnique. rewrite <- Hkeys.
    destruct (OrderedMap.has files (f_unifiedPath e)) eqn:Hhas.
    + apply OrderedMap_has_In, arrayIncludes_In in Hhas. now rewrite Hhas.
    + assert (Hinc : arrayIncludes (map fst files) (f_unifiedPath e) = false).
      { apply arrayIncludes_not_In. intros H. apply OrderedMap_has_In in H. congruence. }
      now rewrite Hinc.
  - intros p. rewrite lastWritten_snoc.
    destruct (String.eqb (f_unifiedPath e) p) eqn:E.
    + apply String.eqb_eq in E. subst p. apply OrderedMap_get_set_same.
    + apply String.eqb_neq in E. rewrite OrderedMap_get_set_other by congruence. apply Hget.
Qed.

Lemma renderEntity_rendered seen c e :
  rendered generate seen c -> rendered generate (seen ++ [e]) (renderEntity generate c e).
Proof.
  intros (Hok & Hskip & Hfail & Hgen & Hwarn & Hkeys & Hget).
  unfold rendered. rewrite !filter_snoc_length, !filter_snoc_map. cbv beta.
  assert (Htext : forall text, text = renderedText generate e ->
            map fst (OrderedMap.set (rc_outputFiles c) (f_unifiedPath e) text)
            = uniqueStrings (map f_unifiedPath (seen ++ [e]))
            /\ forall p, OrderedMap.get
                           (OrderedMap.set (rc_outputFiles c) (f_unifiedPath e) text) p
                         = option_map (renderedText generate) (lastWritten (seen ++ [e]) p))
    by (intros text; now apply written).
  rewrite <- Hok, <- Hskip, <- Hfail, <- Hgen, <- Hwarn. clear Hok Hskip Hfail Hgen Hwarn.
  unfold renderEntity. unfold renderedText in Htext. unfold generates at 1 2 3.
  destruct (isBlocked e) eqn:Hb.
  - cbn [rc_outputFiles rc_summary rc_generated successfullyRendered skippedRender
         failedToRender entitiesWithRenderWarnings negb andb].
    rewrite !app_nil_r, !Nat.add_0_r.
    destruct (Htext _ eq_refl) as [Hk Hg].
    repeat split; try assumption; lia.
  - destruct (generate (f_mergedAST e) (f_unifiedPath e)) as [code|err] eqn:Hg0.
    + cbn [rc_outputFiles rc_summary rc_generated successfullyRendered skippedRender
           failedToRender entitiesWithRenderWarnings negb andb orb].
      rewrite !Nat.add_0_r.
      destruct (Htext _ eq_refl) as [Hk Hg].
      repeat split; try assumption; try lia.
      destruct (hasWarnings e); [reflexivity | now rewrite app_nil_r].
    + cbn [rc_outputFiles rc_summary rc_generated successfullyRendered skippedRender
           failedToRender entitiesWithRenderWarnings negb andb orb].
      rewrite !Nat.add_0_r.
      destruct (Htext _ eq_refl) as [Hk Hg].
      repeat split; try assumption; lia.
Qed.

Lemma renderLoop_rendered entities seen c :
  rendered generate seen c ->
  rendered generate (seen ++ entities) (fold_left (renderEntity generate) entities c).
Proof.
  revert seen c. induction entities as [|e entities IH]; intros seen c H.
  - now rewrite app_nil_r.
  - cbn [fold_left]. replace (seen ++ e :: entities)%list with ((seen ++ [e]) ++ entities)%list
      by now rewrite <- List.app_assoc.
    apply IH, renderEntity_rendered, H.
Qed.

Lemma renderLoop_total entities c :
  totalEntitiesToRender (rc_summary (fold_left (renderEntity generate) entities c))
  = totalEntitiesToRender (rc_summary c).
Proof.
  revert c. induction entities as [|e entities IH]; intros c; [reflexivity|].
  cbn [fold_left]. rewrite IH. unfold renderEntity.
  destruct (isBlocked e); [reflexivity|]. now destruct (generate _ _).
Qed.

Lemma runRenderStep_rendered entities :
  rendered generate entities
    {| rc_outputFiles := outputFiles (runRenderStep generate entities);
       rc_summary := renderSummary (runRenderStep generate entities);
       rc_generated := generatorCalls (runRenderStep generate entities) |}.
Proof.
  unfold runRenderStep. destruct entities as [|e entities].
  - cbn. repeat split.
  - change (length (e :: entities) =? 0)%nat with false. cbv iota zeta.
    pose proof (renderLoop_rendered (e :: entities) []
                  {| rc_outputFiles := [];
                     rc_summary := initialRenderSummary (length (e :: entities));
                     rc_generated := [] |}) as H.
    cbn [app] in H. exact (H ltac:(cbn; repeat split)).
Qed.

Lemma filter_three_way {X : Type} (p q : X -> bool) (l : list X) :
  (length (List.filter (fun x => negb (p x) && q x) l)
   + length (List.filter p l)
   + length (List.filter (fun x => negb (p x) && negb (q x)) l))%nat = length l.
Proof.
  induction l as [|x l IH]; [reflexivity|]. cbn [List.filter].
  destruct (p x), (q x); cbn [negb andb length]; lia.
Qed.



End RenderFacts.

(** ** The normalize step *)

Section NormalizeFacts.
Import JsString Analysis Conflict ResolveAndMergeStep NormalizeStep.

Context {Ast : Type}.
Variable parse : string -> list string -> option Ast.
Variable sortImports : Ast -> option (Ast * bool).
Variable cleanComments : Ast -> option (Ast * bool).
Variable normalizeJSXAttributes : Ast -> option (Ast * bool).
Variable generate : Ast -> option string.
Variable readFileSync : string -> option string.

(** The functions of the step at the collaborators of this section. *)
Abbreviation normalizeCode := (normalizeCode parse sortImports cleanComments
                             normalizeJSXAttributes generate).
Abbreviation generated := (generated parse sortImports cleanComments
                                normalizeJSXAttributes generate).
Abbreviation normalizedOf := (normalizedOf parse sortImports cleanComments
                            normalizeJSXAttributes generate readFileSync).
Abbreviation normalizeEntity := (normalizeEntity parse sortImports cleanComments
                               normalizeJSXAttributes generate readFileSync).
Abbreviation runNormalizeStep := (runNormalizeStep parse sortImports cleanComments
                                normalizeJSXAttributes generate readFileSync).

(** X27.  [normalizeCode] never throws.  It flags an error
    exactly when the parser, a transformation or the generator throws, and
    it then returns the code it was given, reported as unchanged.  When none
    of them throws it returns the code the generator prints, without the
    error flag, and it reports a change exactly when that code differs from
    the code it was given and one of the first three transformations
    reported a change.  It reports a change exactly when it lists at least
    one change type; the change types listed are distinct and taken from
    imports sorted, comments cleaned and JSX attributes normalized: a change
    of props order is never reported. *)
Theorem normalize_code_report (code : string) (fileData : ScannedFile) :
  let result := normalizeCode code fileData in
  match generated code fileData with
  | None => result = (code, {| changed := false; changesMade := []; error := true |})
  | Some (normalizedCode, (importsChanged, commentsChanged, jsxAttrsChanged)) =>
      fst result = normalizedCode
      /\ error (snd result) = false
      /\ (changed (snd result) = true
          <-> normalizedCode <> code
              /\ (importsChanged || commentsChanged || jsxAttrsChanged) = true)
      /\ (normalizedCode <> code ->
          changesMade (snd result)
          = (labelled importsChanged "imports_sorted"
             ++ labelled commentsChanged "comments_cleaned"
             ++ labelled jsxAttrsChanged "jsx_attributes_normalized")%list)
  end
  /\ (error (snd result) = true ->
      fst result = code /\ changed (snd result) = false /\ changesMade (snd result) = [])
  /\ (changed (snd result) = true <-> changesMade (snd result) <> [])
  /\ (changed (snd result) = true -> fst result <> code)
  /\ NoDup (changesMade (snd result))
  /\ (forall changeType, In changeType (changesMade (snd result)) ->
                         In changeType reportableChanges).
Proof.
  cbv zeta. unfold NormalizeStep.normalizeCode, NormalizeStep.generated, retained,
    normalizePropsOrder.
  assert (Hretained :
            forall r : string * FileNormalizationReport,
              r = (code, {| changed := false; changesMade := []; error := true |}) ->
              r = (code, {| changed := false; changesMade := []; error := true |})
              /\ (error (snd r) = true ->
                  fst r = code /\ changed (snd r) = false /\ changesMade (snd r) = [])
              /\ (changed (snd r) = true <-> changesMade (snd r) <> [])
              /\ (changed (snd r) = true -> fst r <> code)
              /\ NoDup (changesMade (snd r))
              /\ (forall changeType, In changeType (changesMade (snd r)) ->
                                     In changeType reportableChanges)).
  { intros r ->. cbn. repeat split; try discriminate; try tauto; constructor. }
  destruct (parse code _) as [ast|]; cbn [mbind option_bind]; [|now apply Hretained].
  destruct (sortImports ast) as [[ast1 c1]|]; cbn [mbind option_bind];
    [|now apply Hretained].
  destruct (cleanComments ast1) as [[ast2 c2]|]; cbn [mbind option_bind];
    [|now apply Hretained].
  destruct (normalizeJSXAttributes ast2) as [[ast3 c3]|]; cbn [mbind option_bind];
    [|now apply Hretained].
  cbn [fst].
  destruct (generate ast3) as [normalizedCode|]; cbn [mbind option_bind];
    [|now apply Hretained].
  destruct (String.eqb normalizedCode code) eqn:E.
  - apply String.eqb_eq in E. cbn.
    repeat split; try discriminate; try tauto; try constructor; try congruence.
  - apply String.eqb_neq in E. cbn [fst snd changed changesMade error].
    unfold reportableChanges.
    destruct c1, c2, c3; cbn; repeat split; try discriminate; try tauto; try congruence;
      repeat (apply NoDup_cons; split; [rewrite ?list_elem_of_In; cbn; intuition discriminate|]);
      try apply NoDup_nil_2.
Qed.

(** One iteration in terms of what it pushes. *)
Lemma normalizeEntity_list fileMap c entity :
  cur_list (normalizeEntity fileMap c entity)
  = (cur_list c ++ match normalizedOf fileMap entity with
                   | Some n => [n]
                   | None => []
                   end)%list
  /\ totalEntitiesNormalized (cur_summary (normalizeEntity fileMap c entity))
     = (totalEntitiesNormalized (cur_summary c)
        + match normalizedOf fileMap entity with Some _ => 1 | None => 0 end)%nat
  /\ (forall p, In p (filesSkippedNormalization (cur_summary c)) ->
                In p (filesSkippedNormalization
                        (cur_summary (normalizeEntity fileMap c entity))))
  /\ (normalizedOf fileMap entity = None ->
      In (canonicalPathOf entity)
         (filesSkippedNormalization (cur_summary (normalizeEntity fileMap c entity))))
  /\ (totalCodeChanged (cur_summary c) <= totalEntitiesNormalized (cur_summary c) ->
      totalCodeChanged (cur_summary (normalizeEntity fileMap c entity))
      <= totalEntitiesNormalized (cur_summary (normalizeEntity fileMap c entity)))%nat.
Proof.
  unfold NormalizeStep.normalizeEntity, NormalizeStep.normalizedOf. cbv zeta.
  destruct (canonicalAnalysis fileMap entity) as [a|].
  - destruct (readFileSync _) as [originalCode|].
    + destruct (NormalizeStep.normalizeCode _ _ _ _ _ originalCode (file a)) as [nc report].
      cbn [fst cur_list cur_summary totalEntitiesNormalized filesSkippedNormalization
           totalCodeChanged].
      repeat split; try lia; try discriminate.
      * intros p Hp. destruct (error report); [apply in_app_iff; now left | exact Hp].
      * destruct (changed report); lia.
    + cbn. rewrite app_nil_r. repeat split; try lia.
      * intros p Hp. apply in_app_iff. now left.
      * intros _. apply in_app_iff. right. now left.
  - cbn. rewrite app_nil_r. repeat split; try lia.
    + intros p Hp. apply in_app_iff. now left.
    + intros _. apply in_app_iff. right. now left.
Qed.

Lemma normalizeLoop_list fileMap entities c :
  let c' := fold_left (normalizeEntity fileMap) entities c in
  cur_list c' = (cur_list c ++ omap (normalizedOf fileMap) entities)%list
  /\ totalEntitiesNormalized (cur_summary c')
     = (totalEntitiesNormalized (cur_summary c)
        + length (omap (normalizedOf fileMap) entities))%nat
  /\ (forall p, In p (filesSkippedNormalization (cur_summary c)) ->
                In p (filesSkippedNormalization (cur_summary c')))
  /\ (forall e, In e entities -> normalizedOf fileMap e = None ->
                In (canonicalPathOf e) (filesSkippedNormalization (cur_summary c')))
  /\ (totalCodeChanged (cur_summary c) <= totalEntitiesNormalized (cur_summary c) ->
      totalCodeChanged (cur_summary c') <= totalEntitiesNormalized (cur_summary c'))%nat.
Proof.
  cbv zeta. revert c. induction entities as [|e entities IH]; intros c.
  - cbn. rewrite app_nil_r. repeat split; try lia; try tauto.
  - cbn [fold_left].
    destruct (normalizeEntity_list fileMap c e) as (Hl & Ht & Hkeep & Hskip & Hle).
    destruct (IH (normalizeEntity fileMap c e)) as (Hl' & Ht' & Hkeep' & Hskip' & Hle').
    rewrite Hl', Ht', Hl, Ht.
    change (omap (normalizedOf fileMap) (e :: entities))
      with (match normalizedOf fileMap e with
            | Some n => n :: omap (normalizedOf fileMap) entities
            | None => omap (normalizedOf fileMap) entities
            end).
    destruct (normalizedOf fileMap e) as [n|] eqn:Hn.
    + rewrite <- List.app_assoc. cbn [app length]. repeat split; try lia; auto.
      intros e' [<-|Hin] Hnone; [congruence | now apply Hskip'].
    + rewrite app_nil_r. repeat split; try lia; auto.
      intros e' [<-|Hin] Hnone; [apply Hkeep', Hskip; reflexivity | now apply Hskip'].
Qed.

(** The four lists and the summary of a run, in closed form. *)
Lemma runNormalizeStep_lists (input : NormalizationInput) :
  let fileMap := NormalizeStep.buildOriginalAnalyzedFileMap (ni_analyzedWorkspaces input) in
  let out := runNormalizeStep input in
  no_components out = omap (normalizedOf fileMap) (ni_components input)
  /\ no_hooks out = omap (normalizedOf fileMap) (ni_hooks input)
  /\ no_contexts out = omap (normalizedOf fileMap) (ni_contexts input)
  /\ no_utilities out = omap (normalizedOf fileMap) (ni_utilities input)
  /\ totalEntitiesNormalized (normalizationSummary out)
     = (length (no_components out) + length (no_hooks out)
        + length (no_contexts out) + length (no_utilities out))%nat
  /\ (totalCodeChanged (normalizationSummary out)
      <= totalEntitiesNormalized (normalizationSummary out))%nat
  /\ (forall e, In e (processed input) -> normalizedOf fileMap e = None ->
                In (canonicalPathOf e)
                   (filesSkippedNormalization (normalizationSummary out))).
Proof.
  cbv zeta. unfold NormalizeStep.runNormalizeStep, NormalizeStep.processAndNormalizeEntityType.
  cbv zeta. set (fileMap := NormalizeStep.buildOriginalAnalyzedFileMap _).
  set (c0 := {| cur_list := []; cur_summary := _ |}).
  destruct (normalizeLoop_list fileMap (ni_components input) c0)
    as (Hl1 & Ht1 & Hk1 & Hs1 & Hc1).
  set (c1 := fold_left (normalizeEntity fileMap) (ni_components input) c0) in *.
  destruct (normalizeLoop_list fileMap (ni_hooks input)
              {| cur_list := []; cur_summary := cur_summary c1 |})
    as (Hl2 & Ht2 & Hk2 & Hs2 & Hc2).
  set (c2 := fold_left (normalizeEntity fileMap) (ni_hooks input) _) in *.
  destruct (normalizeLoop_list fileMap (ni_contexts input)
              {| cur_list := []; cur_summary := cur_summary c2 |})
    as (Hl3 & Ht3 & Hk3 & Hs3 & Hc3).
  set (c3 := fold_left (normalizeEntity fileMap) (ni_contexts input) _) in *.
  destruct (normalizeLoop_list fileMap (ni_utilities input)
              {| cur_list := []; cur_summary := cur_summary c3 |})
    as (Hl4 & Ht4 & Hk4 & Hs4 & Hc4).
  set (c4 := fold_left (normalizeEntity fileMap) (ni_utilities input) _) in *.
  cbn [cur_list cur_summary app] in *.
  cbn [no_components no_hooks no_contexts no_utilities normalizationSummary].
  split; [exact Hl1|]. split; [exact Hl2|]. split; [exact Hl3|]. split; [exact Hl4|].
  split; [|split].
  - rewrite Ht4, Ht3, Ht2, Ht1, Hl1, Hl2, Hl3, Hl4. cbn. lia.
  - apply Hc4, Hc3, Hc2, Hc1. cbn. lia.
  - intros e He Hnone. unfold processed in He.
    apply in_app_iff in He. destruct He as [He|He];
      [now apply Hk4, Hk3, Hk2, Hs1|].
    apply in_app_iff in He. destruct He as [He|He]; [now apply Hk4, Hk3, Hs2|].
    apply in_app_iff in He. destruct He as [He|He]; [now apply Hk4, Hs3 | now apply Hs4].
Qed.

(** X28.  The normalize step never throws.  Each of its
    four output lists holds, in input order, what it builds for the
    entities of that kind whose first original path has an analysis on
    record and whose file can be read, with the id, name and unified path
    of the entity; the summary counts exactly the entities of the four
    lists, counts changed code for no more than those, and lists the first
    original path of every entity it left out. *)
Theorem normalize_step_accounts (input : NormalizationInput) :
  let fileMap := NormalizeStep.buildOriginalAnalyzedFileMap (ni_analyzedWorkspaces input) in
  let out := runNormalizeStep input in
  no_components out = omap (normalizedOf fileMap) (ni_components input)
  /\ no_hooks out = omap (normalizedOf fileMap) (ni_hooks input)
  /\ no_contexts out = omap (normalizedOf fileMap) (ni_contexts input)
  /\ no_utilities out = omap (normalizedOf fileMap) (ni_utilities input)
  /\ totalEntitiesNormalized (normalizationSummary out)
     = (length (no_components out) + length (no_hooks out)
        + length (no_contexts out) + length (no_utilities out))%nat
  /\ (totalCodeChanged (normalizationSummary out)
      <= totalEntitiesNormalized (normalizationSummary out))%nat
  /\ (forall e, In e (processed input) -> normalizedOf fileMap e = None ->
                In (canonicalPathOf e)
                   (filesSkippedNormalization (normalizationSummary out))).
Proof. exact (runNormalizeStep_lists input). Qed.


(** *** The normalize step after the resolve step *)

(** An analysis found in the files of a workspace. *)
Lemma aggregate_invariant_from (P : Aggregation -> Prop) workspaces :
  P emptyAggregation ->
  (forall t k fa ag,
     (exists project, In project workspaces /\ In fa (map snd (analyzedFiles project))) ->
     P ag -> P (record t k fa ag)) ->
  P (aggregate workspaces).
Proof.
  intros Hempty Hrecord. unfold aggregate. apply fold_left_invariant; [exact Hempty|].
  intros ag project Hag Hproject. apply fold_left_invariant; [exact Hag|].
  intros ag' fa Hag' Hfa.
  assert (Hfrom : exists project, In project workspaces
                                  /\ In fa (map snd (analyzedFiles project)))
    by (exists project; now split).
  unfold aggregateFile. cbv zeta.
  repeat (apply fold_left_invariant;
          [| intros ? ? ? _;
             repeat match goal with
               | |- context [if ?b then _ else _] => destruct b
               end;
             first [assumption | now apply Hrecord]]).
  exact Hag'.
Qed.

Lemma aggregate_members workspaces t name analyses a :
  In (name, analyses) (groupsOf t (aggregate workspaces)) -> In a analyses ->
  exists project, In project workspaces /\ In a (map snd (analyzedFiles project)).
Proof.
  revert t name analyses a.
  apply (aggregate_invariant_from
           (fun ag => forall t name analyses a,
              In (name, analyses) (groupsOf t ag) -> In a analyses ->
              exists project, In project workspaces
                              /\ In a (map snd (analyzedFiles project)))).
  - intros t name analyses a Hin. now destruct t.
  - intros t0 k fa ag Hfa Hag t name analyses a Hin Ha.
    assert (Hadd : forall g, In (name, analyses) (addToGroup g k fa) ->
                     (forall l, In (name, l) g -> In a l ->
                        exists project, In project workspaces
                                        /\ In a (map snd (analyzedFiles project))) ->
                     exists project, In project workspaces
                                     /\ In a (map snd (analyzedFiles project))).
    { intros g Hg Hold. unfold addToGroup in Hg.
      apply OrderedMap_set_In in Hg. destruct Hg as [[-> ->]|Hg]; [|now apply (Hold analyses)].
      apply in_app_iff in Ha. destruct Ha as [Ha|[<-|[]]]; [|exact Hfa].
      destruct (OrderedMap.get g k) as [l|] eqn:Hget; [|destruct Ha].
      apply (Hold l); [now apply OrderedMap_get_Some_In | exact Ha]. }
    destruct t, t0; cbn [groupsOf record componentByName hookByName contextByName
                         utilityByName] in Hin;
      first [ apply (Hadd _ Hin); intros l Hl Hal;
              first [ exact (Hag Component name l a Hl Hal)
                    | exact (Hag Hook name l a Hl Hal)
                    | exact (Hag Context name l a Hl Hal)
                    | exact (Hag Utility name l a Hl Hal) ]
            | exact (Hag Component name analyses a Hin Ha)
            | exact (Hag Hook name analyses a Hin Ha)
            | exact (Hag Context name analyses a Hin Ha)
            | exact (Hag Utility name analyses a Hin Ha) ].
Qed.

(** After the resolve step the first original path of every merged entity
    is the recorded path of an analysed file. *)
Lemma merged_canonical_paths workspaces :
  exists out,
    runResolveAndMergeStep workspaces = Some out
    /\ forall e, In e (allMerged out) ->
         exists project a,
           In project workspaces /\ In a (map snd (analyzedFiles project))
           /\ canonicalPathOf e = Some (pathOf a).
Proof.
  destruct (run_invariant
              (fun st => forall e, In e (mergedOf st) ->
                 exists project a,
                   In project workspaces /\ In a (map snd (analyzedFiles project))
                   /\ canonicalPathOf e = Some (pathOf a))
              workspaces) as (out & st & Hrun & Hst & Hm & _).
  - intros e [].
  - intros t name analyses st0 st1 Hin Hold Hstep.
    apply process_cases in Hstep as (first & rest & d & -> & _ & _ & Hcase).
    destruct (canBeMerged d).
    + destruct Hcase as (e & Hfrom & Hmerged & _).
      intros x Hx. apply Hmerged in Hx as [Hx| ->]; [now apply Hold|].
      destruct (aggregate_members workspaces t name (first :: rest) first Hin)
        as (project & Hproject & Hfirst); [now left|].
      exists project, first. split; [exact Hproject|]. split; [exact Hfirst|].
      destruct Hfrom as (_ & _ & Hpaths & _). unfold canonicalPathOf. now rewrite Hpaths.
    + destruct Hcase as [Hmerged _]. intros x Hx. rewrite Hmerged in Hx. now apply Hold.
  - exists out. split; [exact Hrun|]. intros e He. rewrite Hm in He. now apply Hst.
Qed.

Lemma omap_all_some {X Y : Type} (f : X -> option Y) (g : X -> string) (h : Y -> string)
    (l : list X) :
  (forall x, In x l -> exists y, f x = Some y /\ h y = g x) ->
  map h (omap f l) = map g l.
Proof.
  induction l as [|x l IH]; intros H; [reflexivity|].
  change (omap f (x :: l))
    with (match f x with Some y => y :: omap f l | None => omap f l end).
  destruct (H x) as (y & -> & Hy); [now left|]. cbn [map]. rewrite Hy. f_equal.
  apply IH. intros x' Hx'. apply H. now right.
Qed.

(** X29.  When every analysed file is keyed by
    the relative path its analysis records, the entities that the resolve
    step merges all have an analysis on record for their first original
    path, so the normalize step that follows skips none of them for a
    missing analysis; if moreover every file can be read, the four
    normalized lists carry the ids of the four merged lists, in order, and
    the summary counts as many entities as the resolve step merged. *)
Theorem merged_entities_all_normalized (workspaces : list AnalyzedProject) :
  keyedByPath workspaces ->
  exists out,
    runResolveAndMergeStep workspaces = Some out
    /\ (forall e, In e (allMerged out) ->
          canonicalAnalysis (NormalizeStep.buildOriginalAnalyzedFileMap workspaces) e
          <> None)
    /\ ((forall path, readFileSync path <> None) ->
        let normalized := runNormalizeStep (inputOf workspaces out) in
        map nz_id (no_components normalized)
        = map (fun e => m_id (baseOf e)) (out_components out)
        /\ map nz_id (no_hooks normalized) = map (fun e => m_id (baseOf e)) (out_hooks out)
        /\ map nz_id (no_contexts normalized)
           = map (fun e => m_id (baseOf e)) (out_contexts out)
        /\ map nz_id (no_utilities normalized)
           = map (fun e => m_id (baseOf e)) (out_utilities out)
        /\ totalEntitiesNormalized (normalizationSummary normalized)
           = length (allMerged out)).
Proof.
  intros Hkeyed. destruct (merged_canonical_paths workspaces) as (out & Hrun & Hpaths).
  exists out. split; [exact Hrun|].
  assert (Hfound : forall e, In e (allMerged out) ->
            canonicalAnalysis (NormalizeStep.buildOriginalAnalyzedFileMap workspaces) e
            <> None).
  { intros e He. destruct (Hpaths e He) as (project & a & Hproject & Ha & Hcanon).
    unfold canonicalAnalysis. rewrite Hcanon.
    change (NormalizeStep.buildOriginalAnalyzedFileMap workspaces)
      with (MergeStep.buildOriginalAnalyzedFileMap workspaces).
    rewrite fileMap_lookup, lastAnalysis_None. intros Hnotin. apply Hnotin.
    apply in_map_iff in Ha. destruct Ha as (entry & <- & Hentry).
    apply in_map_iff. exists entry. split.
    - exact (Hkeyed project entry Hproject Hentry).
    - apply in_flat_map. now exists project. }
  split; [exact Hfound|]. intros Hread. cbv zeta.
  destruct (runNormalizeStep_lists (inputOf workspaces out))
    as (Hc & Hh & Hx & Hu & Htotal & _).
  cbv zeta in Hc, Hh, Hx, Hu, Htotal. cbn [inputOf ni_analyzedWorkspaces ni_components
    ni_hooks ni_contexts ni_utilities] in Hc, Hh, Hx, Hu.
  assert (Hsome : forall e, In e (allMerged out) ->
            exists n, normalizedOf (NormalizeStep.buildOriginalAnalyzedFileMap workspaces) e
                      = Some n /\ nz_id n = m_id (baseOf e)).
  { intros e He. unfold NormalizeStep.normalizedOf.
    destruct (canonicalAnalysis _ e) as [a|] eqn:Ha; [|now destruct (Hfound e He)].
    destruct (readFileSync (absolutePath (file a))) as [code|] eqn:Hcode;
      [|now destruct (Hread (absolutePath (file a)))].
    eexists. split; reflexivity. }
  assert (Hlist : forall l, (forall e, In e l -> In e (allMerged out)) ->
            map nz_id (omap (normalizedOf
                               (NormalizeStep.buildOriginalAnalyzedFileMap workspaces)) l)
            = map (fun e => m_id (baseOf e)) l).
  { intros l Hl. apply omap_all_some. intros e He. apply Hsome, Hl, He. }
  assert (Hcs : map nz_id (no_components (runNormalizeStep (inputOf workspaces out)))
                = map (fun e => m_id (baseOf e)) (out_components out)).
  { rewrite Hc. apply Hlist. intros e He. unfold allMerged. apply in_app_iff. now left. }
  assert (Hhs : map nz_id (no_hooks (runNormalizeStep (inputOf workspaces out)))
                = map (fun e => m_id (baseOf e)) (out_hooks out)).
  { rewrite Hh. apply Hlist. intros e He. unfold allMerged.
    apply in_app_iff. right. apply in_app_iff. now left. }
  assert (Hxs : map nz_id (no_contexts (runNormalizeStep (inputOf workspaces out)))
                = map (fun e => m_id (baseOf e)) (out_contexts out)).
  { rewrite Hx. apply Hlist. intros e He. unfold allMerged.
    apply in_app_iff. right. apply in_app_iff. right. apply in_app_iff. now left. }
  assert (Hus : map nz_id (no_utilities (runNormalizeStep (inputOf workspaces out)))
                = map (fun e => m_id (baseOf e)) (out_utilities out)).
  { rewrite Hu. apply Hlist. intros e He. unfold allMerged.
    apply in_app_iff. right. apply in_app_iff. right. apply in_app_iff. now right. }
  split; [exact Hcs|]. split; [exact Hhs|]. split; [exact Hxs|]. split; [exact Hus|].
  rewrite Htotal.
  rewrite <- (length_map nz_id (no_components _)), <- (length_map nz_id (no_hooks _)),
    <- (length_map nz_id (no_contexts _)), <- (length_map nz_id (no_utilities _)).
  rewrite Hcs, Hhs, Hxs, Hus. unfold allMerged. rewrite !length_app, !length_map. lia.
Qed.

End NormalizeFacts.

(** ** The further properties at sample inputs *)

Section MoreWitnesses.
Import JsString Analysis Conflict ResolveAndMergeStep NormalizeStep Fixtures.
Import Merger MergeStep.

(** Two hook profiles that differ only in the order of their entries
    compare equal. *)
Lemma compare_profiles_order_independent_witness :
  NoDup (map nc_name stateThenEffect)
  /\ NoDup (map nc_name effectThenState)
  /\ (compareNameCountProfiles stateThenEffect effectThenState = true
      <-> Permutation stateThenEffect effectThenState).
Proof.
  assert (H1 : NoDup (map nc_name stateThenEffect)).
  { cbn. repeat (apply NoDup_cons; split;
                 [rewrite ?list_elem_of_In; cbn; intuition discriminate|]).
    apply NoDup_nil_2. }
  assert (H2 : NoDup (map nc_name effectThenState)).
  { cbn. repeat (apply NoDup_cons; split;
                 [rewrite ?list_elem_of_In; cbn; intuition discriminate|]).
    apply NoDup_nil_2. }
  split; [exact H1|]. split; [exact H2|].
  exact (compare_profiles_order_independent stateThenEffect effectThenState H1 H2).
Defined.

(** A project whose only file exports [useAuth] and calls [useState]: the
    hook is not grouped. *)
Lemma hooks_never_grouped_witness :
  exportsAreIdentifiers authProject
  /\ (hookByName (aggregate authProject) = []
      /\ exists out, runResolveAndMergeStep authProject = Some out /\ out_hooks out = []).
Proof.
  assert (H : exportsAreIdentifiers authProject).
  { intros project entry e [<-|[]] [<-|[]] [<-|[]]. reflexivity. }
  split; [exact H|]. exact (hooks_never_grouped authProject H).
Defined.

(** Two role-less copies of [formatDate] of different lengths: mergeable,
    with warnings only. *)
Lemma role_free_groups_merge_witness :
  (forall a, In a [plainDateIn "/p1" 8; plainDateIn "/p2" 40] ->
             inferredRole (file a) = None)
  /\ Utility <> Component
  /\ exists d,
       detectConflictsForEntity "formatDate" [plainDateIn "/p1" 8; plainDateIn "/p2" 40]
         Utility = Some d
       /\ canBeMerged d = true
       /\ forall c, In c (conflicts d) -> severity c = SevWarning.
Proof.
  assert (H1 : forall a, In a [plainDateIn "/p1" 8; plainDateIn "/p2" 40] ->
                         inferredRole (file a) = None).
  { intros a [<-|[<-|[]]]; reflexivity. }
  assert (H2 : Utility <> Component) by discriminate.
  split; [exact H1|]. split; [exact H2|].
  exact (role_free_groups_merge "formatDate" (plainDateIn "/p1" 8) [plainDateIn "/p2" 40]
           Utility H1 H2).
Defined.

(** Scenario B: the two copies of [formatDate] agree, so no conflict is
    reported. *)
Lemma identical_copies_merge_witness :
  (forall a, In a [formatDateIn "/p2"] -> agreesWith (formatDateIn "/p1") a)
  /\ detectConflictsForEntity "formatDate" [formatDateIn "/p1"; formatDateIn "/p2"] Utility
     = Some {| conflicts := []; canBeMerged := true |}.
Proof.
  assert (H : forall a, In a [formatDateIn "/p2"] -> agreesWith (formatDateIn "/p1") a).
  { intros a [<-|[]]. repeat split. }
  split; [exact H|].
  exact (identical_copies_merge "formatDate" (formatDateIn "/p1") [formatDateIn "/p2"]
           Utility H).
Defined.

(** Scenario B through the resolve and normalize steps, with files that
    can all be read. *)
Lemma merged_entities_all_normalized_witness :
  keyedByPath twoFormatDates
  /\ exists out,
       runResolveAndMergeStep twoFormatDates = Some out
       /\ (forall e, In e (allMerged out) ->
             canonicalAnalysis (NormalizeStep.buildOriginalAnalyzedFileMap twoFormatDates) e
             <> None)
       /\ ((forall path, everyFile path <> None) ->
           let normalized :=
             runNormalizeStep textParse textUnchanged textUnchanged textUnchanged
               textGenerate everyFile (inputOf twoFormatDates out) in
           map nz_id (no_components normalized)
           = map (fun e => m_id (baseOf e)) (out_components out)
           /\ map nz_id (no_hooks normalized)
              = map (fun e => m_id (baseOf e)) (out_hooks out)
           /\ map nz_id (no_contexts normalized)
              = map (fun e => m_id (baseOf e)) (out_contexts out)
           /\ map nz_id (no_utilities normalized)
              = map (fun e => m_id (baseOf e)) (out_utilities out)
           /\ totalEntitiesNormalized (normalizationSummary normalized)
              = length (allMerged out)).
Proof.
  assert (H : keyedByPath twoFormatDates).
  { intros project entry [<-|[<-|[]]] [<-|[]]; reflexivity. }
  split; [exact H|].
  exact (merged_entities_all_normalized textParse textUnchanged textUnchanged
           textUnchanged textGenerate everyFile twoFormatDates H).
Defined.

(** [Button] as the normalize step builds it, handed to the merge step with
    an empty report: the step does not throw and [deepSmartMerge] is called
    for the one group. *)
Lemma deep_merge_called_per_open_group_witness :
  stepThrows quietButtons = false
  /\ exists out,
       Pipeline.runMergeStep textParse textPrint textPrint textPlaceholder quietButtons
       = Some out
       /\ deepMergeCalls out = ["merged/components/button.ts"].
Proof.
  assert (H : stepThrows quietButtons = false) by reflexivity.
  split; [exact H|].
  destruct (deep_merge_called_per_open_group textPlaceholder
              (deepSmartMerge textParse textPrint textPrint textPlaceholder)
              quietButtons H) as (out & Hrun & Hcalls & _).
  exists out. split; [exact Hrun|]. rewrite Hcalls. reflexivity.
Defined.

(** A group of one whose analysis is not on record: the merge fails, and
    the entity returned has status [error]. *)
Lemma deep_merge_status_witness :
  forallb carriesPaths [strayEntity "gone/1.ts"] = true
  /\ mergeFails textParse textPrint dateFileMap (strayEntity "gone/1.ts") [] = true
  /\ exists r,
       deepSmartMerge textParse textPrint textPrint textPlaceholder "formatDate"
         [strayEntity "gone/1.ts"] dateFileMap [] = Returned (Some r)
       /\ me_status r = StError
       /\ me_mergeStrategyUsed r = Some StrategyError
       /\ me_resolvedConflicts r = None
       /\ me_mergedFromCount r = 1%nat.
Proof.
  assert (H : forallb carriesPaths [strayEntity "gone/1.ts"] = true) by reflexivity.
  split; [exact H|]. split; [vm_compute; reflexivity|].
  exact (deep_merge_status textParse textPrint textPrint textPlaceholder "formatDate"
           (strayEntity "gone/1.ts") [] dateFileMap [] H).
Defined.

(** [Button] as the normalize step builds it, handed to the merge step with
    an empty report: the group has a member without original paths, and
    its final entity is the mark of a failed merge. *)
Lemma pipeline_results_follow_groups_witness :
  stepThrows quietButtons = false
  /\ exists out,
       Pipeline.runMergeStep textParse textPrint textPrint textPlaceholder quietButtons
       = Some out
       /\ Forall2 (describes (in_mergeConflicts quietButtons))
            (groupsInOrder (entitiesOf quietButtons)) (finalMergedEntities out)
       /\ Forall2 (failsFor (in_mergeConflicts quietButtons))
            (groupsInOrder (entitiesOf quietButtons)) (finalMergedEntities out)
       /\ map me_id (finalMergedEntities out) = ["merged/components/button.ts"]
       /\ totalSkippedDueToConflicts (mergeSummary out) = 0%nat.
Proof.
  assert (H : stepThrows quietButtons = false) by reflexivity.
  split; [exact H|].
  destruct (pipeline_results_follow_groups textParse textPrint textPrint textPlaceholder
              quietButtons H) as (out & Hrun & Hdesc & Hfails & Hids & Hskipped).
  exists out. split; [exact Hrun|]. split; [exact Hdesc|]. split; [exact Hfails|].
  split; [rewrite Hids; reflexivity | rewrite Hskipped; reflexivity].
Defined.

End MoreWitnesses.

